(* ===== verification/_CoqProject ===== *)
-Q . S2P
Prelude.v
Wire.v
Sha256.v
SbftTypes.v
SbftMerkle.v
SbftXset.v
SbftXsetProofs.v
Sbft.v
SbftFrame.v
SbftInv.v
SbftHandlers.v
SbftView.v
SbftEvents.v
SbftTrace.v
SbftSystem.v
SbftSim.v
SbftClaims.v
OrdererTypes.v
Cauthdsl.v
ConfigTx.v
ConfigTxProofs.v
RawLedger.v
RawLedgerProofs.v
BlockCutter.v
BlockCutterProofs.v
Deliver.v
OrdererMain.v
OrdererSim.v
Kafka.v
KafkaProofs.v
Varint.v
RWSet.v
LedgerUtil.v
LevelDB.v
PeerTypes.v
TxMgr.v
TxMgrProofs.v
Mvcc.v
PeerSim.v
SerBlock2.v
BlockFiles.v
BlockIndex.v
BlockStore.v
BlockStoreProofs.v
BlockRecovery.v
BlockClaims.v
PeerTx.v
PeerTxProofs.v
PeerTxSim.v
KVLedger.v
KVLedgerProofs.v
Fsm.v
CcTypes.v
CcHandler.v
CcConfined.v
CcLockSim.v
CcShim.v
CcStream.v
CcStreamProofs.v
CcBehaviour.v
ShimTable.v
ShimTableProofs.v
Lccc.v
LcccProofs.v
ShimTableSim.v
CcSupport.v
CcExec.v
CcSim.v
Endorser.v
EndorserProofs.v
EndorserSim.v
VmController.v
GossipStore.v
GossipStoreProofs.v
Pull.v
Discovery.v
DiscoveryProofs.v
GossipState.v
Gossip.v
GossipSim.v
