(* ===== verification/Prelude.v ===== *)
(** * Verification of Hyperledger Fabric (Go, late-2016 tree)

    ** The program

    Clients send proposals to peers.  A peer's endorser runs the proposed
    chaincode on a simulator of its ledger and signs what the simulation read
    and wrote; the client puts the answers of several endorsers into a
    transaction and sends it to the ordering service.  The orderer filters
    messages, puts them in one order, cuts them into blocks and delivers the
    blocks.  Every peer validates the transactions of a block, stores the block
    and writes the effects of its valid transactions.  A chaincode is a process
    of its own that talks to its peer over a stream.  A Byzantine fault
    tolerant protocol, simplebft, can do the ordering.  Peers find each other,
    spread blocks and fetch missing ones by gossip.

    ** Files

    Shared.  This file: machine integers, bytes, slices, the result type and
    the state monad, its total ([wp]) and partial ([pc]) reasoning rules, and
    decimal numerals.  Wire.v: an executable encoding the concrete environments
    are built from.  Sha256.v: SHA-256, base64 and hexadecimal of Go's library.

    Consensus, orderer/sbft/simplebft.  SbftTypes.v: simplebft.proto, the
    [SBFT] struct and the System interface.  SbftMerkle.v: crypto.go.
    SbftXset.v: batch.go, xset.go and the quorums.  Sbft.v: the handlers of
    preprepare.go, prepare.go, commit.go, execute.go, checkpoint.go,
    viewchange.go, newview.go, connection.go, backlog.go, request.go and
    simplebft.go, one definition per method.  SbftSystem.v: a network of
    replicas of which some are Byzantine.  Proofs: SbftXsetProofs.v (view
    change), SbftFrame.v, SbftInv.v, SbftHandlers.v, SbftView.v, SbftEvents.v
    (the invariant of a replica through every handler and the backlog loop),
    SbftTrace.v, SbftClaims.v; SbftSim.v runs four replicas.

    Orderer.  OrdererTypes.v: the messages of protos/common and
    protos/orderer.  Cauthdsl.v: orderer/common/cauthdsl and policies.
    ConfigTx.v: orderer/common/configtx.  RawLedger.v: orderer/rawledger with
    ramledger and fileledger.  BlockCutter.v: broadcastfilter, blockcutter,
    broadcast and orderer/solo.  Deliver.v: orderer/common/deliver.
    OrdererMain.v: the start-up in orderer/main.go.  Proofs: ConfigTxProofs.v,
    RawLedgerProofs.v, BlockCutterProofs.v; OrdererSim.v runs the parts.
    Kafka.v: orderer/kafka, the other orderer; KafkaProofs.v: its proofs and a
    topic.

    Ledger of the peer.  Varint.v: the protobuf buffer.  RWSet.v:
    txmgmt/rwset.go.  LedgerUtil.v, LevelDB.v: core/ledger/util.  TxMgr.v:
    lockbasedtxmgmt.  SerBlock2.v: protos/peer/ser_block2.go.  BlockFiles.v,
    BlockIndex.v, BlockStore.v: blkstorage/fsblkstorage.  KVLedger.v:
    kv_ledger.go, the committer and its deliver client.  Proofs:
    TxMgrProofs.v, Mvcc.v, BlockStoreProofs.v, BlockRecovery.v, BlockClaims.v,
    KVLedgerProofs.v; PeerSim.v has an encoding and a run.

    Transactions.  PeerTypes.v: the messages of protos/peer.  PeerTx.v:
    protos/utils, core/peer/msgvalidation.go and the system chaincodes escc and
    vscc.  PeerTxProofs.v, PeerTxSim.v: proofs and a run.

    Chaincodes.  Fsm.v: the state machines of vendor/github.com/looplab/fsm.
    CcTypes.v: the messages and the simulator interface.  CcHandler.v: the
    peer's end of a stream, core/chaincode/handler.go.  CcShim.v: the
    chaincode's end, core/chaincode/shim/handler.go and chatWithPeer.
    CcStream.v: both ends and the messages in flight.  ShimTable.v: the tables
    of shim/chaincode.go.  Lccc.v: lccc.go.  CcSupport.v: chaincode_support.go,
    exectransaction.go and chaincodeexec.go.  Endorser.v: core/endorser.
    VmController.v: the locks of core/container/controller.go.  Proofs:
    CcConfined.v, CcLockSim.v, CcStreamProofs.v, CcBehaviour.v,
    ShimTableProofs.v, LcccProofs.v, CcExec.v, EndorserProofs.v; CcSim.v,
    ShimTableSim.v and EndorserSim.v are concrete.

    Gossip.  GossipStore.v: the messages and which of two makes the other
    obsolete (gossip/proto), the message store (gossip/gossip/msgs.go) and the
    emitter (batcher.go).  Pull.v: the pull
    engine, gossip/gossip/algo.  Discovery.v: the membership,
    gossip/discovery.  GossipState.v: the transfer of blocks, gossip/state.
    Gossip.v: the service that puts the parts together,
    gossip/gossip/gossip_impl.go, and gossip/comm/demux.go.  Pull.v,
    GossipState.v and Gossip.v hold their proofs too; the others are
    GossipStoreProofs.v and DiscoveryProofs.v.  GossipSim.v makes the ledger
    the committer of the state transfer and runs the parts.

    ** How the code is modelled

    A struct is a record, an enumeration an inductive type (or its integer
    where the code meets undeclared values), a map a [gmap], a method that
    changes its receiver a definition in the state monad [M].  A nil
    dereference, an index out of range, an explicit panic and log.Fatal are
    [Panic]; an error return is a value.  A nil and an empty slice are kept
    apart where the code can tell them apart ([slice] is an optional byte
    string).  Integers wrap around where the source computes with a fixed
    width.  Logging has no counterpart.

    Goroutines are modelled by steps: what a goroutine does between two points
    at which it waits or gives up a lock is one step, and theorems range over
    every list of steps, that is over every interleaving.  This holds of the
    network of replicas, the deliver loop, the solo consenter, both ends of a
    chaincode stream, the Kafka orderer, the container locks, the membership and the state
    transfer.  In Gossip.v a handler is one step, and the steps of the
    discovery and of the other goroutines run in between.  In CcSupport.v and Endorser.v
    other goroutines run during the operations of an interface, whose laws say
    what they keep.

    Go pointers that are shared are identifiers into a store: simulators of a
    handler ([positive] into the map of the world), locks of containers,
    handlers in the table of running chaincodes.  Messages are values, since no
    part modelled here changes one after it has been handed on, with two
    exceptions: the configuration envelope that retrieveConfiguration decodes
    into is modelled as the in-place update it is; and a membership answer of
    the discovery shares its array with the membership, where the model makes
    and sends the answer in one step.

    Code outside the tree is a class whose laws are its documented behaviour,
    and every theorem that uses one has a run on a concrete instance: protobuf
    ([Proto], with the round trip for canonical messages), LevelDB, the file
    system (any operation may fail, a write may be partial), identities and
    signatures of the msp package, Kafka's log ([Kafka]), the clock and container runtime
    ([Runtime]), configuration ([Viper]).  Interfaces between parts of the
    program are classes too, instantiated by the parts: [RawLedger], [Handler]
    of configtx, [TxSimulator], [ChaincodeStubInterface], the block store of a
    ledger, [Runtime] by the stream of CcExec.v, [Committer] by the ledger.

    ** Fuel and bounds

    The only fuel in the handlers is that of simplebft's backlog loop, one more
    than the messages stored, shown enough in SbftHandlers.v (C27).  The start-up
    and the streams of the block store take fuel; more than the stored blocks
    and files together is enough, and the theorems hold for any such fuel.  The
    list of missing blocks takes more fuel than there are missing blocks; for
    the greatest number the loop does not end, which is a lemma.  A loop that
    draws random numbers takes a list of draws and is [OutOfFuel] when the list
    ends first.  [decimal] takes 20 digits, enough for 64 bits.
    [maxRangeQueryStateLimit] is the code's.  All other recursion is
    structural.  A wait that nothing ends is [OutOfFuel].

    ** What the theorems show

    Consensus (C1, C2, C26 to C28, C34, C38): within a view correct replicas
    agree, a view change keeps what may have been committed, commits do not
    equivocate, delivered batches carry signatures, events end, backlogs stay
    bounded, Merkle roots bind.

    Ordering (C17, C18, C29 to C31, C35 to C37, C40): no message is lost, duplicated or
    reordered from the accepted stream to the blocks of any ledger and on to
    each client; configuration changes are authorised and atomic; policies mean
    what they say; the blocks of a ledger form a hash chain.  The Kafka orderer
    writes one chain with every message it has answered, and serves each client
    consecutive blocks of it.  Further theorems
    of RawLedgerProofs.v and ConfigTxProofs.v: ledgers survive restarts, and a
    bootstrap configuration cannot be changed.

    Ledger (C3, C6, C9, C16, C23, C32, C33): the committed state is that
    of running the valid transactions one after the other; blocks are found
    again by every index, after every failure and crash; encodings are
    inverted.  The deliver client does not stall
    ([client_keeps_window_open]).

    Transactions (C4, C5, C20): an endorsed proposal becomes a transaction
    that every peer accepts, from the client's call through ProcessProposal of
    the endorsers to the validation of the committer; an accepted transaction
    is the one endorsed; no simulator stays open.

    Chaincodes (C7, C8, C10, C11, C19, C21, C22, C39): whatever a
    chaincode sends, it touches only its own namespace of simulators handed to
    it; a call over the stream, in every interleaving, is the direct run of the
    chaincode's program; deployed chaincodes form a registry; rows of tables
    are kept apart; a failed launch can be repeated; containers are used by one
    request at a time.

    Gossip (C12 to C15, C24, C25): blocks are committed in order and once,
    whatever arrives, and no wake-up is lost; a peer behind another catches up
    in one round; the membership stays consistent in every interleaving and
    times do not go back; subscribers get every block once; a pull round gets
    what the peers that answer hold; the store keeps what is newest.

    Where the code departs from its intent the departure is a theorem as well:
    SbftClaims.v (module [Departures]), CcBehaviour.v and lemmas beside the
    component concerned.

    ** Not modelled

    The connections of gossip (gossip/comm but for the demultiplexer), the
    connections of the Kafka orderer, the CouchDB transaction manager and the network, disk and
    TLS plumbing of the sbft back end.  The implementations
    of identities and cryptography (msp, bccsp, core/crypto): wrappers over the
    standard library.  Docker and in-process containers, chaincode platforms
    and the Java shim.  Command line, configuration loading and gRPC services.
    Generated protobuf code.  Of the chaincode stub: attributes, certificates,
    events, logging and the paging iterator. *)

From stdpp Require Import base numbers strings sorting gmap list.
From Stdlib Require Import Strings.Byte.

Global Set Default Goal Selector "!".

(** ** Machine integers

    Go's fixed-width integers are modelled by [Z] with the wrap-around written
    where the source computes. *)
Definition u64 (z : Z) : Z := (z `mod` 2 ^ 64)%Z.
Definition i64 (z : Z) : Z := ((z + 2 ^ 63) `mod` 2 ^ 64 - 2 ^ 63)%Z.
Definition i32 (z : Z) : Z := ((z + 2 ^ 31) `mod` 2 ^ 32 - 2 ^ 31)%Z.
Definition u64_max : Z := (2 ^ 64 - 1)%Z.

Lemma u64_small z : (0 ≤ z < 2 ^ 64)%Z → u64 z = z.
Proof. intros H. unfold u64. by apply Z.mod_small. Qed.

Lemma u64_range z : (0 ≤ u64 z < 2 ^ 64)%Z.
Proof. unfold u64. apply Z.mod_pos_bound. lia. Qed.

Lemma i64_small z : (- 2 ^ 63 ≤ z < 2 ^ 63)%Z → i64 z = z.
Proof. intros H. unfold i64. rewrite Z.mod_small; lia. Qed.

Lemma i32_small z : (- 2 ^ 31 ≤ z < 2 ^ 31)%Z → i32 z = z.
Proof. intros H. unfold i32. rewrite Z.mod_small; lia. Qed.

(** ** Bytes and Go byte slices *)
Abbreviation byte := Byte.byte.
Abbreviation bytes := (list byte).

#[global] Instance byte_eq_dec : EqDecision byte := Byte.byte_eq_dec.
#[global] Instance byte_countable : Countable byte :=
  inj_countable Byte.to_N Byte.of_N Byte.of_to_N.

Definition byte_of_Z (z : Z) : byte :=
  default x00 (Byte.of_N (Z.to_N (z `mod` 256)%Z)).
Definition Z_of_byte (b : byte) : Z := Z.of_N (Byte.to_N b).

Lemma Z_of_byte_range b : (0 ≤ Z_of_byte b < 256)%Z.
Proof. unfold Z_of_byte. pose proof (Byte.to_N_bounded b). lia. Qed.

Lemma byte_of_Z_of_byte b : byte_of_Z (Z_of_byte b) = b.
Proof.
  unfold byte_of_Z. rewrite Z.mod_small by apply Z_of_byte_range.
  unfold Z_of_byte. by rewrite N2Z.id, Byte.of_to_N.
Qed.

Lemma Z_of_byte_of_Z z : Z_of_byte (byte_of_Z z) = (z `mod` 256)%Z.
Proof.
  unfold byte_of_Z, Z_of_byte.
  pose proof (Z.mod_pos_bound z 256 ltac:(lia)) as Hb.
  destruct (Byte.of_N _) as [b|] eqn:E; simpl.
  - apply Byte.to_of_N in E. rewrite E. lia.
  - apply Byte.of_N_None_iff in E. lia.
Qed.

#[global] Instance Z_of_byte_inj : Inj (=) (=) Z_of_byte.
Proof. intros a b H. rewrite <-(byte_of_Z_of_byte a), H. apply byte_of_Z_of_byte. Qed.

Definition bytes_of_string (s : string) : bytes := String.list_byte_of_string s.

(** A Go [[]byte] whose nil-ness the code observes: [None] is the nil slice.
    [reflect.DeepEqual] distinguishes nil from empty, [bytes.Equal] does not. *)
Abbreviation slice := (option bytes).
Definition sl (o : slice) : bytes := default [] o.
Definition bytes_Equal (a b : slice) : bool := bool_decide (sl a = sl b).

Lemma bytes_Equal_true a b : bytes_Equal a b = true ↔ sl a = sl b.
Proof. apply bool_decide_eq_true. Qed.

(** ** Outcomes of Go code

    [Ok] is a normal return, [Panic] an abort (nil dereference, index out of
    range, explicit [panic] or [log.Fatalf]), [OutOfFuel] the artefact of a
    fuel-bounded loop; theorems show that the fuel supplied is enough. *)
Inductive res (A : Type) : Type :=
  | Ok (a : A)
  | Panic
  | OutOfFuel.
Arguments Ok {A} a.
Arguments Panic {A}.
Arguments OutOfFuel {A}.

#[global] Instance res_ret : MRet res := @Ok.
#[global] Instance res_bind : MBind res := λ A B f m,
  match m with Ok a => f a | Panic => Panic | OutOfFuel => OutOfFuel end.

(** Dereference of a pointer that may be nil. *)
Definition deref {A} (o : option A) : res A :=
  match o with Some a => Ok a | None => Panic end.

Lemma deref_Ok {A} (o : option A) a : deref o = Ok a ↔ o = Some a.
Proof. destruct o; simpl; split; congruence. Qed.

Lemma res_bind_Ok {A B} (m : res A) (f : A → res B) b :
  (m ≫= f) = Ok b ↔ ∃ a, m = Ok a ∧ f a = Ok b.
Proof.
  destruct m; simpl; split; try (intros (? & ? & ?)); try discriminate.
  - eauto.
  - congruence.
Qed.

(** A computation that does not run out of fuel. *)
Definition terminates {A} (r : res A) : Prop :=
  match r with OutOfFuel => False | _ => True end.

Lemma terminates_bind {A B} (m : res A) (f : A → res B) :
  terminates m → (∀ a, m = Ok a → terminates (f a)) → terminates (m ≫= f).
Proof. destruct m; simpl; auto. Qed.
Lemma terminates_deref {A} (o : option A) : terminates (deref o).
Proof. by destruct o. Qed.
Lemma terminates_Ok {A} (a : A) : terminates (Ok a).
Proof. done. Qed.

Create HintDb gofuel.
#[export] Hint Resolve terminates_deref terminates_Ok : gofuel.

(** Termination of loop-free result computations. *)
Ltac solve_terminates :=
  repeat first
    [ progress intros
    | apply terminates_bind
    | solve [eauto with gofuel]
    | done
    | case_match ].

(** ** Stateful Go code: a state monad over [res] *)
Definition M (S A : Type) : Type := S → res (A * S).

Section monad.
Context {S : Type}.

#[global] Instance M_ret : MRet (M S) := λ A a s, Ok (a, s).
#[global] Instance M_bind : MBind (M S) := λ A B f m s,
  match m s with
  | Ok (a, s') => f a s'
  | Panic => Panic
  | OutOfFuel => OutOfFuel
  end.

Definition get : M S S := λ s, Ok (s, s).
Definition gets {A} (f : S → A) : M S A := λ s, Ok (f s, s).
Definition modify (f : S → S) : M S unit := λ s, Ok (tt, f s).
Definition lift {A} (r : res A) : M S A := λ s,
  match r with Ok a => Ok (a, s) | Panic => Panic | OutOfFuel => OutOfFuel end.
Definition go_panic {A} : M S A := λ _, Panic.
Definition out_of_fuel {A} : M S A := λ _, OutOfFuel.

(** [for _, x := range l { f x }] for a body without early exit. *)
Fixpoint for_each {A} (l : list A) (f : A → M S unit) : M S unit :=
  match l with
  | [] => mret tt
  | x :: l => _ ← f x; for_each l f
  end.

(** Weakest precondition: the code does not run out of fuel, and [Q] holds
    of the result and the state of every normal return. *)
Definition wp {A} (m : M S A) (Q : A → S → Prop) (s : S) : Prop :=
  match m s with Ok (a, s') => Q a s' | Panic => True | OutOfFuel => False end.

Lemma wp_intro {A} (m : M S A) Q s :
  wp m Q s → ∀ a s', m s = Ok (a, s') → Q a s'.
Proof. unfold wp. intros H a s' E. by rewrite E in H. Qed.
Lemma wp_terminates {A} (m : M S A) Q s : wp m Q s → m s ≠ OutOfFuel.
Proof. unfold wp. intros H E. by rewrite E in H. Qed.

Lemma wp_ret {A} (a : A) Q s : Q a s → wp (mret a) Q s.
Proof. done. Qed.
Lemma wp_bind {A B} (m : M S A) (f : A → M S B) Q s :
  wp m (λ a s', wp (f a) Q s') s → wp (m ≫= f) Q s.
Proof. unfold wp, mbind, M_bind. destruct (m s) as [[a s']| |]; done. Qed.
Lemma wp_get Q s : Q s s → wp get Q s.
Proof. done. Qed.
Lemma wp_gets {A} (f : S → A) Q s : Q (f s) s → wp (gets f) Q s.
Proof. done. Qed.
Lemma wp_modify f Q s : Q tt (f s) → wp (modify f) Q s.
Proof. done. Qed.
Lemma wp_lift {A} (r : res A) Q s :
  terminates r → (∀ a, r = Ok a → Q a s) → wp (lift r) Q s.
Proof. unfold wp, lift. intros Ht H. destruct r; [by apply H|done|done]. Qed.
Lemma wp_panic {A} (Q : A → S → Prop) s : wp go_panic Q s.
Proof. done. Qed.
Lemma wp_mono {A} (m : M S A) (Q Q' : A → S → Prop) s :
  wp m Q s → (∀ a s', Q a s' → Q' a s') → wp m Q' s.
Proof. unfold wp. destruct (m s) as [[a s']| |]; auto. Qed.
Lemma wp_and {A} (m : M S A) (Q Q' : A → S → Prop) s :
  wp m Q s → wp m Q' s → wp m (λ a s', Q a s' ∧ Q' a s') s.
Proof. unfold wp. destruct (m s) as [[a s']| |]; auto. Qed.

(** A loop preserves what its body preserves. *)
Lemma wp_for_each {A} (l : list A) (f : A → M S unit) (I : S → Prop) s :
  I s → (∀ x s, x ∈ l → I s → wp (f x) (λ _, I) s) →
  wp (for_each l f) (λ _, I) s.
Proof.
  revert s. induction l as [|x l IH]; intros s Hs Hf; simpl.
  { by apply wp_ret. }
  apply wp_bind. eapply wp_mono; [apply Hf; [set_solver|done]|].
  intros ? s' Hs'. apply IH; [done|]. intros y s0 Hy. apply Hf. set_solver.
Qed.

(** Partial correctness: [Q] holds of every normal return; the code may block. *)
Definition pc {A} (m : M S A) (Q : A → S → Prop) (s : S) : Prop :=
  match m s with Ok (a, s') => Q a s' | _ => True end.

Lemma pc_intro {A} (m : M S A) Q s a s' : pc m Q s → m s = Ok (a, s') → Q a s'.
Proof. unfold pc. intros H E. by rewrite E in H. Qed.
Lemma pc_ret {A} (a : A) Q s : Q a s → pc (mret a) Q s.
Proof. done. Qed.
Lemma pc_bind {A B} (m : M S A) (f : A → M S B) Q s :
  pc m (λ a s', pc (f a) Q s') s → pc (m ≫= f) Q s.
Proof. unfold pc, mbind, M_bind. destruct (m s) as [[a s']| |]; done. Qed.
Lemma pc_gets {A} (f : S → A) Q s : Q (f s) s → pc (gets f) Q s.
Proof. done. Qed.
Lemma pc_modify f Q s : Q tt (f s) → pc (modify f) Q s.
Proof. done. Qed.
Lemma pc_lift {A} (r : res A) Q s : (∀ a, r = Ok a → Q a s) → pc (lift r) Q s.
Proof. unfold pc, lift. intros H. destruct r; [by apply H|done|done]. Qed.
Lemma pc_panic {A} (Q : A → S → Prop) s : pc go_panic Q s.
Proof. done. Qed.
Lemma pc_out_of_fuel {A} (Q : A → S → Prop) s : pc out_of_fuel Q s.
Proof. done. Qed.
Lemma pc_mono {A} (m : M S A) (Q Q' : A → S → Prop) s :
  pc m Q s → (∀ a s', Q a s' → Q' a s') → pc m Q' s.
Proof. unfold pc. destruct (m s) as [[a s']| |]; auto. Qed.
End monad.

(** Running a bind whose first part is known to return. *)
Lemma bind_ok {St A B} (m : M St A) (f : A → M St B) w a w' : m w = Ok (a, w') → (m ≫= f) w = f a w'.
Proof. intros E. unfold mbind, M_bind. by rewrite E. Qed.

(** One symbolic step of a monadic program under [pc]. *)
Ltac pc_step :=
  match goal with
  | |- pc (let _ := _ in _) _ _ => progress cbv zeta
  | |- pc (mret _) _ _ => apply pc_ret
  | |- pc (mbind _ _) _ _ => apply pc_bind
  | |- pc (gets _) _ _ => apply pc_gets
  | |- pc (modify _) _ _ => apply pc_modify
  | |- pc go_panic _ _ => apply pc_panic
  | |- pc out_of_fuel _ _ => apply pc_out_of_fuel
  | |- pc (lift (deref ?o)) _ _ =>
      let a := fresh "a" in let E := fresh "E" in apply pc_lift; intros a E; apply deref_Ok in E
  | |- pc (lift _) _ _ => let a := fresh "a" in let E := fresh "E" in apply pc_lift; intros a E
  | |- pc (if ?b then _ else _) _ _ => let E := fresh "E" in destruct b eqn:E
  | |- pc (match ?b with _ => _ end) _ _ => let E := fresh "E" in destruct b eqn:E
  end.

(** One symbolic step of a monadic program under [wp]. *)
Ltac wp_step :=
  match goal with
  | |- wp (let _ := _ in _) _ _ => progress cbv zeta
  | |- wp (mret _) _ _ => apply wp_ret
  | |- wp (mbind _ _) _ _ => apply wp_bind
  | |- wp get _ _ => apply wp_get
  | |- wp (gets _) _ _ => apply wp_gets
  | |- wp (modify _) _ _ => apply wp_modify
  | |- wp go_panic _ _ => apply wp_panic
  | |- wp (lift (deref ?o)) _ _ =>
      let a := fresh "a" in let E := fresh "E" in
      apply wp_lift; [apply terminates_deref|intros a E; apply deref_Ok in E]
  | |- wp (lift _) _ _ =>
      let a := fresh "a" in let E := fresh "E" in
      apply wp_lift; [solve [eauto with gofuel]|intros a E]
  | |- wp (if ?b then _ else _) _ _ => let E := fresh "E" in destruct b eqn:E
  | |- wp (match ?b with _ => _ end) _ _ => let E := fresh "E" in destruct b eqn:E
  end.

(** [lia] on goals with division and remainder. *)
Ltac dlia := Z.to_euclidean_division_equations; lia.

(** ** Lists *)
Lemma sum_list_with_alter {A} (f : A → nat) (g : A → A) (l : list A) i x :
  l !! i = Some x →
  (sum_list_with f (alter g i l) + f x = sum_list_with f l + f (g x))%nat.
Proof.
  revert i. induction l as [|y l IH]; intros [|i] Hi; simplify_eq/=; [lia|].
  specialize (IH i Hi). lia.
Qed.

Lemma fmap_concat {A B} (f : A → B) (l : list (list A)) : fmap (M:=list) f (concat l) = concat (fmap (M:=list) (fmap (M:=list) f) l).
Proof. induction l as [|x l IH]; [done|]. csimpl. by rewrite fmap_app, IH. Qed.

Lemma list_alter_alter {A} (f g : A → A) i (l : list A) :
  alter f i (alter g i l) = alter (λ x, f (g x)) i l.
Proof. revert i. induction l as [|x l IH]; intros [|i]; csimpl; [done..|]. f_equal. apply IH. Qed.

Lemma length_list_alter {A} (g : A → A) (l : list A) i : length (alter g i l) = length l.
Proof. apply length_alter. Qed.

Create HintDb gopre.
#[export] Hint Resolve u64_range Z_of_byte_range : gopre.

(** ** Decimal numerals

    The text of an integer ([%d], [strconv.Itoa], [strconv.FormatInt]) and what
    it says of the integer. *)
Section decimal.
Local Open Scope Z_scope.

(** [%d] of a non-negative integer of at most 64 bits: 20 digits. *)
Fixpoint decimal (digits : nat) (n : Z) : bytes :=
  match digits with
  | O => []
  | S d => if bool_decide (n < 10) then [byte_of_Z (48 + n)]
           else decimal d (n / 10) ++ [byte_of_Z (48 + n `mod` 10)]
  end.
(** [strconv.FormatInt] of a 64-bit integer. *)
Definition FormatInt (n : Z) : bytes :=
  if bool_decide (n < 0) then x2d :: decimal 20 (- n) else decimal 20 n.

Definition decimal_value (l : bytes) : Z := fold_left (λ a x, a * 10 + (Z_of_byte x - 48)) l 0.

Lemma decimal_value_decimal d n : 0 ≤ n < 10 ^ Z.of_nat d → decimal_value (decimal d n) = n.
Proof.
  revert n. induction d as [|d IH]; intros n Hn; [simpl in *; unfold decimal_value; simpl; lia|].
  rewrite Nat2Z.inj_succ, Z.pow_succ_r in Hn by lia. cbn [decimal]. case_bool_decide.
  - unfold decimal_value. simpl. rewrite Z_of_byte_of_Z, Z.mod_small; lia.
  - unfold decimal_value in *. rewrite fold_left_app, IH.
    + simpl. pose proof (Z.mod_pos_bound n 10). rewrite Z_of_byte_of_Z, Z.mod_small by lia.
      pose proof (Z.div_mod n 10). lia.
    + split; [apply Z.div_pos; lia|]. apply Z.div_lt_upper_bound; lia.
Qed.

Lemma decimal_digits d n : 0 ≤ n → x3a ∉ decimal d n.
Proof.
  assert (∀ k, 0 ≤ k < 10 → x3a ≠ byte_of_Z (48 + k)) as Hk.
  { intros k Hk H. apply (f_equal Z_of_byte) in H. rewrite Z_of_byte_of_Z, Z.mod_small in H by lia.
    change (Z_of_byte x3a) with 58 in H. lia. }
  revert n. induction d as [|d IH]; intros n Hn; simpl; [apply not_elem_of_nil|].
  case_bool_decide; [rewrite list_elem_of_singleton; apply Hk; lia|].
  rewrite elem_of_app, list_elem_of_singleton. intros [H1|H1].
  - revert H1. apply IH. apply Z.div_pos; lia.
  - revert H1. apply Hk. apply Z.mod_pos_bound. lia.
Qed.

Lemma app_sep_inj {A} (x : A) a b a' b' :
  x ∉ a → x ∉ a' → a ++ x :: b = a' ++ x :: b' → a = a' ∧ b = b'.
Proof.
  revert a'. induction a as [|y a IH]; intros [|y' a'] Ha Ha' H; simpl in *; try (injection H; intros; subst).
  - done.
  - exfalso. apply Ha'. left.
  - exfalso. apply Ha. left.
  - rewrite not_elem_of_cons in Ha, Ha'. destruct (IH a') as [-> ->]; naive_solver.
Qed.
End decimal.
