(* ===== verification/Wire.v ===== *)
(** * An executable encoding

    Encoders and decoders of integers, byte strings, lists and options, with
    their round trips.  The concrete environments that the examples run in are
    built from them. *)

From Stdlib Require Import Strings.Byte.
From stdpp Require Import base numbers strings gmap list.
From S2P Require Import Prelude.
Local Open Scope Z_scope.

Definition parser (A : Type) : Type := bytes → option (A * bytes).

Fixpoint put_pos (p : positive) : bytes :=
  match p with xH => [x03] | xO p => x01 :: put_pos p | xI p => x02 :: put_pos p end.
Definition put_Z (z : Z) : bytes :=
  match z with Z0 => [x00] | Zpos p => x01 :: put_pos p | Zneg p => x02 :: put_pos p end.
Fixpoint put_bytes (l : bytes) : bytes :=
  match l with [] => [x00] | b :: l => x01 :: b :: put_bytes l end.
Fixpoint put_list {A} (put : A → bytes) (l : list A) : bytes :=
  match l with [] => [x00] | a :: l => x01 :: put a ++ put_list put l end.
Definition put_option {A} (put : A → bytes) (o : option A) : bytes :=
  match o with None => [x00] | Some a => x01 :: put a end.

Fixpoint get_pos (l : bytes) : option (positive * bytes) :=
  match l with
  | x03 :: l => Some (xH, l)
  | x01 :: l => '(p, l) ← get_pos l; Some (xO p, l)
  | x02 :: l => '(p, l) ← get_pos l; Some (xI p, l)
  | _ => None
  end.
Definition get_Z : parser Z := λ l,
  match l with
  | x00 :: l => Some (0, l)
  | x01 :: l => '(p, l) ← get_pos l; Some (Zpos p, l)
  | x02 :: l => '(p, l) ← get_pos l; Some (Zneg p, l)
  | _ => None
  end.
Fixpoint get_bytes (l : bytes) : option (bytes * bytes) :=
  match l with
  | x00 :: l => Some ([], l)
  | x01 :: b :: l => '(d, l) ← get_bytes l; Some (b :: d, l)
  | _ => None
  end.
Fixpoint get_list {A} (get : parser A) (fuel : nat) : parser (list A) := λ l,
  match l, fuel with
  | x00 :: l, _ => Some ([], l)
  | x01 :: l, S fuel => '(a, l) ← get l; '(r, l) ← get_list get fuel l; Some (a :: r, l)
  | _, _ => None
  end.
Definition get_option {A} (get : parser A) : parser (option A) := λ l,
  match l with
  | x00 :: l => Some (None, l)
  | x01 :: l => '(a, l) ← get l; Some (Some a, l)
  | _ => None
  end.

(** An empty byte field reads back as nil. *)
Definition nilable (d : bytes) : slice := match d with [] => None | _ => Some d end.
Definition put_slice (s : slice) : bytes := put_bytes (sl s).
Definition get_slice : parser slice := λ l, '(d, l) ← get_bytes l; Some (nilable d, l).

Lemma get_put_pos p l : get_pos (put_pos p ++ l) = Some (p, l).
Proof. revert l. induction p as [p IH|p IH|]; intros l; simpl; rewrite ?IH; done. Qed.
Lemma get_put_Z z l : get_Z (put_Z z ++ l) = Some (z, l).
Proof. destruct z as [|p|p]; simpl; rewrite ?get_put_pos; done. Qed.
Lemma get_put_bytes d l : get_bytes (put_bytes d ++ l) = Some (d, l).
Proof. revert l. induction d as [|b d IH]; intros l; simpl; rewrite ?IH; done. Qed.
Lemma get_put_slice s l : s ≠ Some [] → get_slice (put_slice s ++ l) = Some (s, l).
Proof.
  intros Hs. unfold get_slice, put_slice. rewrite get_put_bytes. simpl.
  by destruct s as [[|]|].
Qed.

Lemma get_put_option {A} (put : A → bytes) (get : parser A) o l :
  (∀ a l, get (put a ++ l) = Some (a, l)) → get_option get (put_option put o ++ l) = Some (o, l).
Proof. intros Hg. destruct o as [a|]; simpl; [|done]. by rewrite Hg. Qed.

Lemma get_put_list {A} (put : A → bytes) (get : parser A) xs fuel l :
  (∀ a l, get (put a ++ l) = Some (a, l)) → (length xs ≤ fuel)%nat →
  get_list get fuel (put_list put xs ++ l) = Some (xs, l).
Proof.
  intros Hg. revert fuel l. induction xs as [|x xs IH]; intros fuel l Hf; simpl in *.
  { by destruct fuel. }
  destruct fuel as [|fuel]; [lia|].
  rewrite <-app_assoc. cbn [get_list]. rewrite Hg. cbn.
  by rewrite IH by lia.
Qed.

Lemma length_put_list {A} (put : A → bytes) xs : (length xs ≤ length (put_list put xs))%nat.
Proof.
  induction xs as [|x xs IH]; simpl; [lia|]. rewrite length_app. lia.
Qed.

#[global] Arguments get_slice _ : simpl never.
#[global] Arguments put_slice _ : simpl never.
#[global] Arguments get_Z _ : simpl never.
#[global] Arguments put_Z _ : simpl never.
