(* ===== verification/Sha256.v ===== *)
(** * SHA-256 and the text encodings of digests

    The part of Go's standard library the consensus code computes with:
    [crypto/sha256.Sum256], [base64.RawStdEncoding.EncodeToString] and the
    [%x] verb of [fmt.Sprintf].  SHA-256 is FIPS 180-4, checked against its
    published test vectors. *)

From stdpp Require Import base numbers strings list.
From Stdlib Require Import Strings.Byte.
From S2P Require Import Prelude.
Local Open Scope Z_scope.

Module Sha.

Definition w32 (z : Z) : Z := Z.land z 4294967295.
Definition rotr (n x : Z) : Z :=
  w32 (Z.lor (Z.shiftr x n) (Z.shiftl x (32 - n))).
Definition not32 (x : Z) : Z := Z.lxor x 4294967295.
Definition ch (x y z : Z) : Z := Z.lxor (Z.land x y) (Z.land (not32 x) z).
Definition maj (x y z : Z) : Z :=
  Z.lxor (Z.lxor (Z.land x y) (Z.land x z)) (Z.land y z).
Definition bsig0 (x : Z) : Z := Z.lxor (Z.lxor (rotr 2 x) (rotr 13 x)) (rotr 22 x).
Definition bsig1 (x : Z) : Z := Z.lxor (Z.lxor (rotr 6 x) (rotr 11 x)) (rotr 25 x).
Definition ssig0 (x : Z) : Z := Z.lxor (Z.lxor (rotr 7 x) (rotr 18 x)) (Z.shiftr x 3).
Definition ssig1 (x : Z) : Z := Z.lxor (Z.lxor (rotr 17 x) (rotr 19 x)) (Z.shiftr x 10).

(** The constants are the first 32 bits of the fractional parts of the cube
    roots of the first 64 primes, and of the square roots of the first 8. *)
Definition primes : list Z :=
  List.filter (λ n, forallb (λ d, negb (bool_decide (n `mod` d = 0))) (seqZ 2 (Z.min (n - 2) 16)))
    (seqZ 2 310).

(** The largest [r] below [lo + 2 ^ bits] with [r ^ 3 <= n], by bisection. *)
Fixpoint cube_root (bits : nat) (lo n : Z) : Z :=
  match bits with
  | O => lo
  | S bits =>
      let mid := lo + 2 ^ Z.of_nat bits in
      cube_root bits (if bool_decide (mid ^ 3 <= n) then mid else lo) n
  end.

Definition K : list Z :=
  Eval vm_compute in (λ p, w32 (cube_root 40 0 (p * 2 ^ 96))) <$> take 64 primes.
Definition H0 : list Z :=
  Eval vm_compute in (λ p, w32 (Z.sqrt (p * 2 ^ 64))) <$> take 8 primes.

(** Big-endian encoding of [n] bytes. *)
Fixpoint be_bytes (n : nat) (z : Z) : bytes :=
  match n with
  | O => []
  | S n => byte_of_Z (Z.shiftr z (8 * Z.of_nat n)) :: be_bytes n z
  end.

Fixpoint be_words (l : bytes) : list Z :=
  match l with
  | a :: b :: c :: d :: t =>
      (Z_of_byte a * 16777216 + Z_of_byte b * 65536 + Z_of_byte c * 256 + Z_of_byte d)
        :: be_words t
  | _ => []
  end.

Definition pad (m : bytes) : bytes :=
  let l := Z.of_nat (length m) in
  m ++ [x80] ++ replicate (Z.to_nat ((55 - l) `mod` 64)) x00 ++ be_bytes 8 (8 * l).

(** The message schedule: 48 further words from a sliding window of 16. *)
Fixpoint schedule (n : nat) (w : list Z) : list Z :=
  match n with
  | O => w
  | S n =>
      match w with
      | [] => []
      | w0 :: t =>
          let at_ k := nth k w 0 in
          let new := w32 (ssig1 (at_ 14%nat) + at_ 9%nat + ssig0 (at_ 1%nat) + w0) in
          w0 :: schedule n (t ++ [new])
      end
  end.

Definition round (st : list Z) (kw : Z * Z) : list Z :=
  match st with
  | [a; b; c; d; e; f; g; h] =>
      let t1 := h + bsig1 e + ch e f g + kw.1 + kw.2 in
      let t2 := bsig0 a + maj a b c in
      [w32 (t1 + t2); a; b; c; w32 (d + t1); e; f; g]
  | _ => st
  end.

Definition compress (st : list Z) (block : list Z) : list Z :=
  zip_with (λ x y, w32 (x + y)) st
    (fold_left round (combine K (schedule 48 block)) st).

Fixpoint blocks (fuel : nat) (ws : list Z) (st : list Z) : list Z :=
  match fuel, ws with
  | S fuel, _ :: _ => blocks fuel (drop 16 ws) (compress st (take 16 ws))
  | _, _ => st
  end.

Definition sha256 (m : bytes) : bytes :=
  let ws := be_words (pad m) in
  concat (be_bytes 4 <$> blocks (length ws) ws H0).

End Sha.

Definition sha256 : bytes → bytes := Sha.sha256.

(** [fmt.Sprintf("%x", b)]. *)
Definition hex_digit (z : Z) : Ascii.ascii :=
  default Ascii.zero (String.get (Z.to_nat z) "0123456789abcdef").
Fixpoint sprintf_x (b : bytes) : string :=
  match b with
  | [] => ""
  | c :: t => String (hex_digit (Z_of_byte c / 16))
                (String (hex_digit (Z_of_byte c `mod` 16)) (sprintf_x t))
  end.

(** [base64.RawStdEncoding.EncodeToString]. *)
Definition b64_char (z : Z) : Ascii.ascii :=
  default Ascii.zero
    (String.get (Z.to_nat z) "ABCDEFGHIJKLMNOPQRSTUVWXYZabcdefghijklmnopqrstuvwxyz0123456789+/").
Fixpoint base64_raw (b : bytes) : string :=
  match b with
  | [] => ""
  | [a] => let a := Z_of_byte a in
      String (b64_char (a / 4)) (String (b64_char (a `mod` 4 * 16)) "")
  | [a; b] => let a := Z_of_byte a in let b := Z_of_byte b in
      String (b64_char (a / 4)) (String (b64_char (a `mod` 4 * 16 + b / 16))
        (String (b64_char (b `mod` 16 * 4)) ""))
  | a :: b :: c :: t =>
      let a := Z_of_byte a in let b := Z_of_byte b in let c := Z_of_byte c in
      String (b64_char (a / 4)) (String (b64_char (a `mod` 4 * 16 + b / 16))
        (String (b64_char (b `mod` 16 * 4 + c / 64)) (String (b64_char (c `mod` 64))
          (base64_raw t))))
  end.


(** FIPS 180-4 test vectors. *)
Example sha256_empty : sprintf_x (sha256 []) =
  "e3b0c44298fc1c149afbf4c8996fb92427ae41e4649b934ca495991b7852b855"%string.
Proof. vm_compute. reflexivity. Qed.
Example sha256_abc : sprintf_x (sha256 (bytes_of_string "abc")) =
  "ba7816bf8f01cfea414140de5dae2223b00361a396177a9cb410ff61f20015ad"%string.
Proof. vm_compute. reflexivity. Qed.
Example sha256_two_blocks :
  sprintf_x (sha256 (bytes_of_string "abcdbcdecdefdefgefghfghighijhijkijkljklmklmnlmnomnopnopq")) =
  "248d6a61d20638b8e5c026930c3e6039a33ce45964ff2167f6ecedd419db06c1"%string.
Proof. vm_compute. reflexivity. Qed.
Example base64_raw_foobar :
  base64_raw (bytes_of_string "foobar") = "Zm9vYmFy"%string
  ∧ base64_raw (bytes_of_string "fooba") = "Zm9vYmE"%string
  ∧ base64_raw (bytes_of_string "foob") = "Zm9vYg"%string.
Proof. repeat split. Qed.

(** ** Injectivity of the text encodings *)
Lemma digit_inj_aux (f : Z → Ascii.ascii) (n : nat) :
  forallb (λ i, forallb (λ j, bool_decide (f (Z.of_nat i) = f (Z.of_nat j) → i = j))
    (seq 0 n)) (seq 0 n) = true →
  ∀ a b, 0 ≤ a < Z.of_nat n → 0 ≤ b < Z.of_nat n → f a = f b → a = b.
Proof.
  intros H a b Ha Hb E.
  rewrite forallb_forall in H. specialize (H (Z.to_nat a)).
  rewrite forallb_forall in H. specialize (H ltac:(apply in_seq; lia) (Z.to_nat b)).
  specialize (H ltac:(apply in_seq; lia)).
  rewrite !Z2Nat.id in H by lia.
  apply bool_decide_eq_true in H. specialize (H E). lia.
Qed.

Lemma hex_digit_inj a b : 0 ≤ a < 16 → 0 ≤ b < 16 → hex_digit a = hex_digit b → a = b.
Proof. apply (digit_inj_aux hex_digit 16). vm_compute. reflexivity. Qed.

Lemma b64_char_inj a b : 0 ≤ a < 64 → 0 ≤ b < 64 → b64_char a = b64_char b → a = b.
Proof. apply (digit_inj_aux b64_char 64). vm_compute. reflexivity. Qed.

#[global] Instance sprintf_x_inj : Inj (=) (=) sprintf_x.
Proof.
  intros l. induction l as [|c l IH]; intros [|c' l'] H; try discriminate; [done|].
  simpl in H. pose proof (Z_of_byte_range c). pose proof (Z_of_byte_range c').
  injection H as Hhi Hlo Ht.
  apply hex_digit_inj in Hhi; [|dlia..]. apply hex_digit_inj in Hlo; [|dlia..].
  f_equal; [apply (inj Z_of_byte); dlia|by apply IH].
Qed.

Ltac b64_split H :=
  simpl in H; injection H; clear H; intros;
  repeat match goal with
  | E : b64_char _ = b64_char _ |- _ => apply b64_char_inj in E; [|dlia..]
  end.

#[global] Instance base64_raw_inj : Inj (=) (=) base64_raw.
Proof.
  assert (∀ n l l', (length l < n)%nat → base64_raw l = base64_raw l' → l = l') as Hn;
    [|intros l l'; apply (Hn (S (length l))); lia].
  induction n as [|n IH]; intros l l' Hl H; [lia|].
  destruct l as [|a [|b [|c l]]], l' as [|a' [|b' [|c' l']]]; try discriminate H; try done;
    repeat match goal with x : byte |- _ =>
      lazymatch goal with
      | _ : 0 ≤ Z_of_byte x < 256 |- _ => fail
      | |- _ => pose proof (Z_of_byte_range x)
      end end.
  - b64_split H. f_equal. apply (inj Z_of_byte). dlia.
  - b64_split H. repeat f_equal; apply (inj Z_of_byte); dlia.
  - b64_split H. assert (l = l') as -> by (apply IH; simpl in *; [lia|done]).
    repeat f_equal; apply (inj Z_of_byte); dlia.
Qed.
