(* ===== verification/SbftTypes.v ===== *)
(** * Simplified PBFT: messages, replica state and the System interface

    Data of [orderer/sbft/simplebft]: the protobuf messages of
    [simplebft.proto], the [SBFT], [reqInfo] and [replicaInfo] structs of
    [simplebft.go], and the state behind the [System] interface (delivered
    batches, persisted records, armed timers and the trace of outputs). *)

From stdpp Require Import base numbers strings gmap list.
From S2P Require Import Prelude Sha256.
Local Open Scope Z_scope.

(** ** Messages (simplebft.proto)

    Pointer fields may be nil and are options; byte fields whose nil-ness the
    code observes are [slice]s.  Elements of repeated and map fields are
    present. *)
Record Config := mkConfig {
  cfg_N : Z; cfg_F : Z;
  cfg_BatchDurationNsec : Z; cfg_BatchSizeBytes : Z; cfg_RequestTimeoutNsec : Z }.

Record SeqView := mkSeqView { sv_View : Z; sv_Seq : Z }.
Record Request := mkRequest { req_Payload : bytes }.
Record BatchHeader := mkBatchHeader {
  bh_Seq : Z; bh_PrevHash : slice; bh_DataHash : slice }.
Record Batch := mkBatch {
  b_Header : bytes; b_Payloads : list bytes; b_Signatures : gmap Z bytes }.
Record Preprepare := mkPreprepare { pp_Seq : option SeqView; pp_Batch : option Batch }.
Record Subject := mkSubject { sub_Seq : option SeqView; sub_Digest : slice }.
Record ViewChange := mkViewChange {
  vc_View : Z; vc_Pset : list Subject; vc_Qset : list Subject;
  vc_Checkpoint : option Batch }.
Record Signed := mkSigned { sg_Data : bytes; sg_Signature : bytes }.
Record NewView := mkNewView {
  nv_View : Z; nv_Vset : gmap Z Signed; nv_Xset : option Subject;
  nv_Batch : option Batch }.
Record Checkpoint := mkCheckpoint {
  cp_Seq : Z; cp_Digest : slice; cp_Signature : bytes }.
Record Hello := mkHello { h_Batch : option Batch; h_NewView : option NewView }.

(** The [oneof] of [Msg]; [MsgNone] is a message with no alternative set. *)
Inductive Msg :=
  | MsgRequest (r : Request)
  | MsgPreprepare (pp : Preprepare)
  | MsgPrepare (p : Subject)
  | MsgCommit (c : Subject)
  | MsgViewChange (vc : Signed)
  | MsgNewView (nv : NewView)
  | MsgCheckpoint (c : Checkpoint)
  | MsgHello (h : Hello)
  | MsgNone.

#[global] Instance SeqView_eq_dec : EqDecision SeqView.
Proof. solve_decision. Defined.
#[global] Instance BatchHeader_eq_dec : EqDecision BatchHeader.
Proof. solve_decision. Defined.
#[global] Instance Subject_eq_dec : EqDecision Subject.
Proof. solve_decision. Defined.
#[global] Instance Request_eq_dec : EqDecision Request.
Proof. solve_decision. Defined.
#[global] Instance Batch_eq_dec : EqDecision Batch.
Proof. solve_decision. Defined.
#[global] Instance Preprepare_eq_dec : EqDecision Preprepare.
Proof. solve_decision. Defined.

(** ** What the code uses of its environment

    [proto.Marshal]/[Unmarshal] of the two messages that are encoded by hand,
    the [System] signature operations, and the order in which Go iterates over
    a map, which the language leaves open: the [n]-th [range] over a map visits
    the entries in the order [shuffle n]. *)
Class Env := {
  marshal_header : BatchHeader → bytes;
  unmarshal_header : bytes → option BatchHeader;
  marshal_vc : ViewChange → bytes;
  unmarshal_vc : bytes → option ViewChange;
  sys_sign : Z → bytes → bytes;
  sys_check_sig : bytes → Z → bytes → bool;
  shuffle : nat → ∀ A : Type, list A → list A }.
Arguments shuffle {_} n {A} l.

(** The documented behaviour of those operations the theorems may assume.
    The header round trip is for headers protobuf can represent: an empty
    byte field is not encoded and reads back as nil. *)
Definition canonical_header (h : BatchHeader) : Prop :=
  0 ≤ bh_Seq h < 2 ^ 64 ∧ bh_PrevHash h ≠ Some [] ∧ bh_DataHash h ≠ Some [].

Class EnvLaws (E : Env) : Prop := {
  unmarshal_marshal_header h :
    canonical_header h → unmarshal_header (marshal_header h) = Some h;
  unmarshal_header_u64 b h : unmarshal_header b = Some h → 0 ≤ bh_Seq h < 2 ^ 64;
  unmarshal_vc_u64 b vc : unmarshal_vc b = Some vc → 0 ≤ vc_View vc < 2 ^ 64;
  shuffle_perm n A (l : list A) : shuffle n l ≡ₚ l }.

(** ** The System interface *)
Inductive timer_fn := FRequestTimeout | FMaybeSendNextBatch | FViewChangeTimeout.
Inductive Canceller := DummyCanceller | TimerCanceller (id : nat).

Inductive pmsg := PPreprepare (pp : Preprepare) | PSubject (s : Subject).

Inductive output :=
  | OSend (m : Msg) (dest : Z)
  | ODeliver (b : Batch)
  | OReconnect (replica : Z).

Record Sys := mkSys {
  sys_batches : list Batch;            (* delivered batches, oldest first *)
  sys_store : gmap string pmsg;        (* Persist / Restore *)
  sys_timers : gmap nat (Z * timer_fn);  (* armed timers: duration, callback *)
  sys_next_timer : nat;
  sys_rand : nat;                      (* map iterations so far *)
  sys_out : list output }.             (* outputs, oldest first *)

Definition set_batches f (s : Sys) := mkSys (f (sys_batches s)) (sys_store s)
  (sys_timers s) (sys_next_timer s) (sys_rand s) (sys_out s).
Definition set_store f (s : Sys) := mkSys (sys_batches s) (f (sys_store s))
  (sys_timers s) (sys_next_timer s) (sys_rand s) (sys_out s).
Definition set_timers f (s : Sys) := mkSys (sys_batches s) (sys_store s)
  (f (sys_timers s)) (sys_next_timer s) (sys_rand s) (sys_out s).
Definition set_next_timer f (s : Sys) := mkSys (sys_batches s) (sys_store s)
  (sys_timers s) (f (sys_next_timer s)) (sys_rand s) (sys_out s).
Definition set_rand f (s : Sys) := mkSys (sys_batches s) (sys_store s)
  (sys_timers s) (sys_next_timer s) (f (sys_rand s)) (sys_out s).
Definition set_out f (s : Sys) := mkSys (sys_batches s) (sys_store s)
  (sys_timers s) (sys_next_timer s) (sys_rand s) (f (sys_out s)).

(** ** Replica state (simplebft.go)

    The maps of [reqInfo] are nil until the first pre-prepare is accepted;
    reading a nil map finds nothing and writing to it panics. *)
Record reqInfo := mkReqInfo {
  cur_subject : Subject;
  cur_timeout : Canceller;
  cur_preprep : option Preprepare;
  cur_prep : option (gmap Z Subject);
  cur_commit : option (gmap Z Subject);
  cur_sentCommit : bool;
  cur_executed : bool;
  cur_checkpoint : option (gmap Z Checkpoint);
  cur_checkpointDone : bool }.

Record replicaInfo := mkReplicaInfo {
  ri_backLog : list Msg;
  ri_hello : option Hello;
  ri_signedViewchange : option Signed;
  ri_viewchange : option ViewChange;
  ri_newview : option NewView }.

Definition empty_replicaInfo : replicaInfo := mkReplicaInfo [] None None None None.

Record SBFT := mkSBFT {
  s_sys : Sys;
  s_config : Config;
  s_id : Z;
  s_view : Z;
  s_batch : list Request;
  s_batchTimer : option Canceller;
  s_cur : reqInfo;
  s_activeView : bool;
  s_lastNewViewSent : option NewView;
  s_viewChangeTimeout : Z;
  s_viewChangeTimer : Canceller;
  s_replicaState : list replicaInfo;
  s_pending : gmap string Request }.

(** *** Field updates *)
Definition set_sys f s := mkSBFT (f (s_sys s)) (s_config s) (s_id s) (s_view s)
  (s_batch s) (s_batchTimer s) (s_cur s) (s_activeView s) (s_lastNewViewSent s)
  (s_viewChangeTimeout s) (s_viewChangeTimer s) (s_replicaState s) (s_pending s).
Definition set_view v s := mkSBFT (s_sys s) (s_config s) (s_id s) v
  (s_batch s) (s_batchTimer s) (s_cur s) (s_activeView s) (s_lastNewViewSent s)
  (s_viewChangeTimeout s) (s_viewChangeTimer s) (s_replicaState s) (s_pending s).
Definition set_batch v s := mkSBFT (s_sys s) (s_config s) (s_id s) (s_view s)
  v (s_batchTimer s) (s_cur s) (s_activeView s) (s_lastNewViewSent s)
  (s_viewChangeTimeout s) (s_viewChangeTimer s) (s_replicaState s) (s_pending s).
Definition set_batchTimer v s := mkSBFT (s_sys s) (s_config s) (s_id s) (s_view s)
  (s_batch s) v (s_cur s) (s_activeView s) (s_lastNewViewSent s)
  (s_viewChangeTimeout s) (s_viewChangeTimer s) (s_replicaState s) (s_pending s).
Definition set_cur f s := mkSBFT (s_sys s) (s_config s) (s_id s) (s_view s)
  (s_batch s) (s_batchTimer s) (f (s_cur s)) (s_activeView s) (s_lastNewViewSent s)
  (s_viewChangeTimeout s) (s_viewChangeTimer s) (s_replicaState s) (s_pending s).
Definition set_activeView v s := mkSBFT (s_sys s) (s_config s) (s_id s) (s_view s)
  (s_batch s) (s_batchTimer s) (s_cur s) v (s_lastNewViewSent s)
  (s_viewChangeTimeout s) (s_viewChangeTimer s) (s_replicaState s) (s_pending s).
Definition set_lastNewViewSent v s := mkSBFT (s_sys s) (s_config s) (s_id s) (s_view s)
  (s_batch s) (s_batchTimer s) (s_cur s) (s_activeView s) v
  (s_viewChangeTimeout s) (s_viewChangeTimer s) (s_replicaState s) (s_pending s).
Definition set_viewChangeTimeout v s := mkSBFT (s_sys s) (s_config s) (s_id s) (s_view s)
  (s_batch s) (s_batchTimer s) (s_cur s) (s_activeView s) (s_lastNewViewSent s)
  v (s_viewChangeTimer s) (s_replicaState s) (s_pending s).
Definition set_viewChangeTimer v s := mkSBFT (s_sys s) (s_config s) (s_id s) (s_view s)
  (s_batch s) (s_batchTimer s) (s_cur s) (s_activeView s) (s_lastNewViewSent s)
  (s_viewChangeTimeout s) v (s_replicaState s) (s_pending s).
Definition set_replicaState f s := mkSBFT (s_sys s) (s_config s) (s_id s) (s_view s)
  (s_batch s) (s_batchTimer s) (s_cur s) (s_activeView s) (s_lastNewViewSent s)
  (s_viewChangeTimeout s) (s_viewChangeTimer s) (f (s_replicaState s)) (s_pending s).
Definition set_pending f s := mkSBFT (s_sys s) (s_config s) (s_id s) (s_view s)
  (s_batch s) (s_batchTimer s) (s_cur s) (s_activeView s) (s_lastNewViewSent s)
  (s_viewChangeTimeout s) (s_viewChangeTimer s) (s_replicaState s) (f (s_pending s)).

Definition set_prep v c := mkReqInfo (cur_subject c) (cur_timeout c) (cur_preprep c)
  v (cur_commit c) (cur_sentCommit c) (cur_executed c) (cur_checkpoint c) (cur_checkpointDone c).
Definition set_commit v c := mkReqInfo (cur_subject c) (cur_timeout c) (cur_preprep c)
  (cur_prep c) v (cur_sentCommit c) (cur_executed c) (cur_checkpoint c) (cur_checkpointDone c).
Definition set_sentCommit v c := mkReqInfo (cur_subject c) (cur_timeout c) (cur_preprep c)
  (cur_prep c) (cur_commit c) v (cur_executed c) (cur_checkpoint c) (cur_checkpointDone c).
Definition set_executed v c := mkReqInfo (cur_subject c) (cur_timeout c) (cur_preprep c)
  (cur_prep c) (cur_commit c) (cur_sentCommit c) v (cur_checkpoint c) (cur_checkpointDone c).
Definition set_checkpoint v c := mkReqInfo (cur_subject c) (cur_timeout c) (cur_preprep c)
  (cur_prep c) (cur_commit c) (cur_sentCommit c) (cur_executed c) v (cur_checkpointDone c).
Definition set_checkpointDone v c := mkReqInfo (cur_subject c) (cur_timeout c) (cur_preprep c)
  (cur_prep c) (cur_commit c) (cur_sentCommit c) (cur_executed c) (cur_checkpoint c) v.
Definition set_subject v c := mkReqInfo v (cur_timeout c) (cur_preprep c)
  (cur_prep c) (cur_commit c) (cur_sentCommit c) (cur_executed c) (cur_checkpoint c) (cur_checkpointDone c).
Definition set_preprep v c := mkReqInfo (cur_subject c) (cur_timeout c) v
  (cur_prep c) (cur_commit c) (cur_sentCommit c) (cur_executed c) (cur_checkpoint c) (cur_checkpointDone c).

Definition set_backLog v r := mkReplicaInfo v (ri_hello r) (ri_signedViewchange r)
  (ri_viewchange r) (ri_newview r).
Definition set_hello v r := mkReplicaInfo (ri_backLog r) v (ri_signedViewchange r)
  (ri_viewchange r) (ri_newview r).
Definition set_signedViewchange v r := mkReplicaInfo (ri_backLog r) (ri_hello r) v
  (ri_viewchange r) (ri_newview r).
Definition set_viewchange v r := mkReplicaInfo (ri_backLog r) (ri_hello r)
  (ri_signedViewchange r) v (ri_newview r).
Definition set_newview v r := mkReplicaInfo (ri_backLog r) (ri_hello r)
  (ri_signedViewchange r) (ri_viewchange r) v.

(** Maps that may be nil. *)
Definition map_get {V} (m : option (gmap Z V)) (k : Z) : option V :=
  match m with Some m => m !! k | None => None end.
Definition map_len {V} (m : option (gmap Z V)) : Z :=
  match m with Some m => Z.of_nat (size m) | None => 0 end.
Definition map_set {V} (m : option (gmap Z V)) (k : Z) (v : V) : res (option (gmap Z V)) :=
  match m with Some m => Ok (Some (<[k:=v]> m)) | None => Panic end.
