(* ===== verification/SbftMerkle.v ===== *)
(** * Merkle hashing of a batch's payloads (orderer/sbft/simplebft/crypto.go)

    [merkleHashDigests] pairs adjacent digests level by level until one is
    left.  The root is shown to be that of a recursive binary hash tree, and to
    bind the data: two different payload lists of one length and one root
    exhibit a SHA-256 collision among the strings that were hashed. *)

From Equations Require Import Equations.
From stdpp Require Import base numbers strings sets list.
From S2P Require Import Prelude Sha256.

Definition hash2str (h : bytes) : string := base64_raw h.
Definition hash (data : bytes) : bytes := sha256 data.

(** One pass of the inner loop over [digests], with its local [prev]. *)
Fixpoint merkle_pass (prev : slice) (digests : list bytes) : list bytes :=
  match digests with
  | [] => match prev with Some p => [p] | None => [] end
  | d :: rest =>
      match prev with
      | None => merkle_pass (Some d) rest
      | Some p => sha256 (p ++ d) :: merkle_pass None rest
      end
  end.

Lemma merkle_pass_length prev ds :
  2 * length (merkle_pass prev ds) ≤ length ds + (if prev is Some _ then 1 else 0) + 1
  ∧ (length (merkle_pass prev ds) ≤ length ds + (if prev is Some _ then 1 else 0)).
Proof.
  revert prev. induction ds as [|d ds IH]; intros [p|]; simpl; try lia.
  - destruct (IH None). simpl in *. lia.
  - destruct (IH (Some d)). simpl in *. lia.
Qed.

(** The outer loop, [for len(digests) > 1]. *)
Equations? merkleHashDigests (digests : list bytes) : slice
  by wf (length digests) lt :=
  merkleHashDigests [] := None;
  merkleHashDigests [d] := Some d;
  merkleHashDigests (a :: b :: rest) :=
    merkleHashDigests (merkle_pass None (a :: b :: rest)).
Proof. pose proof (merkle_pass_length None rest). simpl in *. lia. Qed.

Definition merkleHashData (data : list bytes) : slice :=
  merkleHashDigests (hash <$> data).

(** ** Reference: a binary hash tree *)
Inductive tree := Leaf (d : bytes) | Node (l r : tree).

Fixpoint root (t : tree) : bytes :=
  match t with Leaf d => d | Node l r => sha256 (root l ++ root r) end.
Fixpoint leaves (t : tree) : list bytes :=
  match t with Leaf d => [d] | Node l r => leaves l ++ leaves r end.

(** Same shape, possibly different leaves. *)
Fixpoint same_shape (t u : tree) : Prop :=
  match t, u with
  | Leaf _, Leaf _ => True
  | Node l r, Node l' r' => same_shape l l' ∧ same_shape r r'
  | _, _ => False
  end.

(** The pass and the loop on trees, building the tree instead of its root. *)
Fixpoint tree_pass (prev : option tree) (ts : list tree) : list tree :=
  match ts with
  | [] => match prev with Some p => [p] | None => [] end
  | t :: rest =>
      match prev with
      | None => tree_pass (Some t) rest
      | Some p => Node p t :: tree_pass None rest
      end
  end.

Lemma tree_pass_root prev ts :
  merkle_pass (root <$> prev) (root <$> ts) = root <$> tree_pass prev ts.
Proof.
  revert prev. induction ts as [|t ts IH]; intros [p|]; simpl; try done.
  - f_equal. apply (IH None).
  - apply (IH (Some t)).
Qed.

Lemma tree_pass_length prev ts :
  length (tree_pass prev ts) = length (merkle_pass (root <$> prev) (root <$> ts)).
Proof. by rewrite tree_pass_root, length_fmap. Qed.

Lemma tree_pass_leaves prev ts :
  concat (leaves <$> tree_pass prev ts) =
  (if prev is Some p then leaves p else []) ++ concat (leaves <$> ts).
Proof.
  revert prev. induction ts as [|t ts IH]; intros [p|]; simpl; try done.
  rewrite IH. simpl. by rewrite app_assoc.
Qed.

Lemma tree_pass_shape prev prev' ts ts' :
  option_Forall2 same_shape prev prev' → Forall2 same_shape ts ts' →
  Forall2 same_shape (tree_pass prev ts) (tree_pass prev' ts').
Proof.
  intros Hp Hts. revert prev prev' Hp.
  induction Hts as [|t t' ts ts' Ht Hts IH]; intros ?? [p p' Hp|]; simpl.
  - by repeat constructor.
  - constructor.
  - constructor; [done|]. apply IH. constructor.
  - apply IH. by constructor.
Qed.

Equations? tree_build (ts : list tree) : option tree by wf (length ts) lt :=
  tree_build [] := None;
  tree_build [t] := Some t;
  tree_build (a :: b :: rest) := tree_build (tree_pass None (a :: b :: rest)).
Proof.
  rewrite tree_pass_length. pose proof (merkle_pass_length None (root <$> rest)) as H.
  rewrite !length_fmap in H. csimpl in *. lia.
Qed.

Lemma tree_build_root ts :
  merkleHashDigests (root <$> ts) = root <$> tree_build ts.
Proof.
  funelim (tree_build ts); simp merkleHashDigests; try done.
  simpl tree_pass. rewrite <-H.
  change (root <$> Node a b :: tree_pass None rest)
    with (sha256 (root a ++ root b) :: (root <$> tree_pass None rest)).
  rewrite <-(tree_pass_root None). simpl. by simp merkleHashDigests.
Qed.

Lemma tree_build_leaves ts :
  (if tree_build ts is Some t then leaves t else []) = concat (leaves <$> ts).
Proof.
  funelim (tree_build ts); try done.
  - simpl. by rewrite app_nil_r.
  - etransitivity; [exact H|]. exact (tree_pass_leaves None (a :: b :: rest)).
Qed.

Lemma tree_build_shape ts ts' :
  Forall2 same_shape ts ts' →
  option_Forall2 same_shape (tree_build ts) (tree_build ts').
Proof.
  revert ts'. funelim (tree_build ts); intros ts' Hs.
  - inversion Hs. simp tree_build. constructor.
  - inversion Hs as [|? ? ? ? ? Hn]; subst. inversion Hn. simp tree_build. by constructor.
  - inversion Hs as [|? a' ? ts1 ? Hs1]; subst. inversion Hs1 as [|? b' ? ts2]; subst.
    simp tree_build. apply H.
    by apply (tree_pass_shape None None (a :: b :: rest)); [constructor|].
Qed.

(** ** Collision extraction *)

(** Two byte strings, one of each list, with the same hash. *)
Definition collision (xs ys : list bytes) : Prop :=
  ∃ x y, x ∈ xs ∧ y ∈ ys ∧ x ≠ y ∧ sha256 x = sha256 y.

(** Everything that is hashed to compute the root of a tree. *)
Fixpoint inputs (t : tree) : list bytes :=
  match t with Leaf _ => [] | Node l r => (root l ++ root r) :: inputs l ++ inputs r end.

(** Everything [merkleHashData] hashes: the payloads and the inner nodes. *)
Definition merkle_inputs (data : list bytes) : list bytes :=
  data ++ (if tree_build (Leaf <$> (hash <$> data)) is Some t then inputs t else []).

Lemma collision_mono xs ys xs' ys' :
  xs ⊆ xs' → ys ⊆ ys' → collision xs ys → collision xs' ys'.
Proof. intros Hx Hy (x & y & ? & ? & ?). exists x, y. set_solver. Qed.

Lemma be_bytes_length n z : length (Sha.be_bytes n z) = n.
Proof. induction n; simpl; auto. Qed.

Lemma round_length st kw : length st = 8 → length (Sha.round st kw) = 8.
Proof.
  intros H. do 9 (destruct st as [|? st]; try discriminate H). done.
Qed.

Lemma rounds_length kws st : length st = 8 → length (fold_left Sha.round kws st) = 8.
Proof. revert st. induction kws; simpl; auto using round_length. Qed.

Lemma compress_length st b : length st = 8 → length (Sha.compress st b) = 8.
Proof.
  intros H. unfold Sha.compress. rewrite length_zip_with, rounds_length by done. lia.
Qed.

Lemma blocks_length f ws st : length st = 8 → length (Sha.blocks f ws st) = 8.
Proof.
  revert ws st. induction f as [|f IH]; intros [|w ws] st H; simpl; auto using compress_length.
Qed.

Lemma sha256_length m : length (sha256 m) = 32.
Proof.
  unfold sha256, Sha.sha256.
  assert (∀ l : list Z, length (concat (Sha.be_bytes 4 <$> l)) = 4 * length l) as Hc.
  { induction l as [|z l IH]; [done|].
    rewrite fmap_cons. cbn [concat length]. rewrite length_app, be_bytes_length, IH. lia. }
  rewrite Hc, blocks_length; done.
Qed.

(** A root is a digest or a leaf, never an empty slice. *)
Lemma merkleHashDigests_length ds d :
  Forall (λ x, length x = 32) ds → merkleHashDigests ds = Some d → length d = 32.
Proof.
  funelim (merkleHashDigests ds); intros Hf Hd; try discriminate.
  - injection Hd as <-. by inversion Hf.
  - apply H; [|done]. clear H Hd Heqcall.
    assert (∀ l p, Forall (λ x : bytes, length x = 32) l →
      (∀ q, p = Some q → length q = 32) →
      Forall (λ x, length x = 32) (merkle_pass p l)) as Hpass.
    { induction l as [|x l IH]; intros [q|] Hl Hq; simpl; auto.
      - inversion Hl. constructor; [apply sha256_length|by apply IH].
      - inversion Hl. apply IH; [done|]. by intros ? [= <-]. }
    by apply (Hpass (a :: b :: rest) None).
Qed.

Lemma merkleHashData_not_empty data : merkleHashData data ≠ Some [].
Proof.
  intros H%merkleHashDigests_length; [done|].
  apply Forall_fmap, Forall_true. intros. apply sha256_length.
Qed.

(** Trees of one shape with 32-byte leaves and equal roots have equal leaves,
    or contain a collision. *)
Lemma root_binds t u :
  same_shape t u → Forall (λ d, length d = 32) (leaves t) →
  Forall (λ d, length d = 32) (leaves u) →
  root t = root u → leaves t = leaves u ∨ collision (inputs t) (inputs u).
Proof.
  revert u. induction t as [d|l IHl r IHr]; intros [d'|l' r'] Hs Ht Hu E; try done.
  { simpl in *. left. by f_equal. }
  simpl in *. destruct Hs as [Hl Hr].
  apply Forall_app in Ht as [Htl Htr]. apply Forall_app in Hu as [Hul Hur].
  assert (∀ v, Forall (λ d : bytes, length d = 32) (leaves v) → length (root v) = 32) as Hlen.
  { intros [d|]; simpl; intros Hf; [by inversion Hf|apply sha256_length]. }
  destruct (decide (root l ++ root r = root l' ++ root r')) as [Heq|Hne].
  - apply app_inj_1 in Heq as [E1 E2]; [|by rewrite !Hlen].
    destruct (IHl l') as [?|Hc]; auto; [destruct (IHr r') as [?|Hc]; auto; [by left; f_equal|]|];
      right; (eapply collision_mono; [..|exact Hc]; set_solver).
  - right. exists (root l ++ root r), (root l' ++ root r'). set_solver.
Qed.

Lemma map_hash_binds (data data' : list bytes) :
  hash <$> data = hash <$> data' → data = data' ∨ collision data data'.
Proof.
  revert data'. induction data as [|d data IH]; intros [|d' data'] E; try discriminate; auto.
  simpl in E. injection E as E1 E2. destruct (IH _ E2) as [->|Hc].
  2: { right. eapply collision_mono; [..|exact Hc]; set_solver. }
  destruct (decide (d = d')) as [->|]; [auto|right]. exists d, d'. set_solver.
Qed.

Lemma leaves_of_leaf (ds : list bytes) : concat (leaves <$> (Leaf <$> ds)) = ds.
Proof. induction ds as [|d ds IH]; [done|]. rewrite !fmap_cons. cbn. by f_equal. Qed.

Lemma root_of_leaf (ds : list bytes) : root <$> (Leaf <$> ds) = ds.
Proof. rewrite <-list_fmap_compose. apply list_fmap_id. Qed.

Lemma merkle_tree (ds : list bytes) :
  ds ≠ [] → ∃ t, tree_build (Leaf <$> ds) = Some t ∧ leaves t = ds
    ∧ merkleHashDigests ds = Some (root t).
Proof.
  intros Hne. pose proof (tree_build_leaves (Leaf <$> ds)) as HL.
  pose proof (tree_build_root (Leaf <$> ds)) as HR.
  rewrite leaves_of_leaf in HL. rewrite root_of_leaf in HR.
  destruct (tree_build _) as [t|]; [|by subst]. exists t. auto.
Qed.

(** C38. The Merkle root binds the payloads: two payload lists of one length
    with one root are equal, or two different strings hashed while computing
    the two roots have the same SHA-256 digest. *)
Theorem merkle_binds (data data' : list bytes) :
  length data = length data' →
  merkleHashData data = merkleHashData data' →
  data = data' ∨ collision (merkle_inputs data) (merkle_inputs data').
Proof.
  intros Hlen E. unfold merkle_inputs. unfold merkleHashData in E.
  destruct (decide (data = [])) as [->|Hne].
  { left. by destruct data'. }
  assert (hash <$> data ≠ []) as Hd by (by destruct data).
  assert (hash <$> data' ≠ []) as Hd' by (destruct data, data'; done).
  destruct (merkle_tree _ Hd) as (t & Ht & HLt & HRt).
  destruct (merkle_tree _ Hd') as (u & Hu & HLu & HRu).
  rewrite HRt, HRu in E. injection E as E.
  assert (same_shape t u) as Hs.
  { pose proof (tree_build_shape (Leaf <$> (hash <$> data)) (Leaf <$> (hash <$> data'))) as H.
    rewrite Ht, Hu in H. cut (option_Forall2 same_shape (Some t) (Some u)).
    { by inversion 1. }
    apply H. apply Forall2_fmap, Forall2_same_length_lookup_2.
    - by rewrite !length_fmap.
    - done. }
  rewrite Ht, Hu.
  destruct (root_binds t u) as [Heq|Hc]; [done| | |done| |].
  - rewrite HLt. apply Forall_fmap, Forall_true. intros. apply sha256_length.
  - rewrite HLu. apply Forall_fmap, Forall_true. intros. apply sha256_length.
  - rewrite HLt, HLu in Heq. destruct (map_hash_binds _ _ Heq) as [|Hc]; [by left|right].
    eapply collision_mono; [..|exact Hc]; set_solver.
  - right. eapply collision_mono; [..|exact Hc]; set_solver.
Qed.

(** The length matters: a list of two payloads has the root of the list with
    the one payload made of their digests. *)
Theorem merkle_length_ambiguous (a b : bytes) :
  merkleHashData [a; b] = merkleHashData [hash a ++ hash b].
Proof. unfold merkleHashData. simpl. by simp merkleHashDigests. Qed.

Lemma merkle_binds_witness :
  let data := [[byte_of_Z 1]; [byte_of_Z 2]; [byte_of_Z 3]] in
  data = data ∨ collision (merkle_inputs data) (merkle_inputs data).
Proof. intros data. apply (merkle_binds data data); reflexivity. Defined.
