(* ===== verification/SbftXset.v ===== *)
(** * Quorums, batches and the new-view selection rule

    [batch.go], the quorum arithmetic of [simplebft.go] and [makeXset] of
    [xset.go]. *)

From stdpp Require Import base numbers strings gmap list.
From S2P Require Import Prelude Sha256 SbftTypes SbftMerkle.
Local Open Scope Z_scope.

Section defs.
Context `{E : Env}.

(** ** Quorums *)
Definition noFaultyQuorum (cfg : Config) : Z := i64 (u64 (cfg_N cfg - cfg_F cfg)).
Definition oneCorrectQuorum (cfg : Config) : Z := i64 (u64 (cfg_F cfg + 1)).
Definition primaryIDView (cfg : Config) (v : Z) : Z := v `mod` cfg_N cfg.

(** ** Batches *)
Definition batch_Hash (b : Batch) : bytes := hash (b_Header b).

Definition DecodeHeader (b : Batch) : res BatchHeader :=
  deref (unmarshal_header (b_Header b)).

Definition makeBatch (seq : Z) (prevHash : slice) (data : list bytes) : Batch :=
  mkBatch (marshal_header (mkBatchHeader seq prevHash (merkleHashData data))) data ∅.

(** [Ok None] is an error return; the messages are only logged. *)
Definition checkBatch (cfg : Config) (b : option Batch) (checkData needSigs : bool)
    : res (option BatchHeader) :=
  b ← deref b;
  match unmarshal_header (b_Header b) with
  | None => Ok None
  | Some batchheader =>
      if checkData && negb (bool_decide (merkleHashData (b_Payloads b) = bh_DataHash batchheader))
      then Ok None
      else if match bh_PrevHash batchheader with
              | None => false
              | Some _ => needSigs && bool_decide (Z.of_nat (size (b_Signatures b)) < oneCorrectQuorum cfg)
              end
      then Ok None
      else
        let bh := batch_Hash b in
        if forallb (λ '(r, sig), sys_check_sig bh r sig) (map_to_list (b_Signatures b))
        then Ok (Some batchheader) else Ok None
  end.

(** ** makeXset *)
Definition checkpoint_seq (vc : ViewChange) : res Z :=
  b ← deref (vc_Checkpoint vc); h ← DecodeHeader b; Ok (bh_Seq h).

(** First loop: the checkpoint with the highest sequence number. *)
Fixpoint xset_best (best : option Batch) (vcs : list ViewChange) : res (option Batch) :=
  match vcs with
  | [] => Ok best
  | vc :: rest =>
      seq ← checkpoint_seq vc;
      match best with
      | None => xset_best (vc_Checkpoint vc) rest
      | Some b =>
          h ← DecodeHeader b;
          if bool_decide (seq > bh_Seq h) then xset_best (vc_Checkpoint vc) rest
          else xset_best best rest
      end
  end.

(** A1, inner loop: every tuple of [mp]'s Pset for the same sequence number
    has a smaller view, or the same view and digest. *)
Fixpoint a1_compatible (mseq : SeqView) (digest : slice) (pset : list Subject) : res bool :=
  match pset with
  | [] => Ok true
  | mptuple :: rest =>
      mpseq ← deref (sub_Seq mptuple);
      if negb (bool_decide (sv_Seq mpseq = sv_Seq mseq)) then a1_compatible mseq digest rest
      else if bool_decide (sv_View mpseq < sv_View mseq)
              || (bool_decide (sv_View mpseq = sv_View mseq)
                  && bool_decide (sub_Digest mptuple = digest))
      then a1_compatible mseq digest rest
      else Ok false
  end.

Fixpoint a1_count (mseq : SeqView) (digest : slice) (vcs : list ViewChange) : res Z :=
  match vcs with
  | [] => Ok 0
  | mp :: rest =>
      cs ← checkpoint_seq mp;
      if bool_decide (cs > sv_Seq mseq) then a1_count mseq digest rest
      else
        ok ← a1_compatible mseq digest (vc_Pset mp);
        n ← a1_count mseq digest rest;
        Ok (if (ok : bool) then n + 1 else n)
  end.

(** A2, inner loop: some tuple of [mp]'s Qset for the same sequence number has
    a view at least as high and the same digest. *)
Fixpoint a2_supported (mseq : SeqView) (digest : slice) (qset : list Subject) : res bool :=
  match qset with
  | [] => Ok false
  | mptuple :: rest =>
      mpseq ← deref (sub_Seq mptuple);
      if negb (bool_decide (sv_Seq mpseq = sv_Seq mseq)) then a2_supported mseq digest rest
      else if bool_decide (sv_View mpseq < sv_View mseq) then a2_supported mseq digest rest
      else if negb (bool_decide (sub_Digest mptuple = digest)) then a2_supported mseq digest rest
      else Ok true
  end.

Fixpoint a2_count (mseq : SeqView) (digest : slice) (vcs : list ViewChange) : res Z :=
  match vcs with
  | [] => Ok 0
  | mp :: rest =>
      ok ← a2_supported mseq digest (vc_Qset mp);
      n ← a2_count mseq digest rest;
      Ok (if (ok : bool) then n + 1 else n)
  end.

(** The loop over one message's Pset: whether no entry was at or above [next],
    and the digest selected, if any. *)
Fixpoint scan_pset (cfg : Config) (vcs : list ViewChange) (next : Z) (notfound : bool)
    (pset : list Subject) : res (bool * option slice) :=
  match pset with
  | [] => Ok (notfound, None)
  | mtuple :: rest =>
      mseq ← deref (sub_Seq mtuple);
      if bool_decide (sv_Seq mseq < next) then scan_pset cfg vcs next notfound rest
      else
        count ← a1_count mseq (sub_Digest mtuple) vcs;
        if bool_decide (count < noFaultyQuorum cfg) then scan_pset cfg vcs next false rest
        else
          count ← a2_count mseq (sub_Digest mtuple) vcs;
          if bool_decide (count < oneCorrectQuorum cfg) then scan_pset cfg vcs next false rest
          else Ok (false, Some (sub_Digest mtuple))
  end.

(** The loop [nextm]: the number of messages with no pertinent entry before the
    loop ended, and the digest selected. *)
Fixpoint scan_vcs (cfg : Config) (vcs : list ViewChange) (next emptycount : Z)
    (ms : list ViewChange) : res (Z * option slice) :=
  match ms with
  | [] => Ok (emptycount, None)
  | m :: rest =>
      r ← scan_pset cfg vcs next true (vc_Pset m);
      match r with
      | (_, Some d) => Ok (emptycount, Some d)
      | (notfound, None) =>
          scan_vcs cfg vcs next (if (notfound : bool) then emptycount + 1 else emptycount) rest
      end
  end.

(** [Ok None] is the return [(nil, nil, false)]. *)
Definition makeXset (cfg : Config) (view : Z) (vcs : list ViewChange)
    : res (option (option Subject * Batch)) :=
  best ← xset_best None vcs;
  match best with
  | None => Ok None
  | Some best =>
      h ← DecodeHeader best;
      let next := u64 (bh_Seq h + 1) in
      r ← scan_vcs cfg vcs next 0 vcs;
      let '(emptycount, found) := r in
      if bool_decide (emptycount >= noFaultyQuorum cfg) then Ok (Some (None, best))
      else match found with
           | None => Ok None
           | Some d => Ok (Some (Some (mkSubject (Some (mkSeqView view next)) d), best))
           end
  end.

End defs.
