(* ===== verification/SbftXsetProofs.v ===== *)
(** * Properties of quorums, batches and [makeXset]

    The new-view selection rule is first given a closed form over well-formed
    view-change messages (every pointer set, every checkpoint header decodes);
    its totality, soundness, completeness and the safety of view changes are
    read off that form. *)

From stdpp Require Import base numbers strings gmap list.
From S2P Require Import Prelude Sha256 SbftTypes SbftMerkle SbftXset.
Local Open Scope Z_scope.

(** A valid configuration, within the range of Go's [int]. *)
Definition valid_config (cfg : Config) : Prop :=
  0 ≤ cfg_F cfg ∧ 3 * cfg_F cfg + 1 ≤ cfg_N cfg ∧ cfg_N cfg < 2 ^ 63.

Lemma noFaultyQuorum_eq cfg :
  valid_config cfg → noFaultyQuorum cfg = cfg_N cfg - cfg_F cfg.
Proof.
  intros (HF & HN & HM). unfold noFaultyQuorum.
  rewrite u64_small by lia. rewrite i64_small; lia.
Qed.

Lemma oneCorrectQuorum_eq cfg :
  valid_config cfg → oneCorrectQuorum cfg = cfg_F cfg + 1.
Proof.
  intros (HF & HN & HM). unfold oneCorrectQuorum.
  rewrite u64_small by lia. rewrite i64_small; lia.
Qed.

(** Two sets of replicas with more than [total] members together intersect. *)
Lemma quorum_overlap (A B R : gset Z) :
  A ⊆ R → B ⊆ R → (size A + size B ≤ size R + size (A ∩ B))%nat.
Proof.
  intros HA HB.
  assert (size (A ∪ B) ≤ size R)%nat as Hu by (apply subseteq_size; set_solver).
  rewrite size_union_alt in Hu.
  assert (size B = size (B ∖ A) + size (A ∩ B))%nat as HB'.
  { rewrite <-size_union by set_solver. f_equal. apply set_eq. intros x.
    destruct (decide (x ∈ A)); set_solver. }
  lia.
Qed.

(** The same for positions of a list. *)
Lemma filter_overlap {A} (P Q : A → Prop) `{∀ x, Decision (P x)} `{∀ x, Decision (Q x)} l :
  (length l < length (filter P l) + length (filter Q l))%nat →
  ∃ x, x ∈ l ∧ P x ∧ Q x.
Proof.
  induction l as [|a l IH]; simpl; [lia|].
  rewrite !filter_cons. intros Hl. destruct (decide (P a)), (decide (Q a)); simpl in *.
  1: { exists a. set_solver. }
  all: destruct IH as (x & ? & ?); [lia|]; exists x; set_solver.
Qed.

Lemma filter_length_mono {A} (P Q : A → Prop) `{∀ x, Decision (P x)} `{∀ x, Decision (Q x)} l :
  (∀ x, x ∈ l → P x → Q x) → (length (filter P l) ≤ length (filter Q l))%nat.
Proof.
  induction l as [|a l IH]; [done|]. intros HPQ.
  assert (length (filter P l) ≤ length (filter Q l))%nat by (apply IH; set_solver).
  rewrite !filter_cons. destruct (decide (P a)), (decide (Q a)); simpl; try lia.
  exfalso. set_solver.
Qed.

Section props.
Context `{E : Env}.

(** ** Closed form of the loops *)
Definition decodes (b : option Batch) : Prop :=
  ∃ b' h, b = Some b' ∧ unmarshal_header (b_Header b') = Some h.
Definition has_seq (t : Subject) : Prop := is_Some (sub_Seq t).

Record wf_vc (vc : ViewChange) : Prop := {
  wf_checkpoint : decodes (vc_Checkpoint vc);
  wf_pset : Forall has_seq (vc_Pset vc);
  wf_qset : Forall has_seq (vc_Qset vc) }.

Definition tseq (t : Subject) : SeqView := default (mkSeqView 0 0) (sub_Seq t).
Definition batch_seq (b : Batch) : Z :=
  match unmarshal_header (b_Header b) with Some h => bh_Seq h | None => 0 end.
Definition cseq (vc : ViewChange) : Z :=
  match vc_Checkpoint vc with Some b => batch_seq b | None => 0 end.

(** [mp] does not contradict tuple [t] (condition A1). *)
Definition compatible (t : Subject) (mp : ViewChange) : Prop :=
  cseq mp ≤ sv_Seq (tseq t) ∧
  Forall (λ u, sv_Seq (tseq u) = sv_Seq (tseq t) →
    sv_View (tseq u) < sv_View (tseq t)
    ∨ (sv_View (tseq u) = sv_View (tseq t) ∧ sub_Digest u = sub_Digest t)) (vc_Pset mp).
(** [mp] pre-prepared the digest of [t] in its view or later (condition A2). *)
Definition supports (t : Subject) (mp : ViewChange) : Prop :=
  Exists (λ u, sv_Seq (tseq u) = sv_Seq (tseq t) ∧ sv_View (tseq t) ≤ sv_View (tseq u)
    ∧ sub_Digest u = sub_Digest t) (vc_Qset mp).
(** [m] has no prepared entry at or above [next]. *)
Definition vacant (next : Z) (m : ViewChange) : Prop :=
  Forall (λ u, sv_Seq (tseq u) < next) (vc_Pset m).

#[global] Instance compatible_dec t mp : Decision (compatible t mp).
Proof. unfold compatible. apply _. Defined.
#[global] Instance supports_dec t mp : Decision (supports t mp).
Proof. unfold supports. apply _. Defined.
#[global] Instance vacant_dec n m : Decision (vacant n m).
Proof. unfold vacant. apply _. Defined.

Definition count (P : ViewChange → Prop) `{∀ x, Decision (P x)} (vcs : list ViewChange) : Z :=
  Z.of_nat (length (filter P vcs)).

Lemma count_cons P `{∀ x, Decision (P x)} m vcs :
  count P (m :: vcs) = (if bool_decide (P m) then 1 else 0) + count P vcs.
Proof.
  unfold count. rewrite filter_cons, decide_bool_decide.
  case_bool_decide; simpl; lia.
Qed.

(** A tuple the rule may select. *)
Definition selectable (cfg : Config) (vcs : list ViewChange) (next : Z) (t : Subject) : Prop :=
  next ≤ sv_Seq (tseq t) ∧ noFaultyQuorum cfg ≤ count (compatible t) vcs
  ∧ oneCorrectQuorum cfg ≤ count (supports t) vcs.

#[global] Instance selectable_dec cfg vcs next t : Decision (selectable cfg vcs next t).
Proof. unfold selectable. apply _. Defined.

Lemma checkpoint_seq_wf vc : wf_vc vc → checkpoint_seq vc = Ok (cseq vc).
Proof.
  intros [(b & h & Hb & Hh) _ _]. unfold checkpoint_seq, cseq, batch_seq, DecodeHeader.
  rewrite Hb. simpl. by rewrite Hh.
Qed.

Lemma has_seq_tseq t : has_seq t → sub_Seq t = Some (tseq t).
Proof. intros [v Hv]. unfold tseq. by rewrite Hv. Qed.

Lemma a1_compatible_wf t pset :
  Forall has_seq pset →
  a1_compatible (tseq t) (sub_Digest t) pset = Ok (bool_decide (Forall (λ u,
    sv_Seq (tseq u) = sv_Seq (tseq t) → sv_View (tseq u) < sv_View (tseq t)
    ∨ (sv_View (tseq u) = sv_View (tseq t) ∧ sub_Digest u = sub_Digest t)) pset)).
Proof.
  induction 1 as [|u pset Hu _ IH]; simpl; [done|].
  rewrite (has_seq_tseq u Hu). simpl. rewrite IH.
  set (P u0 := _ = _ → _ ∨ _).
  assert (Forall P (u :: pset) ↔ P u ∧ Forall P pset) as Hc by apply Forall_cons.
  destruct (decide (sv_Seq (tseq u) = sv_Seq (tseq t))) as [Hs|Hs].
  2: { rewrite bool_decide_eq_false_2 by done. simpl. f_equal. apply bool_decide_ext.
       rewrite Hc. unfold P. tauto. }
  rewrite bool_decide_eq_true_2 by done. simpl.
  destruct (decide (P u)) as [Hu'|Hu'].
  - destruct (Hu' Hs) as [Hlt|[Heq Hd]].
    + rewrite (bool_decide_eq_true_2 (_ < _)) by done. simpl. f_equal. apply bool_decide_ext.
      rewrite Hc. tauto.
    + rewrite (bool_decide_eq_true_2 (_ = _)), (bool_decide_eq_true_2 (sub_Digest u = _)) by done.
      rewrite orb_true_r. f_equal. apply bool_decide_ext. rewrite Hc. tauto.
  - rewrite (bool_decide_eq_false_2 (Forall P (u :: pset))) by tauto.
    unfold P in Hu'. repeat case_bool_decide; simpl; try done; exfalso; tauto.
Qed.

Lemma a1_count_wf t vcs :
  Forall wf_vc vcs →
  a1_count (tseq t) (sub_Digest t) vcs = Ok (count (compatible t) vcs).
Proof.
  induction 1 as [|m vcs Hm _ IH]; simpl; [done|].
  rewrite (checkpoint_seq_wf m Hm). simpl. rewrite IH. simpl.
  rewrite (a1_compatible_wf t _ (wf_pset _ Hm)). simpl.
  rewrite count_cons. generalize (count (compatible t) vcs) as n; intros n. unfold compatible.
  repeat case_bool_decide; try (exfalso; intuition lia); f_equal; lia.
Qed.

Lemma a2_supported_wf t qset :
  Forall has_seq qset →
  a2_supported (tseq t) (sub_Digest t) qset = Ok (bool_decide (Exists (λ u,
    sv_Seq (tseq u) = sv_Seq (tseq t) ∧ sv_View (tseq t) ≤ sv_View (tseq u)
    ∧ sub_Digest u = sub_Digest t) qset)).
Proof.
  induction 1 as [|u qset Hu _ IH]; simpl.
  { done. }
  rewrite (has_seq_tseq u Hu). simpl. rewrite IH.
  set (P u0 := _ ∧ _).
  assert (Exists P (u :: qset) ↔ P u ∨ Exists P qset) as Hc by apply Exists_cons.
  destruct (decide (P u)) as [(Hs & Hv & Hd)|Hu'].
  - rewrite (bool_decide_eq_true_2 (sv_Seq _ = _)) by done. simpl.
    rewrite (bool_decide_eq_false_2 (_ < _)) by lia.
    rewrite (bool_decide_eq_true_2 (_ = sub_Digest t)) by done.
    simpl. f_equal. symmetry. apply bool_decide_eq_true_2. rewrite Hc. unfold P. tauto.
  - assert (Ok (bool_decide (Exists P qset)) = Ok (bool_decide (Exists P (u :: qset)))) as <-.
    { f_equal. apply bool_decide_ext. tauto. }
    unfold P in Hu'. repeat case_bool_decide; simpl; try done; exfalso; apply Hu'; split_and!; [done|lia|done].
Qed.

Lemma a2_count_wf t vcs :
  Forall wf_vc vcs →
  a2_count (tseq t) (sub_Digest t) vcs = Ok (count (supports t) vcs).
Proof.
  induction 1 as [|m vcs Hm _ IH]; simpl; [done|].
  rewrite (a2_supported_wf t _ (wf_qset _ Hm)). simpl. rewrite IH. simpl.
  rewrite count_cons. generalize (count (supports t) vcs) as n; intros n. unfold supports.
  repeat case_bool_decide; try done; f_equal; lia.
Qed.

(** The scan of one Pset selects the first selectable tuple. *)
Lemma scan_pset_wf cfg vcs next nf pset :
  Forall wf_vc vcs → Forall has_seq pset →
  scan_pset cfg vcs next nf pset =
    Ok match list_find (selectable cfg vcs next) pset with
       | Some (_, t) => (false, Some (sub_Digest t))
       | None => (nf && bool_decide (Forall (λ u, sv_Seq (tseq u) < next) pset), None)
       end.
Proof.
  intros Hv Hp. revert nf. induction Hp as [|t pset Ht _ IH]; intros nf; simpl.
  { by rewrite andb_true_r. }
  rewrite (has_seq_tseq t Ht). simpl.
  rewrite (a1_count_wf t) by done. simpl. rewrite (a2_count_wf t) by done. simpl.
  rewrite !IH. destruct (decide (selectable cfg vcs next t)) as [Hs|Hs]; simpl.
  - unfold selectable in Hs. repeat (rewrite bool_decide_eq_false_2 by lia). done.
  - destruct (list_find _ _) as [[i u]|] eqn:Hf; simpl.
    + repeat case_bool_decide; try done. exfalso. apply Hs. unfold selectable. lia.
    + repeat case_bool_decide; simpl; rewrite ?andb_false_r, ?andb_true_r; try done;
        repeat match goal with
        | H : Forall _ (_ :: _) |- _ => apply Forall_cons_1 in H as [??]
        | H : ¬ Forall _ (_ :: _) |- _ => rewrite Forall_cons in H
        end; try (exfalso; first [lia | tauto | apply Hs; unfold selectable; lia]).
Qed.

Lemma scan_vcs_wf cfg vcs next e ms :
  Forall wf_vc vcs → Forall wf_vc ms →
  ∃ e' d, scan_vcs cfg vcs next e ms = Ok (e', d) ∧
    match d with
    | Some d => (∃ m t, m ∈ ms ∧ t ∈ vc_Pset m ∧ selectable cfg vcs next t ∧ sub_Digest t = d)
                ∧ e ≤ e' ≤ e + count (vacant next) ms
    | None => (∀ m t, m ∈ ms → t ∈ vc_Pset m → ¬ selectable cfg vcs next t)
              ∧ e' = e + count (vacant next) ms
    end.
Proof.
  intros Hv Hms. revert e. induction Hms as [|m ms Hm Hms IH]; intros e; simpl.
  { exists e, None. split; [done|]. unfold count. simpl. split; [set_solver|lia]. }
  rewrite scan_pset_wf by eauto using wf_pset. simpl.
  destruct (list_find _ _) as [[i t]|] eqn:Hf; simpl.
  - apply list_find_Some in Hf as (Hi & Ht & _).
    exists e, (Some (sub_Digest t)). split; [done|]. split.
    + exists m, t. split; [set_solver|]. split; [by eapply list_elem_of_lookup_2|done].
    + unfold count. lia.
  - apply list_find_None in Hf. rewrite Forall_forall in Hf.
    match goal with |- context [scan_vcs _ _ _ ?e0 ms] =>
      destruct (IH e0) as (e' & d & -> & Hd) end.
    exists e', d. split; [done|].
    clear IH. rewrite !count_cons. generalize dependent (count (vacant next) ms); intros n Hd.
    unfold vacant.
    destruct d as [d|].
    + destruct Hd as [(m' & t & ? & ? & ?) He]. split.
      * exists m', t. set_solver.
      * repeat case_bool_decide; (done || lia).
    + destruct Hd as [Hd He]. split.
      * intros m' t [->|?]%elem_of_cons ?; eauto.
      * rewrite He. repeat case_bool_decide; (done || lia).
Qed.

Lemma xset_best_wf best vcs :
  Forall wf_vc vcs → (∀ b, best = Some b → decodes (Some b)) →
  ∃ best', xset_best best vcs = Ok best' ∧
    (best' = best ∨ ∃ vc, vc ∈ vcs ∧ best' = vc_Checkpoint vc) ∧
    (∀ b, best' = Some b → decodes (Some b)) ∧
    (∀ b, best = Some b → ∃ b', best' = Some b' ∧ batch_seq b ≤ batch_seq b') ∧
    (∀ vc, vc ∈ vcs → ∃ b', best' = Some b' ∧ cseq vc ≤ batch_seq b').
Proof.
  intros Hv. revert best. induction Hv as [|vc vcs Hvc Hv IH]; intros best Hb; simpl.
  { exists best. split_and!; [done|by left|done|naive_solver|set_solver]. }
  rewrite (checkpoint_seq_wf vc Hvc). simpl.
  assert (∀ b, vc_Checkpoint vc = Some b → decodes (Some b)) as Hvb.
  { intros b <-. apply Hvc. }
  destruct (wf_checkpoint _ Hvc) as (bv & hv & Hbv & Hhv).
  assert (cseq vc = batch_seq bv) as Hcs by (unfold cseq; by rewrite Hbv).
  destruct best as [b|].
  - destruct (Hb b eq_refl) as (b' & h & [= <-] & Hh). unfold DecodeHeader. rewrite Hh. simpl.
    assert (batch_seq b = bh_Seq h) as Hbs by (unfold batch_seq; by rewrite Hh).
    case_bool_decide as Hgt.
    + destruct (IH _ Hvb) as (best' & -> & Hor & Hdec & Hle & Hall).
      exists best'. destruct (Hle bv Hbv) as (b1 & Hb1 & Hle1). split_and!; [done| |done| |].
      * right. destruct Hor as [->|(vc' & ? & ?)]; [exists vc|exists vc']; set_solver.
      * intros ? [= <-]. exists b1. split; [done|lia].
      * intros vc' [->|?]%elem_of_cons; [exists b1; split; [done|lia]|eauto].
    + destruct (IH (Some b)) as (best' & -> & Hor & Hdec & Hle & Hall); [naive_solver|].
      exists best'. destruct (Hle b eq_refl) as (b1 & Hb1 & Hle1). split_and!; [done| |done| |].
      * destruct Hor as [->|(vc' & ? & ?)]; [by left|right; exists vc'; set_solver].
      * intros ? [= <-]. exists b1. split; [done|lia].
      * intros vc' [->|?]%elem_of_cons; [exists b1; split; [done|lia]|eauto].
  - destruct (IH _ Hvb) as (best' & -> & Hor & Hdec & Hle & Hall).
    exists best'. destruct (Hle bv Hbv) as (b1 & Hb1 & Hle1). split_and!; [done| |done|done|].
    * right. destruct Hor as [->|(vc' & ? & ?)]; [exists vc|exists vc']; set_solver.
    * intros vc' [->|?]%elem_of_cons; [exists b1; split; [done|lia]|eauto].
Qed.

(** ** The rule as a specification *)
Definition is_best (vcs : list ViewChange) (best : Batch) : Prop :=
  (∃ vc, vc ∈ vcs ∧ vc_Checkpoint vc = Some best) ∧ ∀ vc, vc ∈ vcs → cseq vc ≤ batch_seq best.

Lemma makeXset_cases cfg view vcs :
  Forall wf_vc vcs → vcs ≠ [] →
  ∃ best r, is_best vcs best ∧ makeXset cfg view vcs = Ok r ∧
    let next := u64 (batch_seq best + 1) in
    match r with
    | None => count (vacant next) vcs < noFaultyQuorum cfg
              ∧ ∀ m t, m ∈ vcs → t ∈ vc_Pset m → ¬ selectable cfg vcs next t
    | Some (None, b) => b = best ∧ noFaultyQuorum cfg ≤ count (vacant next) vcs
    | Some (Some x, b) => b = best ∧ sub_Seq x = Some (mkSeqView view next) ∧
        ∃ m t, m ∈ vcs ∧ t ∈ vc_Pset m ∧ selectable cfg vcs next t ∧ sub_Digest t = sub_Digest x
    end.
Proof.
  intros Hv Hne. unfold makeXset.
  destruct (xset_best_wf None vcs Hv) as (best & -> & Hor & Hdec & _ & Hall); [done|].
  destruct vcs as [|v0 vcs0] eqn:Hvcs; [done|]. rewrite <-Hvcs in *.
  destruct (Hall v0) as (b & -> & _); [set_solver|].
  destruct (Hdec b eq_refl) as (b' & h & [= <-] & Hh). simpl. unfold DecodeHeader. rewrite Hh. simpl.
  assert (batch_seq b = bh_Seq h) as Hbs by (unfold batch_seq; by rewrite Hh).
  rewrite <-Hbs.
  destruct (scan_vcs_wf cfg vcs (u64 (batch_seq b + 1)) 0 vcs Hv Hv) as (e & d & -> & Hd).
  assert (is_best vcs b) as Hib.
  { split; [destruct Hor as [|(vc & ? & ?)]; [done|eauto]|].
    intros vc Hvc. destruct (Hall vc Hvc) as (b' & [= <-] & ?). done. }
  exists b. simpl. case_bool_decide as He; [|destruct d as [d|]]; eexists; (split; [exact Hib|]);
    (split; [reflexivity|]); simpl.
  - split; [done|]. destruct d, Hd; lia.
  - split; [done|]. split; [done|]. by destruct Hd.
  - destruct Hd as [Hd ->]. split; [lia|done].
Qed.

(** A1 and A2 of one selected tuple against a digest that a blocking set of
    messages prepared: they agree. *)
Lemma selectable_agrees cfg vcs next v d t :
  valid_config cfg →
  (∀ m u, m ∈ vcs → u ∈ vc_Pset m → sv_Seq (tseq u) = next → v < sv_View (tseq u) →
    sub_Digest u = d) →
  Z.of_nat (length vcs) - noFaultyQuorum cfg
    < count (λ m, Exists (λ u, tseq u = mkSeqView v next ∧ sub_Digest u = d) (vc_Pset m)) vcs →
  count (λ m, Exists (λ u, next < sv_Seq (tseq u)) (vc_Qset m)) vcs < oneCorrectQuorum cfg →
  (∃ m, m ∈ vcs ∧ t ∈ vc_Pset m) → selectable cfg vcs next t → sub_Digest t = d.
Proof.
  intros Hcfg Hlater Hblock Hqset (m & Hm & Ht) (Hnext & HA1 & HA2).
  assert (sv_Seq (tseq t) = next) as Hn.
  { destruct (decide (sv_Seq (tseq t) = next)); [done|exfalso].
    assert (count (supports t) vcs ≤
      count (λ m, Exists (λ u, next < sv_Seq (tseq u)) (vc_Qset m)) vcs); [|lia].
    unfold count. apply Nat2Z.inj_le. apply filter_length_mono.
    intros mp _ Hs. apply (Exists_impl _ _ _ Hs). intros u (-> & _). lia. }
  destruct (filter_overlap (compatible t)
    (λ m, Exists (λ u, tseq u = mkSeqView v next ∧ sub_Digest u = d) (vc_Pset m)) vcs)
    as (mp & Hmp & [_ Hcompat] & Hex).
  { unfold count in *. lia. }
  apply Exists_exists in Hex as (u & Hu & Hseq & Hd).
  rewrite Forall_forall in Hcompat.
  assert (sv_Seq (tseq u) = sv_Seq (tseq t)) as Hsu by (by rewrite Hseq, Hn).
  destruct (Hcompat u Hu Hsu) as [Hlt|[_ Heq]].
  - rewrite Hseq in Hlt. simpl in Hlt. by apply (Hlater m t).
  - congruence.
Qed.

End props.

(** ** Claims *)

(** [New] lets a configuration through when [3F+1 <= N]; any two sets of
    [noFaultyQuorum] replicas of such a configuration share at least
    [oneCorrectQuorum] members, so they share a correct replica. *)
Theorem noFaultyQuorum_intersect (cfg : Config) (R A B : gset Z) :
  valid_config cfg → Z.of_nat (size R) = cfg_N cfg → A ⊆ R → B ⊆ R →
  noFaultyQuorum cfg ≤ Z.of_nat (size A) → noFaultyQuorum cfg ≤ Z.of_nat (size B) →
  oneCorrectQuorum cfg ≤ Z.of_nat (size (A ∩ B)).
Proof.
  intros Hcfg HR HA HB. rewrite noFaultyQuorum_eq, oneCorrectQuorum_eq by done.
  intros HsA HsB. pose proof (quorum_overlap A B R HA HB).
  destruct Hcfg as (? & ? & ?). lia.
Qed.

Section claims.
Context `{E : Env}.

(** [makeXset] returns for every well-formed set of view changes (no nil
    dereference), and when it succeeds the batch it returns is a checkpoint of
    one of them with the highest sequence number. *)
Theorem makeXset_total (cfg : Config) (view : Z) (vcs : list ViewChange) :
  Forall wf_vc vcs →
  ∃ r, makeXset cfg view vcs = Ok r ∧
    match r with Some (_, best) => is_best vcs best | None => True end.
Proof.
  intros Hv. destruct (decide (vcs = [])) as [->|Hne]; [by exists None|].
  destruct (makeXset_cases cfg view vcs Hv Hne) as (best & r & Hb & Hr & Hc).
  exists r. split; [done|]. by destruct r as [[[x|] b]|]; simpl in Hc; [destruct Hc as [-> _]..|].
Qed.

(** [makeXset] succeeds exactly when condition A (some prepared tuple is
    compatible with a quorum and pre-prepared by a correct replica) or
    condition B (a quorum has no prepared entry) of PBFT's view change holds. *)
Theorem makeXset_succeeds_iff (cfg : Config) (view : Z) (vcs : list ViewChange) (best : Batch) :
  Forall wf_vc vcs → is_best vcs best →
  let next := u64 (batch_seq best + 1) in
  (∃ x b, makeXset cfg view vcs = Ok (Some (x, b))) ↔
  (∃ m t, m ∈ vcs ∧ t ∈ vc_Pset m ∧ selectable cfg vcs next t)
  ∨ noFaultyQuorum cfg ≤ count (vacant next) vcs.
Proof.
  intros Hv [(v0 & Hv0 & Hbest) Hmax] next.
  assert (vcs ≠ []) as Hne by (intros ->; set_solver).
  destruct (makeXset_cases cfg view vcs Hv Hne) as (b & r & [(v1 & Hv1 & Hb) Hmax'] & Hr & Hc).
  assert (batch_seq b = batch_seq best) as Heq.
  { pose proof (Hmax v1 Hv1) as H1. pose proof (Hmax' v0 Hv0) as H2.
    unfold cseq in H1, H2. rewrite Hb in H1. rewrite Hbest in H2. lia. }
  rewrite Heq in Hc. fold next in Hc. rewrite Hr.
  destruct r as [[[x|] b']|]; simpl in Hc.
  - split; [intros _; left; naive_solver|intros _; by exists (Some x), b'].
  - split; [intros _; right; tauto|intros _; by exists None, b'].
  - destruct Hc as [Hlt Hno]. split; [by intros (? & ? & ?)|].
    intros [(m & t & Hm & Ht & Hs)|?]; [exfalso; by eapply Hno|lia].
Qed.

(** C2. View changes preserve what may have been committed: if a set of view
    changes that meets every quorum prepared digest [d] for the next sequence
    number in view [v], no later view prepared another digest for it, and fewer
    than [F+1] messages claim to have pre-prepared beyond it, then [makeXset]
    either fails or selects exactly [d] — never another digest or a null
    request. *)
Theorem makeXset_preserves_prepared (cfg : Config) (view : Z) (vcs : list ViewChange)
    (best : Batch) (v : Z) (d : slice) :
  valid_config cfg → Forall wf_vc vcs → is_best vcs best →
  let next := u64 (batch_seq best + 1) in
  (∀ m u, m ∈ vcs → u ∈ vc_Pset m → sv_Seq (tseq u) = next → v < sv_View (tseq u) →
    sub_Digest u = d) →
  Z.of_nat (length vcs) - noFaultyQuorum cfg
    < count (λ m, Exists (λ u, tseq u = mkSeqView v next ∧ sub_Digest u = d) (vc_Pset m)) vcs →
  count (λ m, Exists (λ u, next < sv_Seq (tseq u)) (vc_Qset m)) vcs < oneCorrectQuorum cfg →
  makeXset cfg view vcs = Ok None
  ∨ ∃ b, makeXset cfg view vcs = Ok (Some (Some (mkSubject (Some (mkSeqView view next)) d), b)).
Proof.
  intros Hcfg Hv [(v0 & Hv0 & Hbest) Hmax] next Hlater Hblock Hq.
  assert (vcs ≠ []) as Hne by (intros ->; set_solver).
  destruct (makeXset_cases cfg view vcs Hv Hne) as (b & r & [(v1 & Hv1 & Hb) Hmax'] & Hr & Hc).
  assert (batch_seq b = batch_seq best) as Heq.
  { pose proof (Hmax v1 Hv1) as H1. pose proof (Hmax' v0 Hv0) as H2.
    unfold cseq in H1, H2. rewrite Hb in H1. rewrite Hbest in H2. lia. }
  rewrite Heq in Hc. fold next in Hc.
  destruct r as [[[x|] b']|]; simpl in Hc; [right|exfalso|by left].
  - destruct Hc as (-> & Hx & m & t & Hm & Ht & Hs & Hd).
    assert (sub_Digest t = d) as Ht'.
    { eapply selectable_agrees; [exact Hcfg|exact Hlater|done|done| |done]. by exists m. }
    exists b. rewrite Hr. repeat f_equal. destruct x as [xs xd]. simpl in *. congruence.
  - destruct Hc as [-> Hvac].
    destruct (filter_overlap (vacant next)
      (λ m, Exists (λ u, tseq u = mkSeqView v next ∧ sub_Digest u = d) (vc_Pset m)) vcs)
      as (mp & _ & Hvac' & Hex).
    { unfold count in *. lia. }
    apply Exists_exists in Hex as (u & Hu & Hseq & _).
    unfold vacant in Hvac'. rewrite Forall_forall in Hvac'.
    specialize (Hvac' u Hu). rewrite Hseq in Hvac'. simpl in Hvac'. lia.
Qed.

End claims.

(** *** Witnesses: four replicas, one faulty *)
Module XsetWitness.

(** A toy codec: one byte for the sequence number. *)
#[local] Instance toy_env : Env := {|
  marshal_header h := [byte_of_Z (bh_Seq h)];
  unmarshal_header b := match b with
    | [c] => Some (mkBatchHeader (Z_of_byte c) None None) | _ => None end;
  marshal_vc _ := [];
  unmarshal_vc _ := None;
  sys_sign _ _ := [];
  sys_check_sig _ _ _ := true;
  shuffle _ _ l := l |}.

Definition cfg4 : Config := mkConfig 4 1 0 10 0.
Definition cp0 : Batch := mkBatch [byte_of_Z 0] [] ∅.
Definition dA : slice := Some [byte_of_Z 7].
Definition tA : Subject := mkSubject (Some (mkSeqView 0 1)) dA.
Definition vcA : ViewChange := mkViewChange 1 [tA] [tA] (Some cp0).
Definition vcs3 : list ViewChange := [vcA; vcA; mkViewChange 1 [] [] (Some cp0)].

Lemma wf_vcA : wf_vc vcA.
Proof. split; [by eexists _, _|by repeat econstructor..]. Defined.
Lemma wf_vcs3 : Forall wf_vc vcs3.
Proof.
  do 2 (constructor; [apply wf_vcA|]). constructor; [|constructor].
  split; [by eexists _, _|apply Forall_nil_2..].
Defined.
Lemma best_vcs3 : is_best vcs3 cp0.
Proof.
  split.
  - exists vcA. split; [constructor|done].
  - apply Forall_forall. repeat (constructor; [vm_compute; discriminate|]). constructor.
Defined.

Lemma noFaultyQuorum_intersect_witness :
  oneCorrectQuorum cfg4 ≤ Z.of_nat (size (({[0; 1; 2]} : gset Z) ∩ {[1; 2; 3]})).
Proof.
  apply (noFaultyQuorum_intersect cfg4 {[0; 1; 2; 3]} {[0; 1; 2]} {[1; 2; 3]}).
  - unfold valid_config. simpl. lia.
  - reflexivity.
  - set_solver.
  - set_solver.
  - vm_compute. discriminate.
  - vm_compute. discriminate.
Defined.

Lemma makeXset_total_witness :
  ∃ r, makeXset cfg4 1 vcs3 = Ok r ∧
    match r with Some (_, best) => is_best vcs3 best | None => True end.
Proof. apply (makeXset_total cfg4 1 vcs3 wf_vcs3). Defined.

Lemma makeXset_succeeds_iff_witness :
  ∃ x b, makeXset cfg4 1 vcs3 = Ok (Some (x, b)).
Proof.
  apply (makeXset_succeeds_iff cfg4 1 vcs3 cp0 wf_vcs3 best_vcs3). left.
  exists vcA, tA. split; [constructor|]. split; [constructor|].
  split_and!; vm_compute; discriminate.
Defined.

Lemma makeXset_preserves_prepared_witness :
  makeXset cfg4 1 vcs3 = Ok None
  ∨ ∃ b, makeXset cfg4 1 vcs3 =
      Ok (Some (Some (mkSubject (Some (mkSeqView 1 (u64 (batch_seq cp0 + 1)))) dA), b)).
Proof.
  apply (makeXset_preserves_prepared cfg4 1 vcs3 cp0 0 dA).
  - unfold valid_config. simpl. lia.
  - apply wf_vcs3.
  - apply best_vcs3.
  - intros m u Hm Hu _ Hlt. exfalso. revert Hlt.
    apply list_elem_of_In in Hm. simpl in Hm.
    destruct Hm as [<-|[<-|[<-|[]]]]; apply list_elem_of_In in Hu; simpl in Hu;
      destruct_or?; try done; subst; simpl; lia.
  - vm_compute. reflexivity.
  - vm_compute. reflexivity.
Defined.

(** With three view changes, two of which prepared [dA], the rule does select
    [dA]; the third outcome (failure) is for sets below the quorum. *)
Example makeXset_selects :
  makeXset cfg4 1 vcs3 = Ok (Some (Some (mkSubject (Some (mkSeqView 1 1)) dA), cp0)).
Proof. vm_compute. reflexivity. Qed.

End XsetWitness.
