(* ===== verification/Sbft.v ===== *)
(** * Simplified PBFT: the replica's handlers (orderer/sbft/simplebft)

    One definition per method of [SBFT], in the state monad [M SBFT]: the state
    is threaded, a nil dereference, an index out of range, [panic] and
    [log.Fatalf] are [Panic].  The only recursion, [processBacklog] through
    [handleCheckpoint], is bounded by the number of stored messages. *)

From stdpp Require Import base numbers strings gmap list.
From S2P Require Import Prelude Sha256 SbftTypes SbftMerkle SbftXset.
Local Open Scope Z_scope.

Section sbft.
Context `{E : Env}.

Abbreviation SM := (M SBFT).

(** ** System calls *)
Definition Send (m : Msg) (dest : Z) : SM unit :=
  modify (set_sys (set_out (λ o, o ++ [OSend m dest]))).

Definition lastBatch (y : Sys) : Batch :=
  default (makeBatch 0 None []) (last (sys_batches y)).
Definition LastBatch : SM Batch := gets (λ s, lastBatch (s_sys s)).

Definition Deliver (b : Batch) : SM unit :=
  modify (set_sys (λ y, set_out (λ o, o ++ [ODeliver b]) (set_batches (λ l, l ++ [b]) y))).

Definition Timer (d : Z) (f : timer_fn) : SM Canceller :=
  id ← gets (λ s, sys_next_timer (s_sys s));
  _ ← modify (set_sys (λ y, set_next_timer S (set_timers <[id := (d, f)]> y)));
  mret (TimerCanceller id).

Definition Cancel (c : Canceller) : SM unit :=
  match c with
  | DummyCanceller => mret tt
  | TimerCanceller id => modify (set_sys (set_timers (delete id)))
  end.

Definition Persist (key : string) (data : pmsg) : SM unit :=
  modify (set_sys (set_store <[key := data]>)).

Definition Reconnect (replica : Z) : SM unit :=
  modify (set_sys (set_out (λ o, o ++ [OReconnect replica]))).

(** [for k, v := range m]: the entries in this iteration's order. *)
Definition range_map {K V} `{Countable K} (m : gmap K V) : SM (list (K * V)) :=
  n ← gets (λ s, sys_rand (s_sys s));
  _ ← modify (set_sys (set_rand S));
  mret (shuffle n (map_to_list m)).

(** [s.replicaState[i]], read and update. *)
Definition replica (i : Z) : SM replicaInfo :=
  rs ← gets s_replicaState;
  if bool_decide (0 ≤ i) then lift (deref (rs !! Z.to_nat i)) else go_panic.

Definition update_replica (i : Z) (f : replicaInfo → replicaInfo) : SM unit :=
  _ ← replica i;
  modify (set_replicaState (alter f (Z.to_nat i))).

(** ** simplebft.go *)
Definition primaryID (s : SBFT) : Z := primaryIDView (s_config s) (s_view s).
Definition isPrimary (s : SBFT) : bool := bool_decide (primaryID s = s_id s).

Definition seq : SM Z := b ← LastBatch; h ← lift (DecodeHeader b); mret (bh_Seq h).

Definition nextSeq : SM SeqView :=
  n ← seq; v ← gets s_view; mret (mkSeqView v (u64 (n + 1))).

Definition nextView (s : SBFT) : Z := u64 (s_view s + 1).

Definition broadcast (m : Msg) : SM unit :=
  n ← gets (λ s, cfg_N (s_config s));
  for_each (seqZ 0 n) (λ i, Send m i).

Definition deliverBatch (batch : Batch) : SM unit :=
  _ ← Deliver batch;
  for_each (b_Payloads batch) (λ req, modify (set_pending (delete (hash2str (hash req))))).

(** [s.cur.subject.Seq.Seq] *)
Definition curSeq : SM Z :=
  c ← gets s_cur; sv ← lift (deref (sub_Seq (cur_subject c))); mret (sv_Seq sv).

(** ** prepare.go, commit.go, execute.go, checkpoint.go: sending *)
Definition sendPrepare : SM unit :=
  p ← gets (λ s, cur_subject (s_cur s)); broadcast (MsgPrepare p).

Definition sendCommit : SM unit :=
  _ ← modify (set_cur (set_sentCommit true));
  c ← gets (λ s, cur_subject (s_cur s));
  _ ← Persist "commit" (PSubject c);
  broadcast (MsgCommit c).

Definition maybeSendCommit : SM unit :=
  s ← get;
  if cur_sentCommit (s_cur s)
     || bool_decide (map_len (cur_prep (s_cur s)) < noFaultyQuorum (s_config s) - 1)
  then mret tt else sendCommit.

Definition makeCheckpoint : SM Checkpoint :=
  id ← gets s_id;
  sub ← gets (λ s, cur_subject (s_cur s));
  let sig := sys_sign id (sl (sub_Digest sub)) in
  sv ← lift (deref (sub_Seq sub));
  mret (mkCheckpoint (sv_Seq sv) (sub_Digest sub) sig).

Definition sendCheckpoint : SM unit := c ← makeCheckpoint; broadcast (MsgCheckpoint c).

Definition maybeExecute : SM unit :=
  s ← get;
  if cur_executed (s_cur s)
     || bool_decide (map_len (cur_commit (s_cur s)) < noFaultyQuorum (s_config s))
  then mret tt
  else
    _ ← modify (set_cur (set_executed true));
    sub ← gets (λ s, cur_subject (s_cur s));
    _ ← Persist "execute" (PSubject sub);
    sendCheckpoint.

(** ** preprepare.go *)
Definition acceptPreprepare (pp : Preprepare) : SM unit :=
  b ← lift (deref (pp_Batch pp));
  let sub := mkSubject (pp_Seq pp) (Some (batch_Hash b)) in
  _ ← Persist "preprepare" (PPreprepare pp);
  cfg ← gets s_config;
  t ← Timer (i64 (cfg_RequestTimeoutNsec cfg)) FRequestTimeout;
  modify (set_cur (λ _, mkReqInfo sub t (Some pp) (Some ∅) (Some ∅) false false (Some ∅) false)).

Definition handleCheckedPreprepare (pp : Preprepare) : SM unit :=
  _ ← acceptPreprepare pp;
  s ← get;
  _ ← (if isPrimary s then mret tt else sendPrepare);
  maybeSendCommit.

Definition sendPreprepare (batch : list Request) : SM unit :=
  sq ← nextSeq;
  let data := req_Payload <$> batch in
  lb ← LastBatch;
  let lasthash := hash (b_Header lb) in
  let m := mkPreprepare (Some sq) (Some (makeBatch (sv_Seq sq) (Some lasthash) data)) in
  _ ← Persist "preprepare" (PPreprepare m);
  _ ← broadcast (MsgPreprepare m);
  handleCheckedPreprepare m.

Definition handlePreprepare (pp : Preprepare) (src : Z) : SM unit :=
  s ← get;
  if bool_decide (src = s_id s) then mret tt else
  if negb (bool_decide (src = primaryID s)) then mret tt else
  nextsq ← nextSeq;
  ppseq ← lift (deref (pp_Seq pp));
  if negb (bool_decide (ppseq = nextsq)) then mret tt else
  cs ← curSeq;
  if bool_decide (cs = sv_Seq ppseq) then mret tt else
  match pp_Batch pp with
  | None => mret tt
  | Some b =>
      r ← lift (checkBatch (s_config s) (Some b) true false);
      match r with
      | None => mret tt
      | Some bh =>
          if negb (bool_decide (bh_Seq bh = sv_Seq ppseq)) then mret tt else
          lb ← LastBatch;
          if negb (bytes_Equal (bh_PrevHash bh) (Some (batch_Hash lb))) then mret tt else
          handleCheckedPreprepare pp
      end
  end.

(** ** request.go *)
Definition batchSize (batch : list Request) : Z :=
  fold_left (λ size req, u64 (size + Z.of_nat (length (req_Payload req)))) batch 0.

Definition maybeSendNextBatch : SM unit :=
  bt ← gets s_batchTimer;
  _ ← (match bt with
       | Some c => _ ← Cancel c; modify (set_batchTimer None)
       | None => mret tt
       end);
  s ← get;
  if negb (isPrimary s) || negb (s_activeView s) then mret tt else
  if negb (cur_checkpointDone (s_cur s)) then mret tt else
  _ ← (if bool_decide (s_batch s = [])
       then l ← range_map (s_pending s); modify (set_batch l.*2)
       else mret tt);
  batch ← gets s_batch;
  if bool_decide (batch = []) then mret tt else
  _ ← modify (set_batch []);
  sendPreprepare batch.

Definition startBatchTimer : SM unit :=
  bt ← gets s_batchTimer;
  match bt with
  | Some _ => mret tt
  | None =>
      cfg ← gets s_config;
      t ← Timer (i64 (cfg_BatchDurationNsec cfg)) FMaybeSendNextBatch;
      modify (set_batchTimer (Some t))
  end.

Definition RequestM (req : bytes) : SM unit := broadcast (MsgRequest (mkRequest req)).

Definition handleRequest (req : Request) (src : Z) : SM unit :=
  let key := hash2str (hash (req_Payload req)) in
  _ ← modify (set_pending <[key := req]>);
  s ← get;
  if isPrimary s && s_activeView s then
    _ ← modify (set_batch (s_batch s ++ [req]));
    batch ← gets s_batch;
    if bool_decide (batchSize batch >= cfg_BatchSizeBytes (s_config s))
    then maybeSendNextBatch else startBatchTimer
  else mret tt.

(** ** prepare.go, commit.go: receiving *)
Definition cancelViewChangeTimer : SM unit :=
  t ← gets s_viewChangeTimer;
  _ ← Cancel t;
  cfg ← gets s_config;
  modify (set_viewChangeTimeout (i64 (i64 (cfg_RequestTimeoutNsec cfg) * 2))).

Definition handlePrepare (p : Subject) (src : Z) : SM unit :=
  psq ← lift (deref (sub_Seq p));
  cs ← curSeq;
  if bool_decide (sv_Seq psq < cs) then mret tt else
  c ← gets s_cur;
  if negb (bool_decide (p = cur_subject c)) then mret tt else
  match map_get (cur_prep c) src with
  | Some _ => mret tt
  | None =>
      prep ← lift (map_set (cur_prep c) src p);
      _ ← modify (set_cur (set_prep prep));
      maybeSendCommit
  end.

Definition handleCommit (c : Subject) (src : Z) : SM unit :=
  csq ← lift (deref (sub_Seq c));
  cs ← curSeq;
  if bool_decide (sv_Seq csq < cs) then mret tt else
  cur ← gets s_cur;
  if negb (bool_decide (c = cur_subject cur)) then mret tt else
  match map_get (cur_commit cur) src with
  | Some _ => mret tt
  | None =>
      commit ← lift (map_set (cur_commit cur) src c);
      _ ← modify (set_cur (set_commit commit));
      _ ← cancelViewChangeTimer;
      maybeExecute
  end.

(** ** checkpoint.go: receiving *)

(** The loop over [s.cur.checkpoint]: sources grouped by printed digest, and
    the last digest seen with a weak quorum. *)
Fixpoint tally (quorum : Z) (cps : list (Z * Checkpoint))
    (sums : gmap string (list Z)) (max : string) : gmap string (list Z) * string :=
  match cps with
  | [] => (sums, max)
  | (csrc, c) :: rest =>
      let sum := sprintf_x (sl (cp_Digest c)) in
      let srcs := default [] (sums !! sum) ++ [csrc] in
      tally quorum rest (<[sum := srcs]> sums)
        (if bool_decide (Z.of_nat (length srcs) >= quorum) then sum else max)
  end.

(** The signatures of the sources in [replicas]. *)
Fixpoint weak_sigs (cps : option (gmap Z Checkpoint)) (replicas : list Z) : res (gmap Z bytes) :=
  match replicas with
  | [] => Ok ∅
  | r :: rest =>
      cp ← deref (map_get cps r);
      m ← weak_sigs cps rest;
      Ok (<[r := cp_Signature cp]> m)
  end.

Definition handleCheckpoint (processBacklog : SM unit) (c : Checkpoint) (src : Z) : SM unit :=
  cur ← gets s_cur;
  if cur_checkpointDone cur then mret tt else
  cs ← curSeq;
  if bool_decide (cp_Seq c < cs) then mret tt else
  if negb (sys_check_sig (sl (cp_Digest c)) src (cp_Signature c)) then mret tt else
  if negb (bool_decide (cp_Seq c = cs)) then mret tt else
  cps ← lift (map_set (cur_checkpoint cur) src c);
  _ ← modify (set_cur (set_checkpoint cps));
  cfg ← gets s_config;
  entries ← range_map (default ∅ cps);
  let '(sums, max) := tally (oneCorrectQuorum cfg) entries ∅ "_" in
  match sums !! max with
  | None => mret tt
  | Some replicas =>
      (* a weak checkpoint *)
      cpset ← lift (weak_sigs cps replicas);
      _ ← modify (set_cur (set_checkpointDone true));
      r0 ← lift (deref (head replicas));
      c0 ← lift (deref (map_get cps r0));
      cur ← gets s_cur;
      if negb (bool_decide (cp_Digest c0 = sub_Digest (cur_subject cur))) then go_panic else
      pp ← lift (deref (cur_preprep cur));
      b ← lift (deref (pp_Batch pp));
      _ ← deliverBatch (mkBatch (b_Header b) (b_Payloads b) cpset);
      t ← gets (λ s, cur_timeout (s_cur s));
      _ ← Cancel t;
      _ ← maybeSendNextBatch;
      processBacklog
  end.

(** ** backlog.go *)
Definition maxBacklogSeq : Z := 4.
Definition msgPerSeq : Z := 3.

Definition record (sq : option SeqView) (s : SBFT) : res bool :=
  if negb (s_activeView s) then Ok true else
  sq ← deref sq;
  cs ← deref (sub_Seq (cur_subject (s_cur s)));
  Ok (bool_decide (sv_Seq sq > sv_Seq cs) || bool_decide (sv_View sq > s_view s)).

Definition testBacklogMessage (m : Msg) (src : Z) (s : SBFT) : res bool :=
  match m with
  | MsgPreprepare pp => r ← record (pp_Seq pp) s; Ok (r && negb (cur_checkpointDone (s_cur s)))
  | MsgPrepare p => record (sub_Seq p) s
  | MsgCommit c => record (sub_Seq c) s
  | MsgCheckpoint _ => record (Some (mkSeqView 0 0)) s
  | _ => Ok false
  end.

Definition testBacklog (m : Msg) (src : Z) : SM bool :=
  r ← replica src;
  if bool_decide (ri_backLog r ≠ []) then mret true else
  s ← get; lift (testBacklogMessage m src s).

Definition discardBacklog (src : Z) : SM unit := update_replica src (set_backLog []).

Definition recordBacklogMsg (m : Msg) (src : Z) : SM unit :=
  id ← gets s_id;
  if bool_decide (src = id) then go_panic else
  _ ← update_replica src (λ r, set_backLog (ri_backLog r ++ [m]) r);
  r ← replica src;
  if bool_decide (Z.of_nat (length (ri_backLog r)) > maxBacklogSeq * msgPerSeq)
  then _ ← discardBacklog src; Reconnect src
  else mret tt.

Definition handleQueueableMessage (processBacklog : SM unit) (m : Msg) (src : Z) : SM unit :=
  match m with
  | MsgPreprepare pp => handlePreprepare pp src
  | MsgPrepare p => handlePrepare p src
  | MsgCommit c => handleCommit c src
  | MsgCheckpoint c => handleCheckpoint processBacklog c src
  | _ => mret tt
  end.

(** The loop [for len(state.backLog) > 0] for one source; the result is
    whether it processed a message. *)
Fixpoint drain (processBacklog : SM unit) (fuel : nat) (src : Z) : SM bool :=
  r ← replica src;
  match ri_backLog r with
  | [] => mret false
  | m :: rest =>
      s ← get;
      notReady ← lift (testBacklogMessage m src s);
      if (notReady : bool) then mret false else
      _ ← update_replica src (set_backLog rest);
      _ ← handleQueueableMessage processBacklog m src;
      match fuel with
      | O => out_of_fuel
      | S fuel => _ ← drain processBacklog fuel src; mret true
      end
  end.

(** The loop over all sources. *)
Fixpoint sweep (processBacklog : SM unit) (fuel : nat) (srcs : list Z) (processed : bool) : SM bool :=
  match srcs with
  | [] => mret processed
  | src :: rest =>
      p ← drain processBacklog fuel src;
      sweep processBacklog fuel rest (p || processed)
  end.

Fixpoint processBacklog_fuel (fuel : nat) : SM unit :=
  match fuel with
  | O => out_of_fuel
  | S fuel =>
      n ← gets (λ s, length (s_replicaState s));
      processed ← sweep (processBacklog_fuel fuel) fuel (Z.of_nat <$> List.seq 0 n) false;
      if (processed : bool) then processBacklog_fuel fuel else mret tt
  end.

(** The number of stored messages bounds the work. *)
Definition backlog_size (s : SBFT) : nat :=
  sum_list_with (λ r, length (ri_backLog r)) (s_replicaState s).

Definition processBacklog : SM unit := λ s, processBacklog_fuel (S (backlog_size s)) s.

(** ** newview.go *)
Fixpoint collect_vset (view : Z) (src : Z) (rs : list replicaInfo)
    : gmap Z Signed * list ViewChange :=
  match rs with
  | [] => (∅, [])
  | r :: rest =>
      let '(vset, vcs) := collect_vset view (src + 1) rest in
      match ri_viewchange r, ri_signedViewchange r with
      | Some vc, Some svc =>  (* the two fields are assigned together *)
          if bool_decide (vc_View vc = view) then (<[src := svc]> vset, vc :: vcs)
          else (vset, vcs)
      | _, _ => (vset, vcs)
      end
  end.

Definition maybeSendNewView : SM unit :=
  s ← get;
  if match s_lastNewViewSent s with
     | Some nv => bool_decide (nv_View nv = s_view s)
     | None => false
     end then mret tt else
  let '(vset, vcs) := collect_vset (s_view s) 0 (s_replicaState s) in
  r ← lift (makeXset (s_config s) (s_view s) vcs);
  match r with
  | None => mret tt
  | Some (xset, _) =>
      xb ← (match xset with
            | None => mret (None, None)
            | Some x =>
                if bool_decide (sub_Digest (cur_subject (s_cur s)) = sub_Digest x)
                then pp ← lift (deref (cur_preprep (s_cur s))); mret (Some x, pp_Batch pp)
                else mret (None, None)
            end);
      let nv := mkNewView (s_view s) vset xb.1 xb.2 in
      _ ← modify (set_lastNewViewSent (Some nv));
      broadcast (MsgNewView nv)
  end.

(** [None] is an error return. *)
Definition checkSig_vc (sig : Signed) (signer : Z) : option ViewChange :=
  if sys_check_sig (sg_Data sig) signer (sg_Signature sig)
  then unmarshal_vc (sg_Data sig) else None.

Fixpoint check_vset (cfg : Config) (view : Z) (l : list (Z * Signed))
    : res (option (list ViewChange)) :=
  match l with
  | [] => Ok (Some [])
  | (vcsrc, svc) :: rest =>
      match checkSig_vc svc vcsrc with
      | None => Ok None
      | Some vc =>
          r ← checkBatch cfg (vc_Checkpoint vc) false true;
          if negb (bool_decide (vc_View vc = view)) then Ok None else
          match r with
          | None => Ok None
          | Some _ =>
              vcs ← check_vset cfg view rest;
              match vcs with None => Ok None | Some vcs => Ok (Some (vc :: vcs)) end
          end
      end
  end.

Definition checkNewViewSignatures (nv : NewView) : SM (option (list ViewChange)) :=
  cfg ← gets s_config;
  l ← range_map (nv_Vset nv);
  lift (check_vset cfg (nv_View nv) l).

Definition maybeDeliverUsingXset (nv : NewView) : SM unit :=
  vcs ← checkNewViewSignatures nv;
  match vcs with
  | None => go_panic
  | Some vcs =>
      s ← get;
      r ← lift (makeXset (s_config s) (s_view s) vcs);
      match r with
      | None => go_panic
      | Some (_, prevBatch) =>
          n ← seq;
          h ← lift (DecodeHeader prevBatch);
          if bool_decide (n < bh_Seq h) then
            cs ← curSeq;
            pb ← (if bool_decide (bh_Seq h = cs)
                  then pp ← lift (deref (cur_preprep (s_cur s)));
                       b ← lift (deref (pp_Batch pp));
                       mret (mkBatch (b_Header prevBatch) (b_Payloads b) (b_Signatures prevBatch))
                  else mret prevBatch);
            _ ← modify (set_cur (set_checkpointDone true));
            deliverBatch pb
          else mret tt
      end
  end.

(** [s.cur.subject.Seq.Seq = 0], through the pointer the subject shares with
    the accepted pre-prepare. *)
Definition zeroCurSeq : SM unit :=
  c ← gets s_cur;
  sv ← lift (deref (sub_Seq (cur_subject c)));
  let sv0 := Some (mkSeqView (sv_View sv) 0) in
  _ ← modify (set_cur (set_subject (mkSubject sv0 (sub_Digest (cur_subject c)))));
  match cur_preprep c with
  | None => mret tt
  | Some pp => modify (set_cur (set_preprep (Some (mkPreprepare sv0 (pp_Batch pp)))))
  end.

Definition processNewView : SM unit :=
  s ← get;
  if s_activeView s then mret tt else
  r ← replica (primaryID s);
  match ri_newview r with
  | None => mret tt
  | Some nv =>
      if negb (bool_decide (nv_View nv = s_view s)) then mret tt else
      _ ← modify (set_activeView true);
      _ ← discardBacklog (primaryID s);
      _ ← maybeDeliverUsingXset nv;
      _ ← modify (set_cur (set_checkpointDone true));
      _ ← zeroCurSeq;
      _ ← (match nv_Batch nv with
           | Some b =>
               h ← lift (DecodeHeader b);
               v ← gets s_view;
               handleCheckedPreprepare (mkPreprepare (Some (mkSeqView v (bh_Seq h))) (Some b))
           | None => _ ← cancelViewChangeTimer; maybeSendNextBatch
           end);
      processBacklog
  end.

(** ** viewchange.go *)
Definition drop_old_viewchange (view : Z) (r : replicaInfo) : replicaInfo :=
  match ri_viewchange r with
  | Some vc => if bool_decide (vc_View vc < view) then set_viewchange None r else r
  | None => r
  end.

Definition sendViewChange : SM unit :=
  _ ← modify (λ s, set_view (nextView s) s);
  t ← gets (λ s, cur_timeout (s_cur s));
  _ ← Cancel t;
  _ ← modify (set_activeView false);
  _ ← modify (λ s, set_replicaState (fmap (drop_old_viewchange (s_view s))) s);
  s ← get;
  let c := s_cur s in
  let p := if cur_sentCommit c then [cur_subject c] else [] in
  let q := if cur_preprep c is Some _ then [cur_subject c] else [] in
  lb ← LastBatch;
  let checkpoint := mkBatch (b_Header lb) [] (b_Signatures lb) in
  let vc := mkViewChange (s_view s) p q (Some checkpoint) in
  let data := marshal_vc vc in
  let svc := mkSigned data (sys_sign (s_id s) data) in
  _ ← Cancel (s_viewChangeTimer s);
  _ ← Cancel (cur_timeout c);
  _ ← broadcast (MsgViewChange svc);
  processNewView.

Definition requestTimeout : SM unit := sendViewChange.

Definition viewChangeTimedOut : SM unit :=
  _ ← modify (λ s, set_viewChangeTimeout (i64 (s_viewChangeTimeout s * 2)) s);
  sendViewChange.

(** The count of pending view changes and the smallest view among them. *)
Fixpoint vc_quorum (rs : list replicaInfo) (quorum min : Z) : Z * Z :=
  match rs with
  | [] => (quorum, min)
  | r :: rest =>
      match ri_viewchange r with
      | Some vc => vc_quorum rest (quorum + 1)
                     (if bool_decide (vc_View vc < min) then vc_View vc else min)
      | None => vc_quorum rest quorum min
      end
  end.

Definition handleViewChange (svc : Signed) (src : Z) : SM unit :=
  match checkSig_vc svc src with
  | None => mret tt
  | Some vc =>
      cfg ← gets s_config;
      cb ← lift (checkBatch cfg (vc_Checkpoint vc) false true);
      match cb with
      | None => mret tt
      | Some _ =>
          s ← get;
          if bool_decide (vc_View vc < s_view s) then mret tt else
          r ← replica src;
          if match ri_viewchange r with
             | Some ovc => bool_decide (vc_View vc <= vc_View ovc)
             | None => false
             end then mret tt else
          _ ← update_replica src (λ r, set_signedViewchange (Some svc) (set_viewchange (Some vc) r));
          rs ← gets s_replicaState;
          let '(quorum, min) := vc_quorum rs 0 (vc_View vc) in
          if bool_decide (quorum = oneCorrectQuorum cfg) && bool_decide (s_view s < min) then
            _ ← modify (set_view (u64 (min - 1)));
            sendViewChange
          else
            _ ← (if bool_decide (quorum = noFaultyQuorum cfg)
                 then d ← gets s_viewChangeTimeout;
                      t ← Timer d FViewChangeTimeout;
                      modify (set_viewChangeTimer t)
                 else mret tt);
            s ← get;
            if isPrimary s then maybeSendNewView else mret tt
      end
  end.

Definition handleNewView (nv : NewView) (src : Z) : SM unit :=
  cfg ← gets s_config;
  if negb (bool_decide (src = primaryIDView cfg (nv_View nv))) then mret tt else
  r ← replica (primaryIDView cfg (nv_View nv));
  if match ri_newview r with
     | Some onv => bool_decide (nv_View onv >= nv_View nv)
     | None => false
     end then mret tt else
  vcs ← checkNewViewSignatures nv;
  match vcs with
  | None => sendViewChange
  | Some vcs =>
      s ← get;
      xr ← lift (makeXset cfg (s_view s) vcs);
      if match xr with
         | None => true
         | Some (xset, _) => negb (bool_decide (nv_Xset nv = xset))
         end then sendViewChange else
      bad ← (match nv_Xset nv, nv_Batch nv with
             | None, Some _ => mret true
             | None, None => mret false
             | Some _, None => go_panic  (* the warning dereferences nv.Batch *)
             | Some x, Some b => mret (negb (bytes_Equal (Some (batch_Hash b)) (sub_Digest x)))
             end);
      if (bad : bool) then sendViewChange else
      cb ← (match nv_Batch nv with
            | Some b => lift (checkBatch cfg (Some b) true false)
            | None => mret (Some (mkBatchHeader 0 None None))
            end);
      match cb with
      | None => sendViewChange
      | Some _ =>
          _ ← update_replica (primaryIDView cfg (nv_View nv)) (set_newview (Some nv));
          s ← get;
          _ ← (if bool_decide (nv_View nv > s_view s)
               then modify (λ s, set_activeView false (set_view (nv_View nv) s))
               else mret tt);
          processNewView
      end
  end.

(** ** connection.go *)
Definition Connection (dest : Z) : SM unit :=
  s ← get;
  lb ← LastBatch;
  let batch := mkBatch (b_Header lb) [] (b_Signatures lb) in
  let hello := mkHello (Some batch)
    (if isPrimary s && s_activeView s then s_lastNewViewSent s else None) in
  _ ← Send (MsgHello hello) dest;
  r ← replica (s_id s);
  _ ← (match ri_signedViewchange r with
       | Some svc => Send (MsgViewChange svc) dest
       | None => mret tt
       end);
  cb ← lift (checkBatch (s_config s) (Some batch) false true);
  bh ← lift (deref cb);
  cs ← curSeq;
  if bool_decide (cs > bh_Seq bh) && s_activeView s then
    let c := s_cur s in
    _ ← (if isPrimary s
         then pp ← lift (deref (cur_preprep c)); Send (MsgPreprepare pp) dest
         else Send (MsgPrepare (cur_subject c)) dest);
    _ ← (if cur_sentCommit c then Send (MsgCommit (cur_subject c)) dest else mret tt);
    (if cur_executed c then cp ← makeCheckpoint; Send (MsgCheckpoint cp) dest else mret tt)
  else mret tt.

Definition handleHello (h : Hello) (src : Z) : SM unit :=
  s ← get;
  cb ← lift (checkBatch (s_config s) (h_Batch h) false true);
  match cb with
  | None => mret tt
  | Some bh =>
      n ← seq;
      hb ← lift (deref (h_Batch h));
      _ ← (if bool_decide (n < bh_Seq bh) then deliverBatch hb else mret tt);
      continue ← (match h_NewView h with
        | None => mret true
        | Some nv =>
            if negb (bool_decide (primaryIDView (s_config s) (nv_View nv) = src)) then mret false else
            vcs ← checkNewViewSignatures nv;
            match vcs with
            | None => mret false
            | Some vcs =>
                xr ← lift (makeXset (s_config s) (s_view s) vcs);
                match xr with
                | None => mret false
                | Some _ =>
                    _ ← (if bool_decide (s_view s <= nv_View nv)
                         then modify (λ s, set_activeView true (set_view (nv_View nv) s))
                         else mret tt);
                    _ ← maybeDeliverUsingXset nv;
                    mret true
                end
            end
        end);
      if (continue : bool) then
        _ ← update_replica src (set_hello (Some h));
        _ ← discardBacklog src;
        processBacklog
      else mret tt
  end.

(** ** The Receiver interface *)
Definition Receive (m : Msg) (src : Z) : SM unit :=
  match m with
  | MsgHello h => handleHello h src
  | MsgRequest req => handleRequest req src
  | MsgViewChange vs => handleViewChange vs src
  | MsgNewView nv => handleNewView nv src
  | _ =>
      b ← testBacklog m src;
      if (b : bool) then recordBacklogMsg m src
      else handleQueueableMessage processBacklog m src
  end.

(** Events the System raises. *)
Inductive event :=
  | EReceive (m : Msg) (src : Z)
  | ERequest (req : bytes)
  | EConnection (replica : Z)
  | ETimer (id : nat).

Definition handle_event (e : event) : SM unit :=
  match e with
  | EReceive m src => Receive m src
  | ERequest req => RequestM req
  | EConnection r => Connection r
  | ETimer id =>
      ts ← gets (λ s, sys_timers (s_sys s));
      match ts !! id with
      | None => mret tt
      | Some (_, f) =>
          _ ← modify (set_sys (set_timers (delete id)));
          match f with
          | FRequestTimeout => requestTimeout
          | FMaybeSendNextBatch => maybeSendNextBatch
          | FViewChangeTimeout => viewChangeTimedOut
          end
      end
  end.

(** ** New *)
Definition Restore_preprepare (y : Sys) : option Preprepare :=
  match sys_store y !! "preprepare" with Some (PPreprepare pp) => Some pp | _ => None end.
Definition Restore_subject (key : string) (y : Sys) : option Subject :=
  match sys_store y !! key with Some (PSubject s) => Some s | _ => None end.

Definition init_cur : reqInfo :=
  mkReqInfo (mkSubject (Some (mkSeqView 0 0)) None) DummyCanceller None None None true true None true.

Definition init_SBFT (id : Z) (config : Config) (y : Sys) : SBFT :=
  mkSBFT y config id 0 [] None init_cur false None 0 DummyCanceller
    (replicate (Z.to_nat (cfg_N config)) empty_replicaInfo) ∅.

Definition New_body : SM unit :=
  y ← gets s_sys;
  _ ← (match Restore_preprepare y with
       | Some pp =>
           sv ← lift (deref (pp_Seq pp));
           _ ← modify (set_view (sv_View sv));
           n ← seq;
           if bool_decide (sv_Seq sv > n) then acceptPreprepare pp else mret tt
       | None => mret tt
       end);
  y ← gets s_sys;
  let c := Restore_subject "commit" y in
  sub ← gets (λ s, cur_subject (s_cur s));
  _ ← (match c with
       | Some c => if bool_decide (c = sub) then modify (set_cur (set_sentCommit true)) else mret tt
       | None => mret tt
       end);
  _ ← (match Restore_subject "execute" y with
       | Some _ =>
           (* the code compares the restored commit record, not the execute record *)
           if bool_decide (default (mkSubject None None) c = sub)
           then modify (set_cur (set_executed true)) else mret tt
       | None => mret tt
       end);
  n ← seq;
  _ ← (if bool_decide (n = 0) then modify (set_activeView true) else mret tt);
  cancelViewChangeTimer.

(** [Ok None] is the error return. *)
Definition New (id : Z) (config : Config) (y : Sys) : res (option SBFT) :=
  if bool_decide (u64 (cfg_F config * 3 + 1) > cfg_N config) then Ok None else
  r ← New_body (init_SBFT id config y);
  Ok (Some r.2).

End sbft.
