(* ===== verification/SbftFrame.v ===== *)
(** * What the handlers of the SBFT replica leave alone

    Termination of the result computations, and the operations that do not
    touch the protocol core of the replica (configuration, view, current
    request, backlogs, delivered batches, commits sent): they are [framed]. *)

From stdpp Require Import base numbers strings gmap list.
From S2P Require Import Prelude Sha256 SbftTypes SbftMerkle SbftXset Sbft.
Local Open Scope Z_scope.

Section frame.
Context `{E : Env}.

(** ** Termination of the result computations *)
Lemma terminates_DecodeHeader b : terminates (DecodeHeader b).
Proof. apply terminates_deref. Qed.
Lemma terminates_checkBatch cfg b d n : terminates (checkBatch cfg b d n).
Proof. unfold checkBatch. solve_terminates. Qed.
Lemma terminates_map_set {V} (m : option (gmap Z V)) k v : terminates (map_set m k v).
Proof. by destruct m. Qed.
Lemma terminates_checkpoint_seq vc : terminates (checkpoint_seq vc).
Proof. unfold checkpoint_seq. solve_terminates. Qed.
Lemma terminates_xset_best best vcs : terminates (xset_best best vcs).
Proof.
  revert best. induction vcs as [|vc vcs IH]; intros best; simpl; [done|].
  apply terminates_bind; [apply terminates_checkpoint_seq|]. intros.
  case_match; [|done]. apply terminates_bind; [apply terminates_DecodeHeader|].
  intros. by case_match.
Qed.
Lemma terminates_a1_compatible v d l : terminates (a1_compatible v d l).
Proof. induction l; simpl; solve_terminates. Qed.
Lemma terminates_a1_count v d l : terminates (a1_count v d l).
Proof.
  induction l; simpl; [done|]. apply terminates_bind; [apply terminates_checkpoint_seq|].
  intros. case_match; [done|].
  apply terminates_bind; [apply terminates_a1_compatible|]. intros. solve_terminates.
Qed.
Lemma terminates_a2_supported v d l : terminates (a2_supported v d l).
Proof. induction l; simpl; solve_terminates. Qed.
Lemma terminates_a2_count v d l : terminates (a2_count v d l).
Proof.
  induction l; simpl; [done|].
  apply terminates_bind; [apply terminates_a2_supported|]. intros. solve_terminates.
Qed.
Lemma terminates_scan_pset cfg vcs n nf l : terminates (scan_pset cfg vcs n nf l).
Proof.
  revert nf. induction l; intros nf; simpl; [done|].
  apply terminates_bind; [apply terminates_deref|]. intros. case_match; [done|].
  apply terminates_bind; [apply terminates_a1_count|]. intros. case_match; [done|].
  apply terminates_bind; [apply terminates_a2_count|]. intros. by case_match.
Qed.
Lemma terminates_scan_vcs cfg vcs n e l : terminates (scan_vcs cfg vcs n e l).
Proof.
  revert e. induction l; intros e; simpl; [done|].
  apply terminates_bind; [apply terminates_scan_pset|]. intros [? [?|]] _; done.
Qed.
Lemma terminates_makeXset cfg v vcs : terminates (makeXset cfg v vcs).
Proof.
  apply terminates_bind; [apply terminates_xset_best|]. intros [b|] _; [|done].
  apply terminates_bind; [apply terminates_DecodeHeader|]. intros.
  apply terminates_bind; [apply terminates_scan_vcs|]. intros [? ?] _. by repeat case_match.
Qed.
Lemma terminates_check_vset cfg v l : terminates (check_vset cfg v l).
Proof.
  induction l as [|[k x] l IH]; simpl; [done|]. case_match; [|done].
  apply terminates_bind; [apply terminates_checkBatch|]. intros.
  case_match; [done|]. case_match; [|done]. apply terminates_bind; [done|].
  intros. by case_match.
Qed.
Lemma terminates_weak_sigs cps l : terminates (weak_sigs cps l).
Proof. induction l; simpl; solve_terminates. Qed.
Lemma terminates_record sq s : terminates (record sq s).
Proof. unfold record. solve_terminates. Qed.
Lemma terminates_testBacklogMessage m src s : terminates (testBacklogMessage m src s).
Proof.
  unfold testBacklogMessage. destruct m; try done; try apply terminates_record.
  apply terminates_bind; [apply terminates_record|done].
Qed.

End frame.

#[export] Hint Resolve terminates_DecodeHeader terminates_checkBatch terminates_map_set
  terminates_makeXset terminates_check_vset terminates_weak_sigs
  terminates_testBacklogMessage : gofuel.

(** ** Commits in the output trace *)
Definition commit_of (o : output) : option Subject :=
  match o with OSend (MsgCommit c) _ => Some c | _ => None end.
Definition commits (s : SBFT) : list Subject := omap commit_of (sys_out (s_sys s)).

(** ** The protocol core *)
Record core_eq (s s' : SBFT) : Prop := {
  ce_config : s_config s' = s_config s;
  ce_id : s_id s' = s_id s;
  ce_view : s_view s' = s_view s;
  ce_cur : s_cur s' = s_cur s;
  ce_active : s_activeView s' = s_activeView s;
  ce_replicas : s_replicaState s' = s_replicaState s;
  ce_batches : sys_batches (s_sys s') = sys_batches (s_sys s);
  ce_commits : commits s' = commits s }.

#[global] Instance core_eq_refl : Reflexive core_eq.
Proof. done. Qed.
#[global] Instance core_eq_trans : Transitive core_eq.
Proof. intros x y z [] []. split; congruence. Qed.

Section framed.
Context `{E : Env}.

Definition framed {A} (m : M SBFT A) : Prop := ∀ s, wp m (λ _, core_eq s) s.

Lemma framed_bind {A B} (m : M SBFT A) (f : A → M SBFT B) :
  framed m → (∀ a, framed (f a)) → framed (m ≫= f).
Proof.
  intros Hm Hf s. apply wp_bind. eapply wp_mono; [apply Hm|].
  intros a s' Hs. eapply wp_mono; [apply Hf|]. intros b s'' Hs'.
  by transitivity s'.
Qed.
Lemma framed_ret {A} (a : A) : framed (mret a).
Proof. intros s. by apply wp_ret. Qed.
Lemma framed_get : framed get.
Proof. intros s. by apply wp_get. Qed.
Lemma framed_gets {A} (f : SBFT → A) : framed (gets f).
Proof. intros s. by apply wp_gets. Qed.
Lemma framed_lift {A} (r : res A) : terminates r → framed (lift r).
Proof. intros Hr s. by apply wp_lift. Qed.
Lemma framed_panic {A} : framed (A := A) go_panic.
Proof. done. Qed.
Lemma framed_modify f : (∀ s, core_eq s (f s)) → framed (modify f).
Proof. intros Hf s. by apply wp_modify. Qed.
Lemma framed_for_each {A} (l : list A) f : (∀ x, framed (f x)) → framed (for_each l f).
Proof.
  intros Hf. induction l as [|x l IH]; simpl; [apply framed_ret|].
  by apply framed_bind.
Qed.

End framed.

(** Proves [framed] of code built from framed operations. *)
Create HintDb goframe.
Ltac solve_framed :=
  repeat first
    [ progress intros
    | solve [eauto with goframe]
    | match goal with
      | |- framed (mbind _ _) => apply framed_bind
      | |- framed (mret _) => apply framed_ret
      | |- framed get => apply framed_get
      | |- framed (gets _) => apply framed_gets
      | |- framed go_panic => apply framed_panic
      | |- framed (for_each _ _) => apply framed_for_each
      | |- framed (lift _) => apply framed_lift; solve [eauto with gofuel]
      | |- framed (modify _) => apply framed_modify; intros; solve [split; reflexivity]
      end
    | case_match ].

Section framed_ops.
Context `{E : Env}.

Lemma framed_Send m dest :
  (∀ c, m ≠ MsgCommit c) → framed (Send m dest).
Proof.
  intros Hm. apply framed_modify. intros s. split; try reflexivity.
  unfold commits. simpl. rewrite omap_app. simpl. destruct m; simpl; try apply app_nil_r.
  by destruct (Hm c).
Qed.
Lemma framed_broadcast m : (∀ c, m ≠ MsgCommit c) → framed (broadcast m).
Proof.
  intros Hm. apply framed_bind; [apply framed_gets|]. intros n.
  apply framed_for_each. intros. by apply framed_Send.
Qed.
Lemma framed_LastBatch : framed LastBatch.
Proof. apply framed_gets. Qed.
Lemma framed_Timer d f : framed (Timer d f).
Proof. unfold Timer. solve_framed. Qed.
Lemma framed_Cancel c : framed (Cancel c).
Proof. unfold Cancel. solve_framed. Qed.
Lemma framed_Persist k d : framed (Persist k d).
Proof. unfold Persist. solve_framed. Qed.
Lemma framed_Reconnect r : framed (Reconnect r).
Proof.
  unfold Reconnect. apply framed_modify. intros s. split; try reflexivity.
  unfold commits. simpl. rewrite omap_app. simpl. apply app_nil_r.
Qed.
Lemma framed_range_map {K V} `{Countable K} (m : gmap K V) : framed (range_map m).
Proof. unfold range_map. solve_framed. Qed.
Lemma framed_replica i : framed (replica i).
Proof. unfold replica. solve_framed. Qed.
Lemma framed_seq : framed seq.
Proof. unfold seq. solve_framed. apply framed_LastBatch. Qed.
Lemma framed_nextSeq : framed nextSeq.
Proof. unfold nextSeq. solve_framed. apply framed_seq. Qed.
Lemma framed_curSeq : framed curSeq.
Proof. unfold curSeq. solve_framed. Qed.
Lemma framed_makeCheckpoint : framed makeCheckpoint.
Proof. unfold makeCheckpoint. solve_framed. Qed.
Lemma framed_sendPrepare : framed sendPrepare.
Proof. unfold sendPrepare. solve_framed. by apply framed_broadcast. Qed.
Lemma framed_sendCheckpoint : framed sendCheckpoint.
Proof.
  unfold sendCheckpoint. apply framed_bind; [apply framed_makeCheckpoint|].
  intros. by apply framed_broadcast.
Qed.
Lemma framed_cancelViewChangeTimer : framed cancelViewChangeTimer.
Proof. unfold cancelViewChangeTimer. solve_framed. apply framed_Cancel. Qed.
Lemma framed_startBatchTimer : framed startBatchTimer.
Proof. unfold startBatchTimer. solve_framed. apply framed_Timer. Qed.
Lemma framed_checkNewViewSignatures nv : framed (checkNewViewSignatures nv).
Proof. unfold checkNewViewSignatures. solve_framed. apply framed_range_map. Qed.
Lemma framed_maybeSendNewView : framed maybeSendNewView.
Proof. unfold maybeSendNewView. solve_framed; by apply framed_broadcast. Qed.
Lemma framed_RequestM r : framed (RequestM r).
Proof. by apply framed_broadcast. Qed.

End framed_ops.

#[export] Hint Resolve framed_Timer framed_Cancel framed_Persist framed_Reconnect
  framed_range_map framed_replica framed_seq framed_nextSeq framed_curSeq
  framed_makeCheckpoint framed_sendPrepare framed_sendCheckpoint framed_LastBatch
  framed_cancelViewChangeTimer framed_startBatchTimer framed_checkNewViewSignatures
  framed_maybeSendNewView framed_RequestM : goframe.
