(* ===== verification/SbftInv.v ===== *)
(** * Invariants of the SBFT replica

    The invariant [inv] of one replica, relative to a predicate [auth] on the
    messages its peers send: the structure of the current request, the quorums
    behind its [sentCommit] and [executed] flags, the certificates of delivered
    batches, bounded backlogs, and the order in which commits are sent.  Every
    handler preserves it and terminates. *)

From stdpp Require Import base numbers strings gmap list.
From S2P Require Import Prelude Sha256 SbftTypes SbftMerkle SbftXset SbftXsetProofs Sbft SbftFrame.
Local Open Scope Z_scope.

Section inv.
Context `{E : Env} `{L : !EnvLaws E}.
Context (auth : Z → Msg → Prop).

Definition cfg_ok (cfg : Config) : Prop := valid_config cfg ∧ 2 ≤ cfg_N cfg - cfg_F cfg.

(** A batch whose header decodes and whose signatures pass [checkBatch]. *)
Definition certified (cfg : Config) (b : Batch) : Prop :=
  ∃ h, checkBatch cfg (Some b) false true = Ok (Some h).

Definition last_seq (s : SBFT) : Z := batch_seq (lastBatch (s_sys s)).
Definition cur_view (c : reqInfo) : Z := sv_View (tseq (cur_subject c)).
Definition cur_seq (c : reqInfo) : Z := sv_Seq (tseq (cur_subject c)).

(** The maps and flags of an accepted request. *)
Record accepted (cfg : Config) (c : reqInfo) (pp : Preprepare) (b : Batch)
    (P C : gmap Z Subject) (K : gmap Z Checkpoint) : Prop := {
  acc_pp : cur_preprep c = Some pp;
  acc_batch : pp_Batch pp = Some b;
  acc_digest : sub_Digest (cur_subject c) = Some (batch_Hash b);
  acc_seq : cur_checkpointDone c = false → batch_seq b = cur_seq c;
  acc_decodes : decodes (Some b);
  acc_prep : cur_prep c = Some P;
  acc_commit : cur_commit c = Some C;
  acc_checkpoint : cur_checkpoint c = Some K;
  acc_sent : cur_sentCommit c = true → noFaultyQuorum cfg - 1 ≤ Z.of_nat (size P);
  acc_exec : cur_executed c = true → noFaultyQuorum cfg ≤ Z.of_nat (size C);
  acc_commits k x : C !! k = Some x →
    auth k (MsgCommit x) ∧ 0 ≤ k < cfg_N cfg ∧
    (cur_seq c ≠ 0 → x = cur_subject c);
  acc_cps k x : K !! k = Some x →
    sys_check_sig (sl (cp_Digest x)) k (cp_Signature x) = true }.

(** No request accepted yet. *)
Record idle (c : reqInfo) : Prop := {
  idle_pp : cur_preprep c = None;
  idle_prep : cur_prep c = None;
  idle_commit : cur_commit c = None;
  idle_checkpoint : cur_checkpoint c = None;
  idle_done : cur_checkpointDone c = true;
  idle_sent : cur_sentCommit c = true;
  idle_exec : cur_executed c = true;
  idle_seq : cur_seq c = 0 }.

Definition cur_ok (cfg : Config) (c : reqInfo) : Prop :=
  has_seq (cur_subject c) ∧ (idle c ∨ ∃ pp b P C K, accepted cfg c pp b P C K).

(** Any stored new-view message proposes a batch no further than one after the
    best checkpoint of its view changes. *)
Definition newview_ok (cfg : Config) (nv : NewView) : Prop :=
  ∀ b l vcs best, nv_Batch nv = Some b → l ≡ₚ map_to_list (nv_Vset nv) →
    check_vset cfg (nv_View nv) l = Ok (Some vcs) → is_best vcs best →
    batch_seq b ≤ batch_seq best + 1.

Definition replica_ok (cfg : Config) (id : Z) (i : nat) (r : replicaInfo) : Prop :=
  (length (ri_backLog r) ≤ 12)%nat ∧ Forall (auth (Z.of_nat i)) (ri_backLog r) ∧
  (Z.of_nat i = id → ri_backLog r = []) ∧
  (∀ nv, ri_newview r = Some nv → newview_ok cfg nv).

(** The order of commits: each commit sent has a view at most the current one
    (below it while a view change is in progress), lies at or before the
    current request in its view, and is superseded once the replica is past
    its view. *)
Definition commit_ordered (view : Z) (active : bool) (c : reqInfo) (x : Subject) : Prop :=
  sv_Seq (tseq x) ≠ 0 →
  sv_View (tseq x) ≤ view ∧
  (active = false → sv_View (tseq x) < view) ∧
  (sv_View (tseq x) = cur_view c → cur_seq c ≠ 0 →
    sv_Seq (tseq x) < cur_seq c
    ∨ (sv_Seq (tseq x) = cur_seq c ∧ sub_Digest x = sub_Digest (cur_subject c))) ∧
  (cur_view c < sv_View (tseq x) ∨ (sv_View (tseq x) = cur_view c ∧ cur_seq c = 0) →
    sv_View (tseq x) < view).

Definition commit_once (cs : list Subject) : Prop :=
  ∀ x y, x ∈ cs → y ∈ cs → tseq x = tseq y → sv_Seq (tseq x) ≠ 0 →
    sub_Digest x = sub_Digest y.

(** No batch carries the last sequence number [2^64-1]. *)
Definition fresh (s : SBFT) : Prop :=
  Forall (λ b, batch_seq b < u64_max) (sys_batches (s_sys s)).

Record base (s : SBFT) : Prop := {
  base_cfg : cfg_ok (s_config s);
  base_len : Z.of_nat (length (s_replicaState s)) = cfg_N (s_config s);
  base_view : 0 ≤ s_view s;
  base_cur : cur_ok (s_config s) (s_cur s);
  base_cur_view : cur_view (s_cur s) ≤ s_view s;
  base_cert : Forall (certified (s_config s)) (sys_batches (s_sys s));
  base_replicas i r : s_replicaState s !! i = Some r →
    replica_ok (s_config s) (s_id s) i r }.

Record safe (s : SBFT) : Prop := {
  safe_last : cur_seq (s_cur s) - 1 ≤ last_seq s;
  safe_done : cur_checkpointDone (s_cur s) = true → cur_seq (s_cur s) ≤ last_seq s;
  safe_order x : x ∈ commits s →
    commit_ordered (s_view s) (s_activeView s) (s_cur s) x;
  safe_once : commit_once (commits s) }.

Definition inv (s : SBFT) : Prop := base s ∧ (fresh s → safe s).

(** ** The invariant depends on the core only *)
Lemma last_seq_core s s' : core_eq s s' → last_seq s' = last_seq s.
Proof. intros []. unfold last_seq, lastBatch. congruence. Qed.

Lemma base_core s s' : core_eq s s' → base s → base s'.
Proof. intros [] []. split; try congruence. intros i r. rewrite ce_replicas, ce_config, ce_id. auto. Qed.

Lemma safe_core s s' : core_eq s s' → safe s → safe s'.
Proof.
  intros Hc []. pose proof (last_seq_core s s' Hc) as Hl. destruct Hc.
  split; rewrite ?Hl, ?ce_cur, ?ce_commits, ?ce_view, ?ce_active; auto.
Qed.

Lemma fresh_core s s' : core_eq s s' → fresh s' → fresh s.
Proof. intros []. unfold fresh. congruence. Qed.

Lemma inv_core s s' : core_eq s s' → inv s → inv s'.
Proof.
  intros Hc [Hb Hs]. split; [by eapply base_core|].
  intros Hf. eapply safe_core; eauto using fresh_core.
Qed.

Lemma wp_framed {A} (m : M SBFT A) (Q : A → SBFT → Prop) s :
  framed m → (∀ a s', core_eq s s' → Q a s') → wp m Q s.
Proof. intros Hm HQ. eapply wp_mono; [apply Hm|]. auto. Qed.

(** ** Elementary facts *)
Lemma certified_decodes cfg b : certified cfg b → decodes (Some b).
Proof.
  intros [h Hh]. unfold checkBatch in Hh. simpl in Hh.
  destruct (unmarshal_header (b_Header b)) as [h'|] eqn:E'; [|discriminate].
  by exists b, h'.
Qed.

Lemma decodes_seq b : decodes (Some b) → DecodeHeader b = Ok (mkBatchHeader (batch_seq b)
  (match unmarshal_header (b_Header b) with Some h => bh_PrevHash h | None => None end)
  (match unmarshal_header (b_Header b) with Some h => bh_DataHash h | None => None end)).
Proof.
  intros (b' & h & [= <-] & Hh). unfold DecodeHeader, batch_seq. rewrite Hh. by destruct h.
Qed.

Lemma DecodeHeader_Ok b h : DecodeHeader b = Ok h → decodes (Some b) ∧ bh_Seq h = batch_seq b.
Proof.
  unfold DecodeHeader, batch_seq. intros Hh%deref_Ok. rewrite Hh. split; [by exists b, h|done].
Qed.

Lemma batch_seq_range b : 0 ≤ batch_seq b < 2 ^ 64.
Proof.
  unfold batch_seq. destruct (unmarshal_header (b_Header b)) as [h|] eqn:Eh; [|lia].
  by eapply unmarshal_header_u64.
Qed.

Lemma cfg_quorums cfg : cfg_ok cfg →
  noFaultyQuorum cfg = cfg_N cfg - cfg_F cfg ∧ oneCorrectQuorum cfg = cfg_F cfg + 1
  ∧ 1 ≤ noFaultyQuorum cfg - 1.
Proof.
  intros [Hv H2]. rewrite noFaultyQuorum_eq, oneCorrectQuorum_eq by done. lia.
Qed.

Lemma genesis_header : unmarshal_header (b_Header (makeBatch 0 None [])) = Some (mkBatchHeader 0 None None).
Proof.
  simpl. apply unmarshal_marshal_header. unfold canonical_header. simpl. done.
Qed.

Lemma genesis_certified cfg : certified cfg (makeBatch 0 None []).
Proof.
  exists (mkBatchHeader 0 None None). unfold checkBatch. rewrite res_bind_Ok.
  exists (makeBatch 0 None []). split; [done|]. rewrite genesis_header. done.
Qed.

Lemma lastBatch_certified s : base s → certified (s_config s) (lastBatch (s_sys s)).
Proof.
  intros [_ _ _ _ _ Hc _]. unfold lastBatch.
  destruct (last (sys_batches (s_sys s))) as [b|] eqn:El; simpl; [|apply genesis_certified].
  rewrite Forall_forall in Hc. apply Hc. by apply last_Some_elem_of.
Qed.

Lemma certified_signed cfg b : certified cfg b →
  (∃ h, unmarshal_header (b_Header b) = Some h ∧ bh_PrevHash h = None)
  ∨ (oneCorrectQuorum cfg ≤ Z.of_nat (size (b_Signatures b))
     ∧ ∀ r sig, b_Signatures b !! r = Some sig → sys_check_sig (batch_Hash b) r sig = true).
Proof.
  intros [h Hh]. revert Hh. unfold checkBatch. simpl.
  destruct (unmarshal_header (b_Header b)) as [h'|]; [|done]. simpl.
  destruct (bh_PrevHash h') as [p|] eqn:Hp; [|intros _; left; eauto].
  case_bool_decide; [done|]. destruct (forallb _ _) eqn:Hf; [|done]. intros _. right.
  split; [lia|]. intros r sig Hr. rewrite forallb_forall in Hf.
  apply (Hf (r, sig)). by apply list_elem_of_In, elem_of_map_to_list.
Qed.

Lemma fresh_last s : fresh s → last_seq s < u64_max.
Proof.
  intros Hf. unfold last_seq, lastBatch.
  destruct (last (sys_batches (s_sys s))) as [b|] eqn:El; simpl.
  - unfold fresh in Hf. rewrite Forall_forall in Hf. apply Hf. by apply last_Some_elem_of.
  - unfold batch_seq. rewrite genesis_header. done.
Qed.

(** [seq] and [nextSeq] read the last batch. *)
Lemma wp_seq Q s : (decodes (Some (lastBatch (s_sys s))) → Q (last_seq s) s) → wp seq Q s.
Proof.
  intros HQ. unfold seq, LastBatch. repeat wp_step.
  apply DecodeHeader_Ok in E0 as [Hd Hs]. rewrite Hs. by apply HQ.
Qed.

Lemma wp_nextSeq Q s : Q (mkSeqView (s_view s) (u64 (last_seq s + 1))) s → wp nextSeq Q s.
Proof.
  intros HQ. unfold nextSeq. wp_step. apply wp_seq. intros _. by repeat wp_step.
Qed.

Lemma wp_curSeq Q s : (has_seq (cur_subject (s_cur s)) → Q (cur_seq (s_cur s)) s) → wp curSeq Q s.
Proof.
  intros HQ. unfold curSeq. repeat wp_step. unfold cur_seq, tseq in HQ. rewrite E0 in HQ.
  simpl in HQ. apply HQ. by exists a.
Qed.

End inv.
