(* ===== verification/SbftHandlers.v ===== *)
(** * The SBFT handlers preserve the invariant

    Accepting a pre-prepare, prepares, commits and checkpoints; the backlog
    loop: every pass of [processBacklog] either stops or has removed a stored
    message, so the fuel [backlog_size + 1] is enough, and the invariant is
    kept throughout. *)

From stdpp Require Import base numbers strings gmap list.
From S2P Require Import Prelude Sha256 SbftTypes SbftMerkle SbftXset SbftXsetProofs Sbft SbftFrame SbftInv.
Local Open Scope Z_scope.

(** Fields that the handlers of queueable messages leave alone. *)
Record queue_eq (s s' : SBFT) : Prop := {
  qe_config : s_config s' = s_config s;
  qe_id : s_id s' = s_id s;
  qe_view : s_view s' = s_view s;
  qe_active : s_activeView s' = s_activeView s;
  qe_replicas : s_replicaState s' = s_replicaState s }.

#[global] Instance queue_eq_refl : Reflexive queue_eq.
Proof. done. Qed.
#[global] Instance queue_eq_trans : Transitive queue_eq.
Proof. intros x y z [] []. split; congruence. Qed.
Lemma core_queue_eq s s' : core_eq s s' → queue_eq s s'.
Proof. intros []. by split. Qed.

(** Delivery of one batch. *)
Record deliver_eq (b : Batch) (s s' : SBFT) : Prop := {
  de_queue : queue_eq s s';
  de_cur : s_cur s' = s_cur s;
  de_batches : sys_batches (s_sys s') = sys_batches (s_sys s) ++ [b];
  de_commits : commits s' = commits s }.

Section handlers.
Context `{E : Env} `{L : !EnvLaws E}.
Context (auth : Z → Msg → Prop).

Abbreviation inv := (inv auth).
Abbreviation base := (base auth).

Definition new_cur (pp : Preprepare) (b : Batch) (t : Canceller) : reqInfo :=
  mkReqInfo (mkSubject (pp_Seq pp) (Some (batch_Hash b))) t (Some pp)
    (Some ∅) (Some ∅) false false (Some ∅) false.

Lemma wp_acceptPreprepare pp b (Q : unit → SBFT → Prop) s :
  pp_Batch pp = Some b →
  (∀ t s1, core_eq s s1 → Q tt (set_cur (λ _, new_cur pp b t) s1)) →
  wp (acceptPreprepare pp) Q s.
Proof.
  intros Hb HQ. unfold acceptPreprepare. rewrite Hb. repeat wp_step.
  eapply wp_framed; [apply framed_Persist|]. intros _ s1 H1. repeat wp_step.
  eapply wp_framed; [apply framed_Timer|]. intros t s2 H2. repeat wp_step.
  injection E0 as <-. apply HQ. by transitivity s1.
Qed.

(** When accepting [sv] keeps the order of commits. *)
Definition accept_ordered (s : SBFT) (sv : SeqView) : Prop :=
  (cur_seq (s_cur s) < sv_Seq sv ∧ 0 < sv_Seq sv)
  ∨ (∀ x, x ∈ commits s → sv_Seq (tseq x) ≠ 0 → sv_View (tseq x) < s_view s).

Lemma commit_ordered_accept s sv x :
  safe s → accept_ordered s sv → x ∈ commits s → cur_view (s_cur s) ≤ s_view s →
  sv_View sv = s_view s →
  ∀ c, sub_Seq (cur_subject c) = Some sv → commit_ordered (s_view s) (s_activeView s) c x.
Proof.
  intros [_ _ Hord _] Ho Hx Hcv Hsv c Hc Hnz.
  destruct (Hord x Hx Hnz) as (H1 & H2 & H3 & H4).
  unfold accept_ordered, cur_view, cur_seq in *.
  assert (tseq (cur_subject c) = sv) as -> by (unfold tseq; by rewrite Hc).
  split_and!; [done|done| |].
  - intros Hv Hnz'. left. destruct Ho as [[Ho1 Ho2]|Ho]; [|specialize (Ho x Hx Hnz); lia].
    destruct (decide (sv_View (tseq x) = sv_View (tseq (cur_subject (s_cur s))) ∧
      sv_Seq (tseq (cur_subject (s_cur s))) ≠ 0)) as [[He Hn]|Hne].
    + destruct (H3 He Hn) as [|[? _]]; lia.
    + assert (sv_View (tseq x) < s_view s); [apply H4|]; lia.
  - intros [?|[? Hz]]; [lia|]. destruct Ho as [[_ Ho2]|Ho]; [lia|by apply Ho].
Qed.

Lemma inv_accept s pp b sv t :
  inv s → pp_Batch pp = Some b → pp_Seq pp = Some sv → sv_View sv = s_view s →
  decodes (Some b) → batch_seq b = sv_Seq sv →
  (fresh s → sv_Seq sv - 1 ≤ last_seq s ∧ accept_ordered s sv) →
  inv (set_cur (λ _, new_cur pp b t) s).
Proof.
  intros [Hb Hs] Hpb Hps Hv Hd Hbs Ho. split.
  - destruct Hb. split; simpl; auto.
    + split; [exists sv; done|]. right. exists pp, b, ∅, ∅, ∅.
      split; simpl; try done; intros; try (by rewrite lookup_empty in *).
      unfold cur_seq, tseq. simpl. by rewrite Hps.
    + unfold cur_view, tseq. simpl. rewrite Hps. simpl. lia.
  - intros Hf. specialize (Hs Hf). destruct (Ho Hf) as [Hl Hao].
    split; simpl.
    + unfold cur_seq, tseq. simpl. rewrite Hps. done.
    + done.
    + intros x Hx. apply (commit_ordered_accept s sv); auto. apply Hb.
    + apply Hs.
Qed.

Lemma maybeSendCommit_few s :
  cfg_ok (s_config s) → cur_prep (s_cur s) = Some ∅ →
  maybeSendCommit s = Ok (tt, s).
Proof.
  intros Hcfg Hp. destruct (cfg_quorums _ Hcfg) as (_ & _ & Hq).
  unfold maybeSendCommit, get, mbind, M_bind. rewrite Hp. simpl. rewrite map_size_empty.
  rewrite bool_decide_eq_true_2 by lia. by rewrite orb_true_r.
Qed.

Lemma wp_handleCheckedPreprepare s pp b sv :
  inv s → pp_Batch pp = Some b → pp_Seq pp = Some sv → sv_View sv = s_view s →
  decodes (Some b) → batch_seq b = sv_Seq sv →
  (fresh s → sv_Seq sv - 1 ≤ last_seq s ∧ accept_ordered s sv) →
  wp (handleCheckedPreprepare pp) (λ _ s', inv s' ∧ queue_eq s s') s.
Proof.
  intros Hi Hpb Hps Hv Hd Hbs Ho. unfold handleCheckedPreprepare. wp_step.
  apply (wp_acceptPreprepare pp b); [done|]. intros t s1 Hc1. do 2 wp_step.
  set (s2 := set_cur _ s1).
  assert (inv s2) as Hi2.
  { apply (inv_accept s1 pp b sv); auto.
    - by eapply inv_core.
    - rewrite Hv. symmetry. apply Hc1.
    - intros Hf. destruct (Ho (fresh_core _ _ Hc1 Hf)) as [H1 H2].
      rewrite (last_seq_core _ _ Hc1). split; [done|]. unfold accept_ordered in *.
      by rewrite (ce_cur _ _ Hc1), (ce_commits _ _ Hc1), (ce_view _ _ Hc1). }
  assert (queue_eq s s2) as Hq2 by (destruct Hc1; by split).
  wp_step. apply (wp_mono _ (λ _ s', core_eq s2 s')).
  { destruct (isPrimary s2); [by apply wp_ret|apply framed_sendPrepare]. }
  intros _ s3 Hc3. assert (inv s3) as Hi3 by (by eapply inv_core).
  unfold wp. rewrite maybeSendCommit_few.
  - split; [done|]. transitivity s2; [done|by apply core_queue_eq].
  - apply Hi3.
  - by rewrite (ce_cur _ _ Hc3).
Qed.

(** ** Delivery *)
Lemma wp_deliverBatch b (Q : unit → SBFT → Prop) s :
  (∀ s', deliver_eq b s s' → Q tt s') → wp (deliverBatch b) Q s.
Proof.
  intros HQ. unfold deliverBatch, Deliver. do 2 wp_step.
  set (s1 := set_sys _ s).
  assert (deliver_eq b s s1) as H1.
  { split; try done. unfold commits. simpl. rewrite omap_app. simpl. apply app_nil_r. }
  eapply wp_mono; [apply (wp_for_each _ _ (λ s', deliver_eq b s s')); [exact H1|]|].
  - intros req s2 _ [[] ? ? ?]. wp_step. by repeat split.
  - intros [] s2 H2. by apply HQ.
Qed.

Lemma last_seq_deliver b s s' : deliver_eq b s s' → last_seq s' = batch_seq b.
Proof.
  intros [_ _ Hb _]. unfold last_seq, lastBatch. by rewrite Hb, last_snoc.
Qed.

Lemma fresh_deliver b s s' : deliver_eq b s s' → fresh s' → fresh s.
Proof.
  intros [_ _ Hb _]. unfold fresh. rewrite Hb. intros [? _]%Forall_app. done.
Qed.

Lemma base_deliver b s s' :
  deliver_eq b s s' → base s → certified (s_config s) b → base s'.
Proof.
  intros [[Hcfg Hid Hv Ha Hr] Hcur Hb Hcm] [B1 B2 B3 B4 B5 B6 B7] Hc.
  split; rewrite ?Hcfg, ?Hid, ?Hv, ?Hr, ?Hcur, ?Hb; auto.
  apply Forall_app. auto.
Qed.

Lemma safe_deliver b s s' :
  deliver_eq b s s' → safe s → last_seq s ≤ batch_seq b → safe s'.
Proof.
  intros Hd [S1 S2 S3 S4] Hl. pose proof (last_seq_deliver _ _ _ Hd) as Hls.
  destruct Hd as [[Hcfg Hid Hv Ha Hr] Hcur Hb Hcm].
  split; rewrite ?Hcur, ?Hcm, ?Hv, ?Ha, ?Hls; auto; [lia|].
  intros Hdone. specialize (S2 Hdone). lia.
Qed.

Lemma inv_deliver b s s' :
  deliver_eq b s s' → inv s → certified (s_config s) b → last_seq s ≤ batch_seq b → inv s'.
Proof.
  intros Hd [Hb Hs] Hc Hl. split; [by eapply base_deliver|].
  intros Hf. eapply safe_deliver; eauto. eauto using fresh_deliver.
Qed.

(** ** Proposing *)
Lemma wp_sendPreprepare batch s :
  inv s → cur_checkpointDone (s_cur s) = true →
  wp (sendPreprepare batch) (λ _ s', inv s' ∧ queue_eq s s') s.
Proof.
  intros Hi Hdone. unfold sendPreprepare, LastBatch. wp_step. apply wp_nextSeq. do 2 wp_step.
  set (sq := mkSeqView _ _). set (b := makeBatch _ _ _). set (pp := mkPreprepare _ _).
  wp_step. eapply wp_framed; [apply framed_Persist|]. intros _ s1 H1.
  wp_step. eapply wp_framed; [by apply framed_broadcast|]. intros _ s2 H2.
  assert (core_eq s s2) as Hc by (by transitivity s1).
  assert (unmarshal_header (b_Header b) =
    Some (mkBatchHeader (u64 (last_seq s + 1)) (Some (hash (b_Header (lastBatch (s_sys s)))))
      (merkleHashData (req_Payload <$> batch)))) as Hh.
  { subst b. simpl. apply unmarshal_marshal_header. split; [apply u64_range|split]; simpl.
    - intros [= Heq]. pose proof (sha256_length (b_Header (lastBatch (s_sys s)))) as Hl.
      unfold hash in Heq. by rewrite Heq in Hl.
    - apply merkleHashData_not_empty. }
  eapply wp_mono; [apply (wp_handleCheckedPreprepare s2 pp b sq)|].
  - by eapply inv_core.
  - done.
  - done.
  - simpl. symmetry. apply Hc.
  - by eexists _, _.
  - unfold batch_seq. by rewrite Hh.
  - intros Hf. rewrite (last_seq_core _ _ Hc). apply (fresh_core _ _ Hc) in Hf.
    destruct Hi as [Hb Hs]. pose proof (safe_done _ (Hs Hf) Hdone) as Hd.
    pose proof (fresh_last _ Hf). pose proof (batch_seq_range (lastBatch (s_sys s))) as Hr.
    fold (last_seq s) in Hr. unfold u64_max in *. simpl. rewrite u64_small by lia.
    split; [lia|]. left. rewrite (ce_cur _ _ Hc). simpl. rewrite u64_small by lia. lia.
  - intros ? s' [Hi' Hq]. split; [done|]. transitivity s2; [by apply core_queue_eq|done].
Qed.

Lemma wp_maybeSendNextBatch s :
  inv s → wp maybeSendNextBatch (λ _ s', inv s' ∧ queue_eq s s') s.
Proof.
  intros Hi. unfold maybeSendNextBatch. do 3 wp_step.
  apply (wp_mono _ (λ _ s', core_eq s s')).
  { destruct (s_batchTimer s); [|by apply wp_ret]. wp_step.
    eapply wp_framed; [apply framed_Cancel|]. intros _ s1 H1. wp_step.
    destruct H1. by split. }
  intros _ s1 H1. do 2 wp_step.
  assert (inv s1) as Hi1 by (by eapply inv_core).
  assert (queue_eq s s1) as Hq1 by (by apply core_queue_eq).
  destruct (_ || _); [by apply wp_ret|].
  destruct (cur_checkpointDone (s_cur s1)) eqn:Hdone; simpl; [|by apply wp_ret].
  wp_step. apply (wp_mono _ (λ _ s', core_eq s1 s')).
  { case_match; [|by apply wp_ret]. wp_step. eapply wp_framed; [apply framed_range_map|].
    intros l s2 H2. wp_step. destruct H2. by split. }
  intros _ s2 H2. do 2 wp_step.
  case_match; [apply wp_ret; split; [by eapply inv_core|transitivity s1; [done|by apply core_queue_eq]]|].
  do 2 wp_step.
  eapply wp_mono; [apply wp_sendPreprepare|].
  - eapply inv_core; [|exact Hi1]. destruct H2. by split.
  - simpl. by rewrite (ce_cur _ _ H2).
  - intros ? s' [Hi' Hq]. split; [done|]. transitivity s1; [done|].
    destruct H2, Hq. split; simpl in *; congruence.
Qed.

(** ** Receiving a pre-prepare *)
Lemma checkBatch_Some cfg b d n h :
  checkBatch cfg (Some b) d n = Ok (Some h) → unmarshal_header (b_Header b) = Some h.
Proof.
  unfold checkBatch. simpl. destruct (unmarshal_header _) as [h'|]; [|done].
  repeat case_match; by intros [= ->].
Qed.

Lemma record_false sq s :
  record sq s = Ok false →
  s_activeView s = true ∧ ∃ sv, sq = Some sv ∧ sv_Seq sv ≤ cur_seq (s_cur s)
    ∧ sv_View sv ≤ s_view s.
Proof.
  unfold record. destruct (s_activeView s); simpl; [|done].
  destruct sq as [sv|]; simpl; [|done].
  destruct (sub_Seq (cur_subject (s_cur s))) as [cs|] eqn:Ec; simpl; [|done].
  intros [= [H1 H2]%orb_false_elim]. apply bool_decide_eq_false in H1, H2.
  split; [done|]. exists sv. unfold cur_seq, tseq. rewrite Ec. simpl.
  split_and!; [done|lia|lia].
Qed.

Lemma wp_handlePreprepare pp src s :
  inv s → testBacklogMessage (MsgPreprepare pp) src s = Ok false →
  wp (handlePreprepare pp src) (λ _ s', inv s' ∧ queue_eq s s') s.
Proof.
  intros Hi Htest. unfold handlePreprepare. do 2 wp_step.
  case_match; [by apply wp_ret|]. case_match; [by apply wp_ret|].
  wp_step. apply wp_nextSeq. do 2 wp_step.
  destruct (bool_decide (a = _)) eqn:Ha; simpl; [apply bool_decide_eq_true in Ha|by apply wp_ret].
  wp_step. apply wp_curSeq. intros _.
  destruct (bool_decide (_ = sv_Seq a)) eqn:Hcs; [by apply wp_ret|apply bool_decide_eq_false in Hcs].
  destruct (pp_Batch pp) as [b|] eqn:Hpb; [|by apply wp_ret].
  do 2 wp_step. destruct a0 as [bh|]; [|by apply wp_ret].
  destruct (bool_decide (bh_Seq bh = _)) eqn:Hbh; simpl; [apply bool_decide_eq_true in Hbh|by apply wp_ret].
  unfold LastBatch. do 2 wp_step. case_match; [by apply wp_ret|].
  apply checkBatch_Some in E1.
  apply (wp_handleCheckedPreprepare s pp b a); auto.
  - by subst a.
  - by eexists _, _.
  - unfold batch_seq. by rewrite E1.
  - intros Hf. destruct Hi as [Hb Hs]. specialize (Hs Hf).
    pose proof (fresh_last _ Hf). pose proof (batch_seq_range (lastBatch (s_sys s))) as Hr.
    fold (last_seq s) in Hr. unfold u64_max in *.
    assert (sv_Seq a = last_seq s + 1) as Hn by (subst a; simpl; by rewrite u64_small by lia).
    split; [lia|]. left. simpl in Htest.
    destruct (cur_checkpointDone (s_cur s)) eqn:Hdone.
    + pose proof (safe_done _ Hs Hdone). lia.
    + apply res_bind_Ok in Htest as (r & Hr1 & Hr2). rewrite andb_true_r in Hr2.
      injection Hr2 as ->. apply record_false in Hr1 as (_ & sv & Hsv & Hle & _).
      rewrite E0 in Hsv. injection Hsv as <-. pose proof (safe_last _ Hs). lia.
Qed.

(** ** Updates of the current request's maps and flags *)
Lemma inv_set_cur f s :
  inv s → cur_subject (f (s_cur s)) = cur_subject (s_cur s) →
  cur_checkpointDone (f (s_cur s)) = cur_checkpointDone (s_cur s) →
  cur_ok auth (s_config s) (f (s_cur s)) → inv (set_cur f s).
Proof.
  intros [[] Hs] Hsub Hdone Hok. split.
  - split; simpl; auto. unfold cur_view. by rewrite Hsub.
  - intros Hf. destruct (Hs Hf). unfold commit_ordered, cur_seq, cur_view in *.
    split; simpl; unfold commit_ordered, cur_seq, cur_view; rewrite ?Hsub, ?Hdone; auto.
Qed.

(** The current request after a successful write to one of its maps. *)
Lemma cur_accepted cfg c : cur_ok auth cfg c → cur_prep c ≠ None ∨ cur_commit c ≠ None
    ∨ cur_checkpoint c ≠ None →
  ∃ pp b P C K, accepted auth cfg c pp b P C K.
Proof. intros [_ [[]|H]] Hne; [naive_solver|done]. Qed.

(** ** Sending a commit *)
Lemma commits_broadcast c s :
  wp (broadcast (MsgCommit c))
    (λ _ s', (∀ x, x ∈ commits s' → x ∈ commits s ∨ x = c) ∧ queue_eq s s'
       ∧ s_cur s' = s_cur s ∧ sys_batches (s_sys s') = sys_batches (s_sys s)) s.
Proof.
  unfold broadcast. do 2 wp_step.
  apply (wp_for_each _ _ (λ s', (∀ x, x ∈ commits s' → x ∈ commits s ∨ x = c) ∧ queue_eq s s'
    ∧ s_cur s' = s_cur s ∧ sys_batches (s_sys s') = sys_batches (s_sys s))).
  - by split_and!; [left|..].
  - intros i s1 _ (H1 & [] & H3 & H4). unfold Send. wp_step. split_and!; [|by split|done|done].
    intros x. unfold commits. simpl. rewrite omap_app, elem_of_app. simpl.
    intros [?|?]; [by apply H1|]. right. set_solver.
Qed.

(** Sending the commit of the current request keeps the order of commits. *)
Lemma inv_commit_sent s s' :
  inv s → s_activeView s = true → queue_eq s s' → s_cur s' = s_cur s →
  sys_batches (s_sys s') = sys_batches (s_sys s) →
  (∀ x, x ∈ commits s' → x ∈ commits s ∨ x = cur_subject (s_cur s)) → inv s'.
Proof.
  intros [Hb Hs] Hact [Q1 Q2 Q3 Q4 Q5] Hcur Hbat Hc. split.
  { destruct Hb. split; rewrite ?Q1, ?Q2, ?Q3, ?Q4, ?Q5, ?Hcur, ?Hbat; auto. }
  assert (last_seq s' = last_seq s) as Hls by (unfold last_seq, lastBatch; by rewrite Hbat).
  intros Hf. destruct Hs as [S1 S2 S3 S4]; [unfold fresh in *; by rewrite <-Hbat|].
  set (c := cur_subject (s_cur s)) in *. rewrite Hact in S3.
  assert (commit_ordered (s_view s) true (s_cur s) c) as Hoc.
  { intros Hnz. unfold cur_view, cur_seq. split_and!; [apply Hb|done|by right|].
    fold c. intros [?|[? ?]]; lia. }
  assert (∀ x, x ∈ commits s → tseq x = tseq c → sv_Seq (tseq x) ≠ 0 →
    sub_Digest x = sub_Digest c) as Honce.
  { intros x Hx Ht Hnz. destruct (S3 x Hx Hnz) as (_ & _ & H3 & _).
    unfold cur_view, cur_seq in H3. fold c in H3. rewrite Ht in H3. rewrite Ht in Hnz.
    destruct (H3 eq_refl Hnz) as [|[_ ?]]; [lia|congruence]. }
  split; rewrite ?Hls, ?Hcur, ?Q3, ?Q4, ?Hact; auto.
  - intros x [Hx| ->]%Hc; auto.
  - intros x y [Hx| ->]%Hc [Hy| ->]%Hc Ht Hnz; auto.
    symmetry. apply Honce; auto. by rewrite <-Ht.
Qed.

Lemma wp_sendCommit s pp b P C K :
  inv s → s_activeView s = true → accepted auth (s_config s) (s_cur s) pp b P C K →
  noFaultyQuorum (s_config s) - 1 ≤ Z.of_nat (size P) →
  wp sendCommit (λ _ s', inv s' ∧ queue_eq s s') s.
Proof.
  intros Hi Hact Hacc Hq. unfold sendCommit. do 3 wp_step. set (s1 := set_cur _ s).
  assert (inv s1) as Hi1.
  { apply inv_set_cur; try done. split; [apply Hi|]. right. exists pp, b, P, C, K.
    destruct Hacc. by split. }
  do 2 wp_step. eapply wp_framed; [apply framed_Persist|]. intros _ s2 H2.
  eapply wp_mono; [apply commits_broadcast|].
  intros _ s3 (Hc & Hq3 & Hcur & Hbat).
  split; [|transitivity s1; [by split|]; transitivity s2; [by apply core_queue_eq|done]].
  apply (inv_commit_sent s2); try done; [by eapply inv_core|by rewrite (ce_active _ _ H2)|].
  by rewrite (ce_cur _ _ H2).
Qed.

Lemma wp_maybeSendCommit s pp b P C K :
  inv s → s_activeView s = true → accepted auth (s_config s) (s_cur s) pp b P C K →
  wp maybeSendCommit (λ _ s', inv s' ∧ queue_eq s s') s.
Proof.
  intros Hi Hact Hacc. unfold maybeSendCommit. do 2 wp_step.
  destruct (_ || _) eqn:Ec; [by apply wp_ret|]. apply orb_false_elim in Ec as [_ Hlen].
  apply bool_decide_eq_false in Hlen. rewrite (acc_prep _ _ _ _ _ _ _ _ Hacc) in Hlen.
  simpl in Hlen. eapply wp_sendCommit; eauto. lia.
Qed.

Lemma map_get_set_fresh {V} (m : gmap Z V) k v r :
  map_get (Some m) k = None → map_set (Some m) k v = Ok r →
  r = Some (<[k:=v]> m) ∧ size (<[k:=v]> m) = S (size m).
Proof. intros Hk [= <-]. split; [done|]. by apply map_size_insert_None. Qed.

Lemma wp_handlePrepare p src s :
  inv s → s_activeView s = true →
  wp (handlePrepare p src) (λ _ s', inv s' ∧ queue_eq s s') s.
Proof.
  intros Hi Hact. unfold handlePrepare. do 3 wp_step. apply wp_curSeq. intros _.
  case_match; [by apply wp_ret|]. do 2 wp_step.
  destruct (bool_decide (p = _)) eqn:Hp; simpl; [|by apply wp_ret].
  apply bool_decide_eq_true in Hp.
  destruct (map_get _ _) eqn:Hg; [by apply wp_ret|].
  do 2 wp_step. do 2 wp_step. rename a0 into P'. set (s1 := set_cur _ s).
  destruct (cur_prep (s_cur s)) as [P0|] eqn:HP; [|done].
  destruct (cur_accepted (s_config s) (s_cur s)) as (pp & b & P & C & K & Hacc).
  { apply Hi. } { left. by rewrite HP. }
  pose proof (acc_prep _ _ _ _ _ _ _ _ Hacc) as HP'. rewrite HP in HP'. injection HP' as ->.
  destruct (map_get_set_fresh P src p P' Hg E1) as [-> Hsz].
  assert (accepted auth (s_config s1) (s_cur s1) pp b (<[src:=p]> P) C K) as Hacc1.
  { destruct Hacc. split; simpl; auto. intros Hsc. rewrite Hsz. specialize (acc_sent Hsc). lia. }
  assert (inv s1) as Hi1.
  { apply inv_set_cur; try done. split; [apply Hi|]. right. eauto 10. }
  eapply wp_mono; [eapply wp_maybeSendCommit; [exact Hi1|done|exact Hacc1]|].
  intros _ s' [? []]. split; [done|by split].
Qed.

Lemma wp_maybeExecute s :
  inv s → wp maybeExecute (λ _ s', inv s' ∧ queue_eq s s') s.
Proof.
  intros Hi. unfold maybeExecute. do 2 wp_step.
  destruct (_ || _) eqn:Ec; [by apply wp_ret|]. apply orb_false_elim in Ec as [_ Hlen].
  apply bool_decide_eq_false in Hlen. do 2 wp_step. set (s1 := set_cur _ s).
  assert (inv s1) as Hi1.
  { apply inv_set_cur; try done. destruct Hi as [[? ? ? [Hseq Hor] ? ? ?] _].
    split; [done|]. destruct Hor as [Hidle|(pp & b & P & C & K & Hacc)].
    - left. destruct Hidle. by split.
    - right. exists pp, b, P, C, K. destruct Hacc. split; simpl; auto.
      intros _. rewrite acc_commit in Hlen. simpl in Hlen. lia. }
  do 3 wp_step. eapply wp_framed; [apply framed_Persist|]. intros _ s2 H2.
  eapply wp_framed; [apply framed_sendCheckpoint|]. intros _ s3 H3.
  assert (core_eq s1 s3) as Hc by (by transitivity s2).
  split; [by eapply inv_core|]. transitivity s1; [by split|by apply core_queue_eq].
Qed.

Lemma wp_handleCommit c src s :
  inv s → auth src (MsgCommit c) → 0 ≤ src < cfg_N (s_config s) →
  wp (handleCommit c src) (λ _ s', inv s' ∧ queue_eq s s') s.
Proof.
  intros Hi Hauth Hsrc. unfold handleCommit. do 3 wp_step. apply wp_curSeq. intros _.
  case_match; [by apply wp_ret|]. do 2 wp_step.
  destruct (bool_decide (c = _)) eqn:Hp; simpl; [|by apply wp_ret].
  apply bool_decide_eq_true in Hp.
  destruct (map_get _ _) eqn:Hg; [by apply wp_ret|].
  do 2 wp_step. do 2 wp_step. rename a0 into C'. set (s1 := set_cur _ s).
  destruct (cur_commit (s_cur s)) as [C0|] eqn:HC; [|done].
  destruct (cur_accepted (s_config s) (s_cur s)) as (pp & b & P & C & K & Hacc).
  { apply Hi. } { right; left. by rewrite HC. }
  pose proof (acc_commit _ _ _ _ _ _ _ _ Hacc) as HC'. rewrite HC in HC'. injection HC' as ->.
  destruct (map_get_set_fresh C src c C' Hg E1) as [-> Hsz].
  assert (inv s1) as Hi1.
  { apply inv_set_cur; try done. split; [apply Hi|]. right. exists pp, b, P, (<[src:=c]> C), K.
    destruct Hacc. split; simpl; auto.
    - intros He. rewrite Hsz. specialize (acc_exec He). lia.
    - intros k x Hx. destruct (decide (src = k)) as [->|Hk].
      + rewrite lookup_insert_eq in Hx. injection Hx as <-. done.
      + rewrite lookup_insert_ne in Hx by done. by apply acc_commits. }
  wp_step. eapply wp_framed; [apply framed_cancelViewChangeTimer|]. intros _ s2 H2.
  eapply wp_mono; [apply wp_maybeExecute; by eapply inv_core|].
  intros _ s' [? Hq]. split; [done|].
  transitivity s1; [by split|]. transitivity s2; [by apply core_queue_eq|done].
Qed.

(** ** Checkpoints *)
Lemma sprintf_x_not_sentinel d : sprintf_x d ≠ "_"%string.
Proof. by destruct d. Qed.

(** The groups of sources built so far, over the entries [seen]. *)
Definition tally_ok (q : Z) (seen : list (Z * Checkpoint)) (sums : gmap string (list Z))
    (max : string) : Prop :=
  sums !! "_"%string = None ∧
  (∀ k l, sums !! k = Some l → l ≠ [] ∧ NoDup l ∧
    ∀ r, r ∈ l → ∃ c, (r, c) ∈ seen ∧ sprintf_x (sl (cp_Digest c)) = k) ∧
  (max = "_"%string ∨ ∃ l, sums !! max = Some l ∧ q ≤ Z.of_nat (length l)).

Lemma tally_spec q cps seen sums max :
  NoDup (seen ++ cps).*1 → tally_ok q seen sums max →
  tally_ok q (seen ++ cps) (tally q cps sums max).1 (tally q cps sums max).2.
Proof.
  revert seen sums max. induction cps as [|[r c] cps IH]; intros seen sums max Hnd Hok; simpl.
  { by rewrite app_nil_r. }
  rewrite cons_middle, app_assoc in *. apply IH; [done|]. clear IH.
  destruct Hok as (H1 & H2 & H3). set (k := sprintf_x _).
  assert (k ≠ "_"%string) as Hk by apply sprintf_x_not_sentinel.
  assert (r ∉ seen.*1) as Hr.
  { rewrite !fmap_app in Hnd. apply NoDup_app in Hnd as [Hnd _].
    apply NoDup_app in Hnd as (_ & Hnd & _). intros Hr. apply (Hnd r Hr). set_solver. }
  split_and!.
  - by rewrite lookup_insert_ne.
  - intros k' l. destruct (decide (k = k')) as [<-|Hne].
    + rewrite lookup_insert_eq. intros [= <-].
      destruct (sums !! k) as [l|] eqn:Hl; simpl.
      * destruct (H2 k l Hl) as (_ & Hn & Hin). split; [by destruct l|]. split.
        { apply NoDup_app. split; [done|]. split; [|apply NoDup_singleton].
          intros x Hx ->%list_elem_of_singleton. destruct (Hin r Hx) as (c' & Hc' & _).
          apply Hr. apply list_elem_of_fmap. by exists (r, c'). }
        intros x [Hx| ->%list_elem_of_singleton]%elem_of_app.
        { destruct (Hin x Hx) as (c' & ? & ?). exists c'. split; [apply elem_of_app; by left|done]. }
        exists c. split; [apply elem_of_app; right; by apply list_elem_of_singleton|done].
      * split; [done|]. split; [apply NoDup_singleton|].
        intros x ->%list_elem_of_singleton. exists c.
        split; [apply elem_of_app; right; by apply list_elem_of_singleton|done].
    + rewrite lookup_insert_ne by done. intros Hl. destruct (H2 k' l Hl) as (? & ? & Hin).
      split_and!; [done|done|]. intros x Hx. destruct (Hin x Hx) as (c' & ? & ?).
      exists c'. split; [apply elem_of_app; by left|done].
  - case_bool_decide as Hq.
    + right. eexists. rewrite lookup_insert_eq. split; [done|lia].
    + destruct H3 as [->|(l & Hl & Hq')]; [by left|]. right.
      destruct (decide (k = max)) as [<-|Hne].
      * rewrite Hl in Hq. simpl in Hq. rewrite length_app in Hq. simpl in Hq. lia.
      * exists l. by rewrite lookup_insert_ne.
Qed.

Lemma tally_empty q : tally_ok q [] ∅ "_".
Proof. split; [done|]. split; [intros ? ?; by rewrite lookup_empty|by left]. Qed.

Lemma weak_sigs_spec cps l m :
  NoDup l → weak_sigs (Some cps) l = Ok m →
  size m = length l ∧
  ∀ r sig, m !! r = Some sig → r ∈ l ∧ ∃ cp, cps !! r = Some cp ∧ sig = cp_Signature cp.
Proof.
  revert m. induction l as [|r l IH]; intros m Hnd Hm; simpl in Hm.
  { injection Hm as <-. split; [by rewrite map_size_empty|]. intros ? ?. by rewrite lookup_empty. }
  apply NoDup_cons in Hnd as [Hr Hnd].
  apply res_bind_Ok in Hm as (cp & Hcp & Hm). apply deref_Ok in Hcp.
  apply res_bind_Ok in Hm as (m' & Hm' & [= <-]).
  destruct (IH m' Hnd Hm') as [Hsz Hin].
  assert (m' !! r = None) as Hfresh.
  { destruct (m' !! r) as [x|] eqn:Hx; [|done]. by destruct (Hin r x Hx). }
  split; [by rewrite map_size_insert_None, Hsz|].
  intros r' sig. destruct (decide (r = r')) as [<-|Hne].
  - rewrite lookup_insert_eq. intros [= <-]. split; [set_solver|eauto].
  - rewrite lookup_insert_ne by done. intros Hx. destruct (Hin r' sig Hx) as [? ?].
    split; [set_solver|done].
Qed.

Lemma certified_intro cfg b :
  decodes (Some b) → oneCorrectQuorum cfg ≤ Z.of_nat (size (b_Signatures b)) →
  (∀ r sig, b_Signatures b !! r = Some sig → sys_check_sig (batch_Hash b) r sig = true) →
  certified cfg b.
Proof.
  intros (b' & h & [= <-] & Hh) Hq Hs. exists h. unfold checkBatch. simpl. rewrite Hh.
  replace (match bh_PrevHash h with Some _ => _ | None => false end) with false.
  2: { destruct (bh_PrevHash h); [|done]. symmetry. apply bool_decide_eq_false. lia. }
  replace (forallb _ _) with true; [done|]. symmetry. apply forallb_forall.
  intros [r sig] Hin%list_elem_of_In%elem_of_map_to_list. by apply Hs.
Qed.

(** A weak checkpoint quorum certifies the current batch. *)
Lemma weak_checkpoint_certified cfg cps entries b l m pp P C sums max c r0 c0 :
  accepted auth cfg c pp b P C cps → entries ≡ₚ map_to_list cps →
  tally (oneCorrectQuorum cfg) entries ∅ "_" = (sums, max) →
  sums !! max = Some l → weak_sigs (Some cps) l = Ok m →
  head l = Some r0 → cps !! r0 = Some c0 → cp_Digest c0 = sub_Digest (cur_subject c) →
  certified cfg (mkBatch (b_Header b) (b_Payloads b) m).
Proof.
  intros Hacc Hperm Ht Hl Hm Hr0 Hc0 Hdig.
  assert (NoDup entries.*1) as Hnd.
  { rewrite Hperm. apply NoDup_fst_map_to_list. }
  pose proof (tally_spec (oneCorrectQuorum cfg) entries [] ∅ "_" Hnd (tally_empty _)) as Hok.
  rewrite Ht in Hok. simpl in Hok. destruct Hok as (Hsent & Hgrp & Hmax).
  destruct Hmax as [->|(l' & Hl' & Hq)]; [congruence|].
  rewrite Hl in Hl'. injection Hl' as <-.
  destruct (Hgrp max l Hl) as (_ & Hndl & Hin).
  destruct (weak_sigs_spec _ _ _ Hndl Hm) as [Hsz Hsig].
  assert (∀ r, r ∈ l → ∃ x, cps !! r = Some x ∧ sl (cp_Digest x) = batch_Hash b) as Hd.
  { intros r Hr. destruct (Hin r Hr) as (x & Hx & Hhex).
    destruct (Hin r0) as (y & Hy & Hhex0).
    { destruct l as [|z l]; [done|]. injection Hr0 as ->. set_solver. }
    rewrite Hperm in Hx, Hy. apply elem_of_map_to_list in Hx, Hy.
    exists x. split; [done|]. rewrite Hc0 in Hy. injection Hy as <-.
    rewrite <-Hhex0 in Hhex. apply (inj sprintf_x) in Hhex. rewrite Hhex, Hdig.
    by rewrite (acc_digest _ _ _ _ _ _ _ _ Hacc). }
  apply certified_intro.
  - destruct (acc_decodes _ _ _ _ _ _ _ _ Hacc) as (b' & h & [= <-] & Hh). by eexists _, h.
  - simpl. rewrite Hsz. done.
  - intros r sig Hx. simpl in Hx. destruct (Hsig r sig Hx) as (Hr & cp & Hcp & ->).
    destruct (Hd r Hr) as (x & Hx' & Hdx). rewrite Hcp in Hx'. injection Hx' as <-.
    change (batch_Hash (mkBatch (b_Header b) (b_Payloads b) m)) with (batch_Hash b).
    rewrite <-Hdx. by eapply acc_cps.
Qed.

(** What the backlog loop leaves alone. *)
Definition light_eq (s s' : SBFT) : Prop :=
  s_config s' = s_config s ∧ s_id s' = s_id s ∧ s_view s' = s_view s
  ∧ s_activeView s' = s_activeView s.

#[global] Instance light_eq_refl : Reflexive light_eq.
Proof. done. Qed.
#[global] Instance light_eq_trans : Transitive light_eq.
Proof. unfold light_eq. intros x y z. intuition congruence. Qed.
Lemma queue_light_eq s s' : queue_eq s s' → light_eq s s'.
Proof. by intros []. Qed.
Lemma queue_backlog_size s s' : queue_eq s s' → backlog_size s' = backlog_size s.
Proof. intros []. unfold backlog_size. congruence. Qed.

(** The contract of [processBacklog] with at most [n] messages stored. *)
Definition drains (n : nat) (pb : M SBFT unit) : Prop :=
  ∀ s, inv s → (backlog_size s ≤ n)%nat →
    wp pb (λ _ s', inv s' ∧ light_eq s s' ∧ (backlog_size s' ≤ n)%nat) s.

Lemma wp_handleCheckpoint pb n c src s :
  inv s → drains n pb → (backlog_size s ≤ n)%nat →
  wp (handleCheckpoint pb c src)
    (λ _ s', inv s' ∧ light_eq s s' ∧ (backlog_size s' ≤ n)%nat) s.
Proof.
  intros Hi Hpb Hn. unfold handleCheckpoint. do 2 wp_step.
  destruct (cur_checkpointDone (s_cur s)) eqn:Hdone; [by apply wp_ret|].
  wp_step. apply wp_curSeq. intros _.
  case_match; [by apply wp_ret|]. destruct (sys_check_sig _ _ _) eqn:Hsig; [|by apply wp_ret].
  simpl. case_match; [by apply wp_ret|].
  do 2 wp_step. rename a into cps'. do 2 wp_step. set (s1 := set_cur _ s).
  destruct (cur_checkpoint (s_cur s)) as [K0|] eqn:HK; [|done].
  destruct (cur_accepted (s_config s) (s_cur s)) as (pp & b & P & C & K & Hacc).
  { apply Hi. } { right; right. by rewrite HK. }
  pose proof (acc_checkpoint _ _ _ _ _ _ _ _ Hacc) as HK'. rewrite HK in HK'. injection HK' as ->.
  simpl in E0. injection E0 as <-. set (K' := <[src:=c]> K) in *.
  assert (accepted auth (s_config s1) (s_cur s1) pp b P C K') as Hacc1.
  { destruct Hacc. split; simpl; auto.
    intros k x Hx. unfold K' in Hx. destruct (decide (src = k)) as [->|Hk].
    - rewrite lookup_insert_eq in Hx. by injection Hx as <-.
    - rewrite lookup_insert_ne in Hx by done. by apply acc_cps. }
  assert (inv s1) as Hi1.
  { apply inv_set_cur; try done. split; [apply Hi|]. right. eauto 10. }
  assert (queue_eq s s1) as Hq1 by (by split).
  do 3 wp_step. unfold range_map. do 5 wp_step. set (s2 := set_sys _ s1).
  assert (core_eq s1 s2) as Hc2 by (by split).
  destruct (tally _ _ _ _) as [sums max] eqn:Ht.
  assert (inv s2) as Hi2 by (by eapply inv_core).
  assert (queue_eq s s2) as Hq2 by (transitivity s1; [done|by apply core_queue_eq]).
  destruct (sums !! max) as [l|] eqn:Hl.
  2: { apply wp_ret. split; [done|]. split; [by apply queue_light_eq|].
       by rewrite (queue_backlog_size _ _ Hq2). }
  do 2 wp_step. rename a into m, E0 into Hm. do 2 wp_step. set (s3 := set_cur _ s2).
  do 2 wp_step. rename a into r0, E0 into Hr0. do 2 wp_step. rename a into c0, E0 into Hc0.
  do 2 wp_step. simpl in Hc0.
  destruct (bool_decide (cp_Digest c0 = _)) eqn:Hd; simpl; [apply bool_decide_eq_true in Hd|done].
  simpl in Hd. do 2 wp_step. rename a into pp', E0 into Hpp'.
  do 2 wp_step. rename a into b', E0 into Hb'.
  simpl in Hpp'. rewrite (acc_pp _ _ _ _ _ _ _ _ Hacc) in Hpp'. injection Hpp' as <-.
  rewrite (acc_batch _ _ _ _ _ _ _ _ Hacc) in Hb'. injection Hb' as <-.
  assert (certified (s_config s) (mkBatch (b_Header b) (b_Payloads b) m)) as Hcert.
  { eapply (weak_checkpoint_certified _ K'); [exact Hacc1|apply shuffle_perm|exact Ht|done|done|done|done|done]. }
  wp_step. apply wp_deliverBatch. intros s4 Hd4.
  assert (inv s4) as Hi4.
  { split.
    - eapply base_deliver; [exact Hd4| |exact Hcert].
      destruct Hi2 as [[] _]. split; simpl; auto. destruct base_cur as [Hseq _].
      split; [done|]. right. exists pp, b, P, C, K'. destruct Hacc1. split; simpl; try done.
    - intros Hf. assert (safe s2) as [S1 S2 S3 S4].
      { apply Hi2. apply (fresh_deliver _ _ _ Hd4) in Hf. exact Hf. }
      assert (last_seq s4 = cur_seq (s_cur s)) as Hls.
      { rewrite (last_seq_deliver _ _ _ Hd4). unfold batch_seq. simpl.
        by apply (acc_seq _ _ _ _ _ _ _ _ Hacc). }
      destruct Hd4 as [[D1 D2 D3 D4 D5] Dc Db Dm].
      split; rewrite ?Dc, ?Dm, ?D3, ?D4, ?Hls; simpl; auto.
      + unfold cur_seq. simpl. lia.
      + done. }
  assert (queue_eq s s4) as Hq4.
  { transitivity s2; [done|]. transitivity s3; [by split|apply Hd4]. }
  do 3 wp_step. eapply wp_framed; [apply framed_Cancel|]. intros _ s5 H5.
  wp_step. eapply wp_mono; [apply wp_maybeSendNextBatch; by eapply inv_core|].
  intros _ s6 [Hi6 Hq6].
  assert (queue_eq s s6) as Hq.
  { transitivity s4; [done|]. transitivity s5; [by apply core_queue_eq|done]. }
  eapply wp_mono; [apply Hpb; [done|by rewrite (queue_backlog_size _ _ Hq)]|].
  intros _ s7 (? & ? & ?). split; [done|]. split; [|done].
  transitivity s6; [by apply queue_light_eq|done].
Qed.

End handlers.

(** ** The backlog loop of the SBFT replica: invariant and termination

    Every pass of [processBacklog] either stops or has removed a stored
    message, so the fuel [backlog_size + 1] is enough; the invariant is kept
    throughout. *)

Section loop.
Context `{E : Env} `{L : !EnvLaws E}.
Context (auth : Z → Msg → Prop).

Abbreviation inv := (inv auth).
Abbreviation base := (base auth).
Abbreviation drains := (drains auth).

Lemma wp_replica i (Q : replicaInfo → SBFT → Prop) s :
  (∀ r, 0 ≤ i → s_replicaState s !! Z.to_nat i = Some r → Q r s) → wp (replica i) Q s.
Proof.
  intros HQ. unfold replica. do 2 wp_step. case_match eqn:Hi; [|done].
  apply bool_decide_eq_true in Hi. wp_step. by apply HQ.
Qed.

Lemma wp_update_replica i f (Q : unit → SBFT → Prop) s :
  (∀ r, 0 ≤ i → s_replicaState s !! Z.to_nat i = Some r →
    Q tt (set_replicaState (alter f (Z.to_nat i)) s)) →
  wp (update_replica i f) Q s.
Proof.
  intros HQ. unfold update_replica. wp_step. apply wp_replica. intros r Hi Hr.
  wp_step. by apply (HQ r).
Qed.

Lemma replica_in_range s i r :
  base s → 0 ≤ i → s_replicaState s !! Z.to_nat i = Some r → 0 ≤ i < cfg_N (s_config s).
Proof.
  intros Hb Hi Hr%lookup_lt_Some. rewrite <-(base_len _ _ Hb). lia.
Qed.

(** Changing the record of one replica. *)
Lemma inv_update_replica s i f r :
  inv s → 0 ≤ i → s_replicaState s !! Z.to_nat i = Some r →
  replica_ok auth (s_config s) (s_id s) (Z.to_nat i) (f r) →
  inv (set_replicaState (alter f (Z.to_nat i)) s).
Proof.
  intros [[B1 B2 B3 B4 B5 B6 B7] Hs] Hi Hr Hok. split; [|intros Hf; destruct (Hs Hf); by split].
  split; simpl; auto; [by rewrite length_list_alter|].
  intros j r' Hj. destruct (decide (j = Z.to_nat i)) as [->|Hne].
  - rewrite list_lookup_alter_eq, Hr in Hj. by injection Hj as <-.
  - rewrite list_lookup_alter_ne in Hj by done. auto.
Qed.

Lemma backlog_size_update s i f r :
  s_replicaState s !! Z.to_nat i = Some r →
  (backlog_size (set_replicaState (alter f (Z.to_nat i)) s) + length (ri_backLog r)
   = backlog_size s + length (ri_backLog (f r)))%nat.
Proof. intros Hr. by apply (sum_list_with_alter (λ r, length (ri_backLog r))). Qed.

Lemma testBacklogMessage_active_commit c src s :
  testBacklogMessage (MsgCommit c) src s = Ok false → s_activeView s = true.
Proof. by intros [? _]%record_false. Qed.

Lemma wp_handleQueueableMessage pb n m src s :
  inv s → testBacklogMessage m src s = Ok false → auth src m →
  0 ≤ src < cfg_N (s_config s) → drains n pb → (backlog_size s ≤ n)%nat →
  wp (handleQueueableMessage pb m src)
    (λ _ s', inv s' ∧ light_eq s s' ∧ (backlog_size s' ≤ n)%nat) s.
Proof.
  intros Hi Ht Ha Hsrc Hpb Hn.
  assert (∀ mm, wp mm (λ (_ : unit) s', inv s' ∧ queue_eq s s') s →
    wp mm (λ _ s', inv s' ∧ light_eq s s' ∧ (backlog_size s' ≤ n)%nat) s) as Hq.
  { intros mm Hmm. eapply wp_mono; [exact Hmm|]. intros _ s' [? Hq].
    split; [done|]. split; [by apply queue_light_eq|]. by rewrite (queue_backlog_size _ _ Hq). }
  destruct m; simpl; try by apply wp_ret.
  - apply Hq. by eapply wp_handlePreprepare.
  - apply Hq. apply wp_handlePrepare; [done|]. by apply record_false in Ht as [? _].
  - apply Hq. by apply wp_handleCommit.
  - by apply wp_handleCheckpoint.
Qed.

Lemma test_update_replica m src s g :
  testBacklogMessage m src (set_replicaState g s) = testBacklogMessage m src s.
Proof. done. Qed.

Lemma wp_drain pb fuel src s :
  (∀ k, (k < backlog_size s)%nat → drains k pb) → inv s → (backlog_size s ≤ fuel)%nat →
  wp (drain pb fuel src)
    (λ p s', inv s' ∧ light_eq s s' ∧ (backlog_size s' ≤ backlog_size s)%nat
       ∧ (p = true → (backlog_size s' < backlog_size s)%nat)) s.
Proof.
  revert s. induction fuel as [|fuel IH]; intros s Hpb Hi Hf; simpl.
  all: wp_step; apply wp_replica; intros r Hsrc Hr.
  all: destruct (ri_backLog r) as [|m rest] eqn:Hbl; [by apply wp_ret|].
  all: do 4 wp_step; destruct a; [by apply wp_ret|].
  all: wp_step; apply wp_update_replica; intros r' _ Hr'; set (s1 := set_replicaState _ s).
  all: rewrite Hr in Hr'; injection Hr' as <-.
  all: pose proof (backlog_size_update s src (set_backLog rest) r Hr) as Hsz; fold s1 in Hsz.
  all: rewrite Hbl in Hsz; simpl in Hsz.
  { exfalso. lia. }
  destruct (base_replicas _ _ (proj1 Hi) _ _ Hr) as (H12 & Hau & Hid & Hnv).
  rewrite Hbl in *. rewrite Z2Nat.id in * by done. apply Forall_cons in Hau as [Hm Hrest].
  assert (inv s1) as Hi1.
  { apply (inv_update_replica s src _ r); auto. split_and!; simpl in *; auto.
    - lia.
    - by rewrite Z2Nat.id.
    - intros Heq. rewrite Z2Nat.id in Heq by done. by specialize (Hid Heq). }
  wp_step. eapply wp_mono; [apply (wp_handleQueueableMessage pb (backlog_size s1)); auto|].
  - apply (replica_in_range s src r); [apply Hi|done|done].
  - apply Hpb. lia.
  - intros _ s2 (Hi2 & Hl2 & Hs2). wp_step. eapply wp_mono; [apply IH|].
    + intros k Hk. apply Hpb. lia.
    + done.
    + lia.
    + intros p s3 (Hi3 & Hl3 & Hs3 & _). apply wp_ret.
      split_and!; [done| |lia|intros _; lia].
      transitivity s1; [done|]. by transitivity s2.
Qed.

Lemma wp_sweep pb fuel srcs processed s :
  (∀ k, (k < backlog_size s)%nat → drains k pb) → inv s → (backlog_size s ≤ fuel)%nat →
  wp (sweep pb fuel srcs processed)
    (λ p s', inv s' ∧ light_eq s s' ∧ (backlog_size s' ≤ backlog_size s)%nat
       ∧ (p = true → processed = true ∨ (backlog_size s' < backlog_size s)%nat)) s.
Proof.
  revert processed s. induction srcs as [|src srcs IH]; intros processed s Hpb Hi Hf; simpl.
  { apply wp_ret. split_and!; [done|done|lia|by left]. }
  wp_step. eapply wp_mono; [by apply wp_drain|].
  intros p s1 (Hi1 & Hl1 & Hs1 & Hp1). eapply wp_mono; [apply IH|].
  - intros k Hk. apply Hpb. lia.
  - done.
  - lia.
  - intros q s2 (Hi2 & Hl2 & Hs2 & Hp2). split_and!; [done|by transitivity s1|lia|].
    intros Hq. destruct (Hp2 Hq) as [Hor|Hlt]; [|right; lia].
    destruct p; [right; specialize (Hp1 eq_refl); lia|by left].
Qed.

Lemma processBacklog_fuel_drains fuel n :
  (n < fuel)%nat → drains n (processBacklog_fuel fuel).
Proof.
  revert n. induction fuel as [|fuel IH]; intros n Hn s Hi Hs; [lia|].
  simpl. do 3 wp_step. eapply wp_mono; [apply wp_sweep|].
  - intros k Hk. apply IH. lia.
  - done.
  - lia.
  - intros p s1 (Hi1 & Hl1 & Hs1 & Hp1). destruct p.
    + destruct (Hp1 eq_refl) as [|Hlt]; [done|].
      eapply wp_mono; [apply (IH (backlog_size s1)); [lia|done|lia]|].
      intros _ s2 (? & ? & ?). split_and!; [done|by transitivity s1|lia].
    + apply wp_ret. split_and!; [done|done|lia].
Qed.

Lemma wp_processBacklog s :
  inv s → wp processBacklog (λ _ s', inv s' ∧ light_eq s s') s.
Proof.
  intros Hi. unfold processBacklog.
  eapply wp_mono; [apply (processBacklog_fuel_drains _ (backlog_size s)); [lia|done|lia]|].
  intros _ s' (? & ? & _). done.
Qed.

Lemma processBacklog_drains n : drains n processBacklog.
Proof.
  intros s Hi Hn. unfold processBacklog.
  eapply wp_mono; [apply (processBacklog_fuel_drains _ (backlog_size s)); [lia|done|lia]|].
  intros _ s' (? & ? & ?). split_and!; [done|done|lia].
Qed.

End loop.
