(* ===== verification/SbftView.v ===== *)
(** * View changes, new views and connections keep the invariant

    The remaining handlers of the SBFT replica and the event loop: every event
    preserves [inv], terminates, and never lowers the view. *)

From stdpp Require Import base numbers strings gmap list.
From S2P Require Import Prelude Sha256 SbftTypes SbftMerkle SbftXset SbftXsetProofs Sbft SbftFrame SbftInv SbftHandlers.
Local Open Scope Z_scope.

Section view.
Context `{E : Env} `{L : !EnvLaws E}.
Context (auth : Z → Msg → Prop).

Abbreviation inv := (inv auth).
Abbreviation base := (base auth).

(** ** Facts about [makeXset] and [check_vset] on success *)
Lemma checkpoint_seq_Ok vc n : checkpoint_seq vc = Ok n →
  n = cseq vc ∧ ∃ b, vc_Checkpoint vc = Some b.
Proof.
  unfold checkpoint_seq, cseq. intros (b & Hb%deref_Ok & H)%res_bind_Ok.
  apply res_bind_Ok in H as (h & [_ Hh]%DecodeHeader_Ok & [= <-]). rewrite Hb. eauto.
Qed.

Lemma xset_best_Ok vcs best best' : xset_best best vcs = Ok best' →
  (best' = best ∨ ∃ vc, vc ∈ vcs ∧ best' = vc_Checkpoint vc) ∧
  (∀ b, best = Some b → ∃ b', best' = Some b' ∧ batch_seq b ≤ batch_seq b') ∧
  (∀ vc, vc ∈ vcs → ∃ b', best' = Some b' ∧ cseq vc ≤ batch_seq b').
Proof.
  revert best. induction vcs as [|vc vcs IH]; intros best H; simpl in H.
  { injection H as <-. split_and!; [by left|eauto using Z.le_refl|set_solver]. }
  apply res_bind_Ok in H as (n & [-> (bv & Hbv)]%checkpoint_seq_Ok & H).
  assert (cseq vc = batch_seq bv) as Hcs by (unfold cseq; by rewrite Hbv).
  assert (∀ best0, xset_best best0 vcs = Ok best' → (∀ b, best = Some b → ∃ b0, best0 = Some b0 ∧
      batch_seq b ≤ batch_seq b0) → (∃ b0, best0 = Some b0 ∧ cseq vc ≤ batch_seq b0) →
      (best0 = best ∨ best0 = vc_Checkpoint vc) →
      (best' = best ∨ ∃ vc', vc' ∈ vc :: vcs ∧ best' = vc_Checkpoint vc') ∧
      (∀ b, best = Some b → ∃ b', best' = Some b' ∧ batch_seq b ≤ batch_seq b') ∧
      (∀ vc', vc' ∈ vc :: vcs → ∃ b', best' = Some b' ∧ cseq vc' ≤ batch_seq b')) as Hgo.
  { intros best0 H0 Hle (bc & Hbc & Hlec) Heq. destruct (IH best0 H0) as (Hor & Hup & Hall).
    split_and!.
    - destruct Hor as [->|(vc' & ? & ?)]; [|right; exists vc'; set_solver].
      destruct Heq as [->| ->]; [by left|right; exists vc; set_solver].
    - intros b Hb. destruct (Hle b Hb) as (b0 & Hb0 & ?). destruct (Hup b0 Hb0) as (b' & ? & ?).
      exists b'. split; [done|lia].
    - intros vc' [->|?]%elem_of_cons; [|by apply Hall].
      destruct (Hup bc Hbc) as (b' & ? & ?). exists b'. split; [done|lia]. }
  destruct best as [b|].
  - apply res_bind_Ok in H as (h & [_ Hh]%DecodeHeader_Ok & H). case_bool_decide.
    + eapply Hgo; [exact H| | |by right].
      * intros ? [= <-]. exists bv. split; [done|lia].
      * exists bv. split; [done|lia].
    + eapply Hgo; [exact H| | |by left].
      * intros ? [= <-]. exists b. split; [done|lia].
      * exists b. split; [done|lia].
  - eapply Hgo; [exact H|done| |by right]. exists bv. split; [done|lia].
Qed.

Lemma makeXset_Ok cfg v vcs x b :
  makeXset cfg v vcs = Ok (Some (x, b)) →
  is_best vcs b ∧ (∀ sx, x = Some sx → sv_Seq (tseq sx) = u64 (batch_seq b + 1)).
Proof.
  unfold makeXset. intros (best & Hbest & H)%res_bind_Ok. destruct best as [b0|]; [|done].
  apply res_bind_Ok in H as (h & [_ Hh]%DecodeHeader_Ok & H).
  apply res_bind_Ok in H as ([e d] & _ & H). rewrite Hh in H.
  assert (b = b0 ∧ ∀ sx, x = Some sx → sv_Seq (tseq sx) = u64 (batch_seq b0 + 1)) as [-> Hx].
  { case_bool_decide; [by injection H as <- <-|]. destruct d; [|done].
    injection H as <- <-. split; [done|]. by intros ? [= <-]. }
  split; [|done]. destruct (xset_best_Ok _ _ _ Hbest) as (Hor & _ & Hall). split.
  - destruct Hor as [|(vc & ? & ?)]; [done|eauto].
  - intros vc Hvc. by destruct (Hall vc Hvc) as (? & [= <-] & ?).
Qed.

Lemma check_vset_Ok cfg view l vcs :
  check_vset cfg view l = Ok (Some vcs) →
  vcs = omap (λ kv, checkSig_vc kv.2 kv.1) l
  ∧ ∀ vc, vc ∈ vcs → ∃ b, vc_Checkpoint vc = Some b ∧ certified cfg b.
Proof.
  revert vcs. induction l as [|[k svc] l IH]; intros vcs H; simpl in H.
  { injection H as <-. split; [done|set_solver]. }
  simpl. destruct (checkSig_vc svc k) as [vc|]; [|done].
  apply res_bind_Ok in H as (r & Hr & H). case_match; [done|].
  destruct r as [h|]; [|done]. apply res_bind_Ok in H as ([vcs'|] & Hv & H); [|done].
  injection H as <-. destruct (IH vcs' Hv) as [-> Hall]. split; [done|].
  intros vc' [->|?]%elem_of_cons; [|by apply Hall].
  destruct (vc_Checkpoint vc) as [b|] eqn:Hb; [|done]. exists b. split; [done|]. by exists h.
Qed.

Lemma is_best_seq vcs vcs' b b' :
  vcs ≡ₚ vcs' → is_best vcs b → is_best vcs' b' → batch_seq b = batch_seq b'.
Proof.
  intros Hp [(v & Hv & Hb) Hmax] [(v' & Hv' & Hb') Hmax'].
  rewrite Hp in Hv. rewrite <-Hp in Hv'.
  pose proof (Hmax v' Hv') as H1. pose proof (Hmax' v Hv) as H2.
  unfold cseq in *. rewrite Hb' in H1. rewrite Hb in H2. lia.
Qed.

Lemma certified_payloads cfg b p :
  certified cfg b → certified cfg (mkBatch (b_Header b) p (b_Signatures b)).
Proof. done. Qed.

(** ** Delivery from a new view's checkpoints *)
Definition xset_caught_up (cfg : Config) (nv : NewView) (n : Z) : Prop :=
  ∃ l vcs best, l ≡ₚ map_to_list (nv_Vset nv) ∧ check_vset cfg (nv_View nv) l = Ok (Some vcs)
    ∧ is_best vcs best ∧ batch_seq best ≤ n.

Lemma wp_checkNewViewSignatures nv (Q : option (list ViewChange) → SBFT → Prop) s :
  (∀ r l s', core_eq s s' → l ≡ₚ map_to_list (nv_Vset nv) →
    check_vset (s_config s) (nv_View nv) l = Ok r → Q r s') →
  wp (checkNewViewSignatures nv) Q s.
Proof.
  intros HQ. unfold checkNewViewSignatures, range_map. do 8 wp_step. wp_step.
  eapply HQ; [by split|apply shuffle_perm|done].
Qed.

Lemma base_set_done s : base s → base (set_cur (set_checkpointDone true) s).
Proof.
  intros []. split; simpl; auto. destruct base_cur as [Hseq Hor]. split; [done|].
  destruct Hor as [[]|(pp & b & P & C & K & [])]; [left; by split|right].
  exists pp, b, P, C, K. by split.
Qed.

Lemma wp_maybeDeliverUsingXset nv s :
  inv s →
  wp (maybeDeliverUsingXset nv)
    (λ _ s', inv s' ∧ queue_eq s s' ∧ commits s' = commits s ∧ (fresh s' → fresh s)
       ∧ xset_caught_up (s_config s) nv (last_seq s')) s.
Proof.
  intros Hi. unfold maybeDeliverUsingXset. wp_step. apply wp_checkNewViewSignatures.
  intros r l s1 Hc1 Hl Hv. destruct r as [vcs|]; [|done].
  assert (inv s1) as Hi1 by (by eapply inv_core).
  do 4 wp_step. rename E0 into Hx. destruct a as [[x prev]|]; [|done].
  apply makeXset_Ok in Hx as [Hbest _].
  wp_step. apply wp_seq. intros _. do 2 wp_step. apply DecodeHeader_Ok in E0 as [Hdec Hseq].
  rewrite Hseq. assert (certified (s_config s1) prev) as Hcert.
  { destruct Hbest as [(vc & Hvc & Hcp) _].
    destruct (proj2 (check_vset_Ok _ _ _ _ Hv) vc Hvc) as (b & Hb & Hc).
    rewrite Hcp in Hb. injection Hb as <-. by rewrite (ce_config _ _ Hc1). }
  assert (∀ n, batch_seq prev ≤ n → xset_caught_up (s_config s) nv n) as Hup.
  { intros n Hn. by exists l, vcs, prev. }
  case_bool_decide as Hlt.
  2: { apply wp_ret. split_and!; [done|by apply core_queue_eq|apply Hc1|by apply fresh_core|apply Hup; lia]. }
  wp_step. apply wp_curSeq. intros _. wp_step.
  apply (wp_mono _ (λ pb s', s' = s1 ∧ b_Header pb = b_Header prev ∧
    b_Signatures pb = b_Signatures prev)).
  { case_match; [|by apply wp_ret]. do 4 wp_step. by apply wp_ret. }
  intros pb ? (-> & Hh & Hsg). do 2 wp_step. apply wp_deliverBatch. intros s2 Hd.
  assert (batch_seq pb = batch_seq prev) as Hpb by (unfold batch_seq; by rewrite Hh).
  assert (last_seq s2 = batch_seq prev) as Hls by (by rewrite (last_seq_deliver _ _ _ Hd)).
  split_and!.
  - split.
    + eapply base_deliver; [exact Hd|by apply base_set_done, Hi1|].
      destruct pb as [h p sg]. simpl in *. subst. by apply certified_payloads.
    + intros Hf. apply (fresh_deliver _ _ _ Hd) in Hf.
      destruct (proj2 Hi1 Hf) as [S1 S2 S3 S4].
      destruct Hd as [[D1 D2 D3 D4 D5] Dc Db Dm].
      split; rewrite ?Dc, ?Dm, ?D3, ?D4, ?Hls; simpl; auto; unfold cur_seq in *; simpl; lia.
  - transitivity s1; [by apply core_queue_eq|]. destruct Hd as [[] _ _ _]. by split.
  - rewrite (de_commits _ _ _ Hd). apply Hc1.
  - intros Hf. apply (fresh_core s s1 Hc1). by apply (fresh_deliver _ _ _ Hd) in Hf.
  - apply Hup. lia.
Qed.

(** ** Entering a view *)
Definition same_view (s s' : SBFT) : Prop :=
  s_config s' = s_config s ∧ s_id s' = s_id s ∧ s_view s' = s_view s.

Lemma inv_set_active s :
  inv s → inv (set_activeView true s).
Proof.
  intros [[] Hs]. split; [by split|]. intros Hf. destruct (Hs Hf) as [S1 S2 S3 S4].
  split; auto. intros x Hx Hnz. destruct (S3 x Hx Hnz) as (? & ? & ? & ?). by split_and!.
Qed.

Lemma wp_discardBacklog src s :
  inv s → wp (discardBacklog src)
    (λ _ s', inv s' ∧ light_eq s s' ∧ s_cur s' = s_cur s ∧ commits s' = commits s
       ∧ sys_batches (s_sys s') = sys_batches (s_sys s)
       ∧ ri_newview <$> s_replicaState s' = ri_newview <$> s_replicaState s) s.
Proof.
  intros Hi. apply wp_update_replica. intros r Hsrc Hr. split_and!; try done.
  - destruct (base_replicas _ _ (proj1 Hi) _ _ Hr) as (H12 & Hau & Hid & Hnv).
    apply (inv_update_replica auth s src _ r); auto. split_and!; simpl; auto. lia.
  - apply list_eq. intros i. rewrite !list_lookup_fmap. simpl.
    destruct (decide (i = Z.to_nat src)) as [->|].
    + by rewrite list_lookup_alter_eq, Hr.
    + by rewrite list_lookup_alter_ne.
Qed.

(** [zeroCurSeq] after [checkpointDone] is set, when all commits sent are in
    earlier views. *)
Lemma inv_zero s sv :
  inv s → (fresh s → ∀ x, x ∈ commits s → sv_Seq (tseq x) ≠ 0 → sv_View (tseq x) < s_view s) →
  sub_Seq (cur_subject (s_cur s)) = Some sv →
  inv (set_cur (λ c, set_checkpointDone true
    (set_preprep ((λ pp, mkPreprepare (Some (mkSeqView (sv_View sv) 0)) (pp_Batch pp)) <$> cur_preprep c)
      (set_subject (mkSubject (Some (mkSeqView (sv_View sv) 0)) (sub_Digest (cur_subject c))) c))) s).
Proof.
  intros [[B1 B2 B3 [B4 B4'] B5 B6 B7] Hs] Hlt Hsv. split.
  - split; simpl; auto.
    + split; [by eexists|]. destruct B4' as [[]|(pp & b & P & C & K & [])]; [left|right].
      * split; simpl; try done. by rewrite idle_pp.
      * exists (mkPreprepare (Some (mkSeqView (sv_View sv) 0)) (pp_Batch pp)), b, P, C, K.
        split; simpl; try done; [by rewrite acc_pp|].
        intros k x Hx. by destruct (acc_commits k x Hx) as (? & ? & ?).
    + unfold cur_view, tseq in *. rewrite Hsv in B5. done.
  - intros Hf. destruct (Hs Hf) as [S1 S2 S3 S4]. specialize (Hlt Hf).
    pose proof (batch_seq_range (lastBatch (s_sys s))) as Hr. fold (last_seq s) in Hr.
    split; unfold cur_seq, last_seq in *; simpl; auto; [lia|lia|].
    intros x Hx Hnz. specialize (Hlt x Hx Hnz). split_and!; simpl; [lia|lia| |lia].
    unfold cur_seq. simpl. done.
Qed.

Lemma wp_zeroCurSeq (Q : unit → SBFT → Prop) s :
  inv s → (fresh s → ∀ x, x ∈ commits s → sv_Seq (tseq x) ≠ 0 → sv_View (tseq x) < s_view s) →
  (∀ s', inv s' → queue_eq s s' → commits s' = commits s → last_seq s' = last_seq s →
    (fresh s' → fresh s) → Q tt s') →
  wp zeroCurSeq Q (set_cur (set_checkpointDone true) s).
Proof.
  intros Hi Hlt HQ. unfold zeroCurSeq. do 4 wp_step. rename a into sv, E0 into Hsv.
  pose proof (inv_zero s sv Hi Hlt Hsv) as Hi'. simpl in Hsv.
  do 2 wp_step. simpl.
  destruct (cur_preprep (s_cur s)) as [pp|] eqn:Hpp; simpl.
  - wp_step. apply HQ; try done. revert Hi'. unfold set_cur. simpl. by rewrite Hpp.
  - apply wp_ret. apply HQ; try done. revert Hi'. unfold set_cur, set_preprep, set_subject, set_checkpointDone. simpl. by rewrite Hpp.
Qed.

(** The rest of [processNewView], once the view is active. *)
Lemma wp_newview_request b s :
  inv s → (fresh s → ∀ x, x ∈ commits s → sv_Seq (tseq x) ≠ 0 → sv_View (tseq x) < s_view s) →
  batch_seq b ≤ last_seq s + 1 →
  wp (h ← lift (DecodeHeader b);
      v ← gets s_view;
      handleCheckedPreprepare (mkPreprepare (Some (mkSeqView v (bh_Seq h))) (Some b)))
    (λ _ s', inv s' ∧ queue_eq s s') s.
Proof.
  intros Hi Hlt Hle. do 4 wp_step. apply DecodeHeader_Ok in E0 as [Hd Hs].
  eapply wp_handleCheckedPreprepare; try done. intros Hf. simpl. rewrite Hs.
  split; [lia|]. right. auto.
Qed.

Lemma wp_processNewView s :
  inv s → wp processNewView (λ _ s', inv s' ∧ same_view s s') s.
Proof.
  intros Hi. unfold processNewView. do 2 wp_step.
  destruct (s_activeView s) eqn:Hact; [by apply wp_ret|].
  wp_step. apply wp_replica. intros r Hp Hr. destruct (ri_newview r) as [nv|] eqn:Hnv; [|by apply wp_ret].
  destruct (bool_decide (nv_View nv = s_view s)) eqn:Hv; simpl; [|by apply wp_ret].
  destruct (base_replicas _ _ (proj1 Hi) _ _ Hr) as (_ & _ & _ & Hok). specialize (Hok nv Hnv).
  assert (fresh s → ∀ x, x ∈ commits s → sv_Seq (tseq x) ≠ 0 → sv_View (tseq x) < s_view s) as Hlt.
  { intros Hf x Hx Hnz. destruct (safe_order _ (proj2 Hi Hf) x Hx Hnz) as (_ & Hlt & _). auto. }
  do 2 wp_step. wp_step.
  eapply wp_mono; [apply wp_discardBacklog; by apply inv_set_active|].
  intros _ s2 (Hi2 & (L1 & L2 & L3 & L4) & Hcur2 & Hcm2 & Hb2 & _). simpl in *.
  wp_step. eapply wp_mono; [by apply wp_maybeDeliverUsingXset|].
  intros _ s3 (Hi3 & [Q1 Q2 Q3 Q4 Q5] & Hcm3 & Hfr3 & Hup). do 2 wp_step.
  assert (fresh s3 → fresh s) as Hfr.
  { intros Hf%Hfr3. unfold fresh in *. by rewrite Hb2 in Hf. }
  wp_step. apply wp_zeroCurSeq; [done|intros Hf; rewrite Hcm3, Hcm2, Q3, L3; auto|].
  intros s4 Hi4 [R1 R2 R3 R4 R5] Hcm4 Hl4 Hfr4.
  wp_step. apply (wp_mono _ (λ _ s', inv s' ∧ queue_eq s4 s')).
  - destruct (nv_Batch nv) as [b|] eqn:Hb.
    + apply wp_newview_request; [done|intros Hf; rewrite Hcm4, Hcm3, Hcm2, R3, Q3, L3; auto|].
      destruct Hup as (l & vcs & best & Hl & Hcv & Hbest & Hle). rewrite L1 in Hcv.
      pose proof (Hok b l vcs best Hb Hl Hcv Hbest). lia.
    + wp_step. eapply wp_framed; [auto with goframe|]. intros _ s5 H5.
      eapply wp_mono; [apply wp_maybeSendNextBatch; by eapply inv_core|].
      intros _ s6 [? ?]. split; [done|]. transitivity s5; [by apply core_queue_eq|done].
  - intros _ s5 (Hi5 & [T1 T2 T3 T4 T5]).
    eapply wp_mono; [by apply wp_processBacklog|].
    intros _ s6 (Hi6 & (U1 & U2 & U3 & U4)). split; [done|]. split_and!; congruence.
Qed.

End view.
