(* ===== verification/SbftEvents.v ===== *)
(** * Every event of the SBFT replica keeps the invariant

    View-change and new-view messages, hellos, connections, requests, timers
    and the dispatch of [Receive]. *)

From stdpp Require Import base numbers strings gmap list.
From S2P Require Import Prelude Sha256 SbftTypes SbftMerkle SbftXset SbftXsetProofs Sbft SbftFrame SbftInv SbftHandlers SbftView.
Local Open Scope Z_scope.

(** The configuration and identity stay, the view does not go down. *)
Definition evolves (s s' : SBFT) : Prop :=
  s_config s' = s_config s ∧ s_id s' = s_id s ∧ s_view s ≤ s_view s'.

#[global] Instance evolves_refl : Reflexive evolves.
Proof. by intros s. Qed.
#[global] Instance evolves_trans : Transitive evolves.
Proof. intros x y z (? & ? & ?) (? & ? & ?). split_and!; [congruence|congruence|lia]. Qed.

Lemma evolves_light s s' : light_eq s s' → evolves s s'.
Proof. intros (? & ? & H & ?). split_and!; [done|done|rewrite H; lia]. Qed.
Lemma evolves_queue s s' : queue_eq s s' → evolves s s'.
Proof. intros H. by apply evolves_light, queue_light_eq. Qed.
Lemma evolves_core s s' : core_eq s s' → evolves s s'.
Proof. intros H. by apply evolves_queue, core_queue_eq. Qed.
Lemma evolves_same s s' : same_view s s' → evolves s s'.
Proof. intros (? & ? & H). split_and!; [done|done|rewrite H; lia]. Qed.

Section events.
Context `{E : Env} `{L : !EnvLaws E}.
Context (auth : Z → Msg → Prop).

Abbreviation inv := (inv auth).
Abbreviation base := (base auth).

(** The contract of an event handler. *)
Definition keeps (m : M SBFT unit) (s : SBFT) : Prop :=
  wp m (λ _ s', inv s' ∧ evolves s s') s.

Lemma keeps_framed m s : inv s → framed m → keeps m s.
Proof.
  intros Hi Hm. eapply wp_framed; [done|]. intros _ s' H.
  split; [by eapply inv_core|by apply evolves_core].
Qed.

Lemma keeps_after m s s' : evolves s s' → keeps m s' → wp m (λ _ s'', inv s'' ∧ evolves s s'') s'.
Proof.
  intros He Hk. eapply wp_mono; [exact Hk|]. intros _ s'' [? ?]. split; [done|by transitivity s'].
Qed.

Lemma keeps_bind {A} (m : M SBFT A) (f : A → M SBFT unit) s :
  wp m (λ a s', inv s' ∧ evolves s s' ∧ keeps (f a) s') s → keeps (m ≫= f) s.
Proof.
  intros Hm. unfold keeps. wp_step. eapply wp_mono; [exact Hm|].
  intros a s' (Hi & He & Hk). by apply keeps_after.
Qed.

Lemma keeps_framed_bind {A} (m : M SBFT A) (f : A → M SBFT unit) s :
  inv s → framed m → (∀ a s', core_eq s s' → inv s' → keeps (f a) s') → keeps (m ≫= f) s.
Proof.
  intros Hi Hm Hf. apply keeps_bind. eapply wp_framed; [done|]. intros a s' H.
  assert (inv s') by (by eapply inv_core). split_and!; [done|by apply evolves_core|auto].
Qed.

Lemma keeps_ret s : inv s → keeps (mret tt) s.
Proof. intros Hi. by apply wp_ret. Qed.

(** ** View changes *)
Lemma inv_set_view s v : inv s → s_view s ≤ v → inv (set_view v s).
Proof.
  intros [[] Hs] Hv. split; [split; simpl; auto; lia|]. intros Hf.
  destruct (Hs Hf) as [S1 S2 S3 S4]. split; auto. intros x Hx Hnz.
  destruct (S3 x Hx Hnz) as (H1 & H2 & H3 & H4). simpl.
  split_and!; [lia|intros Ha; specialize (H2 Ha); lia|done|intros Hc; specialize (H4 Hc); lia].
Qed.

Lemma inv_deactivate s v : inv s → s_view s < v → inv (set_activeView false (set_view v s)).
Proof.
  intros [[] Hs] Hv. split; [split; simpl; auto; lia|]. intros Hf.
  destruct (Hs Hf) as [S1 S2 S3 S4]. split; auto. intros x Hx Hnz.
  destruct (S3 x Hx Hnz) as (H1 & H2 & H3 & H4). simpl.
  split_and!; [lia|intros; lia|done|intros Hc; specialize (H4 Hc); lia].
Qed.

Lemma inv_map_replicas s f : inv s →
  (∀ i r, replica_ok auth (s_config s) (s_id s) i r → replica_ok auth (s_config s) (s_id s) i (f r)) →
  inv (set_replicaState (fmap f) s).
Proof.
  intros [[] Hs] Hf. split; [|intros Hfr; destruct (Hs Hfr); by split].
  split; simpl; auto; [by rewrite length_fmap|].
  intros i r. rewrite list_lookup_fmap. intros (r' & Hr & ->)%fmap_Some. auto.
Qed.

Lemma drop_old_viewchange_ok cfg id i v r :
  replica_ok auth cfg id i r → replica_ok auth cfg id i (drop_old_viewchange v r).
Proof. unfold drop_old_viewchange. repeat case_match; done. Qed.

Lemma keeps_sendViewChange s :
  inv s → s_view s < u64_max → keeps sendViewChange s.
Proof.
  intros Hi Hv. unfold keeps, sendViewChange. do 5 wp_step.
  assert (0 ≤ s_view s) as H0 by apply Hi.
  assert (nextView s = s_view s + 1) as Hn.
  { unfold nextView, u64, u64_max in *. rewrite Z.mod_small; lia. }
  eapply wp_framed; [apply framed_Cancel|]. intros _ s1 H1. do 6 wp_step.
  set (s2 := set_replicaState _ _).
  assert (inv s2 ∧ evolves s s2) as [Hi2 He2].
  { split.
    - apply inv_map_replicas; [|intros; by apply drop_old_viewchange_ok].
      assert (core_eq (set_activeView false (set_view (nextView s) s)) (set_activeView false s1)) as Hc
        by (by destruct H1; split).
      eapply inv_core; [exact Hc|]. apply inv_deactivate; [done|lia].
    - destruct H1 as [C1 C2 C3 _ _ _ _ _]. split_and!; simpl; [done|done|].
      rewrite C3. simpl. lia. }
  unfold LastBatch. do 3 wp_step. eapply wp_framed; [apply framed_Cancel|]. intros _ s3 H3.
  wp_step. eapply wp_framed; [apply framed_Cancel|]. intros _ s4 H4.
  wp_step. eapply wp_framed; [by apply framed_broadcast|]. intros _ s5 H5.
  assert (core_eq s2 s5) as H25 by (by transitivity s3; [|transitivity s4]).
  eapply wp_mono; [apply (wp_processNewView auth); by eapply inv_core|].
  intros _ s6 [? ?]. split; [done|]. transitivity s2; [done|].
  transitivity s5; [by apply evolves_core|by apply evolves_same].
Qed.

Lemma vc_quorum_le rs q m : (vc_quorum rs q m).2 ≤ m.
Proof.
  revert q m. induction rs as [|r rs IH]; intros q m; simpl; [lia|].
  destruct (ri_viewchange r) as [vc|]; [|apply IH].
  etransitivity; [apply IH|]. case_bool_decide; lia.
Qed.

Lemma checkSig_vc_u64 svc src vc : checkSig_vc svc src = Some vc → 0 ≤ vc_View vc < 2 ^ 64.
Proof.
  unfold checkSig_vc. case_match; [|done]. intros H'. by eapply unmarshal_vc_u64.
Qed.

Lemma keeps_handleViewChange svc src s :
  inv s → s_view s < u64_max → keeps (handleViewChange svc src) s.
Proof.
  intros Hi Hv. unfold handleViewChange.
  destruct (checkSig_vc svc src) as [vc|] eqn:Hvc; [|by apply keeps_ret].
  apply checkSig_vc_u64 in Hvc. unfold keeps. do 4 wp_step.
  destruct a as [h|]; [|by apply wp_ret]. do 2 wp_step.
  case_match; [by apply wp_ret|]. wp_step. apply wp_replica. intros r Hsrc Hr.
  destruct (match ri_viewchange r with Some _ => _ | None => _ end); [by apply wp_ret|].
  wp_step. apply wp_update_replica. intros r' _ Hr'. rewrite Hr in Hr'. injection Hr' as <-.
  set (s1 := set_replicaState _ s).
  assert (inv s1) as Hi1.
  { eapply inv_update_replica; [done|done|done|]. exact (base_replicas _ _ (proj1 Hi) _ _ Hr). }
  do 2 wp_step. destruct (vc_quorum (s_replicaState s1) 0 (vc_View vc)) as [quorum min] eqn:Hq.
  pose proof (vc_quorum_le (s_replicaState s1) 0 (vc_View vc)) as Hmin. rewrite Hq in Hmin.
  simpl in Hmin. destruct (bool_decide (quorum = _) && _) eqn:Hb.
  - apply andb_true_iff in Hb as [_ Hlt]. apply bool_decide_eq_true in Hlt. do 2 wp_step.
    assert (0 ≤ s_view s) by apply Hi.
    assert (u64 (min - 1) = min - 1) as -> by (unfold u64; rewrite Z.mod_small; lia).
    apply keeps_after; [split_and!; simpl; [done|done|lia]|].
    apply keeps_sendViewChange; simpl; [apply inv_set_view; [done|simpl; lia]|].
    unfold u64_max. lia.
  - apply (keeps_framed _ s1 Hi1). solve_framed; eauto with goframe.
Qed.

(** ** New views *)

(** The batch a new view carries has the sequence number of its [Xset]. *)
Definition nv_aligned (nv : NewView) : Prop :=
  ∀ b x, nv_Batch nv = Some b → nv_Xset nv = Some x → batch_seq b = sv_Seq (tseq x).

Lemma newview_ok_intro cfg v nv l vcs best :
  nv_aligned nv → l ≡ₚ map_to_list (nv_Vset nv) →
  check_vset cfg (nv_View nv) l = Ok (Some vcs) →
  makeXset cfg v vcs = Ok (Some (nv_Xset nv, best)) →
  (nv_Xset nv = None → nv_Batch nv = None) → newview_ok cfg nv.
Proof.
  intros Hal Hl Hv Hx Hnone b l' vcs' best' Hb Hl' Hv' Hbest'.
  apply makeXset_Ok in Hx as [Hbest Hseq].
  destruct (nv_Xset nv) as [x|] eqn:Hxs; [|specialize (Hnone eq_refl); congruence].
  rewrite (Hal b x Hb Hxs), (Hseq x eq_refl).
  apply check_vset_Ok in Hv as [-> _]. apply check_vset_Ok in Hv' as [-> _].
  assert (batch_seq best' = batch_seq best) as ->.
  { eapply is_best_seq; [|exact Hbest'|exact Hbest]. by rewrite Hl, Hl'. }
  pose proof (batch_seq_range best). unfold u64. apply Z.mod_le; lia.
Qed.

Lemma keeps_handleNewView nv src s :
  inv s → s_view s < u64_max → nv_aligned nv → keeps (handleNewView nv src) s.
Proof.
  intros Hi Hv Hal. unfold handleNewView. unfold keeps. do 2 wp_step.
  destruct (negb _); [by apply wp_ret|]. wp_step. apply wp_replica. intros r Hsrc Hr.
  destruct (match ri_newview r with Some _ => _ | None => _ end); [by apply wp_ret|].
  wp_step. apply wp_checkNewViewSignatures. intros vr l s1 Hc1 Hl Hcv.
  assert (inv s1) as Hi1 by (by eapply inv_core).
  assert (evolves s s1) as He1 by (by apply evolves_core).
  assert (wp sendViewChange (λ _ s'', inv s'' ∧ evolves s s'') s1) as Hbad.
  { apply keeps_after; [done|]. apply keeps_sendViewChange; [done|]. by rewrite (ce_view _ _ Hc1). }
  destruct vr as [vcs|]; [|exact Hbad]. do 4 wp_step. rename E0 into Hx.
  destruct a as [[xset best]|]; [|exact Hbad].
  destruct (bool_decide (nv_Xset nv = xset)) eqn:Hxs; simpl; [|exact Hbad].
  apply bool_decide_eq_true in Hxs as <-.
  wp_step. apply (wp_mono _ (λ bad s', s' = s1 ∧
    (bad = false → nv_Xset nv = None → nv_Batch nv = None))).
  { destruct (nv_Xset nv) as [x|], (nv_Batch nv) as [b|]; try apply wp_panic; by apply wp_ret. }
  intros bad ? (-> & Hnone). destruct bad; [exact Hbad|]. specialize (Hnone eq_refl).
  wp_step. apply (wp_mono _ (λ _ s', s' = s1)).
  { destruct (nv_Batch nv); [|by apply wp_ret]. by wp_step. }
  intros cb ? ->. destruct cb as [h|]; [|exact Hbad].
  wp_step. apply wp_update_replica. intros r1 _ Hr1. set (s2 := set_replicaState _ s1).
  assert (inv s2) as Hi2.
  { eapply inv_update_replica; [done|done|done|].
    destruct (base_replicas _ _ (proj1 Hi1) _ _ Hr1) as (? & ? & ? & _).
    split_and!; [done|done|done|]. intros ? [= <-]. rewrite (ce_config _ _ Hc1).
    by eapply newview_ok_intro. }
  do 3 wp_step. apply (wp_mono _ (λ _ s', inv s' ∧ evolves s2 s')).
  { case_bool_decide; [|by apply wp_ret]. wp_step.
    split; [apply inv_deactivate; [done|lia]|]. split_and!; simpl in *; [done|done|lia]. }
  intros _ s3 [Hi3 He3]. eapply wp_mono; [by apply (wp_processNewView auth)|].
  intros _ s4 [? ?]. split; [done|]. transitivity s2; [done|].
  transitivity s3; [done|by apply evolves_same].
Qed.

(** ** Connections *)
Lemma commits_Send c dest s :
  wp (Send (MsgCommit c) dest)
    (λ _ s', (∀ x, x ∈ commits s' → x ∈ commits s ∨ x = c) ∧ queue_eq s s'
       ∧ s_cur s' = s_cur s ∧ sys_batches (s_sys s') = sys_batches (s_sys s)) s.
Proof.
  unfold Send. wp_step. split_and!; try done.
  intros x. unfold commits. simpl. rewrite omap_app, elem_of_app. simpl. set_solver.
Qed.

Lemma keeps_Connection dest s : inv s → keeps (Connection dest) s.
Proof.
  intros Hi. unfold Connection, LastBatch. unfold keeps. do 5 wp_step.
  eapply wp_framed; [by apply framed_Send|]. intros _ s1 H1.
  wp_step. eapply wp_framed; [apply framed_replica|]. intros r s2 H2.
  wp_step. apply (wp_mono _ (λ _ s', core_eq s2 s')).
  { case_match; [by apply framed_Send|by apply wp_ret]. }
  intros _ s3 H3. assert (core_eq s s3) as H03 by (by transitivity s1; [|transitivity s2]).
  do 4 wp_step. wp_step. apply wp_curSeq. intros _. rewrite (ce_cur _ _ H03).
  assert (inv s3) as Hi3 by (by eapply inv_core).
  assert (evolves s s3) as He3 by (by apply evolves_core).
  destruct (_ && s_activeView s) eqn:Hb; [|by apply wp_ret].
  apply andb_true_iff in Hb as [_ Hact].
  wp_step. apply (wp_mono _ (λ _ s', core_eq s3 s')).
  { case_match; [|by apply framed_Send].
    apply framed_bind; [apply framed_lift, terminates_deref|].
    intros pp. by apply framed_Send. }
  intros _ s4 H4. assert (core_eq s s4) as H04 by (by transitivity s3).
  wp_step. apply (wp_mono _ (λ _ s', inv s' ∧ evolves s s')).
  - case_match; [|apply wp_ret; split; [by eapply inv_core|by apply evolves_core]].
    eapply wp_mono; [apply commits_Send|]. intros _ s5 (Hc & Hq & Hcur & Hbat).
    split; [|transitivity s4; [by apply evolves_core|by apply evolves_queue]].
    apply (inv_commit_sent auth s4); try done; [by eapply inv_core|by rewrite (ce_active _ _ H04)|].
    by rewrite (ce_cur _ _ H04).
  - intros _ s5 [Hi5 He5]. apply keeps_after; [done|]. case_match; [|by apply keeps_ret].
    apply keeps_framed; [done|]. apply framed_bind; [apply framed_makeCheckpoint|].
    intros cp. by apply framed_Send.
Qed.

(** The hello's batch passes [checkBatch], so the panic of [Connection] is not
    reached. *)
Lemma certified_hello cfg lb :
  certified cfg lb → ∃ h, checkBatch cfg (Some (mkBatch (b_Header lb) [] (b_Signatures lb)))
    false true = Ok (Some h).
Proof. intros [h Hh]. by exists h. Qed.

Lemma keeps_deliver_later b s :
  inv s → certified (s_config s) b → last_seq s ≤ batch_seq b → keeps (deliverBatch b) s.
Proof.
  intros Hi Hc Hl. apply wp_deliverBatch. intros s' Hd.
  split; [by eapply inv_deliver|by apply evolves_queue, (de_queue _ _ _ Hd)].
Qed.

Lemma keeps_maybeDeliverUsingXset nv s : inv s → keeps (maybeDeliverUsingXset nv) s.
Proof.
  intros Hi. eapply wp_mono; [by apply (wp_maybeDeliverUsingXset auth)|].
  intros _ s' (? & ? & _). split; [done|by apply evolves_queue].
Qed.

Lemma keeps_discardBacklog src s : inv s → keeps (discardBacklog src) s.
Proof.
  intros Hi. eapply wp_mono; [by apply wp_discardBacklog|].
  intros _ s' (? & ? & _). split; [done|by apply evolves_light].
Qed.

Lemma keeps_processBacklog s : inv s → keeps processBacklog s.
Proof.
  intros Hi. eapply wp_mono; [by apply wp_processBacklog|].
  intros _ s' [? ?]. split; [done|by apply evolves_light].
Qed.

(** The new-view part of [handleHello]. *)
Lemma keeps_hello_newview s0 h src s (k : bool → M SBFT unit) :
  inv s → core_eq s0 s ∨ s_view s0 = s_view s →
  (∀ b s', inv s' → keeps (k b) s') →
  keeps (continue ← (match h_NewView h with
        | None => mret true
        | Some nv =>
            if negb (bool_decide (primaryIDView (s_config s0) (nv_View nv) = src)) then mret false else
            vcs ← checkNewViewSignatures nv;
            match vcs with
            | None => mret false
            | Some vcs =>
                xr ← lift (makeXset (s_config s0) (s_view s0) vcs);
                match xr with
                | None => mret false
                | Some _ =>
                    _ ← (if bool_decide (s_view s0 <= nv_View nv)
                         then modify (λ s, set_activeView true (set_view (nv_View nv) s))
                         else mret tt);
                    _ ← maybeDeliverUsingXset nv;
                    mret true
                end
            end
        end); k continue) s.
Proof.
  intros Hi Hs0 Hk. assert (s_view s0 = s_view s) as Hv by (by destruct Hs0 as [[]|]).
  apply keeps_bind. apply (wp_mono _ (λ _ s', inv s' ∧ evolves s s')).
  2: { intros b s' [? ?]. auto. }
  destruct (h_NewView h) as [nv|]; [|by apply wp_ret].
  destruct (negb _); [by apply wp_ret|].
  wp_step. apply wp_checkNewViewSignatures. intros vr l s1 Hc1 _ _.
  assert (inv s1) as Hi1 by (by eapply inv_core).
  assert (evolves s s1) as He1 by (by apply evolves_core).
  destruct vr as [vcs|]; [|by apply wp_ret]. do 2 wp_step.
  destruct a as [x|]; [|by apply wp_ret].
  wp_step. apply (wp_mono _ (λ _ s', inv s' ∧ evolves s s')).
  { case_bool_decide; [|by apply wp_ret]. wp_step.
    pose proof (ce_view _ _ Hc1). split.
    - apply inv_set_active, inv_set_view; [done|lia].
    - transitivity s1; [done|]. split_and!; simpl; [done|done|lia]. }
  intros _ s2 [Hi2 He2]. wp_step. eapply wp_mono; [by apply keeps_maybeDeliverUsingXset|].
  intros _ s3 [? ?]. apply wp_ret. split; [done|by transitivity s2].
Qed.

Lemma keeps_handleHello h src s : inv s → keeps (handleHello h src) s.
Proof.
  intros Hi. unfold handleHello, keeps. do 4 wp_step. rename E0 into Hcb.
  destruct a as [bh|]; [|by apply wp_ret]. wp_step. apply wp_seq. intros _.
  do 2 wp_step. rename a into hb, E0 into Hhb. rewrite Hhb in Hcb.
  assert (certified (s_config s) hb) as Hcert by (by exists bh).
  assert (batch_seq hb = bh_Seq bh) as Hseq.
  { unfold batch_seq. by rewrite (checkBatch_Some _ _ _ _ _ Hcb). }
  wp_step. apply (wp_mono _ (λ _ s', inv s' ∧ light_eq s s')).
  { case_bool_decide; [|by apply wp_ret]. apply wp_deliverBatch. intros s' Hd.
    split; [eapply inv_deliver; eauto; lia|by apply queue_light_eq, (de_queue _ _ _ Hd)]. }
  intros _ s1 [Hi1 Hl]. apply keeps_after; [by apply evolves_light|].
  apply keeps_hello_newview; [done|right; by destruct Hl as (? & ? & ? & ?)|].
  intros [] s2 Hi2; [|by apply keeps_ret].
  apply keeps_bind. apply wp_update_replica. intros r Hsrc Hr.
  assert (inv (set_replicaState (alter (set_hello (Some h)) (Z.to_nat src)) s2)) as Hi3.
  { eapply inv_update_replica; [done|done|done|]. exact (base_replicas _ _ (proj1 Hi2) _ _ Hr). }
  split_and!; [done|done|]. apply keeps_bind.
  eapply wp_mono; [by apply keeps_discardBacklog|]. intros _ s4 [? ?].
  split_and!; [done|done|by apply keeps_processBacklog].
Qed.

(** ** Requests and the backlog *)
Lemma keeps_maybeSendNextBatch s : inv s → keeps maybeSendNextBatch s.
Proof.
  intros Hi. eapply wp_mono; [by apply wp_maybeSendNextBatch|].
  intros _ s' [? ?]. split; [done|by apply evolves_queue].
Qed.

Lemma keeps_handleRequest req src s : inv s → keeps (handleRequest req src) s.
Proof.
  intros Hi. unfold handleRequest.
  apply keeps_framed_bind; [done|by apply framed_modify|]. intros _ s1 _ Hi1.
  apply keeps_framed_bind; [done|apply framed_get|]. intros s1' s2 _ Hi2.
  case_match; [|by apply keeps_ret].
  apply keeps_framed_bind; [done|by apply framed_modify|]. intros _ s3 _ Hi3.
  apply keeps_framed_bind; [done|apply framed_gets|]. intros b s4 _ Hi4.
  case_match; [by apply keeps_maybeSendNextBatch|].
  apply keeps_framed; [done|apply framed_startBatchTimer].
Qed.

(** A backlog holds at most 12 messages: the thirteenth empties it. *)
Lemma keeps_recordBacklogMsg m src s :
  inv s → auth src m → keeps (recordBacklogMsg m src) s.
Proof.
  intros Hi Ha. unfold recordBacklogMsg, keeps. do 2 wp_step.
  destruct (bool_decide (src = s_id s)) eqn:Hid; [apply wp_panic|].
  apply bool_decide_eq_false in Hid.
  wp_step. apply wp_update_replica. intros r Hsrc Hr. set (s1 := set_replicaState _ s).
  wp_step. apply wp_replica. intros r1 _ Hr1. simpl in Hr1.
  rewrite list_lookup_alter_eq, Hr in Hr1. injection Hr1 as <-. simpl.
  destruct (base_replicas _ _ (proj1 Hi) _ _ Hr) as (H12 & Hau & Hown & Hnv).
  case_bool_decide as Hlen.
  - wp_step. apply wp_update_replica. intros r2 _ Hr2.
    eapply wp_framed; [apply framed_Reconnect|]. intros _ s3 H3.
    set (s2 := set_replicaState _ s1) in H3.
    assert (inv s2) as Hi2.
    { assert (s2 = set_replicaState (alter (set_backLog []) (Z.to_nat src)) s) as ->.
      { unfold s2, s1, set_replicaState. simpl. f_equal. by rewrite list_alter_alter. }
      eapply inv_update_replica; [done|done|done|]. split_and!; simpl; [lia|done|done|done]. }
    split; [by eapply inv_core|]. transitivity s2; [done|by apply evolves_core].
  - apply wp_ret. split; [|done]. eapply inv_update_replica; [done|done|done|].
    unfold maxBacklogSeq, msgPerSeq in Hlen. split_and!; simpl; [lia| | |done].
    + apply Forall_app. split; [done|]. rewrite Z2Nat.id by done. by apply Forall_singleton.
    + rewrite Z2Nat.id by done. done.
Qed.

Lemma keeps_Receive m src s :
  inv s → s_view s < u64_max → auth src m →
  (∀ nv, m = MsgNewView nv → nv_aligned nv) → keeps (Receive m src) s.
Proof.
  intros Hi Hv Ha Hnv.
  assert (keeps (b ← testBacklog m src;
      if (b : bool) then recordBacklogMsg m src
      else handleQueueableMessage processBacklog m src) s) as Hq.
  { unfold testBacklog, keeps. do 2 wp_step. apply wp_replica. intros r Hsrc Hr.
    case_bool_decide; [apply wp_ret; by apply keeps_recordBacklogMsg|].
    do 2 wp_step. apply wp_lift; [apply terminates_testBacklogMessage|]. intros a Ht. destruct a; [by apply keeps_recordBacklogMsg|].
    eapply wp_mono; [eapply (wp_handleQueueableMessage auth _ (backlog_size s)); try done|].
    - eapply replica_in_range; [apply Hi|done|done].
    - apply processBacklog_drains.
    - intros _ s' (? & ? & _). split; [done|by apply evolves_light]. }
  destruct m; simpl; try exact Hq; clear Hq.
  - by apply keeps_handleRequest.
  - by apply keeps_handleViewChange.
  - apply keeps_handleNewView; [done|done|by apply Hnv].
  - by apply keeps_handleHello.
Qed.

(** ** The event loop *)
Definition event_ok (e : event) : Prop :=
  match e with
  | EReceive m src => auth src m ∧ ∀ nv, m = MsgNewView nv → nv_aligned nv
  | _ => True
  end.

Lemma keeps_handle_event e s :
  inv s → s_view s < u64_max → event_ok e → keeps (handle_event e) s.
Proof.
  intros Hi Hv He. destruct e as [m src|req|r|id]; simpl.
  - destruct He. by apply keeps_Receive.
  - apply keeps_framed; [done|apply framed_RequestM].
  - by apply keeps_Connection.
  - apply keeps_framed_bind; [done|apply framed_gets|]. intros ts s1 Hc1 Hi1.
    assert (s_view s1 < u64_max) as Hv1 by (by rewrite (ce_view _ _ Hc1)).
    destruct (ts !! id) as [[d f]|]; [|by apply keeps_ret].
    apply keeps_framed_bind; [done|by apply framed_modify|]. intros _ s2 Hc2 Hi2.
    assert (s_view s2 < u64_max) as Hv2 by (by rewrite (ce_view _ _ Hc2)).
    destruct f; [by apply keeps_sendViewChange|by apply keeps_maybeSendNextBatch|].
    unfold viewChangeTimedOut.
    apply keeps_framed_bind; [done|by apply framed_modify|]. intros _ s3 Hc3 Hi3.
    apply keeps_sendViewChange; [done|]. by rewrite (ce_view _ _ Hc3).
Qed.

End events.
