(* ===== verification/SbftTrace.v ===== *)
(** * The trace of an SBFT replica only grows

    Every handler appends to the messages sent and to the batches delivered;
    it never retracts one. *)

From stdpp Require Import base numbers strings gmap list.
From S2P Require Import Prelude Sha256 SbftTypes SbftMerkle SbftXset Sbft SbftFrame.
Local Open Scope Z_scope.

Definition extends (s s' : SBFT) : Prop :=
  sys_out (s_sys s) `prefix_of` sys_out (s_sys s')
  ∧ sys_batches (s_sys s) `prefix_of` sys_batches (s_sys s').

#[global] Instance extends_refl : Reflexive extends.
Proof. by intros s. Qed.
#[global] Instance extends_trans : Transitive extends.
Proof. intros x y z [] []. split; by etrans. Qed.

Definition grows {A} (m : M SBFT A) : Prop :=
  ∀ s a s', m s = Ok (a, s') → extends s s'.

Lemma grows_bind {A B} (m : M SBFT A) (f : A → M SBFT B) :
  grows m → (∀ a, grows (f a)) → grows (m ≫= f).
Proof.
  intros Hm Hf s b s'. unfold mbind, M_bind. destruct (m s) as [[a s1]| |] eqn:Em; try done.
  intros H. etrans; [by eapply Hm|by eapply Hf].
Qed.
Lemma grows_ret {A} (a : A) : grows (mret a).
Proof. by intros s ? ? [= <- <-]. Qed.
Lemma grows_get : grows get.
Proof. by intros s ? ? [= <- <-]. Qed.
Lemma grows_gets {A} (f : SBFT → A) : grows (gets f).
Proof. by intros s ? ? [= <- <-]. Qed.
Lemma grows_lift {A} (r : res A) : grows (lift r).
Proof. intros s a s'. unfold lift. destruct r; try done. by intros [= <- <-]. Qed.
Lemma grows_panic {A} : grows (A := A) go_panic.
Proof. done. Qed.
Lemma grows_fuel {A} : grows (A := A) out_of_fuel.
Proof. done. Qed.
Lemma grows_modify f : (∀ s, extends s (f s)) → grows (modify f).
Proof. intros Hf s ? ? [= <- <-]. apply Hf. Qed.
Lemma grows_for_each {A} (l : list A) f : (∀ x, grows (f x)) → grows (for_each l f).
Proof.
  intros Hf. induction l as [|x l IH]; simpl; [apply grows_ret|]. by apply grows_bind.
Qed.

Create HintDb gogrow.
Ltac solve_grows :=
  repeat first
    [ progress intros
    | solve [eauto with gogrow]
    | match goal with
      | |- grows (mbind _ _) => apply grows_bind
      | |- grows (mret _) => apply grows_ret
      | |- grows get => apply grows_get
      | |- grows (gets _) => apply grows_gets
      | |- grows go_panic => apply grows_panic
      | |- grows out_of_fuel => apply grows_fuel
      | |- grows (for_each _ _) => apply grows_for_each
      | |- grows (lift _) => apply grows_lift
      | |- grows (modify _) => apply grows_modify; intros; solve [split; simpl; auto using prefix_app_r]
      end
    | case_match ].

Section grows_ops.
Context `{E : Env}.

Lemma grows_Send m d : grows (Send m d).
Proof. apply grows_modify. intros s. split; simpl; [by apply prefix_app_r|done]. Qed.
Lemma grows_broadcast m : grows (broadcast m).
Proof. unfold broadcast. solve_grows. apply grows_Send. Qed.
Lemma grows_Reconnect r : grows (Reconnect r).
Proof. apply grows_modify. intros s. split; simpl; [by apply prefix_app_r|done]. Qed.
Lemma grows_Timer d f : grows (Timer d f).
Proof. unfold Timer. solve_grows. Qed.
Lemma grows_Cancel c : grows (Cancel c).
Proof. unfold Cancel. solve_grows. Qed.
Lemma grows_Persist k d : grows (Persist k d).
Proof. unfold Persist. solve_grows. Qed.
Lemma grows_deliverBatch b : grows (deliverBatch b).
Proof. unfold deliverBatch, Deliver. solve_grows. Qed.
#[local] Hint Resolve grows_Send grows_broadcast grows_Reconnect grows_Timer grows_Cancel
  grows_Persist grows_deliverBatch : gogrow.

Lemma grows_update_replica i f : grows (update_replica i f).
Proof. unfold update_replica, replica. solve_grows. Qed.
Lemma grows_replica i : grows (replica i).
Proof. unfold replica. solve_grows. Qed.
Lemma grows_seq : grows seq.
Proof. unfold seq, LastBatch. solve_grows. Qed.
Lemma grows_curSeq : grows curSeq.
Proof. unfold curSeq. solve_grows. Qed.
Lemma grows_range_map {K V} `{Countable K} (m : gmap K V) : grows (range_map m).
Proof. unfold range_map. solve_grows. Qed.
Lemma grows_checkNewViewSignatures nv : grows (checkNewViewSignatures nv).
Proof. unfold checkNewViewSignatures, range_map. solve_grows. Qed.
#[local] Hint Resolve grows_update_replica grows_replica grows_seq grows_curSeq grows_range_map
  grows_checkNewViewSignatures : gogrow.

Lemma grows_sendPrepare : grows sendPrepare.
Proof. unfold sendPrepare. solve_grows. Qed.
Lemma grows_maybeSendCommit : grows maybeSendCommit.
Proof. unfold maybeSendCommit, sendCommit. solve_grows. Qed.
Lemma grows_maybeExecute : grows maybeExecute.
Proof. unfold maybeExecute, sendCheckpoint, makeCheckpoint. solve_grows. Qed.
#[local] Hint Resolve grows_sendPrepare grows_maybeSendCommit grows_maybeExecute : gogrow.

Lemma grows_acceptPreprepare pp : grows (acceptPreprepare pp).
Proof. unfold acceptPreprepare. solve_grows. Qed.
#[local] Hint Resolve grows_acceptPreprepare : gogrow.
Lemma grows_handleCheckedPreprepare pp : grows (handleCheckedPreprepare pp).
Proof. unfold handleCheckedPreprepare. solve_grows. Qed.
#[local] Hint Resolve grows_handleCheckedPreprepare : gogrow.
Lemma grows_handlePreprepare pp src : grows (handlePreprepare pp src).
Proof. unfold handlePreprepare, nextSeq, LastBatch. solve_grows. Qed.
Lemma grows_sendPreprepare b : grows (sendPreprepare b).
Proof. unfold sendPreprepare, nextSeq, LastBatch. solve_grows. Qed.
#[local] Hint Resolve grows_handlePreprepare grows_sendPreprepare : gogrow.
Lemma grows_maybeSendNextBatch : grows maybeSendNextBatch.
Proof. unfold maybeSendNextBatch. solve_grows. Qed.
Lemma grows_cancelViewChangeTimer : grows cancelViewChangeTimer.
Proof. unfold cancelViewChangeTimer. solve_grows. Qed.
#[local] Hint Resolve grows_maybeSendNextBatch grows_cancelViewChangeTimer : gogrow.
Lemma grows_handleRequest r src : grows (handleRequest r src).
Proof. unfold handleRequest, startBatchTimer. solve_grows. Qed.
Lemma grows_handlePrepare p src : grows (handlePrepare p src).
Proof. unfold handlePrepare. solve_grows. Qed.
Lemma grows_handleCommit c src : grows (handleCommit c src).
Proof. unfold handleCommit. solve_grows. Qed.
#[local] Hint Resolve grows_handleRequest grows_handlePrepare grows_handleCommit : gogrow.

Lemma grows_handleCheckpoint pb c src : grows pb → grows (handleCheckpoint pb c src).
Proof. intros Hpb. unfold handleCheckpoint. solve_grows. Qed.
#[local] Hint Resolve grows_handleCheckpoint : gogrow.

Lemma grows_handleQueueableMessage pb m src :
  grows pb → grows (handleQueueableMessage pb m src).
Proof. intros Hpb. unfold handleQueueableMessage. solve_grows. Qed.
#[local] Hint Resolve grows_handleQueueableMessage : gogrow.
Lemma grows_drain pb fuel src : grows pb → grows (drain pb fuel src).
Proof. intros Hpb. induction fuel as [|fuel IH]; simpl; solve_grows. Qed.
#[local] Hint Resolve grows_drain : gogrow.
Lemma grows_sweep pb fuel srcs b : grows pb → grows (sweep pb fuel srcs b).
Proof. intros Hpb. revert b. induction srcs as [|src srcs IH]; simpl; solve_grows. Qed.
#[local] Hint Resolve grows_sweep : gogrow.
Lemma grows_processBacklog_fuel fuel : grows (processBacklog_fuel fuel).
Proof. induction fuel as [|fuel IH]; simpl; solve_grows. Qed.
Lemma grows_processBacklog : grows processBacklog.
Proof. intros s a s'. apply grows_processBacklog_fuel. Qed.
#[local] Hint Resolve grows_processBacklog : gogrow.

Lemma grows_maybeDeliverUsingXset nv : grows (maybeDeliverUsingXset nv).
Proof. unfold maybeDeliverUsingXset. solve_grows. Qed.
#[local] Hint Resolve grows_maybeDeliverUsingXset : gogrow.
Lemma grows_processNewView : grows processNewView.
Proof. unfold processNewView, discardBacklog, zeroCurSeq. solve_grows. Qed.
#[local] Hint Resolve grows_processNewView : gogrow.
Lemma grows_sendViewChange : grows sendViewChange.
Proof. unfold sendViewChange, LastBatch. solve_grows. Qed.
#[local] Hint Resolve grows_sendViewChange : gogrow.
Lemma grows_handleViewChange svc src : grows (handleViewChange svc src).
Proof. unfold handleViewChange, maybeSendNewView. solve_grows. Qed.
Lemma grows_handleNewView nv src : grows (handleNewView nv src).
Proof. unfold handleNewView. solve_grows. Qed.
Lemma grows_handleHello h src : grows (handleHello h src).
Proof. unfold handleHello, discardBacklog. solve_grows. Qed.
Lemma grows_Connection d : grows (Connection d).
Proof. unfold Connection, LastBatch, makeCheckpoint. solve_grows. Qed.
#[local] Hint Resolve grows_handleViewChange grows_handleNewView grows_handleHello
  grows_Connection : gogrow.

Lemma grows_handle_event e : grows (handle_event e).
Proof.
  destruct e as [m src|req|r|id]; simpl; unfold RequestM, requestTimeout, viewChangeTimedOut;
    [|solve_grows..].
  destruct m; simpl; unfold testBacklog, recordBacklogMsg, discardBacklog; solve_grows.
Qed.

End grows_ops.
