(* ===== verification/SbftSim.v ===== *)
(** * A concrete environment and runs of a four-replica network

    A lawful instance of [Env] (an executable encoding of headers and view
    changes, keyed signatures, maps iterated in key order) and a scheduler that
    delivers every message a replica sends.  Its runs are runs of [net_step]. *)

From Stdlib Require Import Strings.Byte.
From stdpp Require Import base numbers strings functions relations gmap list.
From S2P Require Import Prelude Wire Sha256 SbftTypes SbftMerkle SbftXset SbftXsetProofs Sbft SbftFrame SbftInv SbftHandlers SbftView SbftEvents SbftTrace SbftSystem.
Local Open Scope Z_scope.

#[global] Instance Signed_eq_dec : EqDecision Signed.
Proof. solve_decision. Defined.
#[global] Instance NewView_eq_dec : EqDecision NewView.
Proof. solve_decision. Defined.
#[global] Instance Checkpoint_eq_dec : EqDecision Checkpoint.
Proof. solve_decision. Defined.
#[global] Instance Hello_eq_dec : EqDecision Hello.
Proof. solve_decision. Defined.
#[global] Instance Msg_eq_dec : EqDecision Msg.
Proof. solve_decision. Defined.

(** ** An encoding *)
Module Wire.

Definition u64_guard (n : Z) : bool := bool_decide (0 ≤ n < 2 ^ 64).

Definition put_header (h : BatchHeader) : bytes :=
  put_Z (bh_Seq h) ++ put_slice (bh_PrevHash h) ++ put_slice (bh_DataHash h).
Definition get_header (l : bytes) : option BatchHeader :=
  '(n, l) ← get_Z l; '(p, l) ← get_slice l; '(d, l) ← get_slice l;
  if u64_guard n && bool_decide (l = []) then Some (mkBatchHeader n p d) else None.

Definition put_subject (s : Subject) : bytes :=
  put_option (λ sv, put_Z (sv_View sv) ++ put_Z (sv_Seq sv)) (sub_Seq s) ++ put_slice (sub_Digest s).
Definition get_seqview : parser SeqView := λ l,
  '(v, l) ← get_Z l; '(n, l) ← get_Z l; Some (mkSeqView v n, l).
Definition get_subject : parser Subject := λ l,
  '(sq, l) ← get_option get_seqview l; '(d, l) ← get_slice l; Some (mkSubject sq d, l).
Definition put_batch (b : Batch) : bytes :=
  put_bytes (b_Header b) ++ put_list put_bytes (b_Payloads b)
  ++ put_list (λ kv : Z * bytes, put_Z kv.1 ++ put_bytes kv.2) (map_to_list (b_Signatures b)).
Definition get_batch : parser Batch := λ l,
  let n := length l in
  '(h, l) ← get_bytes l; '(p, l) ← get_list get_bytes n l;
  '(s, l) ← get_list (λ l, '(k, l) ← get_Z l; '(v, l) ← get_bytes l; Some ((k, v), l)) n l;
  Some (mkBatch h p (list_to_map s), l).
Definition put_vc (vc : ViewChange) : bytes :=
  put_Z (vc_View vc) ++ put_list put_subject (vc_Pset vc) ++ put_list put_subject (vc_Qset vc)
  ++ put_option put_batch (vc_Checkpoint vc).
Definition get_vc (l : bytes) : option ViewChange :=
  let n := length l in
  '(v, l) ← get_Z l; '(p, l) ← get_list get_subject n l; '(q, l) ← get_list get_subject n l;
  '(c, l) ← get_option get_batch l;
  if u64_guard v then Some (mkViewChange v p q c) else None.

Definition sign (id : Z) (data : bytes) : bytes := byte_of_Z id :: hash data.

Definition env : Env := {|
  marshal_header := put_header; unmarshal_header := get_header;
  marshal_vc := put_vc; unmarshal_vc := get_vc;
  sys_sign := sign;
  sys_check_sig data src sig := bool_decide (sig = sign src data);
  shuffle _ _ l := l |}.

Lemma env_laws : EnvLaws env.
Proof.
  split.
  - intros h (Hs & Hp & Hd). cbn. unfold get_header, put_header.
    rewrite get_put_Z. cbn. rewrite get_put_slice by done. cbn.
    rewrite <-(app_nil_r (put_slice (bh_DataHash h))), get_put_slice by done. cbn.
    unfold u64_guard. rewrite bool_decide_eq_true_2 by lia. by destruct h.
  - intros b h. cbn. unfold get_header.
    destruct (get_Z b) as [[n l]|]; [|done]. cbn. destruct (get_slice l) as [[p l1]|]; [|done].
    cbn. destruct (get_slice l1) as [[d l2]|]; [|done]. cbn. unfold u64_guard.
    case_bool_decide; [|done]. case_match; [|done]. by intros [= <-].
  - intros b vc. cbn. unfold get_vc.
    destruct (get_Z b) as [[n l]|]; [|done]. cbn.
    destruct (get_list get_subject (length b) l) as [[p l1]|]; [|done]. cbn.
    destruct (get_list get_subject (length b) l1) as [[q l2]|]; [|done]. cbn.
    destruct (get_option get_batch l2) as [[c l3]|]; [|done]. cbn. unfold u64_guard.
    case_bool_decide; [|done]. by intros [= <-].
  - done.
Qed.

End Wire.

(** ** The scheduler *)
Section sched.
Context `{E : Env}.
Context (cfg : Config) (byz : gset Z).

Definition sentb (s : SBFT) (m : Msg) : bool :=
  existsb (λ o, match o with OSend m' _ => bool_decide (m' = m) | _ => false end) (sys_out (s_sys s)).
Definition correctb (i : Z) : bool :=
  bool_decide (0 ≤ i < cfg_N cfg) && negb (bool_decide (i ∈ byz)).
Definition alignedb (m : Msg) : bool :=
  match m with
  | MsgNewView nv => match nv_Batch nv, nv_Xset nv with
                     | Some b, Some x => bool_decide (batch_seq b = sv_Seq (tseq x))
                     | _, _ => true
                     end
  | _ => true
  end.

(** One event of one correct replica, with its premises checked. *)
Definition exec (σ : Z → SBFT) (i : Z) (e : event) : option SBFT :=
  if correctb i && bool_decide (s_view (σ i) < u64_max) &&
     match e with
     | EReceive m src => (bool_decide (src ∈ byz) || sentb (σ src) m) && alignedb m
     | _ => true
     end
  then match handle_event e (σ i) with Ok (_, s') => Some s' | _ => None end
  else None.

(** The messages sent between two states. *)
Definition new_sends (s s' : SBFT) (i : Z) : list (Z * Z * Msg) :=
  omap (λ o, match o with
             | OSend m d => if correctb d then Some (i, d, m) else None
             | _ => None
             end)
    (drop (length (sys_out (s_sys s))) (sys_out (s_sys s'))).

(** Delivers the queue, first in first out, with what it gives rise to. *)
Fixpoint drive (fuel : nat) (q : list (Z * Z * Msg)) (σ : Z → SBFT) : option (Z → SBFT) :=
  match fuel, q with
  | S fuel, (src, dst, m) :: q =>
      s' ← exec σ dst (EReceive m src);
      drive fuel (q ++ new_sends (σ dst) s' dst) (<[dst := s']> σ)
  | _, _ => Some σ
  end.

(** One external event and everything that follows. *)
Definition inject (fuel : nat) (i : Z) (e : event) (σ : Z → SBFT) : option (Z → SBFT) :=
  s' ← exec σ i e; drive fuel (new_sends (σ i) s' i) (<[i := s']> σ).

Lemma exec_step σ i e s' : exec σ i e = Some s' → net_step cfg byz σ (<[i := s']> σ).
Proof.
  unfold exec. intros H. destruct (_ && _) eqn:Hc; [|done].
  destruct (handle_event e (σ i)) as [[[] s1]| |] eqn:Hh; try done. injection H as <-.
  apply andb_true_iff in Hc as [[Hi Hv]%andb_true_iff He].
  unfold correctb in Hi. apply andb_true_iff in Hi as [H1%bool_decide_eq_true H2%negb_true_iff].
  apply bool_decide_eq_false in H2. apply bool_decide_eq_true in Hv.
  apply (net_event _ _ _ _ e); [by split| |done|done].
  destruct e as [m src|req|r|id]; simpl; try done.
  apply andb_true_iff in He as [Ha Hal]. split.
  - apply orb_true_iff in Ha as [Hb%bool_decide_eq_true|Hs]; [by left|right].
    apply existsb_exists in Hs as (o & Ho & Hm). destruct o as [m' d|b|r]; try done.
    apply bool_decide_eq_true in Hm as ->. exists d. by apply list_elem_of_In.
  - intros nv -> b x Hb Hx. simpl in Hal. rewrite Hb, Hx in Hal. by apply bool_decide_eq_true in Hal.
Qed.

Lemma drive_steps fuel q σ σ' : drive fuel q σ = Some σ' → rtc (net_step cfg byz) σ σ'.
Proof.
  revert q σ. induction fuel as [|fuel IH]; intros q σ H; [by injection H as ->|].
  destruct q as [|[[src dst] m] q]; simpl in H; [by injection H as ->|].
  apply bind_Some in H as (s' & He & H).
  eapply rtc_l; [by eapply exec_step|by eapply IH].
Qed.

Lemma inject_steps fuel i e σ σ' : inject fuel i e σ = Some σ' → rtc (net_step cfg byz) σ σ'.
Proof.
  unfold inject. intros (s' & He & H)%bind_Some.
  eapply rtc_l; [by eapply exec_step|by eapply drive_steps].
Qed.

End sched.

(** ** Four replicas *)
Module Four.
#[local] Existing Instance Wire.env.
#[local] Existing Instance Wire.env_laws.

Definition cfg4 : Config := mkConfig 4 1 2000000000 10 20000000000.
Definition sys0 : Sys := mkSys [] ∅ ∅ 0 0 [].
Definition start : Z → SBFT := λ i,
  match New i cfg4 sys0 with Ok (Some s) => s | _ => init_SBFT i cfg4 sys0 end.

Definition request : bytes := bytes_of_string "payload-0123456789".

(** A client sends a request to replica 1; all messages are delivered. *)
Definition one_request : option (Z → SBFT) := inject cfg4 ∅ 500 1 (ERequest request) start.

Definition delivered (σ : Z → SBFT) (i : Z) : list (list bytes) :=
  b_Payloads <$> sys_batches (s_sys (σ i)).

Lemma one_request_delivered :
  (λ σ, (λ i, delivered σ i) <$> [0; 1; 2; 3]) <$> one_request = Some (replicate 4 [[request]]).
Proof. vm_compute. reflexivity. Qed.

(** A faulty primary (replica 0) sends its pre-prepare to replicas 1 and 2
    only, which prepare and commit but lack the third commit.  Their request
    timers fire; replica 3 joins the view change, and the new primary's new
    view carries the prepared batch, which all three then deliver. *)
Definition byz0 : gset Z := {[0]}.
Definition batch1 : Batch :=
  makeBatch 1 (Some (batch_Hash (makeBatch 0 None []))) [request].
Definition pp1 : Msg := MsgPreprepare (mkPreprepare (Some (mkSeqView 0 1)) (Some batch1)).
Definition request_timer (s : SBFT) : event :=
  match cur_timeout (s_cur s) with TimerCanceller id => ETimer id | DummyCanceller => ETimer 0 end.

Definition prepared_at_two : option (Z → SBFT) :=
  drive cfg4 byz0 500 [(0, 1, pp1); (0, 2, pp1)] start.
Definition view_changed : option (Z → SBFT) :=
  σ ← prepared_at_two;
  σ ← inject cfg4 byz0 500 1 (request_timer (σ 1)) σ;
  inject cfg4 byz0 500 2 (request_timer (σ 2)) σ.

Lemma prepared_undelivered :
  (λ σ, (λ i, (delivered σ i, cur_sentCommit (s_cur (σ i)), cur_executed (s_cur (σ i)))) <$> [1; 2])
    <$> prepared_at_two = Some (replicate 2 ([], true, false)).
Proof. vm_compute. reflexivity. Qed.

Lemma view_change_delivers :
  (λ σ, (λ i, (delivered σ i, s_view (σ i), s_activeView (σ i))) <$> [1; 2; 3])
    <$> view_changed = Some (replicate 3 ([[request]], 1, true)).
Proof. vm_compute. reflexivity. Qed.

End Four.
