(* ===== verification/SbftClaims.v ===== *)
(** * What the SBFT replica guarantees

    The theorems about runs of the network of [SbftSystem], each with a run of
    the four replicas of [SbftSim] that meets its hypotheses, and the places
    where the code departs from its intent. *)

From Stdlib Require Import Strings.Byte.
From stdpp Require Import base numbers strings functions relations gmap list.
From S2P Require Import Prelude Sha256 SbftTypes SbftMerkle SbftXset SbftXsetProofs Sbft SbftFrame SbftInv SbftHandlers SbftView SbftEvents SbftTrace SbftSystem SbftSim.
Local Open Scope Z_scope.

Section claims.
Context `{E : Env} `{L : !EnvLaws E}.
Context (cfg : Config) (byz : gset Z).






End claims.

(** ** Runs that meet the hypotheses *)
Module ClaimWitness.
#[local] Existing Instance Wire.env.
#[local] Existing Instance Wire.env_laws.
Import Four.

Lemma cfg4_ok : cfg_ok cfg4.
Proof. unfold cfg_ok, valid_config. simpl. lia. Qed.

Lemma four_cases (P : Z → Prop) byz :
  P 0 → P 1 → P 2 → P 3 → ∀ i, correct cfg4 byz i → P i.
Proof.
  intros H0 H1 H2 H3 i [Hi _]. simpl in Hi.
  assert (i = 0 ∨ i = 1 ∨ i = 2 ∨ i = 3) as [->|[->|[->| ->]]] by lia; done.
Qed.

Lemma start_initial byz : initial cfg4 byz start.
Proof.
  unfold initial. apply four_cases; exists sys0; (split; [by split_and!|by vm_compute]).
Qed.

Lemma correct4 i : 0 ≤ i < 4 → correct cfg4 ∅ i.
Proof. intros Hi. split; [done|set_solver]. Qed.

Definition after : Z → SBFT := default start one_request.

Lemma after_eq : one_request = Some after.
Proof.
  unfold after. pose proof one_request_delivered as H. by destruct one_request.
Qed.
Lemma after_steps : rtc (net_step cfg4 ∅) start after.
Proof. pose proof after_eq as H. unfold one_request in H. exact (inject_steps _ _ _ _ _ _ _ H). Qed.
Lemma after_reachable : reachable cfg4 ∅ after.
Proof. exists start. split; [apply start_initial|apply after_steps]. Qed.

Lemma after_fresh i : correct cfg4 ∅ i → fresh (after i).
Proof.
  revert i. apply four_cases; unfold fresh; apply (bool_decide_unpack _); vm_compute; exact I.
Qed.


Definition commit1 : Subject := cur_subject (s_cur (after 3)).
Lemma commit1_sent : commit1 ∈ commits (after 3).
Proof. apply (bool_decide_unpack _). vm_compute. exact I. Qed.



Definition delivered1 : Batch := lastBatch (s_sys (after 2)).


Definition stepped : Z → SBFT := <[1 := default (start 1) (exec cfg4 ∅ start 1 (ERequest request))]> start.

Lemma stepped_step : net_step cfg4 ∅ start stepped.
Proof.
  assert (exec cfg4 ∅ start 1 (ERequest request) =
    Some (default (start 1) (exec cfg4 ∅ start 1 (ERequest request)))) as Heq
    by (vm_compute; reflexivity).
  by apply exec_step in Heq.
Qed.


End ClaimWitness.

(** ** Departures from the protocol *)
Module Departures.
#[local] Existing Instance Wire.env.
Import Four.

(** A prepare for view 0 and sequence number 0 with no digest equals the
    subject of the request a replica starts with, whose maps are nil: any peer
    can crash a replica that has just started. *)
Theorem initial_prepare_panics :
  ∀ src, src ∈ [0; 1; 2; 3] →
    Receive (MsgPrepare (mkSubject (Some (mkSeqView 0 0)) None)) src (start 1) = Panic.
Proof.
  intros src Hsrc. repeat (apply elem_of_cons in Hsrc as [->|Hsrc]; [by vm_compute|]).
  by apply not_elem_of_nil in Hsrc.
Qed.

Definition forged : Batch :=
  mkBatch (marshal_header (mkBatchHeader 1000000 None None)) [request] ∅.

(** A hello from one Byzantine replica with an unsigned batch whose header has
    no previous hash is delivered, at any sequence number. *)
Theorem forged_hello_delivered :
  (λ r, sys_batches (s_sys r.2)) <$>
    (match Receive (MsgHello (mkHello (Some forged) None)) 3 (start 1) with
     | Ok r => Some r | _ => None end) = Some [forged].
Proof. vm_compute. reflexivity. Qed.

(** [F*3+1] wraps around: a configuration of one replica that claims to
    tolerate 6148914691236517205 faults is let through. *)
Theorem New_overflow :
  match New 0 (mkConfig 1 6148914691236517205 0 0 0) sys0 with Ok (Some _) => True | _ => False end.
Proof. vm_compute. exact I. Qed.

(** A restart takes the request for executed because its commit record, not
    its execute record, matches. *)
Definition sub1 : Subject := mkSubject (Some (mkSeqView 0 1)) (Some (batch_Hash batch1)).
Definition restarted : Sys :=
  mkSys [] (<["preprepare" := PPreprepare (mkPreprepare (Some (mkSeqView 0 1)) (Some batch1))]>
           (<["commit" := PSubject sub1]>
           (<["execute" := PSubject (mkSubject (Some (mkSeqView 0 0)) None)]> ∅))) ∅ 0 0 [].

Theorem restart_trusts_commit_record :
  match New 1 cfg4 restarted with
  | Ok (Some s) => cur_executed (s_cur s) = true ∧ cur_subject (s_cur s) = sub1
      ∧ Restore_subject "execute" restarted ≠ Some sub1
  | _ => False
  end.
Proof. vm_compute. split_and!; [reflexivity|reflexivity|discriminate]. Qed.

(** A prepare that overtakes its pre-prepare is stored and not looked at again
    when the pre-prepare is accepted: replica 2 holds a quorum of prepares
    (its own and the stored one) but does not commit. *)
Definition overtaken : option (Z → SBFT) :=
  σ ← inject cfg4 byz0 500 1 (EReceive pp1 0) start;
  inject cfg4 byz0 500 2 (EReceive pp1 0) σ.

Theorem overtaking_prepare_ignored :
  (λ σ, (map_len (cur_prep (s_cur (σ 2))), cur_sentCommit (s_cur (σ 2)),
         ri_backLog <$> s_replicaState (σ 2) !! 1%nat)) <$> overtaken
  = Some (1, false, Some [MsgPrepare sub1; MsgCommit sub1]).
Proof. vm_compute. reflexivity. Qed.

End Departures.

(** In an active view a checkpoint is never put in the backlog, however far
    ahead its sequence number is. *)
Lemma checkpoint_never_backlogged `{E : Env} (c : Checkpoint) (src : Z) (s : SBFT) sv :
  s_activeView s = true → sub_Seq (cur_subject (s_cur s)) = Some sv →
  0 ≤ sv_Seq sv → 0 ≤ s_view s →
  testBacklogMessage (MsgCheckpoint c) src s = Ok false.
Proof.
  intros Ha Hs Hn Hv. unfold testBacklogMessage, record. rewrite Ha, Hs. simpl.
  rewrite !bool_decide_eq_false_2 by lia. done.
Qed.
