(* ===== verification/OrdererTypes.v ===== *)
(** * Messages of the ordering service

    The protobuf messages of [protos/common/common.proto],
    [protos/common/configuration.proto] and [protos/orderer/ab.proto] that the
    orderer reads, and what the orderer uses of protobuf and of the hash
    function, as the class [OEnv]. *)

From stdpp Require Import base numbers strings gmap list.
From S2P Require Import Prelude.
Local Open Scope Z_scope.

(** ** common.proto *)
Inductive Status :=
  | UNKNOWN | SUCCESS | BAD_REQUEST | FORBIDDEN | NOT_FOUND | INTERNAL_SERVER_ERROR
  | SERVICE_UNAVAILABLE.

#[global] Instance Status_eq_dec : EqDecision Status.
Proof. solve_decision. Defined.

Definition HeaderType_MESSAGE : Z := 0.
Definition HeaderType_CONFIGURATION_TRANSACTION : Z := 1.
Definition HeaderType_CONFIGURATION_ITEM : Z := 2.
Definition HeaderType_ENDORSER_TRANSACTION : Z := 3.

(** The fields the orderer reads: [type] and [chainID]. *)
Record ChainHeader := mkChainHeader { ch_Type : Z; ch_ChainID : slice }.
Record SignatureHeader := mkSignatureHeader { sh_Creator : slice; sh_Nonce : slice }.
Record Header := mkHeader { hdr_Chain : option ChainHeader; hdr_Signature : option SignatureHeader }.
Record Payload := mkPayload { pl_Header : option Header; pl_Data : slice }.
Record Envelope := mkEnvelope { env_Payload : slice; env_Signature : slice }.

Record BlockHeader := mkBlockHeader {
  blk_Number : Z; blk_PreviousHash : slice; blk_DataHash : slice }.
Record Block := mkBlock {
  blk_Header : BlockHeader; blk_Data : list bytes; blk_Metadata : option (list bytes) }.

#[global] Instance Envelope_eq_dec : EqDecision Envelope.
Proof. solve_decision. Defined.
#[global] Instance BlockHeader_eq_dec : EqDecision BlockHeader.
Proof. solve_decision. Defined.
#[global] Instance Block_eq_dec : EqDecision Block.
Proof. solve_decision. Defined.

(** ** configuration.proto *)
Record ConfigurationSignature := mkConfigurationSignature {
  cs_SignatureHeader : bytes; cs_Signature : bytes }.
Record SignedConfigurationItem := mkSignedConfigurationItem {
  sci_ConfigurationItem : bytes; sci_Signatures : list ConfigurationSignature }.
Record ConfigurationEnvelope := mkConfigurationEnvelope { ce_Items : list SignedConfigurationItem }.

(** The enum is open: a type is any 32-bit integer, of which four are known. *)
Definition ConfigurationItem_Policy : Z := 0.
Definition ConfigurationItem_Chain : Z := 1.
Definition ConfigurationItem_Orderer : Z := 2.
Definition ConfigurationItem_Fabric : Z := 3.
Definition ConfigurationType_names : list Z :=
  [ConfigurationItem_Policy; ConfigurationItem_Chain; ConfigurationItem_Orderer; ConfigurationItem_Fabric].

Record ConfigurationItem := mkConfigurationItem {
  ci_Header : option ChainHeader; ci_Type : Z; ci_LastModified : Z;
  ci_ModificationPolicy : string; ci_Key : string; ci_Value : bytes }.

#[local] Set Warnings "-register-all".
Inductive SignaturePolicy :=
  | SPSignedBy (index : Z)
  | SPFrom (n : Z) (policies : list SignaturePolicy)
  | SPNone.

Record SignaturePolicyEnvelope := mkSignaturePolicyEnvelope {
  spe_Version : Z; spe_Policy : option SignaturePolicy; spe_Identities : list bytes }.

(** [None] is a policy with no alternative of the [oneof] set. *)
Record Policy := mkPolicy { pol_SignaturePolicy : option SignaturePolicyEnvelope }.

(** ** ab.proto *)
Inductive StartType := NEWEST | OLDEST | SPECIFIED.
Record SeekInfo := mkSeekInfo {
  seek_Start : StartType; seek_SpecifiedNumber : Z; seek_WindowSize : Z }.
Inductive DeliverUpdate :=
  | UpdateAcknowledgement (number : Z)
  | UpdateSeek (seek : option SeekInfo)
  | UpdateNone.
Inductive DeliverResponse := ResponseError (s : Status) | ResponseBlock (b : Block).

(** ** protobuf and hashing

    [proto.Unmarshal] resets the message it is given and may leave it partly
    filled when it fails: [partial_config_envelope]. *)
Class OEnv := {
  marshal_envelope : Envelope → bytes;
  unmarshal_envelope : bytes → option Envelope;
  unmarshal_payload : bytes → option Payload;
  unmarshal_config_envelope : bytes → option ConfigurationEnvelope;
  partial_config_envelope : bytes → ConfigurationEnvelope;
  unmarshal_config_item : bytes → option ConfigurationItem;
  unmarshal_signature_header : bytes → option SignatureHeader;
  unmarshal_policy : bytes → option Policy;
  marshal_block_header : BlockHeader → bytes;
  marshal_block_data : list bytes → bytes;
  ComputeCryptoHash : bytes → bytes }.

(** Documented behaviour of protobuf: messages read back (an empty byte field
    reads back as nil, so the round trip is for envelopes without one), and the
    encoding of a message determines its fields up to nil or empty bytes. *)
Class OEnvLaws (O : OEnv) : Prop := {
  unmarshal_marshal_envelope e :
    env_Payload e ≠ Some [] → env_Signature e ≠ Some [] →
    unmarshal_envelope (marshal_envelope e) = Some e;
  marshal_block_header_fields h h' :
    0 ≤ blk_Number h < 2 ^ 64 → 0 ≤ blk_Number h' < 2 ^ 64 →
    marshal_block_header h = marshal_block_header h' →
    blk_Number h = blk_Number h' ∧ sl (blk_PreviousHash h) = sl (blk_PreviousHash h')
    ∧ sl (blk_DataHash h) = sl (blk_DataHash h') }.

(** protos/common/block.go *)
Definition BlockHeader_Hash `{OEnv} (h : BlockHeader) : bytes :=
  ComputeCryptoHash (marshal_block_header h).
Definition BlockData_Hash `{OEnv} (data : list bytes) : bytes :=
  ComputeCryptoHash (marshal_block_data data).

(** The induction principle that goes through the nested lists. *)
Section policy_ind.
Context (P : SignaturePolicy → Prop).
Context (HS : ∀ i, P (SPSignedBy i)) (HF : ∀ n l, Forall P l → P (SPFrom n l)) (HN : P SPNone).
Fixpoint SignaturePolicy_nested_ind (p : SignaturePolicy) : P p :=
  match p with
  | SPSignedBy i => HS i
  | SPFrom n l => HF n l ((fix go l : Forall P l :=
      match l with
      | [] => Forall_nil_2 P
      | q :: l => Forall_cons_2 P q l (SignaturePolicy_nested_ind q) (go l)
      end) l)
  | SPNone => HN
  end.
End policy_ind.
