(* ===== verification/Cauthdsl.v ===== *)
(** * Signature policies and the policy manager

    [orderer/common/cauthdsl]: the compiler from signature policies to
    authenticators and its policy builders; [orderer/common/policies]: the
    manager of named policies with its begin / propose / commit / rollback
    protocol. *)

From stdpp Require Import base numbers strings gmap list.
From S2P Require Import Prelude OrdererTypes.
Local Open Scope Z_scope.

Section cauthdsl.

(** [CryptoHelper.VerifySignature] *)
Context (VerifySignature : bytes → bytes → bytes → bool).

(** A compiled policy: message, identities, signatures. *)
Definition authenticator : Type := bytes → list bytes → list bytes → res bool.

(** [policies[i](msg, ids, signatures)] for each, counting in an [int32]. *)
Fixpoint count_verified (policies : list authenticator) (verified : Z)
    (msg : bytes) (ids sigs : list bytes) : res Z :=
  match policies with
  | [] => Ok verified
  | p :: rest =>
      b ← p msg ids sigs;
      count_verified rest (if (b : bool) then i32 (verified + 1) else verified) msg ids sigs
  end.

(** The first identity equal to [signedByID] decides. *)
Fixpoint signed_by (signedByID : bytes) (msg : bytes) (i : nat) (ids sigs : list bytes) : res bool :=
  match ids with
  | [] => Ok false
  | id :: rest =>
      if bool_decide (id = signedByID)
      then s ← deref (sigs !! i); Ok (VerifySignature msg id s)
      else signed_by signedByID msg (S i) rest sigs
  end.

(** [None] is the error return. *)
Fixpoint compile (policy : SignaturePolicy) (identities : list bytes) : option authenticator :=
  match policy with
  | SPFrom n policies =>
      compiled ← (fix compile_all (l : list SignaturePolicy) : option (list authenticator) :=
        match l with
        | [] => Some []
        | p :: rest => c ← compile p identities; r ← compile_all rest; Some (c :: r)
        end) policies;
      Some (λ msg ids sigs, v ← count_verified compiled 0 msg ids sigs; Ok (bool_decide (v >= n)))
  | SPSignedBy k =>
      if bool_decide (k < 0) || bool_decide (k >= i32 (Z.of_nat (length identities))) then None
      else signedByID ← identities !! Z.to_nat k;
           Some (λ msg ids sigs, signed_by signedByID msg 0 ids sigs)
  | SPNone => None
  end.

(** [compile] dereferences the policy: an envelope without one panics. *)
Definition NewSignaturePolicyEvaluator (policy : SignaturePolicyEnvelope)
    : res (option authenticator) :=
  if negb (bool_decide (spe_Version policy = 0)) then Ok None else
  p ← deref (spe_Policy policy);
  Ok (compile p (spe_Identities policy)).

(** ** cauthdsl_builder.go *)
Definition mkEnvelopeOf (policy : SignaturePolicy) (identities : list bytes) : SignaturePolicyEnvelope :=
  mkSignaturePolicyEnvelope 0 (Some policy) identities.
Definition SignedBy (index : Z) : SignaturePolicy := SPSignedBy index.
Definition NOutOf (n : Z) (policies : list SignaturePolicy) : SignaturePolicy := SPFrom n policies.
Definition And (lhs rhs : SignaturePolicy) : SignaturePolicy := NOutOf 2 [lhs; rhs].
Definition Or (lhs rhs : SignaturePolicy) : SignaturePolicy := NOutOf 1 [lhs; rhs].
Definition AcceptAllPolicy : SignaturePolicyEnvelope := mkEnvelopeOf (NOutOf 0 []) [].
Definition RejectAllPolicy : SignaturePolicyEnvelope := mkEnvelopeOf (NOutOf 1 []) [].

(** ** policies/policy.go *)
Definition newPolicy (policySource : Policy) : res (option authenticator) :=
  match pol_SignaturePolicy policySource with
  | None => Ok None
  | Some sigPolicy => NewSignaturePolicyEvaluator sigPolicy
  end.

(** [Evaluate]: [true] for a nil error.  [None] is the nil policy. *)
Definition Evaluate (p : option authenticator) (header : list bytes) (payload : bytes)
    (identities signatures : list bytes) : res bool :=
  match p with
  | None => Ok false
  | Some evaluator => evaluator payload identities signatures
  end.

Record ManagerImpl := mkManagerImpl {
  pm_policies : gmap string authenticator;
  pm_pendingPolicies : option (gmap string authenticator) }.

Definition NewManagerImpl : ManagerImpl := mkManagerImpl ∅ None.

Definition GetPolicy (id : string) (pm : ManagerImpl) : option authenticator * bool :=
  (pm_policies pm !! id, bool_decide (is_Some (pm_policies pm !! id))).

Definition pm_BeginConfig (pm : ManagerImpl) : res ManagerImpl :=
  match pm_pendingPolicies pm with
  | Some _ => Panic
  | None => Ok (mkManagerImpl (pm_policies pm) (Some ∅))
  end.

Definition pm_RollbackConfig (pm : ManagerImpl) : ManagerImpl :=
  mkManagerImpl (pm_policies pm) None.

Definition pm_CommitConfig (pm : ManagerImpl) : res ManagerImpl :=
  match pm_pendingPolicies pm with
  | None => Panic
  | Some pending => Ok (mkManagerImpl pending None)
  end.

Context `{O : OEnv}.

(** [true] for a nil error. *)
Definition pm_ProposeConfig (configItem : ConfigurationItem) (pm : ManagerImpl)
    : res (bool * ManagerImpl) :=
  if negb (bool_decide (ci_Type configItem = ConfigurationItem_Policy)) then Ok (false, pm) else
  match unmarshal_policy (ci_Value configItem) with
  | None => Ok (false, pm)
  | Some policy =>
      cPolicy ← newPolicy policy;
      match cPolicy with
      | None => Ok (false, pm)
      | Some c =>
          match pm_pendingPolicies pm with
          | None => Panic  (* assignment to an entry of a nil map *)
          | Some pending =>
              Ok (true, mkManagerImpl (pm_policies pm) (Some (<[ci_Key configItem := c]> pending)))
          end
      end
  end.

End cauthdsl.

(** ** Reference semantics *)
Section spec.
Context (VerifySignature : bytes → bytes → bytes → bool).
Context (identities : list bytes).

(** The signature that goes with the first occurrence of an identity. *)
Fixpoint signature_of (id : bytes) (ids sigs : list bytes) : option bytes :=
  match ids, sigs with
  | i :: ids, s :: sigs => if bool_decide (i = id) then Some s else signature_of id ids sigs
  | _, _ => None
  end.

Fixpoint holds (msg : bytes) (ids sigs : list bytes) (p : SignaturePolicy) : bool :=
  match p with
  | SPSignedBy k =>
      match identities !! Z.to_nat k with
      | Some id => match signature_of id ids sigs with
                   | Some s => VerifySignature msg id s
                   | None => false
                   end
      | None => false
      end
  | SPFrom n l => bool_decide (n ≤ Z.of_nat (length (List.filter (holds msg ids sigs) l)))
  | SPNone => false
  end.

(** Indices in range, every alternative set, widths that an [int32] counts. *)
Fixpoint well_formed (p : SignaturePolicy) : bool :=
  match p with
  | SPSignedBy k => bool_decide (0 ≤ k < Z.of_nat (length identities))
  | SPFrom _ l => bool_decide (Z.of_nat (length l) < 2 ^ 31) && forallb well_formed l
  | SPNone => false
  end.

Lemma signed_by_spec id msg ids sigs pre :
  (length ids ≤ length sigs)%nat →
  signed_by VerifySignature id msg (length pre) ids (pre ++ sigs)
  = Ok (match signature_of id ids sigs with
        | Some s => VerifySignature msg id s
        | None => false
        end).
Proof.
  revert sigs pre. induction ids as [|i ids IH]; intros sigs pre Hlen; simpl; [done|].
  destruct sigs as [|s sigs]; simpl in *; [lia|]. case_bool_decide as Hi.
  - rewrite list_lookup_middle by done. simpl. by subst.
  - replace (S (length pre)) with (length (pre ++ [s])) by (rewrite length_app; simpl; lia).
    rewrite (cons_middle s pre sigs). rewrite (assoc_L (++)). apply IH. lia.
Qed.

(** What [compile] builds for a list of policies. *)
Definition compiles_to (p : SignaturePolicy) (f : authenticator) : Prop :=
  ∀ msg ids sigs, (length ids ≤ length sigs)%nat → f msg ids sigs = Ok (holds msg ids sigs p).

Lemma count_verified_spec l fs v msg ids sigs :
  Forall2 compiles_to l fs → (length ids ≤ length sigs)%nat →
  0 ≤ v → v + Z.of_nat (length l) < 2 ^ 31 →
  count_verified fs v msg ids sigs
  = Ok (v + Z.of_nat (length (List.filter (holds msg ids sigs) l))).
Proof.
  intros HF Hlen. revert v. induction HF as [|p f l fs Hp HF IH]; intros v Hv Hb; simpl in *.
  { f_equal. lia. }
  rewrite (Hp msg ids sigs Hlen). simpl.
  destruct (holds msg ids sigs p) eqn:Hh; simpl.
  - rewrite i32_small by lia. rewrite IH by lia. f_equal. lia.
  - apply IH; lia.
Qed.

Lemma compile_From n l :
  compile VerifySignature (SPFrom n l) identities
  = compiled ← mapM (λ p, compile VerifySignature p identities) l;
    Some (λ msg ids sigs, v ← count_verified compiled 0 msg ids sigs; Ok (bool_decide (v >= n))).
Proof. done. Qed.

Lemma compile_spec p : Z.of_nat (length identities) < 2 ^ 31 →
  if well_formed p
  then ∃ f, compile VerifySignature p identities = Some f ∧ compiles_to p f
  else True.
Proof.
  intros Hids. induction p as [k|n l IH|] using SignaturePolicy_nested_ind; [| |done].
  - simpl. case_bool_decide as Hk; [|done]. rewrite i32_small by lia.
    rewrite !bool_decide_eq_false_2 by lia. simpl.
    destruct (lookup_lt_is_Some_2 identities (Z.to_nat k)) as [id Hid]; [lia|].
    rewrite Hid. simpl. eexists. split; [done|]. intros msg ids sigs Hlen. simpl. rewrite Hid.
    by apply (signed_by_spec id msg ids sigs []).
  - rewrite compile_From. simpl. case_bool_decide as Hn; simpl; [|done].
    destruct (forallb well_formed l) eqn:Hwf; [|done].
    assert (∃ fs, mapM (λ p, compile VerifySignature p identities) l = Some fs
      ∧ Forall2 compiles_to l fs) as (fs & Hfs & HF).
    { clear Hn n. induction IH as [|p l Hp HF IHl]; [by exists []|].
      simpl in Hwf. apply andb_true_iff in Hwf as [Hwp Hwl]. rewrite Hwp in Hp.
      destruct Hp as (f & Hf & Hc), (IHl Hwl) as (fs & Hfs & HF2).
      exists (f :: fs). split; [|by constructor]. cbn. rewrite Hf. cbn. by rewrite Hfs. }
    rewrite Hfs. eexists. split; [done|]. intros msg ids sigs Hlen. simpl.
    rewrite (count_verified_spec l fs 0) by (done || lia). simpl.
    f_equal. apply bool_decide_ext. lia.
Qed.

(** A policy that is not well formed (and not too wide) does not compile. *)
Fixpoint narrow (p : SignaturePolicy) : bool :=
  match p with
  | SPFrom _ l => bool_decide (Z.of_nat (length l) < 2 ^ 31) && forallb narrow l
  | _ => true
  end.

Lemma compile_rejects p : Z.of_nat (length identities) < 2 ^ 31 →
  narrow p = true → well_formed p = false → compile VerifySignature p identities = None.
Proof.
  intros Hids. induction p as [k|n l IH|] using SignaturePolicy_nested_ind; [| |done].
  - simpl. intros _ Hk%bool_decide_eq_false. rewrite i32_small by lia.
    destruct (decide (k < 0)); [by rewrite bool_decide_eq_true_2|].
    rewrite (bool_decide_eq_true_2 (k >= _)) by lia. by rewrite orb_true_r.
  - rewrite compile_From. simpl. intros [-> Hnl]%andb_true_iff Hwf. simpl in Hwf.
    assert (mapM (λ p, compile VerifySignature p identities) l = None) as ->; [|done].
    induction IH as [|p l Hp HF IHl]; [done|]. cbn in *.
    apply andb_true_iff in Hnl as [Hnp Hnl]. apply andb_false_iff in Hwf as [Hwp|Hwl].
    + by rewrite (Hp Hnp Hwp).
    + destruct (compile VerifySignature p identities); [|done]. cbn. by rewrite (IHl Hnl Hwl).
Qed.

(** More signatures at the end never turn a policy off. *)
Lemma signature_of_app id ids sigs ids' sigs' s :
  length ids = length sigs → signature_of id ids sigs = Some s →
  signature_of id (ids ++ ids') (sigs ++ sigs') = Some s.
Proof.
  revert sigs. induction ids as [|i ids IH]; intros [|t sigs] Hlen Hs; simpl in *; try done.
  case_bool_decide; [done|]. apply IH; [lia|done].
Qed.

Lemma holds_mono msg ids sigs ids' sigs' p :
  length ids = length sigs → holds msg ids sigs p = true →
  holds msg (ids ++ ids') (sigs ++ sigs') p = true.
Proof.
  intros Hlen. induction p as [k|n l IH|] using SignaturePolicy_nested_ind; simpl; [| |done].
  - destruct (identities !! Z.to_nat k) as [id|]; [|done].
    destruct (signature_of id ids sigs) as [s|] eqn:Hs; [|done].
    by rewrite (signature_of_app _ _ _ _ _ _ Hlen Hs).
  - rewrite !bool_decide_eq_true. intros Hn. etrans; [exact Hn|]. apply inj_le.
    clear Hn. induction IH as [|q l Hq HF IHl]; simpl; [lia|].
    destruct (holds msg ids sigs q) eqn:Hh; simpl.
    + rewrite (Hq eq_refl). simpl. lia.
    + case_match; simpl; lia.
Qed.

End spec.

(** ** What the evaluator guarantees *)
Section claims.
Context (VerifySignature : bytes → bytes → bytes → bool).

(** C31. The evaluator built for a version-0 envelope accepts exactly when the
    reference semantics of its policy holds (each [SignedBy] by the signature
    that goes with the first occurrence of its identity, each [NOutOf] by
    counting), and it is built exactly for policies whose identity indices are
    in range and whose alternatives are all set. *)
Theorem policy_evaluator_correct (p : SignaturePolicy) (identities : list bytes) :
  Z.of_nat (length identities) < 2 ^ 31 → narrow p = true →
  if well_formed identities p
  then ∃ f, NewSignaturePolicyEvaluator VerifySignature (mkEnvelopeOf p identities) = Ok (Some f)
    ∧ ∀ msg ids sigs, (length ids ≤ length sigs)%nat →
        f msg ids sigs = Ok (holds VerifySignature identities msg ids sigs p)
  else NewSignaturePolicyEvaluator VerifySignature (mkEnvelopeOf p identities) = Ok None.
Proof.
  intros Hids Hn. unfold NewSignaturePolicyEvaluator. simpl.
  pose proof (compile_spec VerifySignature identities p Hids) as Hs.
  destruct (well_formed identities p) eqn:Hwf.
  - destruct Hs as (f & -> & Hf). by exists f.
  - by rewrite (compile_rejects VerifySignature identities p Hids Hn Hwf).
Qed.

(** Appending further identities with their signatures never makes a
    satisfied policy unsatisfied. *)
Theorem policy_evaluator_monotone (p : SignaturePolicy) (identities : list bytes)
    (f : authenticator) (msg : bytes) (ids sigs ids' sigs' : list bytes) :
  Z.of_nat (length identities) < 2 ^ 31 → well_formed identities p = true →
  compile VerifySignature p identities = Some f →
  length ids = length sigs → length ids' = length sigs' →
  f msg ids sigs = Ok true → f msg (ids ++ ids') (sigs ++ sigs') = Ok true.
Proof.
  intros Hids Hwf Hc Hl Hl' Ht.
  pose proof (compile_spec VerifySignature identities p Hids) as Hs. rewrite Hwf in Hs.
  destruct Hs as (f' & Hf & Hspec). rewrite Hc in Hf. injection Hf as <-.
  rewrite Hspec in Ht by lia. injection Ht as Ht.
  rewrite Hspec by (rewrite !length_app; lia). by rewrite holds_mono.
Qed.

(** [And] holds when both policies do and [Or] when one does; the
    accept-all policy accepts and the reject-all policy rejects every message
    with every set of signatures. *)
Theorem policy_combinators (p q : SignaturePolicy) (identities : list bytes)
    (msg : bytes) (ids sigs : list bytes) :
  holds VerifySignature identities msg ids sigs (And p q)
    = holds VerifySignature identities msg ids sigs p && holds VerifySignature identities msg ids sigs q
  ∧ holds VerifySignature identities msg ids sigs (Or p q)
    = holds VerifySignature identities msg ids sigs p || holds VerifySignature identities msg ids sigs q
  ∧ (a ← NewSignaturePolicyEvaluator VerifySignature AcceptAllPolicy;
     a ← deref a; a msg ids sigs) = Ok true
  ∧ (a ← NewSignaturePolicyEvaluator VerifySignature RejectAllPolicy;
     a ← deref a; a msg ids sigs) = Ok false.
Proof.
  split_and!; [| |done|done]; simpl;
    destruct (holds _ _ _ _ _ p), (holds _ _ _ _ _ q); reflexivity.
Qed.

End claims.

Module CauthdslWitness.
Definition alice : bytes := [byte_of_Z 1].
Definition bob : bytes := [byte_of_Z 2].
Definition good (msg id sig : bytes) : bool := bool_decide (sig = id ++ msg).
Definition both : SignaturePolicy := And (SignedBy 0) (SignedBy 1).

Lemma policy_evaluator_correct_witness :
  ∃ f, NewSignaturePolicyEvaluator good (mkEnvelopeOf both [alice; bob]) = Ok (Some f)
    ∧ ∀ msg ids sigs, (length ids ≤ length sigs)%nat →
        f msg ids sigs = Ok (holds good [alice; bob] msg ids sigs both).
Proof. apply (policy_evaluator_correct good both [alice; bob]); reflexivity. Defined.

Definition both_eval : authenticator :=
  match compile good both [alice; bob] with Some f => f | None => λ _ _ _, Panic end.

Lemma policy_evaluator_monotone_witness :
  both_eval [byte_of_Z 9] ([alice; bob] ++ [alice]) ([alice ++ [byte_of_Z 9]; bob ++ [byte_of_Z 9]] ++ [[]])
  = Ok true.
Proof.
  apply (policy_evaluator_monotone good both [alice; bob]); reflexivity.
Defined.
End CauthdslWitness.

(** A policy message whose envelope lacks a policy is dereferenced. *)
Lemma newPolicy_without_policy_panics V ids :
  newPolicy V (mkPolicy (Some (mkSignaturePolicyEnvelope 0 None ids))) = Panic.
Proof. done. Qed.

(** One signature counts once for every [SignedBy] that names its identity. *)
Lemma one_signature_counts_twice V identities id msg sig :
  identities !! 0%nat = Some id → V msg id sig = true →
  holds V identities msg [id] [sig] (NOutOf 2 [SignedBy 0; SignedBy 0]) = true.
Proof.
  intros Hid HV. destruct identities as [|i l]; [done|]. injection Hid as ->. simpl.
  rewrite (bool_decide_eq_true_2 (id = id)) by done. simpl. by rewrite HV.
Qed.
