(* ===== verification/ConfigTx.v ===== *)
(** * The configuration manager

    [orderer/common/configtx]: the manager that checks configuration
    transactions against the current configuration and applies them, the
    handler interface it drives, and the bytes handler; with the policy
    manager of [Cauthdsl] as the handler for policies, wired as
    [bootstrapConfigManager] of [orderer/main.go] does. *)

From stdpp Require Import base numbers strings gmap list.
From S2P Require Import Prelude OrdererTypes Cauthdsl.
Local Open Scope Z_scope.

(** ** The Handler interface *)
Class Handler (H : Type) := {
  BeginConfig : H → res H;
  RollbackConfig : H → H;
  CommitConfig : H → res H;
  ProposeConfig : ConfigurationItem → H → res (bool * H) (* [true]: nil error *) }.

(** What a handler promises the manager: a proposal can begin when none is in
    progress, items can be added to it, and it ends by a rollback, which
    restores the state it began in, or by a commit. *)
Class HandlerLaws (H : Type) `{Handler H} := {
  idle : H → Prop;
  pending : H → H → Prop;
  begin_idle h : idle h → ∃ h', BeginConfig h = Ok h' ∧ pending h h';
  propose_pending h0 h i b h' :
    pending h0 h → ProposeConfig i h = Ok (b, h') → pending h0 h';
  rollback_pending h0 h : pending h0 h → RollbackConfig h = h0;
  commit_pending h0 h : pending h0 h → ∃ h', CommitConfig h = Ok h' ∧ idle h' }.

(** ** bytes_handler.go *)
Record BytesHandler := mkBytesHandler {
  bh_config : gmap string bytes; bh_proposed : option (gmap string bytes) }.

Definition NewBytesHandler : BytesHandler := mkBytesHandler ∅ None.
Definition bh_BeginConfig (bh : BytesHandler) : res BytesHandler :=
  match bh_proposed bh with Some _ => Panic | None => Ok (mkBytesHandler (bh_config bh) (Some ∅)) end.
Definition bh_RollbackConfig (bh : BytesHandler) : BytesHandler := mkBytesHandler (bh_config bh) None.
Definition bh_CommitConfig (bh : BytesHandler) : res BytesHandler :=
  match bh_proposed bh with None => Panic | Some p => Ok (mkBytesHandler p None) end.
Definition bh_ProposeConfig (configItem : ConfigurationItem) (bh : BytesHandler)
    : res (bool * BytesHandler) :=
  match bh_proposed bh with
  | None => Panic  (* assignment to an entry of a nil map *)
  | Some p => Ok (true, mkBytesHandler (bh_config bh) (Some (<[ci_Key configItem := ci_Value configItem]> p)))
  end.
Definition GetBytes (id : string) (bh : BytesHandler) : slice := bh_config bh !! id.

#[global] Instance bytes_handler : Handler BytesHandler := {|
  BeginConfig := bh_BeginConfig; RollbackConfig := bh_RollbackConfig;
  CommitConfig := bh_CommitConfig; ProposeConfig := bh_ProposeConfig |}.

(** ** configtx.go *)
Definition DefaultModificationPolicyID : string := "DefaultModificationPolicy".

(** The policies an item is checked against: [acceptAllPolicy] or one of the
    policy manager, which may be nil. *)
Inductive policy_ref := AcceptAll | Managed (p : option authenticator).

Definition evaluate (p : policy_ref) (headers : list bytes) (payload : bytes)
    (identities signatures : list bytes) : res bool :=
  match p with
  | AcceptAll => Ok true
  | Managed p => Evaluate p headers payload identities signatures
  end.

Section configtx.
Context `{O : OEnv} {H : Type} `{HH : Handler H}.

(** [cm.pm.GetPolicy]: the policy manager is one of the handler objects. *)
Context (pm_GetPolicy : string → gmap Z H → option authenticator * bool).

Abbreviation configMap := (gmap Z (gmap string ConfigurationItem)).

Record configurationManager := mkConfigurationManager {
  cm_sequence : Z;
  cm_chainID : slice;
  cm_configuration : configMap;
  cm_handlers : gmap Z H }.

(** [None] is the error return. *)
Fixpoint compute_items (items : list SignedConfigurationItem) (chainID : slice) (m : Z)
    : option (slice * Z) :=
  match items with
  | [] => Some (chainID, m)
  | signedItem :: rest =>
      item ← unmarshal_config_item (sci_ConfigurationItem signedItem);
      let m := if bool_decide (ci_LastModified item > m) then ci_LastModified item else m in
      header ← ci_Header item;
      id ← ch_ChainID header;
      match chainID with
      | None => compute_items rest (Some id) m
      | Some c => if bool_decide (c = id) then compute_items rest chainID m else None
      end
  end.

Definition computeChainIDAndSequence (configtx : ConfigurationEnvelope) : option (slice * Z) :=
  if bool_decide (ce_Items configtx = []) then None else compute_items (ce_Items configtx) None 0.

Definition makeConfigMap : configMap := list_to_map ((λ t, (t, ∅)) <$> ConfigurationType_names).

(** A call on the handler of each known type. *)
Fixpoint each_handler (f : H → res H) (types : list Z) (hs : gmap Z H) : res (gmap Z H) :=
  match types with
  | [] => Ok hs
  | t :: rest => h ← deref (hs !! t); h' ← f h; each_handler f rest (<[t := h']> hs)
  end.
Definition beginHandlers : gmap Z H → res (gmap Z H) :=
  each_handler BeginConfig ConfigurationType_names.
Definition rollbackHandlers : gmap Z H → res (gmap Z H) :=
  each_handler (λ h, Ok (RollbackConfig h)) ConfigurationType_names.
Definition commitHandlers : gmap Z H → res (gmap Z H) :=
  each_handler CommitConfig ConfigurationType_names.

Definition old_item (cm : configMap) (config : ConfigurationItem) : option ConfigurationItem :=
  cm !! ci_Type config ≫= λ m, m !! ci_Key config.

(** The creators of the signatures; [None] if a header does not parse. *)
Definition signer_identities (sigs : list ConfigurationSignature) : option (list bytes) :=
  mapM (λ s, h ← unmarshal_signature_header (cs_SignatureHeader s); Some (sl (sh_Creator h))) sigs.

(** The checks of one item up to its handler: policy, then sequence number. *)
Definition check_item (cur : configMap) (seq : Z) (policy : policy_ref)
    (entry : SignedConfigurationItem) (config : ConfigurationItem) : res bool :=
  let headers := cs_Signature <$> sci_Signatures entry in
  let signatures := cs_SignatureHeader <$> sci_Signatures entry in
  match signer_identities (sci_Signatures entry) with
  | None => Ok false
  | Some identities =>
      ok ← evaluate policy headers (sci_ConfigurationItem entry) identities signatures;
      if negb (ok : bool) then Ok false else
      match old_item cur config with
      | Some val =>
          let isModified := negb (bool_decide (ci_LastModified val = ci_LastModified config))
                            || negb (bool_decide (ci_Value config = ci_Value val)) in
          Ok (negb isModified || bool_decide (ci_LastModified config = seq))
      | None => Ok (bool_decide (ci_LastModified config = seq))
      end
  end.

(** The loop over the entries; the handlers change also when it fails. *)
Fixpoint process_items (cur : configMap) (seq : Z) (dflt : policy_ref)
    (items : list SignedConfigurationItem) (new : configMap) (hs : gmap Z H)
    : res (option configMap * gmap Z H) :=
  match items with
  | [] => Ok (Some new, hs)
  | entry :: rest =>
      match unmarshal_config_item (sci_ConfigurationItem entry) with
      | None => Ok (None, hs)
      | Some config =>
          let policy := match old_item cur config with
                        | Some o => Managed (pm_GetPolicy (ci_ModificationPolicy o) hs).1
                        | None => dflt
                        end in
          ok ← check_item cur seq policy entry config;
          if negb (ok : bool) then Ok (None, hs) else
          h ← deref (hs !! ci_Type config);
          r ← ProposeConfig config h;
          let hs := <[ci_Type config := r.2]> hs in
          if negb r.1 then Ok (None, hs) else
          m ← deref (new !! ci_Type config);
          process_items cur seq dflt rest (<[ci_Type config := <[ci_Key config := config]> m]> new) hs
      end
  end.

(** No key of the current configuration is missing from the new one. *)
Definition keys_kept (cur new : configMap) : bool :=
  forallb (λ t, forallb (λ k, bool_decide (is_Some (default ∅ (new !! t) !! k)))
    (map_to_list (default ∅ (cur !! t))).*1) ConfigurationType_names.

Definition processConfig (configtx : ConfigurationEnvelope) (cm : configurationManager) (hs : gmap Z H)
    : res (option configMap * gmap Z H) :=
  match computeChainIDAndSequence configtx with
  | None => Ok (None, hs)
  | Some (chainID, seq) =>
      if negb (bool_decide (seq = u64 (cm_sequence cm + 1))) then Ok (None, hs) else
      if negb (bytes_Equal chainID (cm_chainID cm)) then Ok (None, hs) else
      let '(p, set) := pm_GetPolicy DefaultModificationPolicyID hs in
      let dflt := if (set : bool) then Managed p else AcceptAll in
      r ← process_items (cm_configuration cm) seq dflt (ce_Items configtx) makeConfigMap hs;
      match r.1 with
      | None => Ok (None, r.2)
      | Some new => if keys_kept (cm_configuration cm) new then Ok (Some new, r.2) else Ok (None, r.2)
      end
  end.

Definition with_handlers (cm : configurationManager) (hs : gmap Z H) : configurationManager :=
  mkConfigurationManager (cm_sequence cm) (cm_chainID cm) (cm_configuration cm) hs.

(** [true]: nil error. *)
Definition Validate (configtx : ConfigurationEnvelope) (cm : configurationManager)
    : res (bool * configurationManager) :=
  hs ← beginHandlers (cm_handlers cm);
  r ← processConfig configtx cm hs;
  hs ← rollbackHandlers r.2;
  Ok (bool_decide (is_Some r.1), with_handlers cm hs).

Definition Apply (configtx : ConfigurationEnvelope) (cm : configurationManager)
    : res (bool * configurationManager) :=
  hs ← beginHandlers (cm_handlers cm);
  r ← processConfig configtx cm hs;
  match r.1 with
  | None => hs ← rollbackHandlers r.2; Ok (false, with_handlers cm hs)
  | Some new =>
      hs ← commitHandlers r.2;
      Ok (true, mkConfigurationManager (u64 (cm_sequence cm + 1)) (cm_chainID cm) new hs)
  end.

(** [None] is the error return. *)
Definition NewConfigurationManager (configtx : ConfigurationEnvelope) (handlers : gmap Z H)
    : res (option configurationManager) :=
  if negb (forallb (λ t, bool_decide (is_Some (handlers !! t))) ConfigurationType_names) then Ok None else
  match computeChainIDAndSequence configtx with
  | None => Ok None
  | Some (chainID, seq) =>
      r ← Apply configtx (mkConfigurationManager (u64 (seq - 1)) chainID makeConfigMap handlers);
      Ok (if (r.1 : bool) then Some r.2 else None)
  end.

End configtx.
Arguments configurationManager H : clear implicits.

(** ** The handlers of orderer/main.go *)
Inductive ordererHandler := HPolicy (pm : ManagerImpl) | HBytes (bh : BytesHandler).

Section orderer.
Context `{O : OEnv}.

(** [xxxCryptoHelper]: every signature is valid. *)
Definition xxxVerifySignature (msg ids sigs : bytes) : bool := true.

#[global] Instance orderer_handler : Handler ordererHandler := {|
  BeginConfig h := match h with
    | HPolicy pm => pm ← pm_BeginConfig pm; Ok (HPolicy pm)
    | HBytes bh => bh ← bh_BeginConfig bh; Ok (HBytes bh) end;
  RollbackConfig h := match h with
    | HPolicy pm => HPolicy (pm_RollbackConfig pm)
    | HBytes bh => HBytes (bh_RollbackConfig bh) end;
  CommitConfig h := match h with
    | HPolicy pm => pm ← pm_CommitConfig pm; Ok (HPolicy pm)
    | HBytes bh => bh ← bh_CommitConfig bh; Ok (HBytes bh) end;
  ProposeConfig i h := match h with
    | HPolicy pm => r ← pm_ProposeConfig xxxVerifySignature i pm; Ok (r.1, HPolicy r.2)
    | HBytes bh => r ← bh_ProposeConfig i bh; Ok (r.1, HBytes r.2) end |}.

Definition orderer_GetPolicy (id : string) (hs : gmap Z ordererHandler) : option authenticator * bool :=
  match hs !! ConfigurationItem_Policy with
  | Some (HPolicy pm) => GetPolicy id pm
  | _ => (None, false)
  end.

Definition configHandlerMap : gmap Z ordererHandler :=
  list_to_map ((λ t, (t, if bool_decide (t = ConfigurationItem_Policy) then HPolicy NewManagerImpl
                         else HBytes NewBytesHandler)) <$> ConfigurationType_names).

Definition bootstrapConfigManager (lastConfigTx : ConfigurationEnvelope)
    : res (configurationManager ordererHandler) :=
  r ← NewConfigurationManager orderer_GetPolicy lastConfigTx configHandlerMap;
  deref r.
End orderer.
