(* ===== verification/ConfigTxProofs.v ===== *)
(** * The configuration manager: what [Validate] and [Apply] guarantee

    Proved for every lawful [Handler]; the orderer's handlers are lawful. *)

From stdpp Require Import base numbers strings gmap list.
From S2P Require Import Prelude OrdererTypes Cauthdsl ConfigTx.
Local Open Scope Z_scope.

(** ** The orderer's handlers keep the promise *)
Section laws.
Context `{O : OEnv}.

#[global] Program Instance bytes_handler_laws : HandlerLaws BytesHandler := {|
  idle h := bh_proposed h = None;
  pending h0 h := bh_proposed h0 = None ∧ bh_config h = bh_config h0 ∧ is_Some (bh_proposed h) |}.
Next Obligation.
  intros [c p]. simpl. intros ->. eexists. split; [done|]. by split_and!; [..|eexists].
Qed.
Next Obligation.
  intros [c0 p0] [c p] i b h' (? & ? & [q Hq]). simpl in *. subst. unfold bh_ProposeConfig. simpl.
  intros [= <- <-]. split_and!; [done|done|by eexists].
Qed.
Next Obligation. by intros [c0 p0] [c p] (? & ? & ?); simpl in *; subst. Qed.
Next Obligation.
  intros [c0 p0] [c p] (? & ? & [q Hq]). simpl in *. subst. by eexists.
Qed.

Lemma pm_propose_pending V i pm b pm' :
  is_Some (pm_pendingPolicies pm) → pm_ProposeConfig V i pm = Ok (b, pm') →
  pm_policies pm' = pm_policies pm ∧ is_Some (pm_pendingPolicies pm').
Proof.
  intros [q Hq]. unfold pm_ProposeConfig. case_match; [by intros [= <- <-]; rewrite Hq|].
  destruct (unmarshal_policy (ci_Value i)) as [p|]; [|by intros [= <- <-]; rewrite Hq].
  intros ([c|] & _ & Hc)%res_bind_Ok; [|injection Hc as <- <-; by rewrite Hq].
  rewrite Hq in Hc. by injection Hc as <- <-.
Qed.

Definition oh_idle (h : ordererHandler) : Prop :=
  match h with
  | HPolicy pm => pm_pendingPolicies pm = None
  | HBytes bh => bh_proposed bh = None
  end.
Definition oh_pending (h0 h : ordererHandler) : Prop :=
  match h0, h with
  | HPolicy pm0, HPolicy pm => pm_pendingPolicies pm0 = None ∧ pm_policies pm = pm_policies pm0
      ∧ is_Some (pm_pendingPolicies pm)
  | HBytes bh0, HBytes bh => bh_proposed bh0 = None ∧ bh_config bh = bh_config bh0
      ∧ is_Some (bh_proposed bh)
  | _, _ => False
  end.

#[global] Program Instance orderer_handler_laws : HandlerLaws ordererHandler := {|
  idle := oh_idle; pending := oh_pending |}.
Next Obligation.
  intros [[c p]|[c p]]; simpl; intros ->; (eexists; split; [done|by split_and!; [..|eexists]]).
Qed.
Next Obligation.
  intros [pm0|bh0] [pm|bh] i b h'; simpl; try done.
  - intros (? & Hp & Hs) ([b' pm'] & Hr & [= <- <-])%res_bind_Ok.
    destruct (pm_propose_pending _ _ _ _ _ Hs Hr) as [? ?]. simpl. split_and!; [done|congruence|done].
  - intros (? & Hp & [q Hq]). unfold bh_ProposeConfig. rewrite Hq. simpl. intros [= <- <-].
    by split_and!; [..|eexists].
Qed.
Next Obligation.
  intros [[c0 p0]|[c0 p0]] [[c p]|[c p]]; simpl; try done; intros (-> & -> & ?); done.
Qed.
Next Obligation.
  intros [[c0 p0]|[c0 p0]] [[c p]|[c p]]; simpl; try done; intros (-> & -> & [q ->]); by eexists.
Qed.
End laws.

Section proofs.
Context `{O : OEnv} {H : Type} `{HH : Handler H} `{HL : !HandlerLaws H}.
Context (pm_GetPolicy : string → gmap Z H → option authenticator * bool).

(** The state of the handlers between and during proposals. *)
Definition handlers_idle (hs : gmap Z H) : Prop :=
  (∀ t, is_Some (hs !! t) ↔ t ∈ ConfigurationType_names) ∧ ∀ t h, hs !! t = Some h → idle h.
Definition proposing (hs0 hs : gmap Z H) : Prop :=
  (∀ t, is_Some (hs0 !! t) ↔ t ∈ ConfigurationType_names) ∧
  ∀ t, option_Forall2 pending (hs0 !! t) (hs !! t).

(** The policies in force do not depend on a proposal in progress. *)
Definition reads_committed : Prop :=
  ∀ hs0 hs id, proposing hs0 hs → pm_GetPolicy id hs = pm_GetPolicy id hs0.

Lemma names_NoDup : NoDup ConfigurationType_names.
Proof. apply (bool_decide_unpack _). by vm_compute. Qed.

Lemma each_handler_spec (f : H → res H) (R : H → H → Prop) types hs :
  NoDup types → (∀ t, t ∈ types → ∃ h h', hs !! t = Some h ∧ f h = Ok h' ∧ R h h') →
  ∃ hs', each_handler f types hs = Ok hs'
    ∧ (∀ t, t ∈ types → ∃ h h', hs !! t = Some h ∧ f h = Ok h' ∧ hs' !! t = Some h' ∧ R h h')
    ∧ (∀ t, t ∉ types → hs' !! t = hs !! t).
Proof.
  intros Hnd. revert hs. induction Hnd as [|t types Hnin Hnd IH]; intros hs Hall; simpl.
  { exists hs. split_and!; [done|set_solver|done]. }
  destruct (Hall t) as (h & h' & Hh & Hf & HR); [set_solver|]. rewrite Hh. simpl. rewrite Hf. simpl.
  destruct (IH (<[t := h']> hs)) as (hs' & He & Hin & Hout).
  { intros u Hu. destruct (decide (u = t)) as [->|]; [done|].
    rewrite lookup_insert_ne by done. apply Hall. set_solver. }
  exists hs'. split_and!; [done| |].
  - intros u [->|Hu]%elem_of_cons.
    + exists h, h'. rewrite Hout by done. by rewrite lookup_insert_eq.
    + destruct (Hin u Hu) as (g & g' & Hg & ?). exists g, g'.
      destruct (decide (u = t)) as [->|]; [done|]. by rewrite lookup_insert_ne in Hg.
  - intros u Hu. rewrite Hout by set_solver. apply lookup_insert_ne. set_solver.
Qed.

Lemma begin_proposing hs : handlers_idle hs → ∃ hs', beginHandlers hs = Ok hs' ∧ proposing hs hs'.
Proof.
  intros [Hdom Hidle]. destruct (each_handler_spec BeginConfig pending _ hs names_NoDup)
    as (hs' & He & Hin & Hout).
  { intros t Ht. apply Hdom in Ht as [h Hh]. destruct (begin_idle h) as (h' & ? & ?); [by eapply Hidle|].
    by exists h, h'. }
  exists hs'. split; [done|]. split; [done|]. intros t.
  destruct (decide (t ∈ ConfigurationType_names)) as [Ht|Ht].
  - destruct (Hin t Ht) as (h & h' & -> & _ & -> & ?). by constructor.
  - rewrite Hout by done. destruct (hs !! t) eqn:Hh; [|constructor].
    destruct Ht. apply Hdom. by eexists.
Qed.

Lemma rollback_proposing hs0 hs : proposing hs0 hs → rollbackHandlers hs = Ok hs0.
Proof.
  intros [Hdom Hp]. destruct (each_handler_spec (λ h, Ok (RollbackConfig h)) (λ _ _, True)
    _ hs names_NoDup) as (hs' & He & Hin & Hout).
  { intros t Ht. apply Hdom in Ht as [h0 Hh0]. specialize (Hp t). rewrite Hh0 in Hp.
    inversion Hp as [? h Hpend Heq|]. by exists h, (RollbackConfig h). }
  unfold rollbackHandlers. rewrite He. f_equal. apply map_eq. intros t. specialize (Hp t).
  destruct (decide (t ∈ ConfigurationType_names)) as [Ht|Ht].
  - destruct (Hin t Ht) as (h & h' & Hh & [= <-] & -> & _). rewrite Hh in Hp.
    inversion Hp as [h0 ? Hpend Heq|]. f_equal. by apply rollback_pending.
  - rewrite Hout by done. destruct (hs0 !! t) eqn:Hh; [|by inversion Hp].
    destruct Ht. apply Hdom. by eexists.
Qed.

Lemma commit_proposing hs0 hs :
  proposing hs0 hs → ∃ hs', commitHandlers hs = Ok hs' ∧ handlers_idle hs'.
Proof.
  intros [Hdom Hp]. destruct (each_handler_spec CommitConfig (λ _ h, idle h)
    _ hs names_NoDup) as (hs' & He & Hin & Hout).
  { intros t Ht. apply Hdom in Ht as [h0 Hh0]. specialize (Hp t). rewrite Hh0 in Hp.
    inversion Hp as [? h Hpend Heq|]. destruct (commit_pending _ _ Hpend) as (h' & ? & ?).
    by exists h, h'. }
  exists hs'. split; [done|]. assert (∀ t, t ∉ ConfigurationType_names → hs' !! t = None) as Hno.
  { intros t Ht. rewrite Hout by done. specialize (Hp t).
    destruct (hs0 !! t) eqn:Hh; [|by inversion Hp]. destruct Ht. apply Hdom. by eexists. }
  split.
  - intros t. split.
    + intros [h Hh]. destruct (decide (t ∈ ConfigurationType_names)) as [|Ht]; [done|].
      by rewrite Hno in Hh.
    + intros Ht. destruct (Hin t Ht) as (? & h' & _ & _ & -> & _). by eexists.
  - intros t h Hh. destruct (decide (t ∈ ConfigurationType_names)) as [Ht|Ht].
    + destruct (Hin t Ht) as (? & h' & _ & _ & Hh' & ?). congruence.
    + by rewrite Hno in Hh.
Qed.

Lemma propose_proposing hs0 hs t h i b h' :
  proposing hs0 hs → hs !! t = Some h → ProposeConfig i h = Ok (b, h') →
  proposing hs0 (<[t := h']> hs).
Proof.
  intros [Hdom Hp] Hh Hi. split; [done|]. intros u. destruct (decide (u = t)) as [->|].
  - rewrite lookup_insert_eq. specialize (Hp t). rewrite Hh in Hp.
    inversion Hp as [h0 ? Hpend Heq|]. constructor. by eapply propose_pending.
  - by rewrite lookup_insert_ne.
Qed.

(** ** What the loop over the items establishes *)
Definition governing (cur : gmap Z (gmap string ConfigurationItem)) (dflt : policy_ref)
    (hs : gmap Z H) (config : ConfigurationItem) : policy_ref :=
  match old_item cur config with
  | Some o => Managed (pm_GetPolicy (ci_ModificationPolicy o) hs).1
  | None => dflt
  end.

Lemma process_items_spec cur seq dflt items new hs0 hs r hs' :
  reads_committed → proposing hs0 hs →
  process_items pm_GetPolicy cur seq dflt items new hs = Ok (r, hs') →
  proposing hs0 hs' ∧
  ∀ new', r = Some new' →
    (∀ entry, entry ∈ items → ∃ config,
       unmarshal_config_item (sci_ConfigurationItem entry) = Some config
       ∧ check_item cur seq (governing cur dflt hs0 config) entry config = Ok true) ∧
    (∀ t k c, new' !! t ≫= (.!! k) = Some c → new !! t ≫= (.!! k) = Some c ∨
       ∃ entry, entry ∈ items ∧ unmarshal_config_item (sci_ConfigurationItem entry) = Some c
         ∧ ci_Type c = t ∧ ci_Key c = k) ∧
    (∀ t k, is_Some (new !! t ≫= (.!! k)) → is_Some (new' !! t ≫= (.!! k))) ∧
    (∀ entry config, entry ∈ items →
       unmarshal_config_item (sci_ConfigurationItem entry) = Some config →
       is_Some (new' !! ci_Type config ≫= (.!! ci_Key config))).
Proof.
  intros Hread. revert new hs. induction items as [|entry items IH]; intros new hs Hp Hproc.
  { injection Hproc as <- <-. split; [done|]. intros ? [= <-]. split_and!; try set_solver. }
  simpl in Hproc. destruct (unmarshal_config_item _) as [config|] eqn:Hu; [|by injection Hproc as <- <-].
  apply res_bind_Ok in Hproc as (ok & Hok & Hproc).
  destruct ok; simpl in Hproc; [|by injection Hproc as <- <-].
  apply res_bind_Ok in Hproc as (h & Hh%deref_Ok & Hproc).
  apply res_bind_Ok in Hproc as ([b h'] & Hb & Hproc). simpl in Hproc.
  pose proof (propose_proposing _ _ _ _ _ _ _ Hp Hh Hb) as Hp1.
  destruct b; simpl in Hproc; [|by injection Hproc as <- <-].
  apply res_bind_Ok in Hproc as (m & Hm%deref_Ok & Hproc).
  destruct (IH _ _ Hp1 Hproc) as (Hp' & Hrest). split; [done|]. intros new' ->.
  destruct (Hrest new' eq_refl) as (H1 & H2 & H3 & H4). clear Hrest IH.
  assert (∀ t k, <[ci_Type config := <[ci_Key config := config]> m]> new !! t ≫= (.!! k)
    = if decide (t = ci_Type config ∧ k = ci_Key config) then Some config
      else new !! t ≫= (.!! k)) as Hins.
  { intros t k. destruct (decide (t = ci_Type config)) as [->|].
    - rewrite lookup_insert_eq. simpl. destruct (decide (k = ci_Key config)) as [->|].
      + by rewrite lookup_insert_eq, decide_True.
      + rewrite lookup_insert_ne by done. rewrite decide_False by naive_solver. by rewrite Hm.
    - rewrite lookup_insert_ne by done. by rewrite decide_False by naive_solver. }
  split_and!.
  - intros e [->|He]%elem_of_cons; [|by apply H1]. exists config. split; [done|].
    rewrite <-Hok. unfold governing. f_equal. case_match; [|done]. by rewrite (Hread _ _ _ Hp).
  - intros t k c Hc. destruct (H2 t k c Hc) as [Hn|(e & He & ?)]; [|right; exists e; set_solver].
    rewrite Hins in Hn. case_decide as Htk; [|by left].
    destruct Htk as [-> ->]. injection Hn as <-. right. exists entry. set_solver.
  - intros t k Hs. apply H3. rewrite Hins. case_decide; [by eexists|done].
  - intros e c [->|He]%elem_of_cons Hc; [|by eapply H4].
    rewrite Hu in Hc. injection Hc as <-. apply H3. rewrite Hins, decide_True by done. by eexists.
Qed.

(** ** Sequence numbers *)
Lemma compute_items_spec items chainID m c m' :
  compute_items items chainID m = Some (c, m') →
  m ≤ m' ∧
  (∀ entry config, entry ∈ items →
     unmarshal_config_item (sci_ConfigurationItem entry) = Some config →
     ci_LastModified config ≤ m') ∧
  (m' = m ∨ ∃ entry config, entry ∈ items ∧
     unmarshal_config_item (sci_ConfigurationItem entry) = Some config ∧ ci_LastModified config = m').
Proof.
  revert chainID m. induction items as [|entry items IH]; intros chainID m; simpl.
  { intros [= <- <-]. split_and!; [lia|set_solver|by left]. }
  intros (item & Hi & (header & _ & (id & _ & Hrest)%bind_Some)%bind_Some)%bind_Some.
  set (m1 := if bool_decide (ci_LastModified item > m) then _ else _) in Hrest.
  assert (m ≤ m1 ∧ ci_LastModified item ≤ m1 ∧ (m1 = m ∨ m1 = ci_LastModified item)) as (Hm & Hl & Hor).
  { unfold m1. case_bool_decide; split_and!; try lia; auto. }
  assert (∃ chainID', compute_items items chainID' m1 = Some (c, m')) as [chainID' Hr].
  { destruct chainID as [c0|]; [|by eexists]. case_bool_decide; [by eexists|done]. }
  destruct (IH _ _ Hr) as (H1 & H2 & H3). split_and!; [lia| |].
  - intros e config [->|He]%elem_of_cons Hc; [|by eapply H2]. rewrite Hi in Hc. injection Hc as <-. lia.
  - destruct H3 as [->|(e & config & He & Hc & Heq)]; [|right; exists e, config; set_solver].
    destruct Hor as [->|Hor]; [by left|right]. exists entry, item. set_solver.
Qed.

(** Whether and how an item of the new configuration differs from the old. *)
Definition item_change (cur : gmap Z (gmap string ConfigurationItem)) (seq : Z)
    (config : ConfigurationItem) : Prop :=
  match old_item cur config with
  | Some old => ci_LastModified config = seq
      ∨ (ci_LastModified config = ci_LastModified old ∧ ci_Value config = ci_Value old)
  | None => ci_LastModified config = seq
  end.

(** The item satisfies the policy that governs it. *)
Definition authorised (p : policy_ref) (entry : SignedConfigurationItem) : Prop :=
  ∃ ids, signer_identities (sci_Signatures entry) = Some ids ∧
    evaluate p (cs_Signature <$> sci_Signatures entry) (sci_ConfigurationItem entry) ids
      (cs_SignatureHeader <$> sci_Signatures entry) = Ok true.

Lemma check_item_true cur seq p entry config :
  check_item cur seq p entry config = Ok true → authorised p entry ∧ item_change cur seq config.
Proof.
  unfold check_item, authorised, item_change. destruct (signer_identities _) as [ids|]; [|done].
  intros (ok & Hok & Hc)%res_bind_Ok. destruct ok; simpl in Hc; [|done].
  split; [by exists ids|]. destruct (old_item cur config) as [old|].
  - injection Hc as Hc. apply orb_true_iff in Hc as [Hc|Hc]; [right|left; by apply bool_decide_eq_true in Hc].
    apply negb_true_iff, orb_false_iff in Hc as [H1 H2].
    apply negb_false_iff, bool_decide_eq_true in H1. apply negb_false_iff, bool_decide_eq_true in H2. done.
  - injection Hc as Hc. by apply bool_decide_eq_true in Hc.
Qed.

Lemma keys_kept_spec cur new :
  keys_kept cur new = true →
  ∀ t k, t ∈ ConfigurationType_names → is_Some (cur !! t ≫= (.!! k)) → is_Some (new !! t ≫= (.!! k)).
Proof.
  unfold keys_kept. rewrite forallb_forall. intros Hk t k Ht [old Hold].
  specialize (Hk t). rewrite forallb_forall in Hk.
  apply bind_Some in Hold as (m & Hm & Hold).
  assert (is_Some (default ∅ (new !! t) !! k)) as Hs.
  { eapply bool_decide_eq_true_1, Hk; [by apply list_elem_of_In|]. apply list_elem_of_In.
    rewrite Hm. simpl. apply list_elem_of_fmap. exists (k, old).
    split; [done|by apply elem_of_map_to_list]. }
  destruct (new !! t) as [m'|]; [done|]. simpl in Hs. rewrite lookup_empty in Hs. by destruct Hs.
Qed.

Lemma makeConfigMap_lookup t k : makeConfigMap !! t ≫= (.!! k) = None.
Proof.
  destruct (makeConfigMap !! t) as [m|] eqn:Hm; [|done].
  apply elem_of_list_to_map_2 in Hm. apply list_elem_of_fmap in Hm as (u & [= -> ->] & _).
  simpl. apply lookup_empty.
Qed.

(** The configurations of a manager only have items of known types. *)
Definition known_types (cfg : gmap Z (gmap string ConfigurationItem)) : Prop :=
  ∀ t, is_Some (cfg !! t) → t ∈ ConfigurationType_names.

(** ** A configuration transaction that passes *)
Record passes (tx : ConfigurationEnvelope) (cm : configurationManager H)
    (new : gmap Z (gmap string ConfigurationItem)) : Prop := {
  pass_seq : ∃ c, computeChainIDAndSequence tx = Some (c, u64 (cm_sequence cm + 1))
    ∧ bytes_Equal c (cm_chainID cm) = true;
  pass_items entry : entry ∈ ce_Items tx → ∃ config,
    unmarshal_config_item (sci_ConfigurationItem entry) = Some config
    ∧ authorised (governing (cm_configuration cm)
        (if (pm_GetPolicy DefaultModificationPolicyID (cm_handlers cm)).2
         then Managed (pm_GetPolicy DefaultModificationPolicyID (cm_handlers cm)).1 else AcceptAll)
        (cm_handlers cm) config) entry
    ∧ item_change (cm_configuration cm) (u64 (cm_sequence cm + 1)) config
    ∧ is_Some (new !! ci_Type config ≫= (.!! ci_Key config));
  pass_new t k c : new !! t ≫= (.!! k) = Some c → ∃ entry, entry ∈ ce_Items tx
    ∧ unmarshal_config_item (sci_ConfigurationItem entry) = Some c ∧ ci_Type c = t ∧ ci_Key c = k;
  pass_kept t k : t ∈ ConfigurationType_names →
    is_Some (cm_configuration cm !! t ≫= (.!! k)) → is_Some (new !! t ≫= (.!! k)) }.

Lemma processConfig_spec tx cm hs r hs' :
  reads_committed → proposing (cm_handlers cm) hs →
  processConfig pm_GetPolicy tx cm hs = Ok (r, hs') →
  proposing (cm_handlers cm) hs' ∧ ∀ new, r = Some new → passes tx cm new.
Proof.
  intros Hread Hp. unfold processConfig.
  destruct (computeChainIDAndSequence tx) as [[chainID seq]|] eqn:Hc; [|by intros [= <- <-]].
  destruct (bool_decide (seq = _)) eqn:Hseq; simpl; [|by intros [= <- <-]].
  apply bool_decide_eq_true in Hseq as ->.
  destruct (bytes_Equal chainID (cm_chainID cm)) eqn:Hid; simpl; [|by intros [= <- <-]].
  rewrite (Hread _ _ _ Hp).
  destruct (pm_GetPolicy DefaultModificationPolicyID (cm_handlers cm)) as [p set] eqn:Hdef.
  intros ([r1 hs1] & Hproc & Hr)%res_bind_Ok.
  destruct (process_items_spec _ _ _ _ _ _ _ _ _ Hread Hp Hproc) as [Hp1 Hspec]. simpl in Hr.
  destruct r1 as [new|]; [|by injection Hr as <- <-].
  destruct (keys_kept _ new) eqn:Hk; [|by injection Hr as <- <-]. injection Hr as <- <-.
  split; [done|]. intros ? [= <-]. destruct (Hspec new eq_refl) as (H1 & H2 & H3 & H4). split.
  - by exists chainID.
  - intros entry He. destruct (H1 entry He) as (config & Hu & Hci). exists config.
    apply check_item_true in Hci as [Ha Hch]. rewrite Hdef. split_and!; [done|done|done|by eapply H4].
  - intros t k c Hn. destruct (H2 t k c Hn) as [Hbad|?]; [|done].
    by rewrite makeConfigMap_lookup in Hbad.
  - by apply keys_kept_spec.
Qed.

(** ** Validate and Apply *)
Lemma Validate_cases tx cm :
  reads_committed → handlers_idle (cm_handlers cm) →
  (Validate pm_GetPolicy tx cm = Panic ∧ Apply pm_GetPolicy tx cm = Panic) ∨
  (Validate pm_GetPolicy tx cm = OutOfFuel ∧ Apply pm_GetPolicy tx cm = OutOfFuel) ∨
  ∃ b, Validate pm_GetPolicy tx cm = Ok (b, cm) ∧
    ∃ cm', Apply pm_GetPolicy tx cm = Ok (b, cm') ∧ handlers_idle (cm_handlers cm')
    ∧ (b = false → cm' = cm)
    ∧ (b = true → cm_sequence cm' = u64 (cm_sequence cm + 1) ∧ cm_chainID cm' = cm_chainID cm
         ∧ passes tx cm (cm_configuration cm')).
Proof.
  intros Hread Hidle. destruct (begin_proposing _ Hidle) as (hs & Hb & Hp).
  unfold Validate, Apply. rewrite Hb. simpl.
  destruct (processConfig pm_GetPolicy tx cm hs) as [[r hs']| |] eqn:Hproc; [|by left|by right; left].
  right; right. simpl. destruct (processConfig_spec _ _ _ _ _ Hread Hp Hproc) as [Hp' Hpass].
  rewrite (rollback_proposing _ _ Hp'). simpl.
  assert (with_handlers cm (cm_handlers cm) = cm) as Hcm by (by destruct cm).
  exists (bool_decide (is_Some r)). rewrite Hcm. split; [done|]. destruct r as [new|].
  - destruct (commit_proposing _ _ Hp') as (hs'' & -> & Hidle'). simpl.
    eexists. split; [done|]. split_and!; [done|done|]. intros _. split_and!; [done|done|]. by apply Hpass.
  - eexists. split; [done|]. split_and!; done.
Qed.

Lemma Apply_true tx cm cm' :
  reads_committed → handlers_idle (cm_handlers cm) → Apply pm_GetPolicy tx cm = Ok (true, cm') →
  cm_sequence cm' = u64 (cm_sequence cm + 1) ∧ cm_chainID cm' = cm_chainID cm
  ∧ handlers_idle (cm_handlers cm') ∧ passes tx cm (cm_configuration cm').
Proof.
  intros Hread Hidle HA.
  destruct (Validate_cases tx cm Hread Hidle) as [[_ ?]|[[_ ?]|(b & _ & cm'' & HA' & Hi & _ & Ht)]];
    [congruence|congruence|].
  rewrite HA in HA'. injection HA' as <- <-. destruct (Ht eq_refl) as (? & ? & ?). done.
Qed.

(** No item is stamped with a sequence number to come. *)
Definition stamped (cm : configurationManager H) : Prop :=
  ∀ t k c, cm_configuration cm !! t ≫= (.!! k) = Some c → ci_LastModified c ≤ cm_sequence cm.

End proofs.

Section claims.
Context `{O : OEnv} {H : Type} `{HH : Handler H} `{HL : !HandlerLaws H}.
Context (pm_GetPolicy : string → gmap Z H → option authenticator * bool).

(** C30. [Validate] leaves the manager and all its handlers as they were, and
    its verdict is that of [Apply]; an [Apply] that fails changes nothing. *)
Theorem Validate_agrees_with_Apply (tx : ConfigurationEnvelope) (cm cm' : configurationManager H) (b : bool) :
  reads_committed pm_GetPolicy → handlers_idle (cm_handlers cm) →
  Validate pm_GetPolicy tx cm = Ok (b, cm') →
  cm' = cm ∧ ∃ cm'', Apply pm_GetPolicy tx cm = Ok (b, cm'')
    ∧ handlers_idle (cm_handlers cm'') ∧ (b = false → cm'' = cm).
Proof.
  intros Hread Hidle HV.
  destruct (Validate_cases pm_GetPolicy tx cm Hread Hidle) as [[? _]|[[? _]|(b' & HV' & cm'' & HA & Hi & Hf & _)]];
    [congruence|congruence|].
  rewrite HV in HV'. injection HV' as <- <-. split; [done|]. by exists cm''.
Qed.


(** Sequence numbers are consistent and every applied transaction changes
    something: if all items are stamped at most with the current sequence
    number, so are they afterwards, and some item carries the new number while
    the item of its type and key, if there was one, did not. *)
Theorem Apply_advances (tx : ConfigurationEnvelope) (cm cm' : configurationManager H) :
  reads_committed pm_GetPolicy → handlers_idle (cm_handlers cm) →
  0 ≤ cm_sequence cm < u64_max → stamped cm →
  Apply pm_GetPolicy tx cm = Ok (true, cm') →
  stamped cm' ∧ cm_sequence cm' = cm_sequence cm + 1 ∧
  ∃ entry c, entry ∈ ce_Items tx
    ∧ unmarshal_config_item (sci_ConfigurationItem entry) = Some c
    ∧ ci_LastModified c = cm_sequence cm'
    ∧ is_Some (cm_configuration cm' !! ci_Type c ≫= (.!! ci_Key c))
    ∧ ∀ old, old_item (cm_configuration cm) c = Some old → ci_LastModified old < ci_LastModified c.
Proof.
  intros Hread Hidle Hsq Hst HA.
  destruct (Apply_true pm_GetPolicy tx cm cm' Hread Hidle HA) as (Hs & _ & _ & Hpass).
  rewrite u64_small in Hs by (unfold u64_max in *; lia).
  destruct (pass_seq _ _ _ _ Hpass) as (chain & Hcomp & _).
  rewrite u64_small in Hcomp by (unfold u64_max in *; lia). rewrite <-Hs in Hcomp.
  unfold computeChainIDAndSequence in Hcomp. case_bool_decide; [done|].
  destruct (compute_items_spec _ _ _ _ _ Hcomp) as (_ & Hle & Hmax). split_and!; [|done|].
  - intros t k c Hn. destruct (pass_new _ _ _ _ Hpass t k c Hn) as (entry & He & Hu & _).
    by eapply Hle.
  - destruct Hmax as [|(entry & c & He & Hu & Heq)]; [lia|]. exists entry, c.
    destruct (pass_items _ _ _ _ Hpass entry He) as (c' & Hu' & _ & _ & Hin).
    assert (c' = c) as -> by congruence. split_and!; [done|done|done|done|].
    intros old Hold. pose proof (Hst _ _ _ Hold). lia.
Qed.

End claims.

(** ** A locked configuration *)
Section locked.
Context `{O : OEnv} {H : Type} `{HH : Handler H} `{HL : !HandlerLaws H}.
Context (pm_GetPolicy : string → gmap Z H → option authenticator * bool).

(** All items, present and future, are governed by a policy that rejects. *)
Definition locked (cm : configurationManager H) : Prop :=
  ∃ f, (∀ msg ids sigs, f msg ids sigs = Ok false) ∧
    pm_GetPolicy DefaultModificationPolicyID (cm_handlers cm) = (Some f, true) ∧
    ∀ t k c, cm_configuration cm !! t ≫= (.!! k) = Some c →
      ci_ModificationPolicy c = DefaultModificationPolicyID.

Lemma locked_Validate tx cm :
  reads_committed pm_GetPolicy → handlers_idle (cm_handlers cm) → locked cm →
  Validate pm_GetPolicy tx cm = Ok (false, cm).
Proof.
  intros Hread Hidle (f & Hf & Hdef & Hitems).
  destruct (begin_proposing _ Hidle) as (hs & Hb & Hp). unfold Validate. rewrite Hb. simpl.
  assert (processConfig pm_GetPolicy tx cm hs = Ok (None, hs)) as ->.
  { unfold processConfig. destruct (computeChainIDAndSequence tx) as [[c seq]|] eqn:Hc; [|done].
    destruct (negb _); [done|]. destruct (negb _); [done|].
    rewrite (Hread _ _ _ Hp), Hdef. unfold computeChainIDAndSequence in Hc.
    destruct (ce_Items tx) as [|entry items]; [done|]. clear Hc. simpl.
    destruct (unmarshal_config_item _) as [config|]; [|done].
    set (p := match old_item _ config with Some _ => _ | None => _ end).
    assert (p = Managed (Some f)) as ->.
    { unfold p. destruct (old_item (cm_configuration cm) config) as [o|] eqn:Ho; [|done].
      by rewrite (Hitems _ _ _ Ho), (Hread _ _ _ Hp), Hdef. }
    unfold check_item. destruct (signer_identities _) as [ids|]; [|done]. simpl. by rewrite Hf. }
  simpl. rewrite (rollback_proposing _ _ Hp). simpl. by destruct cm.
Qed.
End locked.

Section orderer.
Context `{O : OEnv}.

Lemma orderer_reads_committed : reads_committed orderer_GetPolicy.
Proof.
  intros hs0 hs id [_ Hp]. unfold orderer_GetPolicy. specialize (Hp ConfigurationItem_Policy).
  destruct (hs0 !! ConfigurationItem_Policy) as [h0|]; [|by inversion Hp].
  inversion Hp as [? h Hpend Heq1 Heq2|]. subst. destruct h0 as [pm0|bh0], h as [pm|bh]; try done.
  destruct Hpend as (_ & Hpol & _). unfold GetPolicy. by rewrite Hpol.
Qed.

Lemma configHandlerMap_idle : handlers_idle configHandlerMap.
Proof.
  split.
  - intros t. split.
    + intros [h Hh]. apply elem_of_list_to_map_2, list_elem_of_fmap in Hh as (u & [= -> _] & ?). done.
    + intros Ht. unfold ConfigurationType_names in Ht.
      repeat (apply elem_of_cons in Ht as [->|Ht]; [by eexists|]). by apply not_elem_of_nil in Ht.
  - intros t h Hh. apply elem_of_list_to_map_2, list_elem_of_fmap in Hh as (u & [= -> ->] & _).
    by case_bool_decide.
Qed.

(** An orderer bootstrapped from a genesis configuration whose only item is
    a reject-all default modification policy (the static bootstrapper's) comes
    up at sequence number 0 and refuses every configuration transaction, with
    its state unchanged. *)
Theorem static_genesis_locks_configuration (raw v cid : bytes) (ch : ChainHeader) :
  ch_ChainID ch = Some cid →
  unmarshal_policy v = Some (mkPolicy (Some RejectAllPolicy)) →
  unmarshal_config_item raw = Some (mkConfigurationItem (Some ch) ConfigurationItem_Policy 0
    DefaultModificationPolicyID DefaultModificationPolicyID v) →
  ∃ cm, bootstrapConfigManager (mkConfigurationEnvelope [mkSignedConfigurationItem raw []]) = Ok cm
    ∧ cm_sequence cm = 0 ∧ cm_chainID cm = Some cid
    ∧ ∀ tx, Validate orderer_GetPolicy tx cm = Ok (false, cm).
Proof.
  intros Hid Hv Hraw. set (item := mkConfigurationItem _ _ _ _ _ _) in Hraw.
  set (tx := mkConfigurationEnvelope _).
  assert (computeChainIDAndSequence tx = Some (Some cid, 0)) as Hcomp.
  { unfold computeChainIDAndSequence. simpl. rewrite Hraw. simpl. by rewrite Hid. }
  set (f := λ (msg : bytes) (ids sigs : list bytes), Ok false).
  assert (∃ cm, Apply orderer_GetPolicy tx
      (mkConfigurationManager (u64 (0 - 1)) (Some cid) makeConfigMap configHandlerMap) = Ok (true, cm)
    ∧ cm_handlers cm !! ConfigurationItem_Policy =
        Some (HPolicy (mkManagerImpl {[DefaultModificationPolicyID := f]} None))) as (cm & HA & Hh).
  { unfold Apply, processConfig. simpl. rewrite Hcomp. simpl. rewrite Hraw. simpl.
    unfold pm_ProposeConfig. simpl. rewrite Hv. simpl.
    assert (bytes_Equal (Some cid) (Some cid) = true) as -> by (by apply bool_decide_eq_true).
    by eexists. }
  exists cm. unfold bootstrapConfigManager, NewConfigurationManager. simpl. rewrite Hcomp.
  rewrite HA. simpl. split; [done|].
  apply Apply_true in HA as (Hs & Hc & Hidle & Hpass);
    [|apply orderer_reads_committed|apply configHandlerMap_idle].
  split_and!; [done|done|]. intros tx'. apply locked_Validate; [apply orderer_reads_committed|done|].
  exists f. split_and!; [done|unfold orderer_GetPolicy; by rewrite Hh|].
  intros t k c Hn. destruct (pass_new _ _ _ _ Hpass t k c Hn) as (entry & He & Hu & _).
  apply list_elem_of_singleton in He as ->. simpl in Hu. rewrite Hraw in Hu. by injection Hu as <-.
Qed.

(** An item of an unknown type that its policy lets through reaches a nil
    handler. *)
Lemma unknown_type_panics cur seq dflt entry rest new (hs : gmap Z ordererHandler) config :
  unmarshal_config_item (sci_ConfigurationItem entry) = Some config →
  check_item cur seq (governing orderer_GetPolicy cur dflt hs config) entry config = Ok true →
  hs !! ci_Type config = None →
  process_items orderer_GetPolicy cur seq dflt (entry :: rest) new hs = Panic.
Proof. intros Hu Hc Hn. simpl. rewrite Hu. unfold governing in Hc. rewrite Hc. simpl. by rewrite Hn. Qed.

(** A change of an item's modification policy alone does not count as a
    modification: it passes with the old sequence number. *)
Lemma policy_change_unstamped cur seq entry config old :
  old_item cur config = Some old → ci_LastModified old = ci_LastModified config →
  ci_Value config = ci_Value old → is_Some (signer_identities (sci_Signatures entry)) →
  check_item cur seq AcceptAll entry config = Ok true.
Proof.
  intros Ho Hl Hv [ids Hids]. unfold check_item. rewrite Hids. simpl. rewrite Ho.
  rewrite (bool_decide_eq_true_2 _ Hl), (bool_decide_eq_true_2 _ Hv). done.
Qed.

End orderer.

(** ** A concrete chain *)
Module ConfigTxWitness.
Definition chain : ChainHeader := mkChainHeader HeaderType_CONFIGURATION_ITEM (Some [byte_of_Z 42]).

(** Three items: an accept-all policy "P" that governs itself, an orderer item
    added at sequence number 1, and the static bootstrapper's policy item. *)
Definition item_of (b : bytes) : option ConfigurationItem :=
  if bool_decide (b = [byte_of_Z 4]) then
    Some (mkConfigurationItem (Some chain) ConfigurationItem_Policy 0 "P" "P" [byte_of_Z 6])
  else if bool_decide (b = [byte_of_Z 5]) then
    Some (mkConfigurationItem (Some chain) ConfigurationItem_Orderer 1 "P" "a" [byte_of_Z 1])
  else if bool_decide (b = [byte_of_Z 9]) then
    Some (mkConfigurationItem (Some chain) ConfigurationItem_Policy 0
      DefaultModificationPolicyID DefaultModificationPolicyID [byte_of_Z 7])
  else None.

#[local] Instance env : OEnv := {|
  marshal_envelope e := sl (env_Payload e);
  unmarshal_envelope b := Some (mkEnvelope (Some b) None);
  unmarshal_payload b := Some (mkPayload None (Some b));
  unmarshal_config_envelope b := None;
  partial_config_envelope b := mkConfigurationEnvelope [];
  unmarshal_config_item := item_of;
  unmarshal_signature_header b := Some (mkSignatureHeader (Some b) None);
  unmarshal_policy b := if bool_decide (b = [byte_of_Z 6]) then Some (mkPolicy (Some AcceptAllPolicy))
    else if bool_decide (b = [byte_of_Z 7]) then Some (mkPolicy (Some RejectAllPolicy)) else None;
  marshal_block_header h := sl (blk_PreviousHash h);
  marshal_block_data l := mjoin l;
  ComputeCryptoHash b := b |}.

Definition entry (k : Z) : SignedConfigurationItem := mkSignedConfigurationItem [byte_of_Z k] [].
Definition tx0 : ConfigurationEnvelope := mkConfigurationEnvelope [entry 4].
Definition tx1 : ConfigurationEnvelope := mkConfigurationEnvelope [entry 4; entry 5].

Definition cm0 : configurationManager ordererHandler :=
  match bootstrapConfigManager tx0 with
  | Ok cm => cm
  | _ => mkConfigurationManager 0 None ∅ ∅
  end.
Definition cm1 : configurationManager ordererHandler :=
  match Apply orderer_GetPolicy tx1 cm0 with Ok (_, cm) => cm | _ => cm0 end.

Lemma cm1_applied : Apply orderer_GetPolicy tx1 cm0 = Ok (true, cm1).
Proof. vm_compute. reflexivity. Qed.
Lemma cm0_applied : Apply orderer_GetPolicy tx0
  (mkConfigurationManager (u64 (0 - 1)) (Some [byte_of_Z 42]) makeConfigMap configHandlerMap) = Ok (true, cm0).
Proof. vm_compute. reflexivity. Qed.
Lemma cm0_idle : handlers_idle (cm_handlers cm0).
Proof.
  pose proof cm0_applied as HA. apply Apply_true in HA as (_ & _ & Hidle & _); [done| |].
  - apply orderer_reads_committed.
  - apply configHandlerMap_idle.
Qed.
Lemma cm0_stamped : stamped cm0.
Proof.
  pose proof cm0_applied as HA. apply Apply_true in HA as (Hs & _ & _ & Hpass);
    [|apply orderer_reads_committed|apply configHandlerMap_idle].
  intros t k c Hn. destruct (pass_new _ _ _ _ Hpass t k c Hn) as (e & He & Hu & _).
  apply list_elem_of_singleton in He as ->. injection Hu as <-. by vm_compute.
Qed.

Lemma Validate_agrees_with_Apply_witness :
  cm0 = cm0 ∧ ∃ cm'', Apply orderer_GetPolicy tx1 cm0 = Ok (true, cm'')
    ∧ handlers_idle (cm_handlers cm'') ∧ (true = false → cm'' = cm0).
Proof.
  apply (Validate_agrees_with_Apply orderer_GetPolicy tx1 cm0 cm0 true).
  - apply orderer_reads_committed.
  - apply cm0_idle.
  - vm_compute. reflexivity.
Defined.


Lemma Apply_advances_witness : stamped cm1 ∧ cm_sequence cm1 = cm_sequence cm0 + 1.
Proof.
  destruct (Apply_advances orderer_GetPolicy tx1 cm0 cm1) as (H1 & H2 & _).
  - apply orderer_reads_committed.
  - apply cm0_idle.
  - vm_compute. split; [discriminate|reflexivity].
  - apply cm0_stamped.
  - apply cm1_applied.
  - exact (conj H1 H2).
Defined.

Lemma static_genesis_locks_configuration_witness :
  ∃ cm, bootstrapConfigManager (mkConfigurationEnvelope [entry 9]) = Ok cm
    ∧ cm_sequence cm = 0 ∧ cm_chainID cm = Some [byte_of_Z 42]
    ∧ ∀ tx, Validate orderer_GetPolicy tx cm = Ok (false, cm).
Proof.
  apply (static_genesis_locks_configuration [byte_of_Z 9] [byte_of_Z 7] [byte_of_Z 42] chain);
    reflexivity.
Defined.
End ConfigTxWitness.
