(* ===== verification/RawLedger.v ===== *)
(** * Raw ledgers of the orderer

    [orderer/rawledger]: the ledger interface and what its clients may rely on
    as classes; [ramledger], a linked list of blocks that keeps the newest
    [maxSize] nodes; [fileledger], one file per block. *)

From stdpp Require Import base numbers strings sorting gmap list.
From S2P Require Import Prelude OrdererTypes.
Local Open Scope Z_scope.

(** ** The interface (rawledger.go)

    An [Iterator] is a cursor of the implementation or the iterator that only
    reports [NOT_FOUND].  [Next] is [None] while it would block. *)
Inductive iterator (C : Type) := NotFoundErrorIterator | Cursor (c : C).
Arguments NotFoundErrorIterator {C}.
Arguments Cursor {C} c.

Class RawLedger (L C : Type) := {
  Append : list Envelope → option (list bytes) → L → res (Block * L);
  Height : L → Z;
  Iterator : StartType → Z → L → res (iterator C * Z);
  cursor_Next : C → L → res (option ((option Block * Status) * C));
  cursor_Ready : C → L → bool }.

Definition iterator_Next {L C} `{RawLedger L C} (it : iterator C) (l : L)
    : res (option ((option Block * Status) * iterator C)) :=
  match it with
  | NotFoundErrorIterator => Ok (Some ((None, NOT_FOUND), NotFoundErrorIterator))
  | Cursor c => r ← cursor_Next c l;
                Ok (match r with Some (b, c) => Some (b, Cursor c) | None => None end)
  end.

(** [ReadyChan] is closed. *)
Definition iterator_Ready {L C} `{RawLedger L C} (it : iterator C) (l : L) : bool :=
  match it with NotFoundErrorIterator => true | Cursor c => cursor_Ready c l end.

(** What a ledger promises: it holds a sequence of blocks numbered from 0, of
    which those from [first] on can be sought; appending adds one block with
    the messages given; a cursor at [n] yields block [n] once it exists, and
    stays valid when blocks are appended. *)
Class RawLedgerLaws (L C : Type) `{OEnv} `{RawLedger L C} := {
  ledger_wf : L → Prop;
  blocks : L → list Block;
  first : L → Z;
  cursor_at : C → L → Z → Prop;
  first_range l : ledger_wf l → 0 ≤ first l ≤ Z.of_nat (length (blocks l));
  Height_blocks l : ledger_wf l → Z.of_nat (length (blocks l)) < 2 ^ 64 →
    Height l = Z.of_nat (length (blocks l));
  block_numbers l i b : ledger_wf l → blocks l !! i = Some b →
    blk_Number (blk_Header b) = Z.of_nat i;
  Append_blocks l msgs md :
    ledger_wf l → Z.of_nat (length (blocks l)) < u64_max →
    ∃ b l', Append msgs md l = Ok (b, l') ∧ ledger_wf l' ∧ blocks l' = blocks l ++ [b]
      ∧ blk_Data b = marshal_envelope <$> msgs
      ∧ (∀ c n, cursor_at c l n → cursor_at c l' n);
  Iterator_oldest l sp : ledger_wf l → Z.of_nat (length (blocks l)) < u64_max →
    ∃ c, Iterator OLDEST sp l = Ok (Cursor c, first l) ∧ cursor_at c l (first l);
  Iterator_newest l sp : ledger_wf l → blocks l ≠ [] → Z.of_nat (length (blocks l)) < u64_max →
    ∃ c, Iterator NEWEST sp l = Ok (Cursor c, Z.of_nat (length (blocks l)) - 1)
      ∧ cursor_at c l (Z.of_nat (length (blocks l)) - 1);
  Iterator_specified l n : ledger_wf l → Z.of_nat (length (blocks l)) < u64_max → 0 ≤ n < 2 ^ 64 →
    if bool_decide (first l ≤ n ≤ Z.of_nat (length (blocks l)))
    then ∃ c, Iterator SPECIFIED n l = Ok (Cursor c, n) ∧ cursor_at c l n
    else Iterator SPECIFIED n l = Ok (NotFoundErrorIterator, 0);
  Next_spec c l n : ledger_wf l → cursor_at c l n → Z.of_nat (length (blocks l)) < u64_max →
    0 ≤ n ≤ Z.of_nat (length (blocks l)) ∧
    match blocks l !! Z.to_nat n with
    | Some b => cursor_Ready c l = true ∧
        ∃ c', cursor_Next c l = Ok (Some ((Some b, SUCCESS), c')) ∧ cursor_at c' l (n + 1)
    | None => cursor_Ready c l = false ∧ cursor_Next c l = Ok None
    end }.

(** The block both ledgers build. *)
Definition make_block `{OEnv} (number : Z) (prevHash : slice) (messages : list Envelope)
    (metadata : option (list bytes)) : Block :=
  let data := marshal_envelope <$> messages in
  mkBlock (mkBlockHeader number prevHash (Some (BlockData_Hash data))) data
    (Some (default [] metadata)).

(** ** ramledger.go

    Nodes live in a heap and are referred to by index.  A node's signal channel
    is closed when its successor is set. *)
Module Ram.
Section ram.
Context `{OE : OEnv}.

Record simpleList := mkSimpleList { sl_next : option nat; sl_closed : bool; sl_block : Block }.

Record ramLedger := mkRamLedger {
  rl_maxSize : Z; rl_size : Z; rl_heap : list simpleList; rl_oldest : nat; rl_newest : nat }.

(** A cursor points to a node of the heap, or to a node [Iterator] made to
    stand before one, which is never changed. *)
Inductive cursor := AtNode (i : nat) | Before (number : Z) (next : nat).

Definition preGenesis : Block := mkBlock (mkBlockHeader u64_max None None) [] None.

Definition newChain (maxSize : Z) : ramLedger :=
  mkRamLedger maxSize 1 [mkSimpleList None false preGenesis] 0 0.

Definition node (rl : ramLedger) (i : nat) : res simpleList := deref (rl_heap rl !! i).
Definition number (n : simpleList) : Z := blk_Number (blk_Header (sl_block n)).

Definition ram_Height (rl : ramLedger) : Z :=
  match rl_heap rl !! rl_newest rl with Some n => u64 (number n + 1) | None => 0 end.

(** The walk from [i] to the node numbered [target]. *)
Fixpoint seek (fuel : nat) (rl : ramLedger) (i : nat) (target : Z) : res nat :=
  match fuel with
  | O => OutOfFuel
  | S fuel =>
      n ← node rl i;
      if bool_decide (number n = target) then Ok i else
      j ← deref (sl_next n); seek fuel rl j target
  end.

Definition ram_Next (cu : cursor) (rl : ramLedger) : res (option ((option Block * Status) * cursor)) :=
  next ← (match cu with
          | AtNode i => n ← node rl i; Ok (sl_next n)
          | Before _ j => Ok (Some j)
          end);
  match next with
  | None => Ok None
  | Some j => n ← node rl j; Ok (Some ((Some (sl_block n), SUCCESS), AtNode j))
  end.

Definition ram_Ready (cu : cursor) (rl : ramLedger) : bool :=
  match cu with
  | AtNode i => match rl_heap rl !! i with Some n => sl_closed n | None => false end
  | Before _ _ => true
  end.

(** A cursor before node [i]. *)
Definition before (rl : ramLedger) (i : nat) : res cursor :=
  n ← node rl i; Ok (Before (u64 (number n - 1)) i).

Definition cursor_number (rl : ramLedger) (cu : cursor) : res Z :=
  match cu with AtNode i => n ← node rl i; Ok (number n) | Before k _ => Ok k end.

Definition ram_Iterator (startType : StartType) (specified : Z) (rl : ramLedger)
    : res (iterator cursor * Z) :=
  list ← (match startType with
    | OLDEST => c ← before rl (rl_oldest rl); Ok (Some c)
    | NEWEST => c ← before rl (rl_newest rl); Ok (Some c)
    | SPECIFIED =>
        oldest ← node rl (rl_oldest rl);
        newest ← node rl (rl_newest rl);
        if bool_decide (u64 (specified + 1) < u64 (number oldest + 1))
           || bool_decide (specified > u64 (number newest + 1)) then Ok None else
        if bool_decide (specified = number oldest) then c ← before rl (rl_oldest rl); Ok (Some c) else
        i ← seek (length (rl_heap rl)) rl (rl_oldest rl) (u64 (specified - 1));
        Ok (Some (AtNode i))
    end);
  match list with
  | None => Ok (NotFoundErrorIterator, 0)
  | Some cu =>
      k ← cursor_number rl cu;
      let blockNum := u64 (k + 1) in
      if bool_decide (blockNum = u64_max) then
        (* skips the pre-genesis block; its successor is the oldest node *)
        r ← ram_Next cu rl;
        match r with
        | Some (_, cu) => Ok (Cursor cu, u64 (blockNum + 1))
        | None => OutOfFuel
        end
      else Ok (Cursor cu, blockNum)
  end.

Definition appendBlock (block : Block) (rl : ramLedger) : res ramLedger :=
  _ ← node rl (rl_newest rl);
  let j := length (rl_heap rl) in
  let heap := alter (λ n, mkSimpleList (Some j) true (sl_block n)) (rl_newest rl) (rl_heap rl)
              ++ [mkSimpleList None false block] in
  let rl := mkRamLedger (rl_maxSize rl) (rl_size rl + 1) heap (rl_oldest rl) j in
  if bool_decide (rl_size rl > rl_maxSize rl) then
    n ← node rl (rl_oldest rl);
    oldest ← deref (sl_next n);
    Ok (mkRamLedger (rl_maxSize rl) (rl_size rl - 1) (rl_heap rl) oldest (rl_newest rl))
  else Ok rl.

Definition ram_Append (messages : list Envelope) (metadata : option (list bytes)) (rl : ramLedger)
    : res (Block * ramLedger) :=
  newest ← node rl (rl_newest rl);
  let block := make_block (u64 (number newest + 1))
    (Some (BlockHeader_Hash (blk_Header (sl_block newest)))) messages metadata in
  rl ← appendBlock block rl;
  Ok (block, rl).

(** [New], the ledger part: the system chain with its genesis block. *)
Definition ram_New (maxSize : Z) (systemGenesis : Block) : res ramLedger :=
  appendBlock systemGenesis (newChain maxSize).

#[global] Instance ram_ledger : RawLedger ramLedger cursor := {|
  Append := ram_Append; Height := ram_Height; Iterator := ram_Iterator;
  cursor_Next := ram_Next; cursor_Ready := ram_Ready |}.

End ram.
End Ram.

(** ** fileledger.go

    The directory maps block numbers to file contents; the names are the
    numbers in twenty digits, so the listing is in ascending order.  File
    operations succeed. *)
Module File.

Class JsonEnv := {
  json_marshal : Block → bytes;
  json_unmarshal : bytes → option Block }.

Section file.
Context `{OE : OEnv} `{J : JsonEnv}.

Record fileLedger := mkFileLedger {
  fl_directory : gmap Z bytes; fl_height : Z; fl_lastHash : slice }.

(** The block or nil, and whether the file was found. *)
Definition readBlock (n : Z) (fl : fileLedger) : option Block * bool :=
  match fl_directory fl !! n with
  | Some raw => (json_unmarshal raw, true)
  | None => (None, false)
  end.

Definition writeBlock (block : Block) (fl : fileLedger) : fileLedger :=
  mkFileLedger (<[blk_Number (blk_Header block) := json_marshal block]> (fl_directory fl))
    (fl_height fl) (fl_lastHash fl).

(** The numbers in the directory listing. *)
Definition listing (dir : gmap Z bytes) : list Z := merge_sort Z.le (map_to_list dir).*1.

Fixpoint check_listing (numbers : list Z) (nextNumber : Z) : res Z :=
  match numbers with
  | [] => Ok nextNumber
  | n :: rest => if negb (bool_decide (n = nextNumber)) then Panic
                 else check_listing rest (u64 (nextNumber + 1))
  end.

Definition initializeBlockHeight (dir : gmap Z bytes) : res fileLedger :=
  height ← check_listing (listing dir) 0;
  let fl := mkFileLedger dir height None in
  if bool_decide (height = 0) then Ok fl else
  match readBlock (u64 (height - 1)) fl with
  | (Some block, true) => Ok (mkFileLedger dir height (Some (BlockHeader_Hash (blk_Header block))))
  | _ => Panic
  end.

Definition file_newChain (dir : gmap Z bytes) : res fileLedger := initializeBlockHeight dir.

(** [New], the ledger part; a fatal log ends the process. *)
Definition file_New (dir : gmap Z bytes) (systemGenesis : Block) : res fileLedger :=
  fl ← file_newChain dir;
  if bool_decide (fl_height fl > 0) then
    match readBlock 0 fl with
    | (b, true) => if bool_decide (b = Some systemGenesis) then Ok fl else Panic
    | (_, false) => Panic
    end
  else
    let fl := writeBlock systemGenesis fl in
    Ok (mkFileLedger (fl_directory fl) 1 (Some (BlockHeader_Hash (blk_Header systemGenesis)))).

Definition file_Height (fl : fileLedger) : Z := fl_height fl.

Definition file_Append (messages : list Envelope) (metadata : option (list bytes)) (fl : fileLedger)
    : res (Block * fileLedger) :=
  let block := make_block (fl_height fl) (fl_lastHash fl) messages metadata in
  let fl := writeBlock block fl in
  Ok (block, mkFileLedger (fl_directory fl) (u64 (fl_height fl + 1)) (fl_lastHash fl)).

(** A cursor is the number of the next block. *)
Definition file_Iterator (startType : StartType) (specified : Z) (fl : fileLedger)
    : res (iterator Z * Z) :=
  match startType with
  | OLDEST => Ok (Cursor 0, 0)
  | NEWEST => let high := u64 (fl_height fl - 1) in Ok (Cursor high, high)
  | SPECIFIED => if bool_decide (specified > fl_height fl) then Ok (NotFoundErrorIterator, 0)
                 else Ok (Cursor specified, specified)
  end.

Definition file_Next (cu : Z) (fl : fileLedger) : res (option ((option Block * Status) * Z)) :=
  match readBlock cu fl with
  | (Some block, true) => Ok (Some ((Some block, SUCCESS), u64 (cu + 1)))
  | (None, true) => Ok (Some ((None, SERVICE_UNAVAILABLE), cu))
  | (_, false) => Ok None
  end.

Definition file_Ready (cu : Z) (fl : fileLedger) : bool :=
  bool_decide (is_Some (fl_directory fl !! cu)).

#[global] Instance file_ledger : RawLedger fileLedger Z := {|
  Append := file_Append; Height := file_Height; Iterator := file_Iterator;
  cursor_Next := file_Next; cursor_Ready := file_Ready |}.

End file.
End File.
