(* ===== verification/RawLedgerProofs.v ===== *)
(** * The raw ledgers keep the ledger contract

    [ramLedger] and [fileLedger] are instances of [RawLedgerLaws]; the RAM
    ledger's blocks form a hash chain; the file ledger's do not, because
    [Append] does not update [lastHash]. *)

From stdpp Require Import base numbers strings sorting gmap list.
From S2P Require Import Prelude OrdererTypes RawLedger.
Local Open Scope Z_scope.

(** ** The RAM ledger *)
Module RamProofs.
Import Ram.
Section ram.
Context `{OE : OEnv}.

Definition node_of (m i : nat) (b : Block) : simpleList :=
  mkSimpleList (if bool_decide (i < m)%nat then Some (S i) else None) (bool_decide (i < m)%nat) b.

(** The heap that holds the blocks [bs]. *)
Definition heap_of (bs : list Block) : list simpleList :=
  imap (node_of (length bs)) (preGenesis :: bs).

Definition num (i : nat) : Z := match i with O => u64_max | S i => Z.of_nat i end.

Record ram_wf (rl : ramLedger) (bs : list Block) : Prop := {
  wf_heap : rl_heap rl = heap_of bs;
  wf_numbers i b : bs !! i = Some b → blk_Number (blk_Header b) = Z.of_nat i;
  wf_newest : rl_newest rl = length bs;
  wf_oldest : (rl_oldest rl ≤ length bs)%nat }.

Lemma length_heap_of bs : length (heap_of bs) = S (length bs).
Proof. unfold heap_of. by rewrite length_imap. Qed.

Lemma lookup_heap_of bs i : heap_of bs !! i = node_of (length bs) i <$> (preGenesis :: bs) !! i.
Proof. unfold heap_of. by rewrite list_lookup_imap. Qed.

Lemma heap_of_snoc bs b :
  alter (λ n, mkSimpleList (Some (S (length bs))) true (sl_block n)) (length bs) (heap_of bs)
    ++ [mkSimpleList None false b] = heap_of (bs ++ [b]).
Proof.
  apply list_eq. intros i. rewrite lookup_heap_of, length_app. simpl.
  destruct (decide (i ≤ length bs)%nat) as [Hi|Hi].
  - rewrite lookup_app_l by (rewrite length_alter, length_heap_of; lia).
    rewrite app_comm_cons, lookup_app_l by (simpl; lia).
    destruct (decide (i = length bs)) as [->|].
    + rewrite list_lookup_alter_eq, lookup_heap_of.
      destruct ((preGenesis :: bs) !! length bs) as [b'|]; [|done]. simpl. unfold node_of.
      rewrite !bool_decide_eq_true_2 by lia. done.
    + rewrite list_lookup_alter_ne by done. rewrite lookup_heap_of.
      destruct ((preGenesis :: bs) !! i) as [b'|]; [|done]. simpl. unfold node_of.
      by rewrite !bool_decide_eq_true_2 by lia.
  - rewrite lookup_app_r by (rewrite length_alter, length_heap_of; lia).
    rewrite length_alter, length_heap_of. rewrite app_comm_cons, lookup_app_r by (simpl; lia). simpl.
    destruct (i - S (length bs))%nat as [|k] eqn:Hk; simpl; [|done].
    f_equal. unfold node_of. rewrite !bool_decide_eq_false_2 by lia. done.
Qed.

Section wf.
Context (rl : ramLedger) (bs : list Block) (Hwf : ram_wf rl bs).
Context (Hlen : Z.of_nat (length bs) < u64_max).

Lemma node_lookup i : (i ≤ length bs)%nat → ∃ b, (preGenesis :: bs) !! i = Some b ∧
  node rl i = Ok (node_of (length bs) i b) ∧ number (node_of (length bs) i b) = num i.
Proof.
  intros Hi. destruct (lookup_lt_is_Some_2 (preGenesis :: bs) i) as [b Hb]; [simpl; lia|].
  exists b. split; [done|]. unfold node. rewrite (wf_heap _ _ Hwf), lookup_heap_of, Hb.
  split; [done|]. unfold number. simpl. destruct i as [|i]; simpl in *; [by injection Hb as <-|].
  by apply (wf_numbers _ _ Hwf).
Qed.

Lemma num_inj i j : (i ≤ length bs)%nat → (j ≤ length bs)%nat → num i = num j → i = j.
Proof. destruct i, j; simpl; lia. Qed.

Lemma num_succ i : (i ≤ length bs)%nat → u64 (num i + 1) = Z.of_nat i.
Proof.
  intros Hi. unfold u64_max in *. destruct i as [|i]; [reflexivity|]. simpl num.
  rewrite u64_small; lia.
Qed.

Lemma num_pred i : (i ≤ length bs)%nat → u64 (Z.of_nat i - 1) = num i.
Proof.
  intros Hi. unfold u64_max in *. destruct i as [|i]; [reflexivity|]. simpl num.
  rewrite u64_small; lia.
Qed.

Lemma seek_finds fuel o t :
  (o ≤ t ≤ length bs)%nat → (t - o < fuel)%nat → seek fuel rl o (num t) = Ok t.
Proof.
  revert o. induction fuel as [|fuel IH]; intros o Ho Hf; [lia|]. simpl.
  destruct (node_lookup o) as (b & Hb & -> & Hn); [lia|]. simpl. rewrite Hn.
  case_bool_decide as Heq; [f_equal; apply num_inj; [lia|lia|done]|].
  assert (o ≠ t) by (intros ->; done).
  rewrite (bool_decide_eq_true_2 (o < length bs)%nat) by lia. simpl. apply IH; lia.
Qed.

Definition ram_at (c : cursor) (n : Z) : Prop :=
  match c with
  | AtNode i => (i ≤ length bs)%nat ∧ n = Z.of_nat i
  | Before _ j => (1 ≤ j ≤ length bs)%nat ∧ n = Z.of_nat j - 1
  end.

Lemma ram_Next_at c n :
  ram_at c n →
  match bs !! Z.to_nat n with
  | Some b => ram_Ready c rl = true ∧
      ∃ c', ram_Next c rl = Ok (Some ((Some b, SUCCESS), c')) ∧ ram_at c' (n + 1)
  | None => ram_Ready c rl = false ∧ ram_Next c rl = Ok None
  end.
Proof.
  destruct c as [i|k j]; intros [Hi ->]; unfold ram_Next; simpl.
  - rewrite Nat2Z.id. destruct (node_lookup i) as (b0 & Hb0 & Hnode & _); [lia|].
    rewrite (wf_heap _ _ Hwf), lookup_heap_of, Hb0. rewrite Hnode. simpl.
    destruct (bs !! i) as [b|] eqn:Hb.
    + apply lookup_lt_Some in Hb as Hlt. rewrite (bool_decide_eq_true_2 (i < length bs)%nat) by lia.
      split; [done|]. destruct (node_lookup (S i)) as (b1 & Hb1 & -> & _); [lia|].
      simpl in Hb1. rewrite Hb in Hb1. injection Hb1 as <-. simpl.
      eexists. split; [done|]. simpl. lia.
    + apply lookup_ge_None in Hb. by rewrite (bool_decide_eq_false_2 (i < length bs)%nat) by lia.
  - destruct (node_lookup j) as (b1 & Hb1 & -> & _); [lia|]. simpl.
    destruct j as [|j]; [lia|]. simpl in Hb1.
    replace (Z.to_nat (Z.of_nat (S j) - 1)) with j by lia. rewrite Hb1.
    split; [done|]. eexists. split; [done|]. simpl. lia.
Qed.

(** The lowest number that can be sought. *)
Definition ram_first : Z := match rl_oldest rl with O => 0 | S i => Z.of_nat i end.

Lemma before_at i : (1 ≤ i ≤ length bs)%nat →
  ∃ c, before rl i = Ok c ∧ cursor_number rl c = Ok (u64 (num i - 1)) ∧ ram_at c (Z.of_nat i - 1).
Proof.
  intros Hi. unfold before. destruct (node_lookup i) as (b & _ & -> & Hn); [lia|]. simpl.
  rewrite Hn. eexists. split; [done|]. by split.
Qed.

(** The tail of [ram_Iterator], from a cursor before node [i]. *)
Definition finish (cu : cursor) : res (iterator cursor * Z) :=
  k ← cursor_number rl cu;
  let blockNum := u64 (k + 1) in
  if bool_decide (blockNum = u64_max) then
    r ← ram_Next cu rl;
    match r with Some (_, cu) => Ok (Cursor cu, u64 (blockNum + 1)) | None => OutOfFuel end
  else Ok (Cursor cu, blockNum).

Lemma finish_before i : (i ≤ length bs)%nat →
  ∃ c, (c ← before rl i; finish c) = Ok (Cursor c, match i with O => 0 | S j => Z.of_nat j end)
    ∧ ram_at c (match i with O => 0 | S j => Z.of_nat j end).
Proof.
  intros Hi. destruct i as [|j].
  - unfold before. destruct (node_lookup 0) as (b & _ & -> & Hn); [lia|]. simpl. rewrite Hn.
    destruct (node_lookup 0) as (b' & _ & Hnode & _); [lia|].
    unfold finish, ram_Next. simpl. rewrite Hnode. simpl. eexists. split; [done|]. by split; [lia|].
  - destruct (before_at (S j)) as (c & -> & Hc & Hat); [lia|]. exists c.
    unfold finish. simpl. rewrite Hc. simpl. unfold u64_max in *.
    assert (u64 (u64 (Z.of_nat j - 1) + 1) = Z.of_nat j) as ->.
    { unfold u64. rewrite Zplus_mod_idemp_l. rewrite Z.mod_small; lia. }
    rewrite bool_decide_eq_false_2 by lia. split; [done|].
    replace (Z.of_nat j) with (Z.of_nat (S j) - 1) by lia. done.
Qed.

Lemma ram_Iterator_oldest sp :
  ∃ c, ram_Iterator OLDEST sp rl = Ok (Cursor c, ram_first) ∧ ram_at c ram_first.
Proof.
  destruct (finish_before (rl_oldest rl)) as (c & Hc & Hat); [apply Hwf|].
  exists c. unfold ram_first. split; [|done]. rewrite <-Hc. unfold ram_Iterator.
  by destruct (before rl (rl_oldest rl)).
Qed.

Lemma ram_Iterator_newest sp : bs ≠ [] →
  ∃ c, ram_Iterator NEWEST sp rl = Ok (Cursor c, Z.of_nat (length bs) - 1)
    ∧ ram_at c (Z.of_nat (length bs) - 1).
Proof.
  intros Hne. destruct (finish_before (rl_newest rl)) as (c & Hc & Hat).
  { rewrite (wf_newest _ _ Hwf). lia. }
  rewrite (wf_newest _ _ Hwf) in Hc, Hat. destruct (length bs) as [|m] eqn:Hm.
  { by destruct bs. }
  exists c. replace (Z.of_nat (S m) - 1) with (Z.of_nat m) by lia. split; [|done].
  rewrite <-Hc. unfold ram_Iterator. rewrite (wf_newest _ _ Hwf), Hm. by destruct (before rl (S m)).
Qed.

Lemma ram_Iterator_specified n : 0 ≤ n < 2 ^ 64 →
  if bool_decide (ram_first ≤ n ≤ Z.of_nat (length bs))
  then ∃ c, ram_Iterator SPECIFIED n rl = Ok (Cursor c, n) ∧ ram_at c n
  else ram_Iterator SPECIFIED n rl = Ok (NotFoundErrorIterator, 0).
Proof.
  intros Hn. unfold ram_Iterator, ram_first. rewrite (wf_newest _ _ Hwf), (wf_heap _ _ Hwf), length_heap_of.
  remember (S (length bs)) as fuel eqn:Hfuel.
  pose proof (wf_oldest _ _ Hwf) as Ho. set (o := rl_oldest rl) in *.
  destruct (node_lookup o) as (bo & _ & Hno & Hko); [done|]. rewrite Hno. simpl.
  destruct (node_lookup (length bs)) as (bn & _ & -> & Hkn); [done|]. simpl. rewrite Hko, Hkn.
  rewrite !num_succ by lia. unfold u64_max in Hlen.
  assert (u64 (n + 1) < Z.of_nat o ∨ n > Z.of_nat (length bs) ↔
    ¬ (match o with O => 0 | S i => Z.of_nat i end ≤ n ≤ Z.of_nat (length bs))) as Hout.
  { unfold u64. destruct (decide (n = 2 ^ 64 - 1)) as [->|]; [simpl; destruct o; simpl in *; lia|].
    rewrite Z.mod_small by lia. destruct o; lia. }
  case_bool_decide as Hin.
  2: { destruct (proj2 Hout Hin) as [H1|H1]; [by rewrite bool_decide_eq_true_2|].
       by rewrite (bool_decide_eq_true_2 (n > _)), orb_true_r. }
  rewrite !bool_decide_eq_false_2 by tauto. simpl.
  case_bool_decide as Heq.
  - destruct o as [|i] eqn:Hoi; [simpl in Heq; unfold u64_max in Heq; lia|].
    destruct (finish_before (S i)) as (c & Hc & Hat); [lia|]. simpl in Heq. subst n.
    exists c. split; [|done]. rewrite <-Hc. by destruct (before rl (S i)).
  - assert (o ≤ Z.to_nat n ≤ length bs)%nat as Hrange.
    { destruct o as [|i]; simpl in Heq; lia. }
    assert (u64 (n - 1) = num (Z.to_nat n)) as ->.
    { rewrite <-num_pred by lia. by rewrite Z2Nat.id by lia. }
    rewrite seek_finds by lia. simpl. exists (AtNode (Z.to_nat n)).
    destruct (node_lookup (Z.to_nat n)) as (b & _ & -> & Hkb); [lia|]. simpl. rewrite Hkb.
    rewrite num_succ by lia. rewrite bool_decide_eq_false_2 by (unfold u64_max; lia).
    split; [f_equal; f_equal; lia|]. split; lia.
Qed.

Lemma appendBlock_wf b :
  blk_Number (blk_Header b) = Z.of_nat (length bs) →
  ∃ rl', appendBlock b rl = Ok rl' ∧ ram_wf rl' (bs ++ [b]).
Proof.
  intros Hb. unfold appendBlock. rewrite (wf_newest _ _ Hwf), (wf_heap _ _ Hwf), length_heap_of.
  destruct (node_lookup (length bs)) as (bn & _ & -> & _); [done|]. simpl.
  rewrite heap_of_snoc.
  assert (∀ i b', (bs ++ [b]) !! i = Some b' → blk_Number (blk_Header b') = Z.of_nat i) as Hnum.
  { intros i b' Hi. apply lookup_app_Some in Hi as [Hi|[Hi1 Hi2]]; [by apply (wf_numbers _ _ Hwf)|].
    apply list_lookup_singleton_Some in Hi2 as [Hi2 <-]. rewrite Hb. f_equal. lia. }
  pose proof (wf_oldest _ _ Hwf) as Ho.
  case_bool_decide.
  - unfold node. simpl. rewrite lookup_heap_of.
    destruct (lookup_lt_is_Some_2 (preGenesis :: bs ++ [b]) (rl_oldest rl)) as [bo Hbo].
    { simpl. rewrite length_app. simpl. lia. }
    rewrite Hbo. simpl. rewrite length_app, bool_decide_eq_true_2 by (simpl; lia). simpl.
    eexists. split; [done|]. split; simpl; [done|done|rewrite length_app; simpl; lia..].
  - eexists. split; [done|]. split; simpl; [done|done|rewrite length_app; simpl; lia..].
Qed.

Lemma ram_Append_wf msgs md :
  ∃ b rl', ram_Append msgs md rl = Ok (b, rl') ∧ ram_wf rl' (bs ++ [b])
    ∧ blk_Data b = marshal_envelope <$> msgs
    ∧ ∃ prev, (preGenesis :: bs) !! length bs = Some prev
        ∧ blk_PreviousHash (blk_Header b) = Some (BlockHeader_Hash (blk_Header prev)).
Proof.
  unfold ram_Append. rewrite (wf_newest _ _ Hwf).
  destruct (node_lookup (length bs)) as (bn & Hbn & -> & Hk); [done|]. simpl. rewrite Hk.
  rewrite num_succ by lia. set (b := make_block _ _ _ _).
  destruct (appendBlock_wf b) as (rl' & -> & Hwf'); [done|]. simpl.
  exists b, rl'. split_and!; [done|done|done|]. by exists bn.
Qed.

End wf.

(** The hash chain: each block carries the hash of its predecessor's header. *)
Definition hash_chain (bs : list Block) : Prop :=
  ∀ i b b', bs !! i = Some b → bs !! S i = Some b' →
    blk_PreviousHash (blk_Header b') = Some (BlockHeader_Hash (blk_Header b)).

Lemma hash_chain_snoc bs b :
  hash_chain bs → (∀ prev, last bs = Some prev →
    blk_PreviousHash (blk_Header b) = Some (BlockHeader_Hash (blk_Header prev))) →
  hash_chain (bs ++ [b]).
Proof.
  intros Hc Hl i x y Hx Hy. apply lookup_app_Some in Hy as [Hy|[Hi Hy]].
  - apply lookup_lt_Some in Hy as Hlt. rewrite lookup_app_l in Hx by lia. by eapply Hc.
  - apply list_lookup_singleton_Some in Hy as [Hy <-]. apply Hl.
    rewrite last_lookup. rewrite lookup_app_l in Hx by lia. rewrite <-Hx. f_equal. lia.
Qed.

Definition ram_blocks (rl : ramLedger) : list Block := sl_block <$> tail (rl_heap rl).

Lemma ram_blocks_wf rl bs : ram_wf rl bs → ram_blocks rl = bs.
Proof.
  intros Hwf. unfold ram_blocks. rewrite (wf_heap _ _ Hwf). unfold heap_of. simpl.
  apply list_eq. intros i. rewrite list_lookup_fmap, list_lookup_imap.
  by destruct (bs !! i).
Qed.

Lemma newChain_wf maxSize : ram_wf (newChain maxSize) [].
Proof. split; simpl; [done|done|done|lia]. Qed.

#[global] Program Instance ram_laws : RawLedgerLaws ramLedger cursor := {|
  ledger_wf rl := ram_wf rl (ram_blocks rl);
  blocks := ram_blocks;
  first := ram_first;
  cursor_at c rl n := ram_at (ram_blocks rl) c n |}.
Next Obligation.
  intros rl Hwf. unfold ram_first. pose proof (wf_oldest _ _ Hwf). destruct (rl_oldest rl); lia.
Qed.
Next Obligation.
  intros rl Hwf Hlen. simpl. unfold ram_Height. pose proof (wf_newest _ _ Hwf) as Hn.
  rewrite Hn, (wf_heap _ _ Hwf), lookup_heap_of. set (bs := ram_blocks rl) in *.
  destruct (lookup_lt_is_Some_2 (preGenesis :: bs) (length bs)) as [b Hb]; [simpl; lia|].
  rewrite Hb. simpl. unfold number. simpl. destruct (length bs) as [|m] eqn:Hm; simpl in Hb.
  - by injection Hb as <-.
  - rewrite (wf_numbers _ _ Hwf m b Hb). rewrite u64_small; lia.
Qed.
Next Obligation. intros rl i b Hwf. by apply (wf_numbers _ _ Hwf). Qed.
Next Obligation.
  intros rl msgs md Hwf Hlen. simpl.
  destruct (ram_Append_wf _ _ Hwf Hlen msgs md) as (b & rl' & HA & Hwf' & Hd & _).
  pose proof (ram_blocks_wf _ _ Hwf') as Hbs. exists b, rl'. rewrite Hbs. split_and!; try done.
  intros c n. unfold ram_at. rewrite length_app. simpl. destruct c; lia.
Qed.
Next Obligation. intros rl sp Hwf Hlen. by apply ram_Iterator_oldest. Qed.
Next Obligation. intros rl sp Hwf Hne Hlen. by apply ram_Iterator_newest. Qed.
Next Obligation. intros rl n Hwf Hlen Hn. by apply ram_Iterator_specified. Qed.
Next Obligation.
  intros c rl n Hwf Hat Hlen. split; [destruct c, Hat; lia|]. by apply ram_Next_at.
Qed.

End ram.
End RamProofs.

(** ** The file ledger *)
Module FileProofs.
Import File.

Definition canonical_block (b : Block) : Prop :=
  blk_PreviousHash (blk_Header b) ≠ Some [] ∧ blk_DataHash (blk_Header b) ≠ Some [].

(** Blocks read back from JSON (an empty byte field reads back as nil), and
    hashes are not empty. *)
Class FileLaws (OE : OEnv) (J : JsonEnv) : Prop := {
  json_unmarshal_marshal b : canonical_block b → json_unmarshal (json_marshal b) = Some b;
  hash_nonempty d : ComputeCryptoHash d ≠ [] }.

Section file.
Context `{OE : OEnv} `{J : JsonEnv} `{FL : !FileLaws OE J}.

Record file_wf (fl : fileLedger) (bs : list Block) : Prop := {
  fwf_height : fl_height fl = Z.of_nat (length bs);
  fwf_read i b : bs !! i = Some b →
    blk_Number (blk_Header b) = Z.of_nat i
    ∧ ∃ raw, fl_directory fl !! Z.of_nat i = Some raw ∧ json_unmarshal raw = Some b;
  fwf_dom n : is_Some (fl_directory fl !! n) → 0 ≤ n < Z.of_nat (length bs);
  fwf_hash : fl_lastHash fl ≠ Some [] }.

Definition file_blocks (fl : fileLedger) : list Block :=
  omap (λ i, (readBlock i fl).1) (seqZ 0 (fl_height fl)).

Lemma readBlock_wf fl bs n : file_wf fl bs → 0 ≤ n →
  readBlock n fl = match bs !! Z.to_nat n with Some b => (Some b, true) | None => (None, false) end.
Proof.
  intros Hwf Hn. unfold readBlock. destruct (bs !! Z.to_nat n) as [b|] eqn:Hb.
  - destruct (fwf_read _ _ Hwf _ _ Hb) as (_ & raw & Hraw & Hj). rewrite Z2Nat.id in Hraw by done.
    by rewrite Hraw, Hj.
  - apply lookup_ge_None in Hb. destruct (fl_directory fl !! n) eqn:Hd; [|done].
    pose proof (fwf_dom _ _ Hwf n ltac:(by eexists)). lia.
Qed.

Lemma omap_lookup_seqZ (bs : list Block) :
  omap (λ i, bs !! Z.to_nat i) (seqZ 0 (Z.of_nat (length bs))) = bs.
Proof.
  induction bs as [|b bs IH] using rev_ind; [done|].
  rewrite length_app, Nat2Z.inj_add, seqZ_app by lia. rewrite omap_app. simpl. f_equal.
  - rewrite <-IH at 2. apply list_omap_ext, Forall_Forall2_diag, Forall_forall. intros x Hx%elem_of_seqZ.
    by rewrite lookup_app_l by lia.
  - replace (Z.to_nat _) with (length bs) by lia. by rewrite list_lookup_middle by done.
Qed.

Lemma file_blocks_wf fl bs : file_wf fl bs → file_blocks fl = bs.
Proof.
  intros Hwf. unfold file_blocks. rewrite (fwf_height _ _ Hwf). rewrite <-(omap_lookup_seqZ bs) at 2.
  apply list_omap_ext, Forall_Forall2_diag, Forall_forall. intros x Hx%elem_of_seqZ.
  rewrite (readBlock_wf _ _ _ Hwf) by lia. by destruct (bs !! Z.to_nat x).
Qed.

Lemma file_Append_wf fl bs msgs md :
  file_wf fl bs → Z.of_nat (length bs) < u64_max →
  ∃ b fl', file_Append msgs md fl = Ok (b, fl') ∧ file_wf fl' (bs ++ [b])
    ∧ blk_Data b = marshal_envelope <$> msgs.
Proof.
  intros Hwf Hlen. unfold file_Append. set (b := make_block _ _ _ _).
  eexists b, _. split; [done|]. split; [|done]. unfold u64_max in Hlen.
  assert (canonical_block b) as Hcan.
  { split; simpl; [apply (fwf_hash _ _ Hwf)|]. intros [= Hbad]. by eapply hash_nonempty. }
  split; simpl.
  - rewrite (fwf_height _ _ Hwf), length_app, u64_small by lia. simpl. lia.
  - intros i x Hx. apply lookup_app_Some in Hx as [Hx|[Hi Hx]].
    + apply lookup_lt_Some in Hx as Hlt. destruct (fwf_read _ _ Hwf _ _ Hx) as (? & raw & ? & ?).
      split; [done|]. exists raw. rewrite lookup_insert_ne by (rewrite (fwf_height _ _ Hwf); lia). done.
    + apply list_lookup_singleton_Some in Hx as [Hx <-]. simpl. rewrite (fwf_height _ _ Hwf).
      split; [lia|]. exists (json_marshal b). replace (Z.of_nat i) with (Z.of_nat (length bs)) by lia.
      rewrite lookup_insert_eq. split; [done|by apply json_unmarshal_marshal].
  - intros n. rewrite length_app. simpl. rewrite (fwf_height _ _ Hwf).
    destruct (decide (n = Z.of_nat (length bs))) as [->|]; [lia|].
    rewrite lookup_insert_ne by done. intros Hn%(fwf_dom _ _ Hwf). lia.
  - apply (fwf_hash _ _ Hwf).
Qed.

#[global] Program Instance file_laws : RawLedgerLaws fileLedger Z := {|
  ledger_wf fl := file_wf fl (file_blocks fl);
  blocks := file_blocks;
  first fl := 0;
  cursor_at c fl n := c = n ∧ 0 ≤ n ≤ Z.of_nat (length (file_blocks fl)) |}.
Next Obligation. intros fl Hwf. lia. Qed.
Next Obligation. intros fl Hwf _. apply (fwf_height _ _ Hwf). Qed.
Next Obligation. intros fl i b Hwf Hb. by apply (fwf_read _ _ Hwf). Qed.
Next Obligation.
  intros fl msgs md Hwf Hlen. destruct (file_Append_wf _ _ msgs md Hwf Hlen) as (b & fl' & HA & Hwf' & Hd).
  pose proof (file_blocks_wf _ _ Hwf') as Hbs. exists b, fl'. rewrite Hbs.
  split_and!; try done. intros c n [-> ?]. rewrite length_app. split; [done|lia].
Qed.
Next Obligation. intros fl sp Hwf Hlen. exists 0. split; [done|]. split; [done|lia]. Qed.
Next Obligation.
  intros fl sp Hwf Hne Hlen. simpl. rewrite (fwf_height _ _ Hwf). unfold u64_max in Hlen.
  assert (0 < length (file_blocks fl))%nat by (destruct (file_blocks fl); [done|simpl; lia]).
  rewrite u64_small by lia. eexists. split; [done|]. split; [done|lia].
Qed.
Next Obligation.
  intros fl n Hwf Hlen Hn. simpl. rewrite (fwf_height _ _ Hwf). case_bool_decide as Hin.
  - rewrite bool_decide_eq_false_2 by lia. eexists. split; [done|]. split; [done|lia].
  - by rewrite bool_decide_eq_true_2 by lia.
Qed.
Next Obligation.
  intros c fl n Hwf [-> Hn] Hlen. split; [done|]. simpl. unfold file_Next, file_Ready.
  pose proof (readBlock_wf _ _ n Hwf) as Hr. rewrite Hr by lia. unfold u64_max in Hlen.
  destruct (file_blocks fl !! Z.to_nat n) as [b|] eqn:Hb.
  - apply lookup_lt_Some in Hb as Hlt. destruct (fwf_read _ _ Hwf _ _ Hb) as (_ & raw & Hraw & _).
    rewrite Z2Nat.id in Hraw by lia. rewrite Hraw. split; [by apply bool_decide_eq_true|].
    rewrite u64_small by lia. eexists. split; [done|]. split; [done|lia].
  - split; [|done]. apply bool_decide_eq_false. intros Hd%(fwf_dom _ _ Hwf).
    apply lookup_ge_None in Hb. lia.
Qed.

(** ** Restart *)
Lemma seqZ_sorted m n : 0 ≤ n → StronglySorted Z.le (seqZ m n).
Proof.
  intros Hn. revert m. pattern n. apply natlike_ind; [constructor| |done].
  intros k Hk IH m. rewrite seqZ_cons, Z.pred_succ by lia. constructor; [apply IH|].
  apply Forall_forall. intros x Hx%elem_of_seqZ. lia.
Qed.

Lemma listing_wf fl bs : file_wf fl bs → listing (fl_directory fl) = seqZ 0 (Z.of_nat (length bs)).
Proof.
  intros Hwf. unfold listing. apply (StronglySorted_unique Z.le).
  - apply Sorted_StronglySorted; [apply _|]. apply Sorted_merge_sort. apply _.
  - apply seqZ_sorted. lia.
  - rewrite merge_sort_Permutation. apply NoDup_Permutation.
    + apply NoDup_fst_map_to_list.
    + apply NoDup_seqZ.
    + intros n. rewrite elem_of_seqZ. split.
      * intros ([k raw] & -> & Hk%elem_of_map_to_list)%list_elem_of_fmap. simpl.
        pose proof (fwf_dom _ _ Hwf k ltac:(by eexists)). lia.
      * intros Hn. destruct (lookup_lt_is_Some_2 bs (Z.to_nat n)) as [b Hb]; [lia|].
        destruct (fwf_read _ _ Hwf _ _ Hb) as (_ & raw & Hraw & _). rewrite Z2Nat.id in Hraw by lia.
        apply list_elem_of_fmap. exists (n, raw). split; [done|by apply elem_of_map_to_list].
Qed.

Lemma check_listing_seqZ m n : 0 ≤ n → 0 ≤ m → m + n < 2 ^ 64 → check_listing (seqZ m n) m = Ok (m + n).
Proof.
  intros Hn. revert m. pattern n. apply natlike_ind; [intros m ? ?; simpl; f_equal; lia| |done].
  intros k Hk IH m Hm Hb. rewrite seqZ_cons, Z.pred_succ by lia. simpl.
  rewrite bool_decide_eq_true_2 by done. simpl. rewrite u64_small by lia.
  rewrite IH by lia. f_equal. lia.
Qed.

Lemma file_newChain_wf fl bs :
  file_wf fl bs → Z.of_nat (length bs) < u64_max →
  ∃ fl', file_newChain (fl_directory fl) = Ok fl' ∧ file_wf fl' bs
    ∧ fl_lastHash fl' = (λ b, BlockHeader_Hash (blk_Header b)) <$> last bs.
Proof.
  intros Hwf Hlen. unfold file_newChain, initializeBlockHeight, u64_max in *.
  rewrite (listing_wf _ _ Hwf), check_listing_seqZ by lia. rewrite Z.add_0_l. simpl.
  case_bool_decide as Hz.
  - assert (bs = []) as -> by (by destruct bs). eexists. split; [done|]. split; [|done].
    destruct Hwf. by split.
  - rewrite u64_small by lia.
    assert (file_wf (mkFileLedger (fl_directory fl) (Z.of_nat (length bs)) None) bs) as Hwf'.
    { destruct Hwf. by split. }
    rewrite (readBlock_wf _ _ _ Hwf') by lia. rewrite last_lookup.
    replace (Z.to_nat (Z.of_nat (length bs) - 1)) with (pred (length bs)) by lia.
    destruct (lookup_lt_is_Some_2 bs (pred (length bs))) as [b Hb]; [lia|]. rewrite Hb.
    simpl. eexists. split; [reflexivity|]. split; [|done]. destruct Hwf. split; simpl; try done.
    intros [= Hbad]. by eapply hash_nonempty.
Qed.

End file.
End FileProofs.

(** ** Clients of a ledger *)
Section client.
Context `{OE : OEnv} {L C : Type} `{RL : RawLedger L C}.

Fixpoint append_all (batches : list (list Envelope)) (l : L) : res L :=
  match batches with
  | [] => Ok l
  | b :: rest => r ← Append b None l; append_all rest r.2
  end.

(** The blocks an iterator yields in [k] calls, until it would block. *)
Fixpoint read (k : nat) (it : iterator C) (l : L) : res (list Block) :=
  match k with
  | O => Ok []
  | S k =>
      r ← iterator_Next it l;
      match r with
      | Some ((Some b, _), it) => bs ← read k it l; Ok (b :: bs)
      | _ => Ok []
      end
  end.

Context `{LL : !RawLedgerLaws L C}.

Lemma append_all_blocks batches l :
  ledger_wf l → Z.of_nat (length (blocks l) + length batches) < u64_max →
  ∃ l' bs, append_all batches l = Ok l' ∧ ledger_wf l' ∧ blocks l' = blocks l ++ bs
    ∧ blk_Data <$> bs = fmap marshal_envelope <$> batches.
Proof.
  revert l. induction batches as [|b batches IH]; intros l Hwf Hlen; simpl in *.
  { exists l, []. by rewrite app_nil_r. }
  destruct (Append_blocks l b None Hwf) as (blk & l1 & -> & Hwf1 & Hb1 & Hd & _); [lia|]. simpl.
  destruct (IH l1 Hwf1) as (l' & bs & HA & Hwf' & Hb & Hdata).
  { rewrite Hb1, length_app. simpl. lia. }
  exists l', (blk :: bs). split_and!; [done|done|by rewrite Hb, Hb1, <-app_assoc|].
  csimpl. by rewrite Hd, Hdata.
Qed.

Lemma read_at k c l n :
  ledger_wf l → Z.of_nat (length (blocks l)) < u64_max → cursor_at c l n →
  read k (Cursor c) l = Ok (take k (drop (Z.to_nat n) (blocks l))).
Proof.
  intros Hwf Hlen. revert c n. induction k as [|k IH]; intros c n Hat; [done|]. simpl.
  destruct (Next_spec c l n Hwf Hat Hlen) as [Hn Hnext].
  destruct (blocks l !! Z.to_nat n) as [b|] eqn:Hb.
  - destruct Hnext as (_ & c' & -> & Hat'). simpl. rewrite (IH c' (n + 1) Hat'). simpl.
    rewrite (drop_S _ b (Z.to_nat n)) by done. simpl. do 3 f_equal. f_equal. lia.
  - destruct Hnext as (_ & ->). simpl. apply lookup_ge_None in Hb. by rewrite drop_ge by lia.
Qed.

End client.

Section claims.
Context `{OE : OEnv}.

(** Reading from any ledger that keeps the contract: after any batches are
    appended, an iterator sought at block [n] (not below the oldest block kept)
    yields exactly the blocks from [n] on, in order, and then waits; the blocks
    added carry the batches' messages. *)
Theorem ledger_read_back {L C : Type} `{RL : RawLedger L C} `{LL : !RawLedgerLaws L C}
    (l : L) (batches : list (list Envelope)) (n : Z) (k : nat) :
  ledger_wf l → Z.of_nat (length (blocks l) + length batches) < u64_max →
  ∃ l' bs, append_all batches l = Ok l' ∧ blocks l' = blocks l ++ bs
    ∧ blk_Data <$> bs = fmap marshal_envelope <$> batches
    ∧ Height l' = Z.of_nat (length (blocks l'))
    ∧ (first l' ≤ n ≤ Height l' →
         ∃ it, Iterator SPECIFIED n l' = Ok (it, n)
           ∧ read k it l' = Ok (take k (drop (Z.to_nat n) (blocks l')))).
Proof.
  intros Hwf Hlen. destruct (append_all_blocks batches l Hwf Hlen) as (l' & bs & HA & Hwf' & Hb & Hd).
  assert (length bs = length batches) as Hbs by (apply (f_equal length) in Hd; by rewrite !length_fmap in Hd).
  assert (Z.of_nat (length (blocks l')) < u64_max) as Hlen' by (rewrite Hb, length_app; lia).
  exists l', bs. pose proof (Height_blocks l' Hwf') as HH. rewrite HH by (unfold u64_max in *; lia).
  split_and!; try done. intros Hn. pose proof (first_range l' Hwf').
  pose proof (Iterator_specified l' n Hwf' Hlen') as Hit. rewrite bool_decide_eq_true_2 in Hit by done.
  destruct Hit as (c & HI & Hat); [unfold u64_max in *; lia|]. exists (Cursor c).
  split; [done|]. by apply read_at.
Qed.

(** C35. The RAM ledger is a hash chain: from a genesis block numbered 0, after
    any appends the blocks are numbered consecutively and each header carries
    the hash of the header before it. *)
Theorem ram_ledger_hash_chain (maxSize : Z) (genesis : Block) (batches : list (list Envelope)) :
  blk_Number (blk_Header genesis) = 0 → 1 + Z.of_nat (length batches) < u64_max →
  ∃ rl, (rl0 ← Ram.ram_New maxSize genesis; append_all batches rl0) = Ok rl
    ∧ RamProofs.hash_chain (blocks rl)
    ∧ (∀ i b, blocks rl !! i = Some b → blk_Number (blk_Header b) = Z.of_nat i)
    ∧ length (blocks rl) = S (length batches).
Proof.
  intros Hg Hlen. unfold Ram.ram_New.
  destruct (RamProofs.appendBlock_wf _ _ (RamProofs.newChain_wf maxSize) genesis)
    as (rl0 & -> & Hwf0); [done|]. simpl in *.
  assert (∃ rl bs, append_all batches rl0 = Ok rl ∧ RamProofs.ram_wf rl bs
    ∧ RamProofs.hash_chain bs ∧ length bs = (length [genesis] + length batches)%nat)
    as (rl & bs & HA & Hwf & Hc & Hl).
  { assert (RamProofs.hash_chain [genesis]) as Hc0 by (intros [|i] b b' ?; done).
    assert (Z.of_nat (length [genesis]) + Z.of_nat (length batches) < u64_max) as Hlen' by done.
    clear Hlen Hg. revert rl0 Hwf0 Hc0 Hlen'. generalize [genesis] as bs.
    induction batches as [|m batches IH]; intros bs rl0 Hwf0 Hc0 Hlen; simpl in *.
    { exists rl0, bs. split_and!; try done; lia. }
    destruct (RamProofs.ram_Append_wf _ _ Hwf0 ltac:(lia) m None)
      as (b & rl1 & -> & Hwf1 & _ & prev & Hprev & Hh). simpl.
    destruct (IH (bs ++ [b]) rl1 Hwf1) as (rl & bs' & ? & ? & ? & Hl).
    - apply RamProofs.hash_chain_snoc; [done|]. intros p Hp. rewrite last_lookup in Hp.
      destruct bs as [|b0 bs0]; [done|]. simpl in Hprev, Hp. congruence.
    - rewrite length_app. simpl. lia.
    - exists rl, bs'. split_and!; try done. rewrite Hl, length_app. simpl. lia. }
  pose proof (RamProofs.ram_blocks_wf _ _ Hwf) as Hbs. exists rl. simpl. rewrite Hbs.
  split_and!; [done|done|by apply (RamProofs.wf_numbers _ _ Hwf)|done].
Qed.

(** A file ledger survives a restart: opening the directory again after any
    appends gives the same blocks and height, and the last hash is the hash of
    the last block. *)
Theorem file_ledger_restart `{J : File.JsonEnv} `{FL : !FileProofs.FileLaws OE J}
    (fl : File.fileLedger) (batches : list (list Envelope)) :
  ledger_wf fl → Z.of_nat (length (blocks fl) + length batches) < u64_max →
  ∃ fl' fl'', append_all batches fl = Ok fl'
    ∧ File.file_newChain (File.fl_directory fl') = Ok fl''
    ∧ blocks fl'' = blocks fl' ∧ Height fl'' = Height fl'
    ∧ File.fl_lastHash fl'' = (λ b, BlockHeader_Hash (blk_Header b)) <$> last (blocks fl').
Proof.
  intros Hwf Hlen. destruct (append_all_blocks batches fl Hwf Hlen) as (fl' & bs & HA & Hwf' & Hb & Hd).
  assert (length bs = length batches) as Hbs by (apply (f_equal length) in Hd; by rewrite !length_fmap in Hd).
  assert (Z.of_nat (length (blocks fl')) < u64_max) as Hlen' by (rewrite Hb, length_app; lia).
  destruct (FileProofs.file_newChain_wf fl' _ Hwf' Hlen') as (fl'' & HN & Hwf'' & Hh).
  pose proof (FileProofs.file_blocks_wf _ _ Hwf'') as Hbs''. exists fl', fl''.
  split_and!; [done|done|done| |done]. simpl. unfold File.file_Height.
  rewrite (FileProofs.fwf_height _ _ Hwf''), (FileProofs.fwf_height _ _ Hwf'). done.
Qed.

(** The file ledger does not chain: blocks appended between two restarts all
    carry the same previous hash. *)
Theorem file_ledger_does_not_chain `{J : File.JsonEnv} (fl fl1 fl2 : File.fileLedger) m1 m2 b1 b2 :
  File.file_Append m1 None fl = Ok (b1, fl1) → File.file_Append m2 None fl1 = Ok (b2, fl2) →
  blk_PreviousHash (blk_Header b2) = blk_PreviousHash (blk_Header b1).
Proof. intros [= <- <-] [= <- <-]. done. Qed.

End claims.
