(* ===== verification/BlockCutter.v ===== *)
(** * Filters, the block cutter, the broadcast handler and the solo consenter

    [orderer/common/broadcastfilter] with its configuration filter,
    [orderer/common/blockcutter], [orderer/common/broadcast] and
    [orderer/solo].  The configuration manager and the ledger are used through
    their interfaces. *)

From stdpp Require Import base numbers strings gmap list.
From S2P Require Import Prelude OrdererTypes RawLedger.
Local Open Scope Z_scope.

(** The configuration manager as these components see it ([configtx.Manager]);
    [true] is a nil error. *)
Class ConfigManager (CM : Type) := {
  mgr_Validate : ConfigurationEnvelope → CM → res (bool * CM) }.

Section cutter.
Context `{OE : OEnv} {CM : Type} `{MM : ConfigManager CM}.

(** ** filter.go *)
Inductive Action := Accept | Reconfigure | Reject | Forward.

(** A rule may consult the configuration manager. *)
Definition Rule : Type := Envelope → M CM Action.

Definition emptyRejectRule : Rule := λ message,
  mret (match env_Payload message with None => Reject | Some _ => Forward end).
Definition acceptRule : Rule := λ message, mret Accept.

(** The first verdict that is not [Forward], with its rule. *)
Fixpoint RuleSet_Apply (rules : list Rule) (message : Envelope) : M CM (Action * option Rule) :=
  match rules with
  | [] => mret (Forward, None)
  | rule :: rest =>
      action ← rule message;
      match action with
      | Forward => RuleSet_Apply rest message
      | _ => mret (action, Some rule)
      end
  end.

(** ** configfilter.go *)
Definition is_config_payload (msgData : Payload) : bool :=
  match pl_Header msgData with
  | Some h => match hdr_Chain h with
              | Some ch => bool_decide (ch_Type ch = HeaderType_CONFIGURATION_TRANSACTION)
              | None => false
              end
  | None => false
  end.

Definition configFilter_Apply : Rule := λ message,
  match unmarshal_payload (sl (env_Payload message)) with
  | None => mret Forward
  | Some msgData =>
      if negb (is_config_payload msgData) then mret Forward else
      match unmarshal_config_envelope (sl (pl_Data msgData)) with
      | None => mret Reject
      | Some config =>
          ok ← mgr_Validate config;
          mret (if (ok : bool) then Reconfigure else Reject)
      end
  end.

(** ** blockcutter.go

    The current batch is nil or not empty; both are the list. *)
Record receiver := mkReceiver {
  rc_batchSize : Z; rc_filters : list Rule; rc_curBatch : list Envelope }.

Definition set_curBatch (b : list Envelope) (r : receiver) : receiver :=
  mkReceiver (rc_batchSize r) (rc_filters r) b.

Definition NewReceiverImpl (batchSize : Z) (filters : list Rule) : receiver :=
  mkReceiver batchSize filters [].

Definition Ordered (msg : Envelope) (r : receiver) : M CM ((list (list Envelope) * bool) * receiver) :=
  a ← RuleSet_Apply (rc_filters r) msg;
  match a.1 with
  | Accept =>
      let cur := rc_curBatch r ++ [msg] in
      if bool_decide (Z.of_nat (length cur) < rc_batchSize r)
      then mret (([], true), set_curBatch cur r)
      else mret (([cur], true), set_curBatch [] r)
  | Reconfigure =>
      match unmarshal_payload (sl (env_Payload msg)) with
      | None => mret (([], false), r)
      | Some payload =>
          match unmarshal_config_envelope (sl (pl_Data payload)) with
          | None => mret (([], false), r)
          | Some newConfig =>
              ok ← mgr_Validate newConfig;
              if negb (ok : bool) then mret (([], false), r) else
              let firstBatch := rc_curBatch r in
              mret ((if bool_decide (firstBatch = []) then [[msg]] else [firstBatch; [msg]], true),
                    set_curBatch [] r)
          end
      end
  | Reject | Forward => mret (([], false), r)
  end.

Definition Cut (r : receiver) : list Envelope * receiver := (rc_curBatch r, set_curBatch [] r).

(** ** solo/consensus.go: the main loop

    [so_timer] is whether the batch timer is set. *)
Context {L C : Type} `{RL : RawLedger L C}.

Record solo := mkSolo { so_cutter : receiver; so_timer : bool; so_rl : L; so_cm : CM }.

Inductive solo_event := SoloMsg (msg : Envelope) | SoloTimer.

Fixpoint append_batches (batches : list (list Envelope)) (l : L) : res L :=
  match batches with
  | [] => Ok l
  | b :: rest => r ← Append b None l; append_batches rest r.2
  end.

(** One iteration of the loop; the timer case is selected only when it is set. *)
Definition solo_step (e : solo_event) (s : solo) : res solo :=
  match e with
  | SoloMsg msg =>
      r ← Ordered msg (so_cutter s) (so_cm s);
      let '(batches, ok, cutter, cm) := r in
      if (ok : bool) && bool_decide (batches = []) && negb (so_timer s)
      then Ok (mkSolo cutter true (so_rl s) cm)
      else
        l ← append_batches batches (so_rl s);
        Ok (mkSolo cutter (if bool_decide (batches = []) then so_timer s else false) l cm)
  | SoloTimer =>
      if negb (so_timer s) then Ok s else
      let '(batch, cutter) := Cut (so_cutter s) in
      if bool_decide (batch = []) then Ok (mkSolo cutter false (so_rl s) (so_cm s)) else
      r ← Append batch None (so_rl s);
      Ok (mkSolo cutter false r.2 (so_cm s))
  end.

Fixpoint solo_run (es : list solo_event) (s : solo) : res solo :=
  match es with [] => Ok s | e :: es => s ← solo_step e s; solo_run es s end.

(** ** broadcast.go: one connection

    The queue is a buffered channel of [queueSize] messages; [queueEnvelopes]
    never blocks on it, [drainQueue] hands its messages to the consenter. *)
Record broadcaster := mkBroadcaster {
  br_queueSize : Z; br_queue : list Envelope; br_filters : list Rule;
  br_replies : list Status; br_enqueued : list Envelope }.

Inductive broadcast_event := BRecv (msg : Envelope) | BDrain.

Definition broadcast_step (e : broadcast_event) (b : broadcaster) : M CM broadcaster :=
  match e with
  | BRecv msg =>
      a ← RuleSet_Apply (br_filters b) msg;
      match a.1 with
      | Reconfigure | Accept =>
          if bool_decide (Z.of_nat (length (br_queue b)) < br_queueSize b)
          then mret (mkBroadcaster (br_queueSize b) (br_queue b ++ [msg]) (br_filters b)
                       (br_replies b ++ [SUCCESS]) (br_enqueued b))
          else mret (mkBroadcaster (br_queueSize b) (br_queue b) (br_filters b)
                       (br_replies b ++ [SERVICE_UNAVAILABLE]) (br_enqueued b))
      | Forward | Reject =>
          mret (mkBroadcaster (br_queueSize b) (br_queue b) (br_filters b)
                  (br_replies b ++ [BAD_REQUEST]) (br_enqueued b))
      end
  | BDrain =>
      mret (match br_queue b with
            | [] => b
            | msg :: q => mkBroadcaster (br_queueSize b) q (br_filters b)
                            (br_replies b) (br_enqueued b ++ [msg])
            end)
  end.

Fixpoint broadcast_run (es : list broadcast_event) (b : broadcaster) : M CM broadcaster :=
  match es with [] => mret b | e :: es => b ← broadcast_step e b; broadcast_run es b end.

(** orderer/main.go *)
Definition createBroadcastRuleset : list Rule := [emptyRejectRule; acceptRule].

End cutter.
