(* ===== verification/BlockCutterProofs.v ===== *)
(** * Ordering: no message is lost, duplicated or reordered

    The block cutter partitions the accepted messages into bounded batches; the
    solo consenter writes them to any lawful ledger in order and keeps its
    timer set exactly while messages wait; the broadcast handler answers every
    message and passes on exactly those it answered with [SUCCESS]. *)

From stdpp Require Import base numbers strings gmap list.
From S2P Require Import Prelude OrdererTypes RawLedger RawLedgerProofs BlockCutter.
Local Open Scope Z_scope.

Section proofs.
Context `{OE : OEnv} {CM : Type} `{MM : ConfigManager CM}.

(** ** The cutter *)

(** The largest batch: a batch size below one means one. *)
Definition max_batch (r : receiver) : Z := Z.max 1 (rc_batchSize (CM:=CM) r).

Definition cutter_inv (r : receiver (CM:=CM)) : Prop :=
  rc_curBatch r = [] ∨ Z.of_nat (length (rc_curBatch r)) < rc_batchSize r.

Record ordered_ok (msg : Envelope) (r r' : receiver (CM:=CM)) (batches : list (list Envelope))
    (ok : bool) : Prop := {
  oo_size : rc_batchSize r' = rc_batchSize r;
  oo_filters : rc_filters r' = rc_filters r;
  oo_conserved : concat batches ++ rc_curBatch r' = rc_curBatch r ++ (if ok then [msg] else []);
  oo_reject : ok = false → batches = [] ∧ r' = r;
  oo_wait : ok = true → batches = [] → rc_curBatch r' ≠ [];
  oo_cut : batches ≠ [] → rc_curBatch r' = [];
  oo_batches b : cutter_inv r → b ∈ batches → 1 ≤ Z.of_nat (length b) ≤ max_batch r;
  oo_inv : cutter_inv r → cutter_inv r' }.

Lemma ordered_reject msg r : ordered_ok msg r r [] false.
Proof. split; try done; [by rewrite app_nil_r|set_solver]. Qed.

Lemma Ordered_spec msg r cm batches ok r' cm' :
  Ordered msg r cm = Ok ((batches, ok), r', cm') → ordered_ok msg r r' batches ok.
Proof.
  unfold Ordered, mbind, M_bind, mret, M_ret.
  destruct (RuleSet_Apply (rc_filters r) msg cm) as [[[a rule] cm1]| |]; [|done|done]. simpl.
  destruct a; [| |intros [= <- <- <- <-]; apply ordered_reject|intros [= <- <- <- <-]; apply ordered_reject].
  - case_bool_decide as Hlt; intros [= <- <- <- <-]; split; simpl; try done.
    + intros _ _. by destruct (rc_curBatch r).
    + set_solver.
    + intros _. by right.
    + by rewrite app_nil_r, app_nil_r.
    + intros b Hinv ->%list_elem_of_singleton. unfold max_batch. rewrite length_app in *. simpl in *.
      destruct Hinv as [Hc|Hc]; [rewrite Hc; simpl; lia|lia].
    + by left.
  - destruct (unmarshal_payload _) as [pl|]; [|intros [= <- <- <- <-]; apply ordered_reject].
    destruct (unmarshal_config_envelope _) as [cfg|]; [|intros [= <- <- <- <-]; apply ordered_reject].
    destruct (mgr_Validate cfg cm1) as [[ok1 cm2]| |]; [|done|done].
    destruct ok1; simpl; [|intros [= <- <- <- <-]; apply ordered_reject].
    intros [= <- <- <- <-]. case_bool_decide as Hc; split; simpl; try done.
    + by rewrite Hc.
    + intros b _ ->%list_elem_of_singleton. simpl. unfold max_batch. lia.
    + by left.
    + by rewrite app_nil_r.
    + intros b Hinv [->| ->%list_elem_of_singleton]%elem_of_cons; unfold max_batch; [|simpl; lia].
      destruct Hinv as [|Hlt]; [done|]. destruct (rc_curBatch r); simpl in *; [done|lia].
    + by left.
Qed.

(** ** The solo consenter *)
Context {L C : Type} `{RL : RawLedger L C} `{LL : !RawLedgerLaws L C}.

(** The messages the cutter accepts along a run. *)
Fixpoint accepted (es : list solo_event) (s : solo (CM:=CM) (L:=L)) : list Envelope :=
  match es with
  | [] => []
  | e :: es =>
      match e, Ordered (match e with SoloMsg m => m | SoloTimer => mkEnvelope None None end)
                 (so_cutter s) (so_cm s) with
      | SoloMsg m, Ok ((_, true), _, _) => [m]
      | _, _ => []
      end ++ match solo_step e s with Ok s' => accepted es s' | _ => [] end
  end.

Record solo_inv (s : solo (CM:=CM) (L:=L)) : Prop := {
  si_wf : ledger_wf (so_rl s);
  si_cutter : cutter_inv (so_cutter s);
  si_timer : so_timer s = true ↔ rc_curBatch (so_cutter s) ≠ [] }.

(** What a run adds to the ledger. *)
Record solo_adds (s s' : solo (CM:=CM) (L:=L)) (acc : list Envelope) (bs : list Block) : Prop := {
  sa_blocks : blocks (so_rl s') = blocks (so_rl s) ++ bs;
  sa_data : concat (blk_Data <$> bs) ++ (marshal_envelope <$> rc_curBatch (so_cutter s'))
    = marshal_envelope <$> (rc_curBatch (so_cutter s) ++ acc);
  sa_sizes b : b ∈ bs → 1 ≤ Z.of_nat (length (blk_Data b)) ≤ max_batch (so_cutter s);
  sa_size : rc_batchSize (so_cutter s') = rc_batchSize (so_cutter s) }.

Lemma append_batches_all batches (l : L) : append_batches batches l = append_all batches l.
Proof.
  revert l. induction batches as [|b batches IH]; intros l; simpl; [done|].
  destruct (Append b None l) as [[blk l1]| |]; [|done|done]. simpl. apply IH.
Qed.

Lemma Ordered_batches msg r cm batches ok r' cm' :
  Ordered msg r cm = Ok ((batches, ok), r', cm') → (length batches ≤ 2)%nat.
Proof.
  unfold Ordered, mbind, M_bind, mret, M_ret.
  destruct (RuleSet_Apply (rc_filters r) msg cm) as [[[a rule] cm1]| |]; [|done|done]. simpl.
  repeat case_match; try done; intros; simplify_eq; simpl; try lia; case_bool_decide; simpl; lia.
Qed.

Lemma solo_step_msg msg s s' :
  solo_inv s → Z.of_nat (length (blocks (so_rl s))) + 2 < u64_max →
  solo_step (SoloMsg msg) s = Ok s' →
  ∃ bs, solo_inv s' ∧ solo_adds s s' (accepted [SoloMsg msg] s) bs ∧ (length bs ≤ 2)%nat.
Proof.
  intros [Hwf Hcut Htim] Hlen. simpl.
  destruct (Ordered msg (so_cutter s) (so_cm s)) as [[[[batches ok] r'] cm']| |] eqn:Hord; [|done|done].
  pose proof (Ordered_batches _ _ _ _ _ _ _ Hord) as H2.
  pose proof (Ordered_spec _ _ _ _ _ _ _ Hord) as [O1 O2 O3 O4 O5 O6 O7 O8]. simpl.
  destruct (ok && bool_decide (batches = []) && negb (so_timer s)) eqn:Hset.
  - intros [= <-]. apply andb_true_iff in Hset as [[Hok Hb]%andb_true_iff Ht].
    destruct ok; [|done]. apply bool_decide_eq_true in Hb as ->. simpl in O3.
    exists []. split_and!; [split; simpl; auto|split; simpl; try done|simpl; lia].
    + split; [intros _; by apply O5|done].
    + by rewrite app_nil_r.
    + by rewrite O3.
    + set_solver.
  - rewrite append_batches_all. intros (l' & HA & [= <-])%res_bind_Ok.
    destruct (append_all_blocks batches (so_rl s) Hwf) as (l'' & bs & HA' & Hwf' & Hb & Hd); [lia|].
    rewrite HA in HA'. injection HA' as <-. exists bs.
    assert (length bs = length batches) as Hbs by (apply (f_equal length) in Hd; by rewrite !length_fmap in Hd).
    split_and!; [split; simpl; auto|split; simpl; try done|lia].
    + case_bool_decide as Hnil.
      * subst batches. simpl in O3. destruct ok; simpl in Hset.
        -- destruct (so_timer s); [|done]. split; [intros _; by apply O5|done].
        -- rewrite app_nil_r in O3. by rewrite O3.
      * rewrite O6 by done. done.
    + rewrite HA, Hd. simpl. rewrite app_nil_r, <-fmap_concat, <-fmap_app, O3. done.
    + intros b Hb'. assert (blk_Data b ∈ blk_Data <$> bs) as Hin by (by apply list_elem_of_fmap_2).
      rewrite Hd in Hin. apply list_elem_of_fmap in Hin as (m & -> & Hm). rewrite length_fmap. by apply O7.
Qed.

Lemma solo_step_timer s s' :
  solo_inv s → Z.of_nat (length (blocks (so_rl s))) + 2 < u64_max →
  solo_step SoloTimer s = Ok s' →
  ∃ bs, solo_inv s' ∧ solo_adds s s' [] bs ∧ (length bs ≤ 2)%nat.
Proof.
  intros [Hwf Hcut Htim] Hlen. simpl. destruct (so_timer s) eqn:Ht; simpl.
  2: { intros [= <-]. exists []. split_and!; [by split; rewrite ?Ht|split; simpl; try done|simpl; lia].
       - by rewrite app_nil_r.
       - by rewrite app_nil_r.
       - set_solver. }
  rewrite bool_decide_eq_false_2 by (by apply Htim). intros ([b l'] & HA & [= <-])%res_bind_Ok.
  destruct (Append_blocks (so_rl s) (rc_curBatch (so_cutter s)) None Hwf)
    as (b' & l'' & HA' & Hwf' & Hb & Hd & _); [lia|].
  rewrite HA in HA'. injection HA' as <- <-. exists [b]. simpl.
  assert (rc_curBatch (so_cutter s) ≠ []) as Hne by (by apply Htim).
  split_and!; [split; simpl; [done|by left|done]|split; simpl; try done|lia].
  - rewrite Hd. by rewrite !app_nil_r.
  - intros x ->%list_elem_of_singleton. rewrite Hd, length_fmap. unfold max_batch.
    destruct Hcut as [|Hcut]; [done|]. destruct (rc_curBatch (so_cutter s)); simpl in *; [done|lia].
Qed.

Lemma solo_adds_trans s1 s2 s3 acc1 acc2 bs1 bs2 :
  solo_adds s1 s2 acc1 bs1 → solo_adds s2 s3 acc2 bs2 → solo_adds s1 s3 (acc1 ++ acc2) (bs1 ++ bs2).
Proof.
  intros [A1 A2 A3 A4] [B1 B2 B3 B4]. split.
  - by rewrite B1, A1, app_assoc.
  - rewrite fmap_app, concat_app, <-app_assoc, B2, fmap_app, app_assoc, A2, <-fmap_app. by rewrite app_assoc.
  - intros b [?|Hb]%elem_of_app; [by apply A3|]. specialize (B3 b Hb). unfold max_batch in *. by rewrite <-A4.
  - congruence.
Qed.

Lemma solo_run_adds es s s' :
  solo_inv s → Z.of_nat (length (blocks (so_rl s)) + 2 * length es) < u64_max →
  solo_run es s = Ok s' → ∃ bs, solo_inv s' ∧ solo_adds s s' (accepted es s) bs.
Proof.
  revert s. induction es as [|e es IH]; intros s Hinv Hlen Hrun; simpl in Hrun.
  { injection Hrun as <-. exists []. split; [done|]. split; simpl; try done;
      [by rewrite app_nil_r|by rewrite app_nil_r|set_solver]. }
  apply res_bind_Ok in Hrun as (s1 & Hstep & Hrun).
  assert (∃ bs, solo_inv s1 ∧ solo_adds s s1 (accepted [e] s) bs ∧ (length bs ≤ 2)%nat)
    as (bs1 & Hinv1 & Hadd1 & Hl1).
  { destruct e as [m|]; [apply solo_step_msg; [done|simpl in Hlen; lia|done]|].
    destruct (solo_step_timer s s1 Hinv) as (bs & ? & Hadd & ?); [simpl in Hlen; lia|done|].
    exists bs. split_and!; [done| |done]. cbn [accepted]. by rewrite Hstep. }
  destruct (IH s1 Hinv1) as (bs2 & Hinv2 & Hadd2).
  { rewrite (sa_blocks _ _ _ _ Hadd1), length_app. simpl in Hlen. lia. }
  { done. }
  exists (bs1 ++ bs2). split; [done|].
  assert (accepted (e :: es) s = accepted [e] s ++ accepted es s1) as ->.
  { cbn [accepted]. rewrite Hstep. by rewrite app_nil_r. }
  by eapply solo_adds_trans.
Qed.

(** ** The broadcast handler *)
Definition received (es : list broadcast_event) : list Envelope :=
  omap (λ e, match e with BRecv m => Some m | BDrain => None end) es.

(** The messages answered with [SUCCESS]. *)
Definition succeeded (msgs : list Envelope) (replies : list Status) : list Envelope :=
  (filter (λ p, p.2 = SUCCESS) (zip msgs replies)).*1.

Record broadcast_inv (b : broadcaster (CM:=CM)) (msgs : list Envelope) : Prop := {
  bi_replies : length (br_replies b) = length msgs;
  bi_passed : br_enqueued b ++ br_queue b = succeeded msgs (br_replies b);
  bi_queue : Z.of_nat (length (br_queue b)) ≤ Z.max 0 (br_queueSize b) }.

Lemma succeeded_snoc msgs replies m st :
  length replies = length msgs →
  succeeded (msgs ++ [m]) (replies ++ [st])
  = succeeded msgs replies ++ (if bool_decide (st = SUCCESS) then [m] else []).
Proof.
  intros Hlen. unfold succeeded. rewrite zip_with_app by done. rewrite filter_app, fmap_app. f_equal.
  simpl. rewrite filter_cons. simpl. case_bool_decide; case_decide; done.
Qed.

Lemma broadcast_step_inv e b msgs cm b' cm' :
  broadcast_inv b msgs → broadcast_step e b cm = Ok (b', cm') →
  broadcast_inv b' (msgs ++ received [e]) ∧ br_queueSize b' = br_queueSize b.
Proof.
  intros [H1 H2 H3]. destruct e as [m|]; simpl.
  - unfold mbind, M_bind, mret, M_ret.
    destruct (RuleSet_Apply (br_filters b) m cm) as [[[a rule] cm1]| |]; [|done|done]. simpl.
    assert (∀ st, st ≠ SUCCESS → broadcast_inv (mkBroadcaster (br_queueSize b) (br_queue b) (br_filters b)
      (br_replies b ++ [st]) (br_enqueued b)) (msgs ++ [m])) as Hno.
    { intros st Hst. split; simpl; [rewrite !length_app; simpl; lia| |done].
      rewrite succeeded_snoc by done. rewrite bool_decide_eq_false_2 by done. by rewrite app_nil_r. }
    assert (Z.of_nat (length (br_queue b)) < br_queueSize b →
      broadcast_inv (mkBroadcaster (br_queueSize b) (br_queue b ++ [m]) (br_filters b)
      (br_replies b ++ [SUCCESS]) (br_enqueued b)) (msgs ++ [m])) as Hyes.
    { intros Hlt. split; simpl; [rewrite !length_app; simpl; lia| |rewrite length_app; simpl; lia].
      rewrite succeeded_snoc by done. rewrite bool_decide_eq_true_2 by done. by rewrite app_assoc, H2. }
    destruct a; try case_bool_decide; intros [= <- <-]; (split; [auto|done]).
  - intros [= <- <-]. rewrite app_nil_r. destruct (br_queue b) as [|m q] eqn:Hq; [by split; [split; rewrite ?Hq|]|].
    split; [|done]. split; simpl in *; [done| |lia]. by rewrite <-app_assoc.
Qed.

Lemma broadcast_run_inv es b msgs cm b' cm' :
  broadcast_inv b msgs → broadcast_run es b cm = Ok (b', cm') →
  broadcast_inv b' (msgs ++ received es).
Proof.
  revert b msgs cm. induction es as [|e es IH]; intros b msgs cm Hinv; simpl.
  { intros [= <- <-]. by rewrite app_nil_r. }
  unfold mbind, M_bind. destruct (broadcast_step e b cm) as [[b1 cm1]| |] eqn:Hs; [|done|done].
  intros Hr. destruct (broadcast_step_inv _ _ _ _ _ _ Hinv Hs) as [Hinv1 _].
  specialize (IH _ _ _ Hinv1 Hr). unfold received in *. simpl in IH. simpl.
  by rewrite <-app_assoc in IH; destruct e.
Qed.

End proofs.

Section claims.
Context `{OE : OEnv} {CM : Type} `{MM : ConfigManager CM}.

(** One message through the block cutter: accepted messages are neither
    lost, duplicated nor reordered (the batches cut followed by the pending
    batch are the old pending batch followed by the message), a rejected
    message changes nothing, and every batch cut has between one and
    [batchSize] messages. *)
Theorem Ordered_conserves (msg : Envelope) (r r' : receiver) (cm cm' : CM)
    (batches : list (list Envelope)) (ok : bool) :
  cutter_inv r → Ordered msg r cm = Ok ((batches, ok), r', cm') →
  concat batches ++ rc_curBatch r' = rc_curBatch r ++ (if ok then [msg] else [])
  ∧ (ok = false → batches = [] ∧ r' = r)
  ∧ (∀ b, b ∈ batches → 1 ≤ Z.of_nat (length b) ≤ max_batch r)
  ∧ cutter_inv r'.
Proof.
  intros Hinv Ho. destruct (Ordered_spec _ _ _ _ _ _ _ Ho) as [_ _ O3 O4 _ _ O7 O8].
  split_and!; [done|done|intros; by apply O7|by apply O8].
Qed.

(** C17. The solo consenter is a total order: on any lawful ledger, after any
    interleaving of messages and timer events, the blocks written followed by
    the pending batch are exactly the accepted messages in their order; every
    block has between one and [batchSize] messages; and the timer is set
    exactly while messages are pending, so none waits without a timer. *)
Theorem solo_total_order {L C : Type} `{RL : RawLedger L C} `{LL : !RawLedgerLaws L C}
    (es : list solo_event) (batchSize : Z) (filters : list Rule) (l : L) (cm : CM) (s : solo) :
  ledger_wf l → Z.of_nat (length (blocks l) + 2 * length es) < u64_max →
  solo_run es (mkSolo (NewReceiverImpl batchSize filters) false l cm) = Ok s →
  ∃ bs, blocks (so_rl s) = blocks l ++ bs
    ∧ concat (blk_Data <$> bs) ++ (marshal_envelope <$> rc_curBatch (so_cutter s))
      = marshal_envelope <$> accepted es (mkSolo (NewReceiverImpl batchSize filters) false l cm)
    ∧ (∀ b, b ∈ bs → 1 ≤ Z.of_nat (length (blk_Data b)) ≤ Z.max 1 batchSize)
    ∧ (so_timer s = true ↔ rc_curBatch (so_cutter s) ≠ []).
Proof.
  intros Hwf Hlen Hrun.
  destruct (solo_run_adds es (mkSolo (NewReceiverImpl batchSize filters) false l cm) s)
    as (bs & [_ _ Ht] & [B1 B2 B3 _]); [|done|done|].
  { split; simpl; [done|by left|done]. }
  by exists bs.
Qed.

(** One broadcast connection: every message received gets exactly one
    reply, in order; the messages handed to the consenter followed by those
    still queued are exactly the ones answered with [SUCCESS]; the queue never
    exceeds its size. *)
Theorem broadcast_replies (es : list broadcast_event) (queueSize : Z) (filters : list Rule)
    (cm cm' : CM) (b : broadcaster) :
  broadcast_run es (mkBroadcaster queueSize [] filters [] []) cm = Ok (b, cm') →
  length (br_replies b) = length (received es)
  ∧ br_enqueued b ++ br_queue b = succeeded (received es) (br_replies b)
  ∧ Z.of_nat (length (br_queue b)) ≤ Z.max 0 (br_queueSize b).
Proof.
  intros Hr. apply (broadcast_run_inv _ _ []) in Hr as [H1 H2 H3]; [done|].
  split; simpl; [done|done|lia].
Qed.

End claims.
