(* ===== verification/Deliver.v ===== *)
(** * The deliver handler

    [orderer/common/deliver]: the loop that serves one client connection: a
    seek positions a cursor of the ledger, blocks are sent as they become
    available, at most a window ahead of the client's acknowledgements. *)

From stdpp Require Import base numbers strings gmap list.
From S2P Require Import Prelude OrdererTypes RawLedger RawLedgerProofs.
Local Open Scope Z_scope.

Section deliver.
Context `{OE : OEnv} {L C : Type} `{RL : RawLedger L C}.

(** [d_signal]: the loop waits on the cursor's ready channel; [d_exit]: the
    exit channel is closed; [d_done]: the loop has returned; [d_sent]: what was
    given to [srv.Send]. *)
Record deliverer := mkDeliverer {
  d_maxWindow : Z;
  d_cursor : option (iterator C);
  d_nextBlockNumber : Z;
  d_windowSize : Z;
  d_lastAck : Z;
  d_signal : bool;
  d_exit : bool;
  d_done : bool;
  d_sent : list DeliverResponse }.

Definition newDeliverer (maxWindow : Z) : deliverer :=
  mkDeliverer maxWindow None 0 0 0 false false false [].

Definition set_cursor c d := mkDeliverer (d_maxWindow d) c (d_nextBlockNumber d) (d_windowSize d)
  (d_lastAck d) (d_signal d) (d_exit d) (d_done d) (d_sent d).
Definition set_next n d := mkDeliverer (d_maxWindow d) (d_cursor d) n (d_windowSize d)
  (d_lastAck d) (d_signal d) (d_exit d) (d_done d) (d_sent d).
Definition set_window w d := mkDeliverer (d_maxWindow d) (d_cursor d) (d_nextBlockNumber d) w
  (d_lastAck d) (d_signal d) (d_exit d) (d_done d) (d_sent d).
Definition set_lastAck n d := mkDeliverer (d_maxWindow d) (d_cursor d) (d_nextBlockNumber d)
  (d_windowSize d) n (d_signal d) (d_exit d) (d_done d) (d_sent d).
Definition set_signal b d := mkDeliverer (d_maxWindow d) (d_cursor d) (d_nextBlockNumber d)
  (d_windowSize d) (d_lastAck d) b (d_exit d) (d_done d) (d_sent d).
Definition set_exit b d := mkDeliverer (d_maxWindow d) (d_cursor d) (d_nextBlockNumber d)
  (d_windowSize d) (d_lastAck d) (d_signal d) b (d_done d) (d_sent d).
Definition set_done b d := mkDeliverer (d_maxWindow d) (d_cursor d) (d_nextBlockNumber d)
  (d_windowSize d) (d_lastAck d) (d_signal d) (d_exit d) b (d_sent d).
Definition add_sent r d := mkDeliverer (d_maxWindow d) (d_cursor d) (d_nextBlockNumber d)
  (d_windowSize d) (d_lastAck d) (d_signal d) (d_exit d) (d_done d) (d_sent d ++ [r]).

(** [close(d.exitChan)]: closing a closed channel panics. *)
Definition close_exit (d : deliverer) : res deliverer :=
  if d_exit d then Panic else Ok (set_exit true d).

(** [sendErrorReply], [sendBlockReply]; [ok] is whether [srv.Send] succeeds. *)
Definition send_reply (r : DeliverResponse) (ok : bool) (d : deliverer) : res (bool * deliverer) :=
  if ok then Ok (true, add_sent r d) else d ← close_exit d; Ok (false, d).

Definition processUpdate (update : option SeekInfo) (ok : bool) (l : L) (d : deliverer)
    : res (bool * deliverer) :=
  let d := set_cursor None d in
  match update with
  | Some u =>
      if bool_decide (seek_WindowSize u = 0) || bool_decide (seek_WindowSize u > d_maxWindow d)
      then d ← close_exit d; send_reply (ResponseError BAD_REQUEST) ok d
      else
        let d := set_window (seek_WindowSize u) d in
        r ← Iterator (seek_Start u) (seek_SpecifiedNumber u) l;
        let d := set_next r.2 (set_cursor (Some r.1) d) in
        Ok (true, set_lastAck (u64 (r.2 - 1)) d)
  | None => d ← close_exit d; send_reply (ResponseError BAD_REQUEST) ok d
  end.

(** The end of the loop body: whether to wait on the cursor. *)
Definition rearm (d : deliverer) : deliverer :=
  match d_cursor d with
  | None => set_signal false d
  | Some _ =>
      if bool_decide (u64 (d_lastAck d + d_windowSize d) < d_nextBlockNumber d)
      then set_signal false d else set_signal true d
  end.

(** A message from the client, the ready channel, the exit channel, and blocks
    appended to the ledger by others. *)
Inductive deliver_event :=
  | DUpdate (u : DeliverUpdate) (ok : bool)
  | DSignal (ok : bool)
  | DExit
  | DAppend (msgs : list Envelope).

(** One iteration of [main]. *)
Definition deliver_step (e : deliver_event) (ld : L * deliverer) : res (L * deliverer) :=
  let '(l, d) := ld in
  match e with
  | DAppend msgs => r ← Append msgs None l; Ok (r.2, d)
  | DUpdate u ok =>
      if d_done d then Ok (l, d) else
      match u with
      | UpdateAcknowledgement n => Ok (l, rearm (set_lastAck n d))
      | UpdateSeek s =>
          r ← processUpdate s ok l d;
          if (r.1 : bool) then Ok (l, rearm r.2) else Ok (l, set_done true r.2)
      | UpdateNone => d ← close_exit d; Ok (l, set_done true d)
      end
  | DSignal ok =>
      if d_done d || negb (d_signal d) then Ok (l, d) else
      it ← deref (d_cursor d);
      if negb (iterator_Ready it l) then Ok (l, d) else
      r ← iterator_Next it l;
      match r with
      | None => OutOfFuel  (* blocks; excluded by the ready channel *)
      | Some ((b, status), it) =>
          let d := set_cursor (Some it) d in
          if bool_decide (status = SUCCESS) then
            block ← deref b;
            let d := set_next (u64 (blk_Number (blk_Header block) + 1)) d in
            r ← send_reply (ResponseBlock block) ok d;
            if (r.1 : bool) then Ok (l, rearm r.2) else Ok (l, set_done true r.2)
          else
            r ← send_reply (ResponseError status) ok d;
            if (r.1 : bool) then Ok (l, rearm (set_cursor None r.2)) else Ok (l, set_done true r.2)
      end
  | DExit => if d_exit d && negb (d_done d) then Ok (l, set_done true d) else Ok (l, d)
  end.

Fixpoint deliver_run (es : list deliver_event) (ld : L * deliverer) : res (L * deliverer) :=
  match es with [] => Ok ld | e :: es => ld ← deliver_step e ld; deliver_run es ld end.

Context `{LL : !RawLedgerLaws L C}.

(** ** What a client sees between two seeks *)

(** Events of a connection that works and on which no seek arrives. *)
Definition quiet (e : deliver_event) : bool :=
  match e with
  | DUpdate (UpdateAcknowledgement n) _ => bool_decide (0 ≤ n < 2 ^ 64)
  | DSignal ok => ok
  | DAppend _ => true
  | _ => false
  end.

Definition is_append (e : deliver_event) : bool := match e with DAppend _ => true | _ => false end.
Definition is_ack (e : deliver_event) : bool :=
  match e with DUpdate (UpdateAcknowledgement _) _ => true | _ => false end.
Definition appends (es : list deliver_event) : nat := length (List.filter is_append es).

(** The connection after a successful seek at block [n]. *)
Record streaming (n : Z) (pre : list DeliverResponse) (l : L) (d : deliverer) : Prop := {
  st_wf : ledger_wf l;
  st_n : 0 ≤ n ≤ d_nextBlockNumber d;
  st_cursor : ∃ c, d_cursor d = Some (Cursor c) ∧ cursor_at c l (d_nextBlockNumber d);
  st_done : d_done d = false;
  st_exit : d_exit d = false;
  st_sent : d_sent d = pre ++ (ResponseBlock <$>
    take (Z.to_nat (d_nextBlockNumber d - n)) (drop (Z.to_nat n) (blocks l))) }.

Lemma streaming_rearm n pre l d : streaming n pre l d → streaming n pre l (rearm d).
Proof.
  intros [S1 S2 S3 S4 S5 S6]. unfold rearm. destruct S3 as (c & Hc & Hat). rewrite Hc.
  case_bool_decide; split; simpl; eauto.
Qed.

Lemma next_in_range n pre l d :
  streaming n pre l d → Z.of_nat (length (blocks l)) < u64_max →
  0 ≤ d_nextBlockNumber d ≤ Z.of_nat (length (blocks l)).
Proof.
  intros [S1 S2 (c & _ & Hat) _ _ _] Hlen. by destruct (Next_spec c l _ S1 Hat Hlen).
Qed.

Lemma streaming_append n pre l d msgs :
  streaming n pre l d → Z.of_nat (length (blocks l)) < u64_max →
  ∃ b l', Append msgs None l = Ok (b, l') ∧ streaming n pre l' d ∧ length (blocks l') = S (length (blocks l)).
Proof.
  intros Hs Hlen. pose proof (next_in_range _ _ _ _ Hs Hlen) as Hr.
  destruct Hs as [S1 S2 (c & Hc & Hat) S4 S5 S6].
  destruct (Append_blocks l msgs None S1 Hlen) as (b & l' & HA & Hwf & Hb & _ & Hcur).
  exists b, l'. split; [done|]. split; [|rewrite Hb, length_app; simpl; lia].
  split; try done; [exists c; auto|]. rewrite S6, Hb. do 2 f_equal.
  rewrite drop_app_le by lia. rewrite take_app_le; [done|]. rewrite length_drop. lia.
Qed.

Lemma signal_Ok n pre l d :
  streaming n pre l d → Z.of_nat (length (blocks l)) < u64_max →
  ∀ r, deliver_step (DSignal true) (l, d) = r → r = Panic ∨ r = OutOfFuel → False.
Proof.
  intros Hs Hlen r <-. destruct (st_cursor _ _ _ _ Hs) as (c & Hc & Hat). simpl.
  rewrite (st_done _ _ _ _ Hs). simpl. destruct (d_signal d); simpl; [|by intros []]. rewrite Hc. simpl.
  destruct (Next_spec c l _ (st_wf _ _ _ _ Hs) Hat Hlen) as [_ Hnext].
  destruct (blocks l !! Z.to_nat (d_nextBlockNumber d)) as [b|].
  - destruct Hnext as (-> & c' & -> & _). simpl. by intros [].
  - destruct Hnext as [-> _]. simpl. by intros [].
Qed.

Lemma streaming_signal n pre l d l' d' :
  streaming n pre l d → Z.of_nat (length (blocks l)) < u64_max →
  deliver_step (DSignal true) (l, d) = Ok (l', d') → l' = l ∧ streaming n pre l d'.
Proof.
  intros Hs Hlen. pose proof (next_in_range _ _ _ _ Hs Hlen) as Hr.
  destruct (st_cursor _ _ _ _ Hs) as (c & Hc & Hat). simpl. rewrite (st_done _ _ _ _ Hs). simpl.
  destruct (d_signal d); simpl; [|by intros [= <- <-]]. rewrite Hc. simpl.
  destruct (Next_spec c l _ (st_wf _ _ _ _ Hs) Hat Hlen) as [_ Hnext].
  destruct (blocks l !! Z.to_nat (d_nextBlockNumber d)) as [b|] eqn:Hb.
  2: { destruct Hnext as [-> _]. simpl. by intros [= <- <-]. }
  destruct Hnext as (-> & c' & -> & Hat'). simpl.
  apply lookup_lt_Some in Hb as Hlt. unfold u64_max in Hlen.
  rewrite (block_numbers l _ b (st_wf _ _ _ _ Hs) Hb), Z2Nat.id by lia. rewrite u64_small by lia.
  intros [= <- <-]. split; [done|]. apply streaming_rearm.
  destruct Hs as [S1 S2 S3 S4 S5 S6]. split; simpl; try done; [lia|by exists c'|].
  rewrite S6. rewrite <-app_assoc. f_equal.
  replace (Z.to_nat (d_nextBlockNumber d + 1 - n)) with (S (Z.to_nat (d_nextBlockNumber d - n))) by lia.
  rewrite (take_S_r _ _ b); [by rewrite fmap_app|].
  rewrite lookup_drop. rewrite <-Hb. f_equal. lia.
Qed.

Lemma streaming_step n pre l d e :
  streaming n pre l d → Z.of_nat (length (blocks l)) + Z.of_nat (appends [e]) < u64_max →
  quiet e = true →
  ∃ l' d', deliver_step e (l, d) = Ok (l', d') ∧ streaming n pre l' d'
    ∧ length (blocks l') = (length (blocks l) + appends [e])%nat.
Proof.
  intros Hs Hlen Hq. destruct e as [u ok|ok| |msgs]; simpl in Hq; try done.
  - destruct u as [k|s|]; try done. simpl. rewrite (st_done _ _ _ _ Hs).
    eexists _, _. split; [done|]. split; [|unfold appends; simpl; lia]. apply streaming_rearm.
    destruct Hs as [S1 S2 S3 S4 S5 S6]. by split.
  - destruct ok; [|done]. change (appends _) with 0%nat in *. rewrite Z.add_0_r in Hlen.
    destruct (deliver_step (DSignal true) (l, d)) as [[l' d']| |] eqn:Hd.
    + destruct (streaming_signal _ _ _ _ _ _ Hs Hlen Hd) as [-> ?]. eexists _, _.
      split; [done|]. split; [done|lia].
    + exfalso. eapply signal_Ok; eauto.
    + exfalso. eapply signal_Ok; eauto.
  - destruct (streaming_append n pre l d msgs Hs) as (b & l' & HA & Hs' & Hl); [lia|].
    simpl. rewrite HA. eexists _, _. split; [done|]. split; [done|]. unfold appends. simpl. lia.
Qed.

Lemma streaming_run n pre es l d :
  streaming n pre l d → Z.of_nat (length (blocks l)) + Z.of_nat (appends es) < u64_max →
  forallb quiet es = true →
  ∃ l' d', deliver_run es (l, d) = Ok (l', d') ∧ streaming n pre l' d'
    ∧ Z.of_nat (length (blocks l')) < u64_max.
Proof.
  revert l d. induction es as [|e es IH]; intros l d Hs Hlen Hq; simpl in Hq.
  { eexists _, _. split_and!; [done|done|]. change (appends []) with 0%nat in Hlen. lia. }
  apply andb_true_iff in Hq as [Hqe Hqs].
  assert (appends (e :: es) = (appends [e] + appends es)%nat) as Ha.
  { unfold appends. simpl. by destruct (is_append e). }
  rewrite Ha in Hlen.
  destruct (streaming_step n pre l d e Hs) as (l1 & d1 & Hst & Hs1 & Hl1); [lia|done|].
  destruct (IH l1 d1 Hs1) as (l2 & d2 & Hr & Hs2 & Hl2); [lia|done|].
  exists l2, d2. cbn [deliver_run]. rewrite Hst. done.
Qed.

(** The loop waits on the cursor only when the window has room. *)
Definition armed (d : deliverer) : Prop :=
  d_signal d = true → d_nextBlockNumber d ≤ u64 (d_lastAck d + d_windowSize d).

Lemma rearm_armed d : armed (rearm d).
Proof. unfold armed, rearm. case_match; [case_bool_decide|]; simpl; try done. intros _. lia. Qed.

(** Between acknowledgements [lastAck] and the window stay and blocks go out
    only while the window has room. *)
Lemma window_step n pre l d e l' d' hi :
  streaming n pre l d → Z.of_nat (length (blocks l)) < u64_max →
  quiet e = true → is_ack e = false → armed d →
  u64 (d_lastAck d + d_windowSize d) = hi - 1 → d_nextBlockNumber d ≤ hi →
  deliver_step e (l, d) = Ok (l', d') →
  armed d' ∧ u64 (d_lastAck d' + d_windowSize d') = hi - 1 ∧ d_nextBlockNumber d' ≤ hi.
Proof.
  intros Hs Hlen Hq Hack Harm Hhi Hn. pose proof (next_in_range _ _ _ _ Hs Hlen) as Hr.
  destruct e as [u ok|ok| |msgs]; simpl in Hq; try done.
  - by destruct u.
  - destruct (st_cursor _ _ _ _ Hs) as (c & Hc & Hat). simpl. rewrite (st_done _ _ _ _ Hs). simpl.
    destruct (d_signal d) eqn:Hsig; simpl; [|by intros [= <- <-]]. rewrite Hc. simpl.
    destruct (Next_spec c l _ (st_wf _ _ _ _ Hs) Hat Hlen) as [_ Hnext].
    destruct (blocks l !! Z.to_nat (d_nextBlockNumber d)) as [b|] eqn:Hb.
    2: { destruct Hnext as [-> _]. simpl. by intros [= <- <-]. }
    destruct Hnext as (-> & c' & -> & Hat'). simpl. destruct ok; [|done]. simpl.
    apply lookup_lt_Some in Hb as Hlt. unfold u64_max in Hlen.
    rewrite (block_numbers l _ b (st_wf _ _ _ _ Hs) Hb), Z2Nat.id by lia. rewrite u64_small by lia.
    intros [= <- <-]. split; [apply rearm_armed|]. specialize (Harm Hsig).
    unfold rearm. simpl. case_bool_decide; simpl; split; try done; lia.
  - simpl. intros ([b l1] & _ & [= <- <-])%res_bind_Ok. done.
Qed.

Lemma window_run n pre es l d l' d' hi :
  streaming n pre l d → Z.of_nat (length (blocks l)) + Z.of_nat (appends es) < u64_max →
  forallb quiet es = true → forallb (λ e, negb (is_ack e)) es = true → armed d →
  u64 (d_lastAck d + d_windowSize d) = hi - 1 → d_nextBlockNumber d ≤ hi →
  deliver_run es (l, d) = Ok (l', d') →
  d_nextBlockNumber d' ≤ hi ∧ streaming n pre l' d'.
Proof.
  revert l d. induction es as [|e es IH]; intros l d Hs Hlen Hq Ha Harm Hhi Hn Hrun.
  { injection Hrun as <- <-. done. }
  simpl in Hq, Ha. apply andb_true_iff in Hq as [Hqe Hqs]. apply andb_true_iff in Ha as [Hae Has].
  apply negb_true_iff in Hae. assert (appends (e :: es) = (appends [e] + appends es)%nat) as Hap.
  { unfold appends. simpl. by destruct (is_append e). }
  rewrite Hap in Hlen. cbn [deliver_run] in Hrun.
  destruct (streaming_step n pre l d e Hs) as (l1 & d1 & Hst & Hs1 & Hl1); [lia|done|].
  destruct (window_step n pre l d e l1 d1 hi) as (Harm1 & Hhi1 & Hn1); try done; [lia|].
  rewrite Hst in Hrun. eapply (IH l1 d1); try done. lia.
Qed.

End deliver.

Section claims.
Context `{OE : OEnv} {L C : Type} `{RL : RawLedger L C} `{LL : !RawLedgerLaws L C}.

Lemma seek_streams (l : L) (d : deliverer) n w ok :
  ledger_wf l → Z.of_nat (length (blocks l)) < u64_max →
  d_exit d = false → d_done d = false →
  0 < w ≤ d_maxWindow d → 0 ≤ n → first l ≤ n ≤ Z.of_nat (length (blocks l)) →
  ∃ d', deliver_step (DUpdate (UpdateSeek (Some (mkSeekInfo SPECIFIED n w))) ok) (l, d) = Ok (l, d')
    ∧ streaming n (d_sent d) l d' ∧ armed d'
    ∧ d_nextBlockNumber d' = n ∧ d_windowSize d' = w ∧ d_lastAck d' = u64 (n - 1).
Proof.
  intros Hwf Hlen Hex Hdone Hw Hn0 Hn. simpl. rewrite Hdone. unfold processUpdate. simpl.
  rewrite !bool_decide_eq_false_2 by lia. simpl.
  pose proof (Iterator_specified l n Hwf Hlen) as Hit.
  rewrite bool_decide_eq_true_2 in Hit by done.
  destruct Hit as (c & -> & Hat); [unfold u64_max in Hlen; lia|]. simpl.
  eexists. split; [done|]. split_and!.
  - apply streaming_rearm. split; simpl; [done|lia|by exists c|done|done|].
    by rewrite Z.sub_diag, app_nil_r.
  - apply rearm_armed.
  - unfold rearm. simpl. by case_bool_decide.
  - unfold rearm. simpl. by case_bool_decide.
  - unfold rearm. simpl. by case_bool_decide.
Qed.

(** C18. Delivery is exact: after a seek to block [n] with a valid window, for
    any sequence of acknowledgements, appended blocks and ready signals the
    loop does not fail, and what it has sent since is exactly the blocks
    [n], [n+1], ... of the ledger, in order and without gaps. *)
Theorem deliver_exact (l : L) (d : deliverer) (n w : Z) (ok : bool) (es : list deliver_event) :
  ledger_wf l → Z.of_nat (length (blocks l)) + Z.of_nat (appends es) < u64_max →
  d_exit d = false → d_done d = false →
  0 < w ≤ d_maxWindow d → 0 ≤ n → first l ≤ n ≤ Z.of_nat (length (blocks l)) →
  forallb quiet es = true →
  ∃ l' d', deliver_run (DUpdate (UpdateSeek (Some (mkSeekInfo SPECIFIED n w))) ok :: es) (l, d) = Ok (l', d')
    ∧ n ≤ d_nextBlockNumber d' ≤ Z.of_nat (length (blocks l'))
    ∧ d_sent d' = d_sent d ++ (ResponseBlock <$>
        take (Z.to_nat (d_nextBlockNumber d' - n)) (drop (Z.to_nat n) (blocks l'))).
Proof.
  intros Hwf Hlen Hex Hdone Hw Hn0 Hn Hq.
  destruct (seek_streams l d n w ok) as (d1 & Hs & Hst & _); try done; [lia|].
  destruct (streaming_run n (d_sent d) es l d1 Hst Hlen Hq) as (l' & d' & Hr & Hst' & Hlen').
  exists l', d'. cbn [deliver_run]. rewrite Hs. split; [exact Hr|].
  destruct (next_in_range _ _ _ _ Hst' Hlen'). split; [|apply Hst'].
  split; [|done]. apply (st_n _ _ _ _ Hst').
Qed.

(** C37. The window holds: after a seek with window [w], until the client
    acknowledges a block, at most [w] blocks are sent. *)
Theorem deliver_window (l : L) (d : deliverer) (n w : Z) (ok : bool) (es : list deliver_event)
    (l' : L) (d' : deliverer) :
  ledger_wf l → Z.of_nat (length (blocks l)) + Z.of_nat (appends es) < u64_max →
  d_exit d = false → d_done d = false →
  0 < w ≤ d_maxWindow d → n + w < 2 ^ 64 → 0 ≤ n → first l ≤ n ≤ Z.of_nat (length (blocks l)) →
  forallb quiet es = true → forallb (λ e, negb (is_ack e)) es = true →
  deliver_run (DUpdate (UpdateSeek (Some (mkSeekInfo SPECIFIED n w))) ok :: es) (l, d) = Ok (l', d') →
  Z.of_nat (length (d_sent d')) ≤ Z.of_nat (length (d_sent d)) + w.
Proof.
  intros Hwf Hlen Hex Hdone Hw Hb Hn0 Hn Hq Ha Hrun.
  destruct (seek_streams l d n w ok) as (d1 & Hs & Hst & Harm & H1 & H2 & H3); try done; [lia|].
  cbn [deliver_run] in Hrun. rewrite Hs in Hrun.
  assert (u64 (d_lastAck d1 + d_windowSize d1) = n + w - 1) as Hhi.
  { rewrite H2, H3. unfold u64. rewrite Zplus_mod_idemp_l, Z.mod_small; lia. }
  destruct (window_run n (d_sent d) es l d1 l' d' (n + w)) as [Hle Hst']; try done; [lia|].
  rewrite (st_sent _ _ _ _ Hst'), length_app, length_fmap, length_take.
  pose proof (st_n _ _ _ _ Hst'). lia.
Qed.

(** Two invalid seeks in a row, or one whose error reply cannot be sent, close
    the exit channel twice. *)
Theorem invalid_seek_panics (l : L) (d : deliverer) (ok : bool) (s : option SeekInfo) :
  d_done d = false →
  (match s with Some u => seek_WindowSize u = 0 | None => True end) →
  (d_exit d = true ∨ ok = false) →
  deliver_step (DUpdate (UpdateSeek s) ok) (l, d) = Panic.
Proof.
  intros Hd Hs Hor. simpl. rewrite Hd.
  assert (processUpdate s ok l d = Panic) as ->; [|done].
  unfold processUpdate, close_exit, send_reply. simpl.
  destruct s as [u|]; [rewrite (bool_decide_eq_true_2 _ Hs); simpl|];
    (destruct (d_exit d); simpl; [done|]; destruct Hor as [| ->]; done).
Qed.

End claims.
