(* ===== verification/OrdererMain.v ===== *)
(** * Start-up of the orderer

    [retrieveConfiguration] of [orderer/main.go], which reads the ledger from
    its oldest block for the last configuration transaction, and the genesis
    block of [orderer/common/bootstrap/static]. *)

From stdpp Require Import base numbers strings gmap list.
From S2P Require Import Prelude OrdererTypes RawLedger RawLedgerProofs.
Local Open Scope Z_scope.

Section main.
Context `{OE : OEnv} {L C : Type} `{RL : RawLedger L C}.

(** ** util.go *)
Definition ExtractEnvelopeOrPanic (block : Block) (index : nat) : res Envelope :=
  raw ← deref (blk_Data block !! index); deref (unmarshal_envelope raw).
Definition ExtractPayloadOrPanic (envelope : Envelope) : res Payload :=
  deref (unmarshal_payload (sl (env_Payload envelope))).

(** [payload.Header.ChainHeader.Type] *)
Definition payload_type (payload : Payload) : res Z :=
  h ← deref (pl_Header payload); ch ← deref (hdr_Chain h); Ok (ch_Type ch).

(** ** main.go

    [configurationEnvelope] is one object that every unmarshal writes to and
    that [lastConfigTx], once set, points to: [shared] is its content and
    [found] whether [lastConfigTx] is set. *)
Definition scan_block (block : Block) (shared : ConfigurationEnvelope) (found : bool)
    : res (ConfigurationEnvelope * bool) :=
  if negb (bool_decide (length (blk_Data block) = 1%nat)) then Ok (shared, found) else
  envelope ← ExtractEnvelopeOrPanic block 0;
  payload ← ExtractPayloadOrPanic envelope;
  t ← payload_type payload;
  if negb (bool_decide (t = HeaderType_CONFIGURATION_TRANSACTION)) then Ok (shared, found) else
  match unmarshal_config_envelope (sl (pl_Data payload)) with
  | Some c => Ok (c, true)
  | None => Ok (partial_config_envelope (sl (pl_Data payload)), found)
  end.

Fixpoint retrieve_loop (fuel : nat) (it : iterator C) (l : L) (shared : ConfigurationEnvelope)
    (found : bool) : res (option ConfigurationEnvelope) :=
  match fuel with
  | O => OutOfFuel
  | S fuel =>
      if negb (iterator_Ready it l) then Ok (if found then Some shared else None) else
      r ← iterator_Next it l;
      match r with
      | None => OutOfFuel
      | Some ((b, status), it) =>
          if negb (bool_decide (status = SUCCESS)) then Panic else
          block ← deref b;
          s ← scan_block block shared found;
          retrieve_loop fuel it l s.1 s.2
      end
  end.

(** The fuel is one more than the number of blocks. *)
Definition retrieveConfiguration (l : L) : res (option ConfigurationEnvelope) :=
  r ← Iterator OLDEST 0 l;
  retrieve_loop (S (Z.to_nat (Height l))) r.1 l (mkConfigurationEnvelope []) false.

(** ** What it is meant to find *)

(** The configuration transaction of a block, [None] if it has none. *)
Definition config_of (block : Block) : option ConfigurationEnvelope :=
  match blk_Data block with
  | [raw] =>
      e ← unmarshal_envelope raw;
      p ← unmarshal_payload (sl (env_Payload e));
      h ← pl_Header p;
      ch ← hdr_Chain h;
      if bool_decide (ch_Type ch = HeaderType_CONFIGURATION_TRANSACTION)
      then unmarshal_config_envelope (sl (pl_Data p)) else None
  | _ => None
  end.

(** A block with one message carries an envelope with a payload and a chain
    header, and a configuration transaction in it parses. *)
Definition readable (block : Block) : Prop :=
  ∀ raw, blk_Data block = [raw] → ∃ e p h ch,
    unmarshal_envelope raw = Some e ∧ unmarshal_payload (sl (env_Payload e)) = Some p
    ∧ pl_Header p = Some h ∧ hdr_Chain h = Some ch
    ∧ (ch_Type ch = HeaderType_CONFIGURATION_TRANSACTION →
         is_Some (unmarshal_config_envelope (sl (pl_Data p)))).

Lemma scan_block_readable block shared found :
  readable block →
  scan_block block shared found = Ok (match config_of block with
    | Some c => (c, true) | None => (shared, found) end).
Proof.
  intros Hr. unfold scan_block, config_of, ExtractEnvelopeOrPanic, ExtractPayloadOrPanic, payload_type.
  destruct (blk_Data block) as [|raw [|? ?]] eqn:Hd; simpl; [done| |done].
  destruct (Hr raw Hd) as (e & p & h & ch & He & Hp & Hh & Hch & Hc).
  rewrite He. simpl. rewrite Hp. simpl. rewrite Hh. simpl. rewrite Hch. simpl.
  case_bool_decide as Ht; simpl; [|done]. destruct (Hc Ht) as [c ->]. done.
Qed.

Context `{LL : !RawLedgerLaws L C}.

(** The last of the configurations, if any. *)
Definition last_config (bs : list Block) (dflt : option ConfigurationEnvelope)
    : option ConfigurationEnvelope :=
  match last (omap config_of bs) with Some c => Some c | None => dflt end.

Lemma last_config_cons b bs dflt :
  last_config (b :: bs) dflt
  = last_config bs (match config_of b with Some c => Some c | None => dflt end).
Proof.
  unfold last_config. cbn [omap list_omap]. destruct (config_of b) as [c|]; [|done].
  destruct (omap config_of bs) as [|c' l]; [done|]. rewrite last_cons_cons.
  by destruct (last (c' :: l)) as [x|] eqn:Hl; [|apply last_None in Hl].
Qed.

Lemma retrieve_loop_spec fuel c l n shared found :
  ledger_wf l → Z.of_nat (length (blocks l)) < u64_max → cursor_at c l n →
  Forall readable (drop (Z.to_nat n) (blocks l)) →
  (length (drop (Z.to_nat n) (blocks l)) < fuel)%nat →
  retrieve_loop fuel (Cursor c) l shared found
  = Ok (last_config (drop (Z.to_nat n) (blocks l)) (if found then Some shared else None)).
Proof.
  intros Hwf Hlen. revert c n shared found.
  induction fuel as [|fuel IH]; intros c n shared found Hat Hread Hf; [lia|]. simpl.
  destruct (Next_spec c l n Hwf Hat Hlen) as [Hn Hnext].
  destruct (blocks l !! Z.to_nat n) as [b|] eqn:Hb.
  - destruct Hnext as (-> & c' & -> & Hat'). simpl. rewrite (drop_S _ b) in Hread, Hf |- * by done.
    apply Forall_cons in Hread as [Hrb Hread]. rewrite scan_block_readable by done. simpl.
    assert (Z.to_nat (n + 1) = S (Z.to_nat n)) as HS by lia.
    destruct (config_of b) as [cfg|] eqn:Hc; simpl; rewrite (IH c' (n + 1)); rewrite ?HS; try done;
      simpl in *; try lia; by rewrite last_config_cons, Hc.
  - destruct Hnext as (-> & _). simpl. apply lookup_ge_None in Hb. by rewrite drop_ge by lia.
Qed.

(** On a readable ledger the orderer comes up with the last configuration
    transaction the ledger keeps, or with none if there is none. *)
Theorem retrieveConfiguration_last (l : L) :
  ledger_wf l → Z.of_nat (length (blocks l)) < u64_max →
  Forall readable (drop (Z.to_nat (first l)) (blocks l)) →
  retrieveConfiguration l = Ok (last (omap config_of (drop (Z.to_nat (first l)) (blocks l)))).
Proof.
  intros Hwf Hlen Hread. unfold retrieveConfiguration.
  destruct (Iterator_oldest l 0 Hwf Hlen) as (c & -> & Hat).
  rewrite Height_blocks by (done || unfold u64_max in Hlen; lia). rewrite Nat2Z.id.
  cbn [mbind res_bind fst snd]. rewrite (retrieve_loop_spec _ c l (first l)); try done.
  - unfold last_config. by destruct (last _).
  - rewrite length_drop. lia.
Qed.

(** Any message that is not a payload with a chain header, alone in its block,
    stops every later start-up. *)
Lemma unreadable_message_panics fuel c l n b raw e shared found :
  ledger_wf l → Z.of_nat (length (blocks l)) < u64_max → cursor_at c l n →
  blocks l !! Z.to_nat n = Some b → blk_Data b = [raw] → unmarshal_envelope raw = Some e →
  unmarshal_payload (sl (env_Payload e)) = None →
  retrieve_loop (S fuel) (Cursor c) l shared found = Panic.
Proof.
  intros Hwf Hlen Hat Hb Hd He Hp. simpl.
  destruct (Next_spec c l n Hwf Hat Hlen) as [_ Hnext]. rewrite Hb in Hnext.
  destruct Hnext as (-> & c' & -> & _). simpl. unfold scan_block, ExtractEnvelopeOrPanic, ExtractPayloadOrPanic.
  rewrite Hd. simpl. rewrite He. simpl. by rewrite Hp.
Qed.

(** A malformed configuration transaction after a good one overwrites the
    object the result points to. *)
Lemma malformed_config_overwrites c d block p h ch e raw :
  blk_Data block = [raw] → unmarshal_envelope raw = Some e →
  unmarshal_payload (sl (env_Payload e)) = Some p → pl_Header p = Some h → hdr_Chain h = Some ch →
  ch_Type ch = HeaderType_CONFIGURATION_TRANSACTION → pl_Data p = Some d →
  unmarshal_config_envelope d = None →
  scan_block block c true = Ok (partial_config_envelope d, true).
Proof.
  intros Hd He Hp Hh Hch Ht Hpd Hu. unfold scan_block, ExtractEnvelopeOrPanic, ExtractPayloadOrPanic, payload_type.
  rewrite Hd. simpl. rewrite He. simpl. rewrite Hp. simpl. rewrite Hh. simpl. rewrite Hch. simpl.
  rewrite Ht, Hpd. simpl. by rewrite Hu.
Qed.

End main.
