(* ===== verification/OrdererSim.v ===== *)
(** * A concrete orderer

    A lawful instance of the environment of the ordering service and runs of
    its components: filters, cutter, solo consenter, both ledgers, broadcast
    and deliver. *)

From Stdlib Require Import Strings.Byte.
From stdpp Require Import base numbers strings gmap list.
From S2P Require Import Prelude Wire Sha256 SbftMerkle OrdererTypes RawLedger RawLedgerProofs BlockCutter BlockCutterProofs Deliver OrdererMain.
Local Open Scope Z_scope.

Module OrdererEnv.

Definition put_envelope (e : Envelope) : bytes := put_slice (env_Payload e) ++ put_slice (env_Signature e).
Definition get_envelope (l : bytes) : option Envelope :=
  '(p, l) ← get_slice l; '(s, l) ← get_slice l; Some (mkEnvelope p s).

Definition put_chain (c : ChainHeader) : bytes := put_Z (ch_Type c) ++ put_slice (ch_ChainID c).
Definition get_chain : parser ChainHeader := λ l,
  '(t, l) ← get_Z l; '(c, l) ← get_slice l; Some (mkChainHeader t c, l).
Definition put_payload (p : Payload) : bytes :=
  put_option (λ h, put_option put_chain (hdr_Chain h)) (pl_Header p) ++ put_slice (pl_Data p).
Definition get_payload (l : bytes) : option Payload :=
  '(h, l) ← get_option (λ l, '(c, l) ← get_option get_chain l; Some (mkHeader c None, l)) l;
  '(d, l) ← get_slice l; Some (mkPayload h d).

Definition get_config_envelope (l : bytes) : option ConfigurationEnvelope :=
  '(items, l) ← get_list get_bytes (length l) l;
  Some (mkConfigurationEnvelope ((λ b, mkSignedConfigurationItem b []) <$> items)).

Definition put_block_header (h : BlockHeader) : bytes :=
  put_Z (blk_Number h) ++ put_slice (blk_PreviousHash h) ++ put_slice (blk_DataHash h).

#[global] Instance env : OEnv := {|
  marshal_envelope := put_envelope;
  unmarshal_envelope := get_envelope;
  unmarshal_payload := get_payload;
  unmarshal_config_envelope := get_config_envelope;
  partial_config_envelope _ := mkConfigurationEnvelope [];
  unmarshal_config_item _ := None;
  unmarshal_signature_header b := Some (mkSignatureHeader (Some b) None);
  unmarshal_policy _ := None;
  marshal_block_header := put_block_header;
  marshal_block_data := put_list put_bytes;
  ComputeCryptoHash := hash |}.

Lemma put_slice_inj s s' l l' : put_slice s ++ l = put_slice s' ++ l' → sl s = sl s' ∧ l = l'.
Proof.
  intros H. unfold put_slice in H. apply (f_equal get_bytes) in H. rewrite !get_put_bytes in H.
  by injection H as -> ->.
Qed.

#[global] Instance env_laws : OEnvLaws env.
Proof.
  split.
  - intros [p s] Hp Hs. cbn in *. unfold get_envelope, put_envelope. simpl.
    rewrite get_put_slice by done. cbn. rewrite <-(app_nil_r (put_slice s)).
    by rewrite get_put_slice.
  - intros [n p d] [n' p' d'] _ _. cbn. unfold put_block_header. simpl. intros H.
    apply (f_equal get_Z) in H as HZ. rewrite !get_put_Z in HZ. injection HZ as -> Hrest.
    apply put_slice_inj in Hrest as [? Hrest].
    rewrite <-(app_nil_r (put_slice d)), <-(app_nil_r (put_slice d')) in Hrest.
    by apply put_slice_inj in Hrest as [? _].
Qed.

Definition put_block (b : Block) : bytes :=
  put_block_header (blk_Header b) ++ put_list put_bytes (blk_Data b)
  ++ put_option (put_list put_bytes) (blk_Metadata b).
Definition get_block (l : bytes) : option Block :=
  let n := length l in
  '(k, l) ← get_Z l; '(p, l) ← get_slice l; '(d, l) ← get_slice l;
  '(data, l) ← get_list get_bytes n l;
  '(md, l) ← get_option (get_list get_bytes n) l;
  Some (mkBlock (mkBlockHeader k p d) data md).

#[global] Instance json : File.JsonEnv := {|
  File.json_marshal := put_block; File.json_unmarshal := get_block |}.

#[global] Instance file_laws : FileProofs.FileLaws env json.
Proof.
  split.
  - intros [[k p d] data md] [Hp Hd]. cbn in *. unfold get_block.
    set (n := length (put_block _)). assert (length data ≤ n)%nat as Hn1.
    { unfold n, put_block. simpl. rewrite !length_app. pose proof (length_put_list put_bytes data). lia. }
    assert (∀ m, md = Some m → (length m ≤ n)%nat) as Hn2.
    { intros m ->. unfold n, put_block. simpl. rewrite !length_app. simpl.
      pose proof (length_put_list put_bytes m). lia. }
    clearbody n. unfold put_block, put_block_header. simpl. rewrite <-!app_assoc.
    rewrite get_put_Z. cbn. rewrite get_put_slice by done. cbn. rewrite get_put_slice by done. cbn.
    rewrite get_put_list by (done || apply get_put_bytes). cbn.
    destruct md as [m|]; cbn; [|done]. rewrite <-(app_nil_r (put_list put_bytes m)).
    rewrite get_put_list; [done|apply get_put_bytes|by apply Hn2].
  - intros d Hd. apply (f_equal length) in Hd. cbn in Hd. unfold hash in Hd.
    rewrite sha256_length in Hd. done.
Qed.

(** A configuration manager that refuses everything. *)
#[global] Instance no_config : ConfigManager unit := {| mgr_Validate _ cm := Ok (false, cm) |}.

End OrdererEnv.

Module OrdererWitness.
Import OrdererEnv.

Definition msg (k : Z) : Envelope := mkEnvelope (Some [byte_of_Z k]) None.
Definition genesis : Block := mkBlock (mkBlockHeader 0 None (Some [byte_of_Z 1])) [] None.
Definition batches : list (list Envelope) := [[msg 1; msg 2]; [msg 3]].

Definition ram0 : Ram.ramLedger :=
  match Ram.ram_New 10 genesis with Ok rl => rl | _ => Ram.newChain 10 end.
Lemma ram0_wf : ledger_wf ram0.
Proof.
  assert (Ram.ram_New 10 genesis = Ok ram0) as Heq by (vm_compute; reflexivity).
  destruct (RamProofs.appendBlock_wf _ _ (RamProofs.newChain_wf 10) genesis) as (rl & HA & Hwf);
    [reflexivity|].
  unfold Ram.ram_New in Heq. rewrite Heq in HA. injection HA as <-.
  simpl. by rewrite (RamProofs.ram_blocks_wf _ _ Hwf).
Qed.

Definition file0 : File.fileLedger := File.mkFileLedger ∅ 0 None.
Lemma file0_wf : ledger_wf file0.
Proof.
  split; simpl; try done. intros n [raw Hn]. by rewrite lookup_empty in Hn.
Qed.

Lemma ledger_read_back_witness :
  ∃ l' bs, append_all batches ram0 = Ok l' ∧ blocks l' = blocks ram0 ++ bs
    ∧ blk_Data <$> bs = fmap marshal_envelope <$> batches
    ∧ Height l' = Z.of_nat (length (blocks l'))
    ∧ (first l' ≤ 1 ≤ Height l' →
         ∃ it, Iterator SPECIFIED 1 l' = Ok (it, 1)
           ∧ read 5 it l' = Ok (take 5 (drop (Z.to_nat 1) (blocks l')))).
Proof.
  apply (ledger_read_back ram0 batches 1 5).
  - apply ram0_wf.
  - vm_compute. reflexivity.
Defined.

Lemma ram_ledger_hash_chain_witness :
  ∃ rl, (rl0 ← Ram.ram_New 2 genesis; append_all batches rl0) = Ok rl
    ∧ RamProofs.hash_chain (blocks rl)
    ∧ (∀ i b, blocks rl !! i = Some b → blk_Number (blk_Header b) = Z.of_nat i)
    ∧ length (blocks rl) = S (length batches).
Proof.
  apply (ram_ledger_hash_chain 2 genesis batches); [reflexivity|vm_compute; reflexivity].
Defined.

Lemma file_ledger_restart_witness :
  ∃ fl' fl'', append_all batches file0 = Ok fl'
    ∧ File.file_newChain (File.fl_directory fl') = Ok fl''
    ∧ blocks fl'' = blocks fl' ∧ Height fl'' = Height fl'
    ∧ File.fl_lastHash fl'' = (λ b, BlockHeader_Hash (blk_Header b)) <$> last (blocks fl').
Proof.
  apply (file_ledger_restart file0 batches); [apply file0_wf|vm_compute; reflexivity].
Defined.

(** Two messages, batch size 2: the second completes a batch. *)
Definition cutter0 : receiver (CM:=unit) := mkReceiver 2 createBroadcastRuleset [msg 1].

Lemma Ordered_conserves_witness :
  concat [[msg 1; msg 2]] ++ rc_curBatch (set_curBatch [] cutter0) = rc_curBatch cutter0 ++ [msg 2]
  ∧ (true = false → [[msg 1; msg 2]] = [] ∧ set_curBatch [] cutter0 = cutter0)
  ∧ (∀ b, b ∈ [[msg 1; msg 2]] → 1 ≤ Z.of_nat (length b) ≤ max_batch cutter0)
  ∧ cutter_inv (set_curBatch [] cutter0).
Proof.
  apply (Ordered_conserves (msg 2) cutter0 (set_curBatch [] cutter0) tt tt [[msg 1; msg 2]] true).
  - right. reflexivity.
  - reflexivity.
Defined.

Definition solo_events : list solo_event :=
  [SoloMsg (msg 1); SoloMsg (mkEnvelope None None); SoloMsg (msg 2); SoloMsg (msg 3); SoloTimer].
Definition solo0 : solo (CM:=unit) (L:=Ram.ramLedger) :=
  mkSolo (NewReceiverImpl 2 createBroadcastRuleset) false ram0 tt.
Definition solo1 : solo (CM:=unit) (L:=Ram.ramLedger) :=
  match solo_run solo_events solo0 with Ok s => s | _ => solo0 end.

Lemma solo_total_order_witness :
  ∃ bs, blocks (so_rl solo1) = blocks ram0 ++ bs
    ∧ concat (blk_Data <$> bs) ++ (marshal_envelope <$> rc_curBatch (so_cutter solo1))
      = marshal_envelope <$> accepted solo_events solo0
    ∧ (∀ b, b ∈ bs → 1 ≤ Z.of_nat (length (blk_Data b)) ≤ Z.max 1 2)
    ∧ (so_timer solo1 = true ↔ rc_curBatch (so_cutter solo1) ≠ []).
Proof.
  apply (solo_total_order solo_events 2 createBroadcastRuleset ram0 tt solo1).
  - apply ram0_wf.
  - vm_compute. reflexivity.
  - vm_compute. reflexivity.
Defined.

Lemma solo_example : accepted solo_events solo0 = [msg 1; msg 2; msg 3].
Proof. vm_compute. reflexivity. Qed.

Definition broadcast_events : list broadcast_event :=
  [BRecv (msg 1); BRecv (msg 2); BDrain; BRecv (mkEnvelope None None); BRecv (msg 3)].
Definition bcast0 : broadcaster (CM:=unit) := mkBroadcaster 1 [] createBroadcastRuleset [] [].
Definition bcast1 : broadcaster (CM:=unit) :=
  match broadcast_run broadcast_events bcast0 tt with Ok (b, _) => b | _ => bcast0 end.

Lemma broadcast_replies_witness :
  length (br_replies bcast1) = length (received broadcast_events)
  ∧ br_enqueued bcast1 ++ br_queue bcast1 = succeeded (received broadcast_events) (br_replies bcast1)
  ∧ Z.of_nat (length (br_queue bcast1)) ≤ Z.max 0 (br_queueSize bcast1).
Proof.
  apply (broadcast_replies broadcast_events 1 createBroadcastRuleset tt tt bcast1).
  vm_compute. reflexivity.
Defined.

Lemma broadcast_example :
  br_replies bcast1 = [SUCCESS; SERVICE_UNAVAILABLE; BAD_REQUEST; SUCCESS]
  ∧ br_enqueued bcast1 = [msg 1] ∧ br_queue bcast1 = [msg 3].
Proof. vm_compute. done. Qed.

(** A client seeks block 0 with window 2 while two blocks are appended. *)
Definition deliver_events : list deliver_event :=
  [DSignal true; DAppend [msg 1]; DSignal true; DAppend [msg 2]; DSignal true].
Definition deliverer0 : deliverer (C:=Ram.cursor) := newDeliverer 10.
Definition seek0 : deliver_event := DUpdate (UpdateSeek (Some (mkSeekInfo SPECIFIED 0 2))) true.
Definition delivered : Ram.ramLedger * deliverer (C:=Ram.cursor) :=
  match deliver_run (seek0 :: deliver_events) (ram0, deliverer0) with
  | Ok r => r
  | _ => (ram0, deliverer0)
  end.

Lemma deliver_exact_witness :
  ∃ l' d', deliver_run (seek0 :: deliver_events) (ram0, deliverer0) = Ok (l', d')
    ∧ 0 ≤ d_nextBlockNumber d' ≤ Z.of_nat (length (blocks l'))
    ∧ d_sent d' = d_sent deliverer0 ++ (ResponseBlock <$>
        take (Z.to_nat (d_nextBlockNumber d' - 0)) (drop (Z.to_nat 0) (blocks l'))).
Proof.
  apply (deliver_exact ram0 deliverer0 0 2 true deliver_events).
  - apply ram0_wf.
  - vm_compute. reflexivity.
  - reflexivity.
  - reflexivity.
  - vm_compute. split; [reflexivity|discriminate].
  - lia.
  - vm_compute. split; discriminate.
  - reflexivity.
Defined.

Lemma deliver_window_witness :
  Z.of_nat (length (d_sent delivered.2)) ≤ Z.of_nat (length (d_sent deliverer0)) + 2.
Proof.
  apply (deliver_window ram0 deliverer0 0 2 true deliver_events delivered.1 delivered.2).
  - apply ram0_wf.
  - vm_compute. reflexivity.
  - reflexivity.
  - reflexivity.
  - vm_compute. split; [reflexivity|discriminate].
  - lia.
  - lia.
  - vm_compute. split; discriminate.
  - reflexivity.
  - reflexivity.
  - vm_compute. reflexivity.
Defined.

Lemma retrieveConfiguration_last_witness :
  retrieveConfiguration ram0 = Ok (last (omap config_of (drop (Z.to_nat (first ram0)) (blocks ram0)))).
Proof.
  apply (retrieveConfiguration_last ram0).
  - apply ram0_wf.
  - vm_compute. reflexivity.
  - constructor; [|constructor]. intros raw Hraw. discriminate Hraw.
Defined.

(** One client message that is not a payload, written to the ledger by the
    solo consenter when its timer fires, stops the next start-up. *)
Definition poisoned : solo (CM:=unit) (L:=Ram.ramLedger) :=
  match solo_run [SoloMsg (msg 9); SoloTimer] solo0 with Ok s => s | _ => solo0 end.
Theorem poisoned_ledger_cannot_restart :
  solo_run [SoloMsg (msg 9); SoloTimer] solo0 = Ok poisoned
  ∧ retrieveConfiguration (so_rl poisoned) = Panic.
Proof. vm_compute. done. Qed.

End OrdererWitness.
