(* ===== verification/Kafka.v ===== *)
(** * The Kafka orderer (orderer/kafka)

    The orderer cuts the messages of its clients into blocks and writes them to
    a Kafka topic ([broadcast.go]); a client is served blocks from the topic, at
    most a window ahead of its acknowledgements ([client_deliver.go]).

    Kafka with its library is a class: a log of messages with consecutive
    offsets, of which old ones may be gone.  Goroutines are steps: the clients
    put messages into the channel, the cutter takes them out, and each client's
    loop reacts to updates and tokens. *)

From Stdlib Require Import Strings.Byte.
From stdpp Require Import base numbers strings gmap list.
From S2P Require Import Prelude OrdererTypes.
Local Open Scope Z_scope.

(** ** The library

    [SendMessage] gives whether there was no error; [GetAvailableOffsets] the
    offsets in the answer; [ConsumePartition] the offset the new consumer is at,
    which is not the one asked for when that is [-1] or [-2]; [Message] the
    message a consumer at an offset has received, if any. *)
Class Kafka (K : Type) := {
  k_SendMessage : bytes → K → bool * K;
  k_Open : K → bool;
  k_GetAvailableOffsets : Z → K → option (list Z);
  k_ConsumePartition : Z → K → option Z;
  k_Message : Z → K → option bytes }.

(** [proto.Marshal] of a block; and what [proto.Unmarshal] makes of bytes,
    [None] when the header or the data is missing. *)
Class BlockProto := {
  marshal_block : Block → option bytes;
  decode_block : bytes → option Block }.

Section kafka.
Context {K : Type} `{!Kafka K, !OEnv, !BlockProto}.

(** ** producer.go, broker.go *)
Definition Send (payload : bytes) (k : K) : bool * K := k_SendMessage payload k.
Definition GetOffset (seek : Z) (k : K) : res (option Z) :=
  if negb (k_Open k) then Panic
  else match k_GetAvailableOffsets seek k with
       | None => Ok None
       | Some offsets => o ← deref (head offsets); Ok (Some o)
       end.

(** ** broadcast.go

    [bc_started]: the first connection has sent the genesis block and started
    the cutter; [bc_answered]: the messages answered with success. *)
Record broadcasterImpl := mkBroadcaster {
  bc_producer : K; bc_batchSize : Z; bc_started : bool; bc_batchChan : list Envelope; bc_messages : list bytes;
  bc_nextNumber : Z; bc_prevHash : slice; bc_answered : list Envelope }.

(** [genesis]: the data of the genesis block. *)
Definition newBroadcaster (k : K) (batchSize : Z) (genesis : list bytes) : broadcasterImpl :=
  mkBroadcaster k batchSize false [] genesis 0 None [].

Definition next_block (b : broadcasterImpl) : Block :=
  mkBlock (mkBlockHeader (bc_nextNumber b) (bc_prevHash b) (Some (BlockData_Hash (bc_messages b)))) (bc_messages b) None.
(** The result is whether there was no error; a block that cannot be marshalled
    is fatal. *)
Definition sendBlock (b : broadcasterImpl) : res (bool * broadcasterImpl) :=
  let block := next_block b in
  blockBytes ← deref (marshal_block block);
  let '(ok, k) := Send blockBytes (bc_producer b) in
  Ok (ok, mkBroadcaster k (bc_batchSize b) (bc_started b) (bc_batchChan b) [] (u64 (bc_nextNumber b + 1))
            (Some (BlockHeader_Hash (blk_Header block))) (bc_answered b)).
Definition send_or_panic (b : broadcasterImpl) : res broadcasterImpl :=
  '(ok, b) ← sendBlock b; if ok : bool then Ok b else Panic.

(** [Broadcast]: the first call sends the genesis block and starts the cutter,
    whether or not the block could be sent. *)
Definition Broadcast (b : broadcasterImpl) : res broadcasterImpl :=
  if bc_started b then Ok b
  else
    '(_, b) ← sendBlock b;
    Ok (mkBroadcaster (bc_producer b) (bc_batchSize b) true (bc_batchChan b) (bc_messages b) (bc_nextNumber b)
          (bc_prevHash b) (bc_answered b)).

Definition set_batch (chan : list Envelope) (messages : list bytes) (b : broadcasterImpl) : broadcasterImpl :=
  mkBroadcaster (bc_producer b) (bc_batchSize b) (bc_started b) chan messages (bc_nextNumber b) (bc_prevHash b) (bc_answered b).
Definition answer (msg : Envelope) (b : broadcasterImpl) : broadcasterImpl :=
  mkBroadcaster (bc_producer b) (bc_batchSize b) (bc_started b) (bc_batchChan b) (bc_messages b) (bc_nextNumber b)
    (bc_prevHash b) (bc_answered b ++ [msg]).

(** The cutter takes a message. *)
Definition cut_message (msg : Envelope) (b : broadcasterImpl) : res broadcasterImpl :=
  let b := set_batch (bc_batchChan b) (bc_messages b ++ [marshal_envelope msg]) b in
  if bool_decide (i64 (bc_batchSize b) ≤ Z.of_nat (length (bc_messages b))) then send_or_panic b else Ok b.

Inductive cut_event :=
  | CConnect
  | CRecv (msg : Envelope)
  | CTake
  | CTimer.
(** A message waits for room in the channel; a channel without a buffer hands
    it to the cutter.  The cutter runs once it has been started. *)
Definition cut_step (ev : cut_event) (b : broadcasterImpl) : res broadcasterImpl :=
  match ev with
  | CConnect => Broadcast b
  | CRecv msg =>
      if negb (bc_started b) then Ok b
      else if bool_decide (bc_batchSize b = 0) then cut_message msg (answer msg b)
      else if bool_decide (Z.of_nat (length (bc_batchChan b)) < bc_batchSize b)
      then Ok (set_batch (bc_batchChan b ++ [msg]) (bc_messages b) (answer msg b))
      else Ok b
  | CTake =>
      if negb (bc_started b) then Ok b
      else match bc_batchChan b with
           | [] => Ok b
           | msg :: rest => cut_message msg (set_batch rest (bc_messages b) b)
           end
  | CTimer =>
      if negb (bc_started b) then Ok b
      else if bool_decide (bc_messages b = []) then Ok b else send_or_panic b
  end.
Fixpoint cut_run (l : list cut_event) (b : broadcasterImpl) : res broadcasterImpl :=
  match l with [] => Ok b | ev :: l => b ← cut_step ev b; cut_run l b end.

(** ** client_deliver.go

    [cd_consumer]: the offset the consumer is at; [cd_tokens]: the tokens in the
    channel, if there is one; [cd_done]: the loop has returned. *)
Record clientDelivererImpl := mkClientDeliverer {
  cd_maxWindow : Z; cd_consumer : option Z; cd_tokens : option Z; cd_lastACK : Z; cd_window : Z; cd_done : bool;
  cd_sent : list DeliverResponse }.
Definition newClientDeliverer (maxWindow : Z) : clientDelivererImpl :=
  mkClientDeliverer maxWindow None None 0 0 false [].

Definition set_tokens (t : option Z) (d : clientDelivererImpl) : clientDelivererImpl :=
  mkClientDeliverer (cd_maxWindow d) (cd_consumer d) t (cd_lastACK d) (cd_window d) (cd_done d) (cd_sent d).
Definition set_consumer (c : option Z) (d : clientDelivererImpl) : clientDelivererImpl :=
  mkClientDeliverer (cd_maxWindow d) c (cd_tokens d) (cd_lastACK d) (cd_window d) (cd_done d) (cd_sent d).
Definition set_ack (lastACK window : Z) (d : clientDelivererImpl) : clientDelivererImpl :=
  mkClientDeliverer (cd_maxWindow d) (cd_consumer d) (cd_tokens d) lastACK window (cd_done d) (cd_sent d).
Definition return_from (d : clientDelivererImpl) : clientDelivererImpl :=
  mkClientDeliverer (cd_maxWindow d) (cd_consumer d) (cd_tokens d) (cd_lastACK d) (cd_window d) true (cd_sent d).
(** [ok]: whether [stream.Send] succeeds. *)
Definition send (ok : bool) (r : DeliverResponse) (d : clientDelivererImpl) : clientDelivererImpl :=
  mkClientDeliverer (cd_maxWindow d) (cd_consumer d) (cd_tokens d) (cd_lastACK d) (cd_window d) (cd_done d)
    (if ok then cd_sent d ++ [r] else cd_sent d).

Inductive update_error := ackOutOfRangeError | seekOutOfRangeError | windowOutOfRangeError | OtherError.

Definition disablePush (d : clientDelivererImpl) : Z * clientDelivererImpl :=
  (default 0 (cd_tokens d), set_tokens None d).
(** A channel of negative size panics. *)
Definition enablePush (newTokenCount : Z) (d : clientDelivererImpl) : res clientDelivererImpl :=
  if bool_decide (newTokenCount < 0) then Panic else Ok (set_tokens (Some newTokenCount) d).

(** [close_ok]: whether the consumer closes without error. *)
Definition processSeek (seek : option SeekInfo) (close_ok : bool) (k : K) (d : clientDelivererImpl)
    : res (option update_error * clientDelivererImpl) :=
  seek ← deref seek;
  let window := i64 (seek_WindowSize seek) in
  if bool_decide (window ≤ 0) || bool_decide (i64 (cd_maxWindow d) < window) then Ok (Some windowOutOfRangeError, d)
  else
    let d := set_ack (cd_lastACK d) window d in
    oldest ← GetOffset (-2) k;
    match oldest with
    | None => Ok (Some OtherError, d)
    | Some oldestAvailable =>
        newest ← GetOffset (-1) k;
        match newest with
        | None => Ok (Some OtherError, d)
        | Some newest =>
            let newestAvailable := i64 (newest - 1) in
            let start := match seek_Start seek with
                         | OLDEST => oldestAvailable
                         | NEWEST => newestAvailable
                         | SPECIFIED => i64 (seek_SpecifiedNumber seek)
                         end in
            if match seek_Start seek with
               | SPECIFIED => negb (bool_decide (oldestAvailable ≤ start) && bool_decide (start ≤ newestAvailable))
               | _ => false
               end
            then Ok (Some seekOutOfRangeError, d)
            else
              let d := (disablePush d).2 in
              if bool_decide (is_Some (cd_consumer d)) && negb close_ok then Ok (Some OtherError, d)
              else
                let d := set_ack (i64 (start - 1)) (cd_window d) d in
                let d := set_consumer (k_ConsumePartition start k) d in
                if bool_decide (cd_consumer d = None) then Ok (Some OtherError, d)
                else d ← enablePush (cd_window d) d; Ok (None, d)
        end
    end.

Definition processACK (number : Z) (d : clientDelivererImpl) : res (option update_error * clientDelivererImpl) :=
  let '(remTokens, d) := disablePush d in
  let newACK := i64 number in
  if bool_decide (newACK < cd_lastACK d) || bool_decide (i64 (cd_lastACK d + cd_window d) < newACK)
  then Ok (Some ackOutOfRangeError, d)
  else
    let newTokenCount := i64 (newACK - cd_lastACK d + remTokens) in
    d ← enablePush newTokenCount (set_ack newACK (cd_window d) d);
    Ok (None, d).

Definition status_of (e : update_error) : Status :=
  match e with
  | seekOutOfRangeError => NOT_FOUND
  | ackOutOfRangeError | windowOutOfRangeError => BAD_REQUEST
  | OtherError => SERVICE_UNAVAILABLE
  end.

(** What [sendBlocks] finds; [avail] is whether the consumer's channel has a
    message ready. *)
Inductive client_event :=
  | KDead
  | KError
  | KUpdate (u : DeliverUpdate) (close_ok send_ok : bool)
  | KToken (avail send_ok : bool).
Definition process_update (u : DeliverUpdate) (close_ok : bool) (k : K) (d : clientDelivererImpl)
    : res (option update_error * clientDelivererImpl) :=
  match u with
  | UpdateSeek seek => processSeek seek close_ok k d
  | UpdateAcknowledgement number => processACK number d
  | UpdateNone => Ok (None, d)
  end.
(** After a block has been sent its header and data are read for the log. *)
Definition push_block (avail send_ok : bool) (k : K) (d : clientDelivererImpl) : res clientDelivererImpl :=
  match cd_tokens d with
  | None => Ok d
  | Some tokens =>
      if bool_decide (tokens ≤ 0) then Ok d
      else
        offset ← deref (cd_consumer d);
        match (if avail then k_Message offset k else None) with
        | None => Ok d
        | Some data =>
            let d := set_consumer (Some (offset + 1)) (set_tokens (Some (tokens - 1)) d) in
            if negb send_ok then Ok (return_from d)
            else block ← deref (decode_block data); Ok (send true (ResponseBlock block) d)
        end
  end.
(** [dead]: the channel that tells the client loops to stop is closed. *)
Definition client_step (ev : client_event) (dead : bool) (k : K) (d : clientDelivererImpl) : res clientDelivererImpl :=
  if cd_done d then Ok d
  else match ev with
       | KDead => Ok (if dead then return_from d else d)
       | KError => Ok (return_from d)
       | KUpdate u close_ok send_ok =>
           '(err, d) ← process_update u close_ok k d;
           Ok (match err with
               | None => d
               | Some e => return_from (send send_ok (ResponseError (status_of e)) d)
               end)
       | KToken avail send_ok => push_block avail send_ok k d
       end.

(** ** orderer.go, deliver.go

    One broadcaster, and a deliverer for each client that has connected. *)
Record serverImpl := mkServer {
  sv_broadcaster : broadcasterImpl; sv_maxWindow : Z; sv_dead : bool; sv_clients : list clientDelivererImpl }.
Definition New (k : K) (batchSize maxWindow : Z) (genesis : list bytes) : serverImpl :=
  mkServer (newBroadcaster k batchSize genesis) maxWindow false [].

Inductive server_event :=
  | SBroadcast (ev : cut_event)
  | SDeliver
  | SClient (i : nat) (ev : client_event)
  | STeardown.
(** Closing the channel of the deliverer twice panics. *)
Definition server_step (ev : server_event) (s : serverImpl) : res serverImpl :=
  let '(mkServer b maxWindow dead clients) := s in
  match ev with
  | SBroadcast ev => b ← cut_step ev b; Ok (mkServer b maxWindow dead clients)
  | SDeliver => Ok (mkServer b maxWindow dead (clients ++ [newClientDeliverer maxWindow]))
  | SClient i ev =>
      match clients !! i with
      | None => Ok s
      | Some d => d ← client_step ev dead (bc_producer b) d; Ok (mkServer b maxWindow dead (<[i := d]> clients))
      end
  | STeardown => if dead then Panic else Ok (mkServer b maxWindow true clients)
  end.
Fixpoint server_run (l : list server_event) (s : serverImpl) : res serverImpl :=
  match l with [] => Ok s | ev :: l => s ← server_step ev s; server_run l s end.
End kafka.
#[global] Arguments broadcasterImpl : clear implicits.
#[global] Arguments serverImpl : clear implicits.
