(* ===== verification/KafkaProofs.v ===== *)
(** * The Kafka orderer: what is written and what clients get

    The orderer that is the only writer of a new topic writes one chain of
    blocks, and each client is served consecutive blocks of it. *)

From Stdlib Require Import Strings.Byte.
From stdpp Require Import base numbers strings gmap list.
From S2P Require Import Prelude Wire Sha256 SbftMerkle OrdererTypes RawLedger RawLedgerProofs Kafka OrdererSim.
Local Open Scope Z_scope.

(** ** What is relied on

    The messages written so far have the offsets from 0 on; those below
    [k_oldest] are gone. *)
Class KafkaLog (K : Type) := { k_log : K → list bytes; k_oldest : K → Z }.
Class KafkaLaws K `{!Kafka K, !KafkaLog K} : Prop := {
  k_SendMessage_log m (k k' : K) : k_SendMessage m k = (true, k') → k_log k' = k_log k ++ [m];
  k_oldest_range (k : K) : 0 ≤ k_oldest k ≤ Z.of_nat (length (k_log k));
  k_GetAvailableOffsets_oldest (k : K) l : k_GetAvailableOffsets (-2) k = Some l → l = [k_oldest k];
  k_GetAvailableOffsets_newest (k : K) l : k_GetAvailableOffsets (-1) k = Some l → l = [Z.of_nat (length (k_log k))];
  k_ConsumePartition_at n (k : K) o : 0 ≤ n → k_ConsumePartition n k = Some o →
    o = n ∧ k_oldest k ≤ n ≤ Z.of_nat (length (k_log k));
  k_Message_log n (k : K) m : k_Message n k = Some m → 0 ≤ n ∧ k_log k !! Z.to_nat n = Some m }.
(** Blocks marshal, and read back when they have no empty byte field; hashes
    are not empty. *)
Class BlockProtoLaws `{!OEnv, !BlockProto} : Prop := {
  marshal_block_total b : is_Some (marshal_block b);
  decode_marshal_block b m : blk_PreviousHash (blk_Header b) ≠ Some [] → blk_DataHash (blk_Header b) ≠ Some [] →
    marshal_block b = Some m → decode_block m = Some b;
  ComputeCryptoHash_nonempty m : ComputeCryptoHash m ≠ [] }.

Section proofs.
Context {K : Type} `{!Kafka K, !KafkaLog K, !KafkaLaws K, !OEnv, !BlockProto, !BlockProtoLaws}.
Implicit Types (b : Block) (w : broadcasterImpl K) (k : K) (bs : list Block) (d : clientDelivererImpl).

(** ** Chains

    The blocks of a chain that starts with number [n] and previous hash [prev]. *)
Fixpoint chain (n : Z) (prev : slice) bs : Prop :=
  match bs with
  | [] => True
  | b :: bs =>
      b = mkBlock (mkBlockHeader n prev (Some (BlockData_Hash (blk_Data b)))) (blk_Data b) None
      ∧ chain (n + 1) (Some (BlockHeader_Hash (blk_Header b))) bs
  end.
Definition chain_prev (prev : slice) bs : slice :=
  match last bs with None => prev | Some b => Some (BlockHeader_Hash (blk_Header b)) end.

Lemma chain_snoc n prev bs data :
  chain n prev bs →
  chain n prev (bs ++ [mkBlock (mkBlockHeader (n + Z.of_nat (length bs)) (chain_prev prev bs) (Some (BlockData_Hash data))) data None]).
Proof.
  revert n prev. induction bs as [|b bs IH]; intros n prev.
  - intros _. cbn. by rewrite Z.add_0_r.
  - intros [Hb Hc]. cbn [app chain]. split; [done|].
    specialize (IH _ _ Hc). replace (n + Z.of_nat (length (b :: bs))) with (n + 1 + Z.of_nat (length bs)) by (cbn; lia).
    replace (chain_prev prev (b :: bs)) with (chain_prev (Some (BlockHeader_Hash (blk_Header b))) bs); [done|].
    unfold chain_prev. rewrite last_cons. by destruct (last bs).
Qed.
Lemma chain_prev_snoc prev bs b : chain_prev prev (bs ++ [b]) = Some (BlockHeader_Hash (blk_Header b)).
Proof. unfold chain_prev. by rewrite last_snoc. Qed.

(** The blocks of a chain survive the wire. *)
Lemma chain_decode n prev bs ms :
  prev ≠ Some [] → chain n prev bs → Forall2 (λ b m, marshal_block b = Some m) bs ms →
  Forall2 (λ b m, decode_block m = Some b) bs ms.
Proof.
  intros Hp Hc Hf. revert n prev Hp Hc. induction Hf as [|b m bs ms Hm _ IH]; intros n prev Hp Hc; [done|].
  destruct Hc as [Hb Hc]. constructor.
  - apply decode_marshal_block; [| |done]; rewrite Hb; cbn; [done|].
    intros [= Hh]. by apply ComputeCryptoHash_nonempty in Hh.
  - eapply IH; [|exact Hc]. intros [= Hh]. by apply ComputeCryptoHash_nonempty in Hh.
Qed.

(** ** The broadcaster *)
Section broadcaster.
Context (k0 : K) (batchSize : Z) (genesis : list bytes).
Definition genesis_sent : Prop :=
  ∀ m, marshal_block (next_block (newBroadcaster k0 batchSize genesis)) = Some m → (Send m k0).1 = true.
Definition batch_bound : Z := Z.max 1 (i64 batchSize).

(** The log, and where its chain ends; [bs] are the blocks written. *)
Record written bs w : Prop := {
  wr_log : ∃ ms, k_log (bc_producer w) = k_log k0 ++ ms ∧ Forall2 (λ b m, marshal_block b = Some m) bs ms;
  wr_chain : chain 0 None bs;
  wr_number : bc_nextNumber w = u64 (Z.of_nat (length bs));
  wr_prev : bc_prevHash w = chain_prev None bs }.

Lemma sendBlock_written bs w w' :
  written bs w → Z.of_nat (length bs) < 2 ^ 64 → sendBlock w = Ok (true, w') →
  written (bs ++ [next_block w]) w' ∧ bc_messages w' = [] ∧ bc_batchSize w' = bc_batchSize w
  ∧ bc_started w' = bc_started w ∧ bc_batchChan w' = bc_batchChan w ∧ bc_answered w' = bc_answered w.
Proof.
  intros [(ms & Hlog & Hms) Hc Hn Hp] Hlen. unfold sendBlock.
  destruct (marshal_block (next_block w)) as [m|] eqn:Hm; [|done]. cbn.
  destruct (Send m (bc_producer w)) as [ok k] eqn:HS. intros [= -> <-]. cbn. split; [|done].
  rewrite u64_small in Hn by lia.
  constructor; cbn.
  - exists (ms ++ [m]). rewrite (k_SendMessage_log _ _ _ HS), Hlog, app_assoc. split; [done|].
    apply Forall2_app; [done|]. by repeat constructor.
  - unfold next_block. rewrite Hn, Hp. apply (chain_snoc 0 None bs (bc_messages w) Hc).
  - rewrite Hn, length_app. f_equal. cbn. lia.
  - by rewrite chain_prev_snoc.
Qed.

(** What holds once the cutter runs; [P] is about the size of the batch, which
    is smaller than the bound between steps and not empty when it is cut. *)
Record cutting (P : Z → Prop) bs w : Prop := {
  ct_written : written bs w;
  ct_size : bc_batchSize w = batchSize;
  ct_started : bc_started w = true;
  ct_chan : Z.of_nat (length (bc_batchChan w)) ≤ Z.max 0 batchSize;
  ct_data : concat (blk_Data <$> bs) ++ bc_messages w ++ (marshal_envelope <$> bc_batchChan w)
            = genesis ++ (marshal_envelope <$> bc_answered w);
  ct_pending : P (Z.of_nat (length (bc_messages w)));
  ct_first : blk_Data <$> head bs = Some genesis;
  ct_blocks : Forall (λ b, 1 ≤ Z.of_nat (length (blk_Data b)) ≤ batch_bound) (tail bs) }.
Definition running := cutting (λ n, n < batch_bound).
Definition full := cutting (λ n, 1 ≤ n ≤ batch_bound).
Definition reached (bs : list Block) w : Prop :=
  (w = newBroadcaster k0 batchSize genesis ∧ bs = []) ∨ running bs w.

Lemma send_or_panic_running bs w w' :
  full bs w → Z.of_nat (length bs) < 2 ^ 64 → send_or_panic w = Ok w' → running (bs ++ [next_block w]) w'.
Proof.
  intros Hf Hlen HS. unfold send_or_panic in HS. apply res_bind_Ok in HS as ([ok w1] & HS & Hok).
  destruct ok; [|done]. injection Hok as ->.
  destruct (sendBlock_written _ _ _ (ct_written _ _ _ Hf) Hlen HS) as (Hw & Hm & Hs & Hst & Hch & Ha).
  destruct Hf as [_ Hsz Hst' Hcap Hd Hp Hfi Hb]. destruct bs as [|b0 bs]; [done|].
  constructor; [done|congruence|congruence|by rewrite Hch| | |done|].
  - rewrite Hm, Hch, Ha, fmap_app, concat_app. cbn [fmap list_fmap concat]. by rewrite app_nil_r, <-app_assoc.
  - rewrite Hm. cbn. unfold batch_bound. lia.
  - cbn in *. apply Forall_app. split; [done|]. by apply Forall_singleton.
Qed.
Lemma Broadcast_reached bs w w' :
  genesis_sent → reached bs w → Broadcast w = Ok w' → ∃ bs', running (bs ++ bs') w' ∧ (length bs' ≤ 1)%nat.
Proof.
  intros Hg [[-> ->] | Hr].
  - unfold Broadcast. cbn [bc_started newBroadcaster]. intros HB. apply res_bind_Ok in HB as ([ok w1] & HS & HB).
    injection HB as <-. assert (ok = true) as ->.
    { unfold sendBlock in HS. destruct (marshal_block _) as [m|] eqn:Hm; [|done]. cbn in HS.
      specialize (Hg m Hm). cbn in Hg. destruct (Send m k0) as [ok' k]. cbn in *. by injection HS as <- _. }
    assert (written [] (newBroadcaster k0 batchSize genesis)) as Hw0.
    { constructor; [exists []; by rewrite app_nil_r|done|done|done]. }
    destruct (sendBlock_written _ _ _ Hw0 eq_refl HS) as (Hw & Hm & Hs & _ & Hch & Ha).
    exists [next_block (newBroadcaster k0 batchSize genesis)]. split; [|done].
    constructor; cbn; [|done|done|rewrite Hch; cbn; lia| | |done|constructor].
    + destruct Hw as [Hl Hc Hn Hp]. by constructor.
    + rewrite Hm, Hch, Ha. cbn. by rewrite !app_nil_r.
    + rewrite Hm. cbn. unfold batch_bound. lia.
  - unfold Broadcast. rewrite (ct_started _ _ _ Hr). intros [= <-]. exists []. rewrite app_nil_r. split; [done|]. cbn. lia.
Qed.

(** A step writes at most one block. *)
Definition one_more bs w' : Prop := ∃ bs', running (bs ++ bs') w' ∧ (length bs' ≤ 1)%nat.
Lemma one_more_none bs w : running bs w → one_more bs w.
Proof. intros Hr. exists []. rewrite app_nil_r. split; [done|]. cbn. lia. Qed.

Lemma cut_message_one_more msg bs w w' :
  full bs (set_batch (bc_batchChan w) (bc_messages w ++ [marshal_envelope msg]) w) →
  Z.of_nat (length bs) < 2 ^ 64 → cut_message msg w = Ok w' → one_more bs w'.
Proof.
  intros Hf Hlen. unfold cut_message. set (w1 := set_batch _ _ w) in *.
  case_bool_decide as Hsz; intros HS.
  - exists [next_block w1]. split; [by apply send_or_panic_running|done].
  - injection HS as <-. apply one_more_none. destruct Hf as [Hw Hs Hst Hcap Hd Hp Hfi Hb].
    constructor; try done. rewrite Hs in Hsz. unfold batch_bound. lia.
Qed.
Lemma written_eq bs w w1 :
  bc_producer w1 = bc_producer w → bc_nextNumber w1 = bc_nextNumber w → bc_prevHash w1 = bc_prevHash w →
  written bs w → written bs w1.
Proof. intros HP Hn Hp [Hl Hc Hn' Hp']. constructor; rewrite ?HP, ?Hn, ?Hp; done. Qed.

Lemma cut_step_one_more ev bs w w' :
  running bs w → Z.of_nat (length bs) < 2 ^ 64 → cut_step ev w = Ok w' → one_more bs w'.
Proof.
  intros Hr Hlen. pose proof Hr as [Hw Hs Hst Hcap Hd Hp Hfi Hb].
  assert (Z.of_nat (length (bc_messages w ++ [[]])) = Z.of_nat (length (bc_messages w)) + 1) as Hl1
    by (rewrite length_app; cbn; lia).
  destruct ev as [|msg| |]; cbn [cut_step].
  - unfold Broadcast. rewrite Hst. intros [= <-]. by apply one_more_none.
  - rewrite Hst. cbn [negb]. case_bool_decide as Hz.
    + apply cut_message_one_more; [|done]. assert (bc_batchChan w = []) as Hnil.
      { apply length_zero_iff_nil. lia. }
      constructor; cbn; try done.
      * by eapply written_eq; [..|exact Hw].
      * rewrite Hnil in *. cbn in *. rewrite app_nil_r in *. by rewrite fmap_app, app_assoc, Hd, <-app_assoc.
      * rewrite length_app. cbn. lia.
    + case_bool_decide as Hroom; intros [= <-]; apply one_more_none; [|done].
      constructor; cbn; try done.
      * by eapply written_eq; [..|exact Hw].
      * rewrite length_app. cbn. lia.
      * by rewrite !fmap_app, !app_assoc, <-(app_assoc (concat _)), Hd.
  - rewrite Hst. cbn [negb]. destruct (bc_batchChan w) as [|msg rest] eqn:Hch; [intros [= <-]; by apply one_more_none|].
    apply cut_message_one_more; [|done]. constructor; cbn; try done.
    + by eapply written_eq; [..|exact Hw].
    + cbn in Hcap. lia.
    + rewrite <-Hd. cbn. by rewrite <-!app_assoc.
    + rewrite length_app. cbn. lia.
  - rewrite Hst. cbn [negb]. case_bool_decide as Hm; intros HS; [injection HS as <-; by apply one_more_none|].
    exists [next_block w]. split; [|done]. apply send_or_panic_running; [|done|done].
    constructor; try done. destruct (bc_messages w); [done|]. cbn [length] in *. lia.
Qed.

Lemma cut_run_running l bs w w' :
  running bs w → Z.of_nat (length bs) + Z.of_nat (length l) < 2 ^ 64 → cut_run l w = Ok w' →
  ∃ bs', running (bs ++ bs') w' ∧ (length bs' ≤ length l)%nat.
Proof.
  revert bs w. induction l as [|ev l IH]; intros bs w Hr Hlen; cbn [cut_run].
  - intros [= <-]. exists []. by rewrite app_nil_r.
  - intros HS. apply res_bind_Ok in HS as (w1 & HS & HR). cbn in Hlen.
    destruct (cut_step_one_more _ _ _ _ Hr ltac:(lia) HS) as (bs1 & Hr1 & Hl1).
    destruct (IH _ _ Hr1) with (2 := HR) as (bs2 & Hr2 & Hl2); [rewrite length_app; lia|].
    exists (bs1 ++ bs2). rewrite app_assoc. split; [done|]. rewrite length_app. cbn. lia.
Qed.
Lemma cut_step_reached ev bs w w' :
  genesis_sent → reached bs w → Z.of_nat (length bs) < 2 ^ 64 → cut_step ev w = Ok w' →
  ∃ bs', reached (bs ++ bs') w' ∧ (length bs' ≤ 1)%nat.
Proof.
  intros Hg [[-> ->] | Hr] Hlen HS.
  - destruct ev; try (injection HS as <-; exists []; split; [by left|cbn; lia]).
    destruct (Broadcast_reached [] _ _ Hg (or_introl (conj eq_refl eq_refl)) HS) as (bs' & Hr & Hl).
    exists bs'. split; [by right|done].
  - destruct (cut_step_one_more _ _ _ _ Hr Hlen HS) as (bs' & Hr' & Hl). exists bs'. split; [by right|done].
Qed.
Lemma cut_run_new l w' :
  genesis_sent → Z.of_nat (length l) < 2 ^ 64 → cut_run l (newBroadcaster k0 batchSize genesis) = Ok w' →
  ∃ bs, reached bs w' ∧ (length bs ≤ length l)%nat.
Proof.
  intros Hg. induction l as [|ev l IH]; intros Hlen; cbn [cut_run].
  - intros [= <-]. exists []. split; [by left|done].
  - cbn in Hlen. intros HS. apply res_bind_Ok in HS as (w1 & HS & HR). destruct ev; cycle 1.
    1-3: injection HS as <-; destruct (IH ltac:(lia) HR) as (bs & Hr & Hl); exists bs; cbn; split; [done|lia].
    destruct (Broadcast_reached [] _ _ Hg (or_introl (conj eq_refl eq_refl)) HS) as (bs1 & Hr & Hl).
    destruct (cut_run_running l _ _ _ Hr ltac:(cbn [app length] in *; lia) HR) as (bs2 & Hr2 & Hl2).
    exists (bs1 ++ bs2). split; [by right|]. rewrite length_app. cbn. lia.
Qed.
Lemma written_log bs w :
  k_log k0 = [] → written bs w → Forall2 (λ b m, marshal_block b = Some m) bs (k_log (bc_producer w)).
Proof. intros H0' [(ms & -> & Hms) _ _ _]. by rewrite H0'. Qed.
Lemma reached_written bs w : reached bs w → written bs w.
Proof.
  intros [[-> ->] | Hr]; [|exact (ct_written _ _ _ Hr)].
  constructor; [exists []; by rewrite app_nil_r|done|done|done].
Qed.

(** ** Nothing gets stuck while Kafka accepts the blocks *)
Section reliable.
Context (Hsend : ∀ m k, (k_SendMessage m k).1 = true).
Lemma sendBlock_ok w :
  ∃ w', sendBlock w = Ok (true, w') ∧ send_or_panic w = Ok w' ∧ bc_messages w' = []
    ∧ bc_batchChan w' = bc_batchChan w ∧ bc_started w' = bc_started w ∧ bc_answered w' = bc_answered w.
Proof.
  unfold send_or_panic, sendBlock, Send. destruct (marshal_block_total (next_block w)) as [m ->]. cbn.
  specialize (Hsend m (bc_producer w)). destruct (k_SendMessage m (bc_producer w)) as [ok k]. cbn in Hsend. subst ok.
  by eexists.
Qed.
Lemma cut_message_ok msg w :
  ∃ w', cut_message msg w = Ok w' ∧ bc_batchChan w' = bc_batchChan w ∧ bc_started w' = bc_started w
    ∧ bc_answered w' = bc_answered w.
Proof.
  unfold cut_message. case_bool_decide; [|by eexists].
  destruct (sendBlock_ok (set_batch (bc_batchChan w) (bc_messages w ++ [marshal_envelope msg]) w))
    as (w' & _ & HS & _ & Hc & Hst & Ha).
  by exists w'.
Qed.
Lemma cut_step_ok ev w : ∃ w', cut_step ev w = Ok w'.
Proof.
  destruct ev as [|msg| |]; cbn [cut_step].
  - unfold Broadcast. destruct (bc_started w); [by eexists|].
    destruct (sendBlock_ok w) as (w' & -> & _). by eexists.
  - destruct (negb _); [by eexists|]. case_bool_decide.
    + destruct (cut_message_ok msg (answer msg w)) as (w' & -> & _). by eexists.
    + case_bool_decide; by eexists.
  - destruct (negb _); [by eexists|]. destruct (bc_batchChan w) as [|msg rest]; [by eexists|].
    destruct (cut_message_ok msg (set_batch rest (bc_messages w) w)) as (w' & -> & _). by eexists.
  - destruct (negb _); [by eexists|]. case_bool_decide; [by eexists|].
    destruct (sendBlock_ok w) as (w' & _ & -> & _). by eexists.
Qed.
Lemma cut_run_ok l w : ∃ w', cut_run l w = Ok w'.
Proof.
  revert w. induction l as [|ev l IH]; intros w; [by eexists|]. cbn.
  destruct (cut_step_ok ev w) as [w1 ->]. apply IH.
Qed.

(** The cutter empties the channel, and the timer the batch. *)
Lemma cut_run_drain n w :
  bc_started w = true → (length (bc_batchChan w) ≤ n)%nat →
  ∃ w', cut_run (replicate n CTake ++ [CTimer]) w = Ok w' ∧ bc_batchChan w' = [] ∧ bc_messages w' = []
    ∧ bc_answered w' = bc_answered w ∧ bc_started w' = true.
Proof.
  revert w. induction n as [|n IH]; intros w Hst Hn; cbn -[cut_step].
  - destruct (bc_batchChan w) eqn:Hc; [|cbn in Hn; lia]. cbn [cut_step]. rewrite Hst. cbn [negb].
    case_bool_decide; [by eexists|].
    destruct (sendBlock_ok w) as (w' & _ & -> & Hm & Hc' & Hst' & Ha). exists w'.
    split; [done|]. by rewrite Hc', Hst', Ha, Hc.
  - cbn [cut_step]. rewrite Hst. cbn [negb]. destruct (bc_batchChan w) as [|msg rest] eqn:Hc.
    + apply IH; [done|]. rewrite Hc. cbn. lia.
    + destruct (cut_message_ok msg (set_batch rest (bc_messages w) w)) as (w1 & -> & Hc1 & Hst1 & Ha1).
      cbn in Hn, Hc1, Hst1, Ha1. cbn.
      destruct (IH w1) as (w' & -> & ? & ? & Ha & ?); [congruence|rewrite Hc1; lia|].
      exists w'. by rewrite Ha.
Qed.
End reliable.
End broadcaster.

(** An orderer that starts on a topic that is not new writes the genesis block
    again, as number 0. *)
Lemma restart_writes_genesis_again k0 batchSize genesis w :
  genesis_sent k0 batchSize genesis → cut_step CConnect (newBroadcaster k0 batchSize genesis) = Ok w →
  ∃ m, marshal_block (mkBlock (mkBlockHeader 0 None (Some (BlockData_Hash genesis))) genesis None) = Some m
    ∧ k_log (bc_producer w) = k_log k0 ++ [m].
Proof.
  intros Hg HS. destruct (Broadcast_reached _ _ _ [] _ _ Hg (or_introl (conj eq_refl eq_refl)) HS) as (bs & Hr & Hl).
  pose proof Hr as [[(ms & Hlog & Hms) Hc _ _] _ _ _ _ _ Hf _].
  destruct bs as [|b [|]]; [done| |cbn in Hl; lia]. cbn in Hc, Hf, Hms. destruct Hc as [Hb _]. injection Hf as Hf.
  rewrite Hf in Hb. subst b. inversion Hms as [|? m ? ? Hm Hnil]; subst. inversion Hnil; subst. by exists m.
Qed.

(** C36. An orderer that is the only writer of a new topic, and could write the
    genesis block, writes one chain of blocks: they are numbered from 0, each has
    the hash of the header before it and of its own data; the first holds the
    genesis data; the others are neither empty nor larger than the batch size.
    Their data, the current batch and the channel together are exactly the
    genesis data followed by the messages that were answered with success, in
    order.  If Kafka accepts every block the orderer never stops, and once the
    cutter has taken what is in the channel and the timer has fired, every
    message answered is in a block. *)
Theorem kafka_writes_one_chain k0 batchSize genesis l :
  k_log k0 = [] → genesis_sent k0 batchSize genesis → Z.of_nat (length l) + batchSize + 2 < 2 ^ 64 → 0 ≤ batchSize →
  (∀ w, cut_run l (newBroadcaster k0 batchSize genesis) = Ok w →
     ∃ bs, Forall2 (λ b m, marshal_block b = Some m) bs (k_log (bc_producer w)) ∧ chain 0 None bs
       ∧ (bs ≠ [] → blk_Data <$> head bs = Some genesis)
       ∧ Forall (λ b, 1 ≤ Z.of_nat (length (blk_Data b)) ≤ batch_bound batchSize) (tail bs)
       ∧ concat (blk_Data <$> bs) ++ bc_messages w ++ (marshal_envelope <$> bc_batchChan w)
         = genesis ++ (marshal_envelope <$> bc_answered w))
  ∧ ((∀ m k, (k_SendMessage m k).1 = true) → head l = Some CConnect →
     ∃ w w' bs, cut_run l (newBroadcaster k0 batchSize genesis) = Ok w
       ∧ cut_run (replicate (Z.to_nat batchSize) CTake ++ [CTimer]) w = Ok w'
       ∧ Forall2 (λ b m, marshal_block b = Some m) bs (k_log (bc_producer w'))
       ∧ bc_answered w' = bc_answered w
       ∧ concat (blk_Data <$> bs) = genesis ++ (marshal_envelope <$> bc_answered w)).
Proof.
  intros Hnew Hg Hlen HB. split.
  - intros w HR. destruct (cut_run_new _ _ _ l _ Hg ltac:(lia) HR) as (bs & Hr & _). exists bs.
    pose proof (reached_written _ _ _ _ _ Hr) as Hw.
    split; [exact (written_log _ _ _ Hnew Hw)|]. split; [exact (wr_chain _ _ _ Hw)|].
    destruct Hr as [[-> ->] | [_ _ _ _ Hd _ Hfi Hb]]; [|done]. cbn. by rewrite app_nil_r.
  - intros Hsend Hc. destruct l as [|ev l]; [done|]. injection Hc as ->. cbn [cut_run].
    destruct (cut_step_ok Hsend CConnect (newBroadcaster k0 batchSize genesis)) as [w0 HC]. rewrite HC. cbn [mbind res_bind].
    destruct (Broadcast_reached _ _ _ [] _ _ Hg (or_introl (conj eq_refl eq_refl)) HC) as (bs0 & Hr0 & Hl0).
    destruct (cut_run_ok Hsend l w0) as [w HR]. cbn in Hlen.
    destruct (cut_run_running _ _ _ l _ _ _ Hr0 ltac:(cbn [app length] in *; lia) HR) as (bs1 & Hr1 & Hl1).
    destruct (cut_run_drain Hsend (Z.to_nat batchSize) w) as (w' & HD & Hch & Hm & Ha & _).
    { exact (ct_started _ _ _ _ _ _ Hr1). }
    { pose proof (ct_chan _ _ _ _ _ _ Hr1). lia. }
    destruct (cut_run_running _ _ _ (replicate (Z.to_nat batchSize) CTake ++ [CTimer]) _ _ w' Hr1)
      as (bs2 & Hr2 & _); [|done|].
    { rewrite !length_app, length_replicate. cbn. lia. }
    exists w, w', (([] ++ bs0) ++ bs1 ++ bs2). split; [done|]. split; [done|].
    rewrite <-!app_assoc in *. split; [exact (written_log _ _ _ Hnew (ct_written _ _ _ _ _ _ Hr2))|]. split; [done|].
    pose proof (ct_data _ _ _ _ _ _ Hr2) as Hd. rewrite Hch, Hm, Ha in Hd. cbn in Hd. by rewrite app_nil_r in Hd.
Qed.

(** ** A client

    [start]: where its last seek put it; [W]: the window of that seek; [sent0]:
    what it had been sent; [a]: how many updates it has sent since. *)
Section client.
Context (start : nat) (W : Z) (sent0 : list DeliverResponse).

(** [n] blocks have been sent since, then perhaps an error. *)
Record serves (a : Z) bs d : Prop := {
  sv_served : ∃ n tail, cd_sent d = sent0 ++ (ResponseBlock <$> take n (drop start bs)) ++ tail
    ∧ (start + n ≤ length bs)%nat
    ∧ Z.of_nat (start + n) ≤ cd_lastACK d + 1 + W
    ∧ (tail = [] ∨ ∃ st, tail = [ResponseError st])
    ∧ (cd_done d = false → tail = [] ∧ cd_consumer d = Some (Z.of_nat (start + n))
         ∧ cd_tokens d = Some (cd_lastACK d + 1 + W - Z.of_nat (start + n)));
  sv_window : cd_window d = W;
  sv_lastACK : Z.of_nat start - 1 ≤ cd_lastACK d ≤ Z.of_nat start - 1 + a * W }.

Lemma serves_log a bs bs' d : serves a bs d → serves a (bs ++ bs') d.
Proof.
  intros [(n & tl & Hs & Hn & Hw & Ht & Hd) HW HA]. constructor; [|done|done].
  exists n, tl. split; [|rewrite length_app; split_and!; (done || lia)].
  rewrite Hs, drop_app_le by lia. by rewrite take_app_le by (rewrite length_drop; lia).
Qed.
Lemma serves_later a a' bs d : 0 ≤ W → a ≤ a' → serves a bs d → serves a' bs d.
Proof. intros HW Ha [Hs Hw HA]. constructor; [done|done|nia]. Qed.
Lemma serves_return a bs d : serves a bs d → serves a bs (return_from d).
Proof.
  intros [(n & tl & Hs & Hn & Hw & Ht & _) HW HA]. constructor; [|done|done]. by exists n, tl.
Qed.

Ltac solve_serves :=
  split_and!; try first [done | lia | by left | by right; eexists | f_equal; lia];
  try (intros _; split_and!; first [done | f_equal; lia]).
Context (HW : 0 < W).
(** An acknowledgement outside the window ends the loop. *)
Lemma processACK_serves number send_ok a bs d :
  0 ≤ a → Z.of_nat start + (a + 2) * W < 2 ^ 63 → cd_done d = false → serves a bs d →
  ∃ err d', processACK number d = Ok (err, d')
    ∧ serves (a + 1) bs (match err with None => d' | Some e => return_from (send send_ok (ResponseError (status_of e)) d') end).
Proof.
  intros Ha Hb Hdn [(n & tl & Hs & Hn & Hw & Ht & Hd) Hwin HA]. destruct (Hd Hdn) as (-> & Hc & Htok).
  unfold processACK, disablePush. cbn. rewrite Htok, Hwin. cbn. rewrite (i64_small (cd_lastACK d + W)) by nia.
  repeat case_bool_decide; cbn.
  1-3: eexists _, _; split; [done|]; constructor; cbn; [|done|nia];
    exists n, (if send_ok then [ResponseError BAD_REQUEST] else []); destruct send_ok; cbn;
    rewrite Hs, ?app_nil_r, <-?app_assoc; solve_serves.
  rewrite i64_small by nia. unfold enablePush. rewrite bool_decide_false by lia. cbn. eexists _, _. split; [done|].
  constructor; cbn; [|done|nia]. exists n, []. solve_serves.
Qed.

Lemma push_block_serves avail send_ok a bs k d :
  Forall2 (λ b m, decode_block m = Some b) bs (k_log k) → cd_done d = false → serves a bs d →
  ∃ d', push_block avail send_ok k d = Ok d' ∧ serves a bs d'.
Proof.
  intros HF Hdn Hsv. pose proof Hsv as [(n & tl & Hs & Hn & Hw & Ht & Hd) Hwin HA]. destruct (Hd Hdn) as (-> & Hc & Htok).
  unfold push_block. rewrite Htok, Hc. case_bool_decide; [by eexists|]. cbn [deref mbind res_bind].
  destruct (if avail then _ else None) as [m|] eqn:Hm; [|by eexists].
  destruct avail; [|done]. apply k_Message_log in Hm as [_ Hm]. rewrite Nat2Z.id in Hm.
  destruct (Forall2_lookup_r _ _ _ _ _ HF Hm) as (b & Hb & Hdec). pose proof (lookup_lt_Some _ _ _ Hb).
  destruct send_ok; cbn [negb].
  - rewrite Hdec. cbn. eexists. split; [done|]. constructor; cbn; [|done|done]. exists (S n), []. cbn.
    rewrite (take_S_r _ _ b) by (by rewrite lookup_drop). rewrite fmap_app, Hs, !app_nil_r, <-app_assoc.
    solve_serves.
  - eexists. split; [done|]. constructor; cbn; [|done|done]. exists n, [].
    solve_serves.
Qed.

(** A client with a token left gets the next block when it has arrived. *)
Lemma push_block_next n a bs k d b m :
  Forall2 (λ b m, decode_block m = Some b) bs (k_log k) → cd_done d = false → serves a bs d →
  cd_consumer d = Some (Z.of_nat (start + n)) → Z.of_nat (start + n) < cd_lastACK d + 1 + W →
  bs !! (start + n)%nat = Some b → k_Message (Z.of_nat (start + n)) k = Some m →
  ∃ d', push_block true true k d = Ok d' ∧ cd_sent d' = cd_sent d ++ [ResponseBlock b].
Proof.
  intros HF Hdn [(n' & tl & _ & _ & _ & _ & Hd) _ _] Hc Hw Hb Hm. destruct (Hd Hdn) as (-> & Hc' & Htok).
  rewrite Hc in Hc'. injection Hc' as Hn. apply Nat2Z.inj in Hn. rewrite <-Hn in Htok.
  unfold push_block. rewrite Htok, Hc. rewrite bool_decide_false by lia. cbn [deref mbind res_bind]. rewrite Hm.
  apply k_Message_log in Hm as [_ Hm]. rewrite Nat2Z.id in Hm.
  rewrite (Forall2_lookup_lr _ _ _ _ _ _ HF Hb Hm). cbn. by eexists.
Qed.

Definition is_seek (ev : client_event) : bool :=
  match ev with KUpdate (UpdateSeek _) _ _ => true | _ => false end.
(** Until the next seek the loop does not panic. *)
Lemma client_step_serves ev dead a bs k d :
  is_seek ev = false → 0 ≤ a → Z.of_nat start + (a + 2) * W < 2 ^ 63 →
  Forall2 (λ b m, decode_block m = Some b) bs (k_log k) → serves a bs d →
  ∃ d', client_step ev dead k d = Ok d' ∧ serves (a + 1) bs d'.
Proof.
  intros Hev Ha Hb HF Hs. unfold client_step.
  assert (serves (a + 1) bs d) as Hs1 by (apply (serves_later a); [lia|lia|done]).
  destruct (cd_done d) eqn:Hdn; [by eexists|].
  destruct ev as [| |u close_ok send_ok|avail send_ok].
  - destruct dead; eexists; (split; [done|]); [by apply serves_return|done].
  - eexists. split; [done|]. by apply serves_return.
  - destruct u as [number|sk|]; [|done|by eexists].
    destruct (processACK_serves number send_ok a bs d) as (err & d' & HP & Hs'); [done..|].
    cbn [process_update]. rewrite HP. by eexists.
  - by apply push_block_serves.
Qed.
End client.

(** *** Seeking *)
Definition seek_start (si : SeekInfo) k : Z :=
  match seek_Start si with
  | OLDEST => k_oldest k
  | NEWEST => Z.of_nat (length (k_log k)) - 1
  | SPECIFIED => i64 (seek_SpecifiedNumber si)
  end.
Lemma GetOffset_oldest k o : GetOffset (-2) k = Ok (Some o) → o = k_oldest k.
Proof.
  unfold GetOffset. destruct (negb _); [done|]. destruct (k_GetAvailableOffsets (-2) k) as [l|] eqn:Hl; [|done].
  apply k_GetAvailableOffsets_oldest in Hl. subst. cbn. congruence.
Qed.
Lemma GetOffset_newest k o : GetOffset (-1) k = Ok (Some o) → o = Z.of_nat (length (k_log k)).
Proof.
  unfold GetOffset. destruct (negb _); [done|]. destruct (k_GetAvailableOffsets (-1) k) as [l|] eqn:Hl; [|done].
  apply k_GetAvailableOffsets_newest in Hl. subst. cbn. congruence.
Qed.
Lemma processSeek_ok si close_ok k d d' :
  0 < Z.of_nat (length (k_log k)) < 2 ^ 63 → processSeek (Some si) close_ok k d = Ok (None, d') →
  cd_window d' = i64 (seek_WindowSize si) ∧ 0 < cd_window d' ≤ i64 (cd_maxWindow d)
  ∧ k_oldest k ≤ seek_start si k ≤ Z.of_nat (length (k_log k))
  ∧ cd_consumer d' = Some (seek_start si k) ∧ cd_tokens d' = Some (cd_window d')
  ∧ cd_lastACK d' = seek_start si k - 1 ∧ cd_sent d' = cd_sent d ∧ cd_done d' = cd_done d.
Proof.
  intros Hlen. unfold processSeek. cbn [deref mbind res_bind].
  destruct (bool_decide _ || bool_decide _) eqn:Hwin; [done|].
  apply orb_false_iff in Hwin as [Hw1%bool_decide_eq_false Hw2%bool_decide_eq_false].
  intros HR. apply res_bind_Ok in HR as ([o|] & Ho & HR); [|done]. apply GetOffset_oldest in Ho as ->.
  apply res_bind_Ok in HR as ([nw|] & Hn & HR); [|done]. apply GetOffset_newest in Hn as ->.
  pose proof (k_oldest_range k). rewrite (i64_small (Z.of_nat _ - 1)) in HR by lia. cbv zeta in HR.
  change (match seek_Start si with OLDEST => k_oldest k | NEWEST => Z.of_nat (length (k_log k)) - 1
          | SPECIFIED => i64 (seek_SpecifiedNumber si) end) with (seek_start si k) in HR.
  destruct (match seek_Start si with SPECIFIED => _ | _ => false end) eqn:Hrange; [done|].
  assert (0 ≤ seek_start si k) as Hst.
  { unfold seek_start in *. destruct (seek_Start si); [lia..|].
    apply negb_false_iff, andb_true_iff in Hrange as [Hr%bool_decide_eq_true _]. lia. }
  destruct (_ && negb close_ok); [done|]. cbn in HR.
  destruct (k_ConsumePartition (seek_start si k) k) as [o|] eqn:Hc; [|done].
  apply k_ConsumePartition_at in Hc as [-> Hc]; [|done]. cbn in HR. unfold enablePush in HR.
  rewrite bool_decide_false in HR by (cbn; lia). injection HR as <-. cbn.
  rewrite (i64_small (seek_start si k - 1)) by lia. split_and!; (done || lia).
Qed.

(** *** The server *)
Definition broadcast_of (ev : server_event) : option cut_event :=
  match ev with SBroadcast ev => Some ev | _ => None end.
Lemma server_run_cut l s s' :
  server_run l s = Ok s' → cut_run (omap broadcast_of l) (sv_broadcaster s) = Ok (sv_broadcaster s').
Proof.
  revert s. induction l as [|ev l IH]; intros s; cbn; [congruence|].
  intros HR. apply res_bind_Ok in HR as (s1 & HS & HR). apply IH in HR.
  destruct s as [w mw dead cs], ev as [ev| |i ev|]; cbn in *.
  - apply res_bind_Ok in HS as (w1 & -> & HS). by injection HS as <-.
  - by injection HS as <-.
  - destruct (cs !! i); [apply res_bind_Ok in HS as (d1 & _ & HS)|]; by injection HS as <-.
  - destruct dead; [done|]. by injection HS as <-.
Qed.
Lemma length_broadcasts l : (length (omap broadcast_of l) ≤ length l)%nat.
Proof. induction l as [|[] l IH]; cbn; lia. Qed.

Definition seeks (i : nat) (ev : server_event) : bool :=
  match ev with SClient j ev => bool_decide (j = i) && is_seek ev | _ => false end.

Section server.
Context (k0 : K) (batchSize : Z) (genesis : list bytes) (start : nat) (W : Z) (sent0 : list DeliverResponse) (i : nat).
Context (Hnew : k_log k0 = []) (HW : 0 < W).
Lemma reached_decode bs w : reached k0 batchSize genesis bs w → Forall2 (λ b m, decode_block m = Some b) bs (k_log (bc_producer w)).
Proof.
  intros Hr%reached_written. apply (chain_decode 0 None); [done|exact (wr_chain _ _ _ Hr)|exact (written_log _ _ _ Hnew Hr)].
Qed.

Lemma server_step_serves ev s s' a bs d :
  genesis_sent k0 batchSize genesis → Z.of_nat (length bs) + 1 < 2 ^ 64 → Z.of_nat start + (a + 2) * W < 2 ^ 63 → 0 ≤ a →
  reached k0 batchSize genesis bs (sv_broadcaster s) → sv_clients s !! i = Some d → serves start W sent0 a bs d →
  seeks i ev = false → server_step ev s = Ok s' →
  ∃ bs' d', reached k0 batchSize genesis (bs ++ bs') (sv_broadcaster s') ∧ (length bs' ≤ 1)%nat ∧ sv_clients s' !! i = Some d'
    ∧ serves start W sent0 (a + 1) (bs ++ bs') d'.
Proof.
  intros Hg Hlen Hb Ha Hr Hd Hs Hev HS. destruct s as [w mw dead cs]. cbn in Hr, Hd.
  assert (serves start W sent0 (a + 1) bs d) as Hs1 by (apply (serves_later _ _ _ a); [lia|lia|done]).
  destruct ev as [ev| |j ev|]; cbn [server_step] in HS.
  - apply res_bind_Ok in HS as (w1 & HC & HS). injection HS as <-. cbn.
    destruct (cut_step_reached _ _ _ ev _ _ _ Hg Hr ltac:(lia) HC) as (bs' & Hr' & Hl).
    exists bs', d. split_and!; [done..|]. by apply serves_log.
  - injection HS as <-. exists [], d. rewrite app_nil_r. cbn. split_and!; [done|lia|by apply lookup_app_l_Some|done].
  - cbn in Hev. destruct (cs !! j) as [dj|] eqn:Hj; cycle 1.
    { injection HS as <-. exists [], d. rewrite app_nil_r. cbn. split_and!; (done || lia). }
    apply res_bind_Ok in HS as (d1 & HC & HS). injection HS as <-. cbn. exists [].
    rewrite app_nil_r. destruct (decide (j = i)) as [-> | Hne].
    + rewrite bool_decide_true in Hev by done. rewrite Hd in Hj. injection Hj as ->.
      destruct (client_step_serves start W sent0 HW ev dead a bs (bc_producer w) dj) as (d' & HC' & Hs'); [done..|by apply reached_decode|done|].
      rewrite HC in HC'. injection HC' as ->. exists d'. split_and!; [done|cbn; lia| |done].
      apply list_lookup_insert_eq. by eapply lookup_lt_Some.
    + exists d. split_and!; [done|cbn; lia| |done]. by rewrite list_lookup_insert_ne.
  - destruct dead; [done|]. injection HS as <-. exists [], d. rewrite app_nil_r. cbn. split_and!; (done || lia).
Qed.
Lemma server_run_serves l s s' a bs d :
  genesis_sent k0 batchSize genesis → Z.of_nat (length bs) + Z.of_nat (length l) < 2 ^ 64 →
  Z.of_nat start + (a + Z.of_nat (length l) + 2) * W < 2 ^ 63 → 0 ≤ a →
  reached k0 batchSize genesis bs (sv_broadcaster s) → sv_clients s !! i = Some d → serves start W sent0 a bs d →
  Forall (λ ev, seeks i ev = false) l → server_run l s = Ok s' →
  ∃ bs' d', reached k0 batchSize genesis bs' (sv_broadcaster s') ∧ sv_clients s' !! i = Some d'
    ∧ serves start W sent0 (a + Z.of_nat (length l)) bs' d'.
Proof.
  intros Hg. revert s a bs d. induction l as [|ev l IH]; intros s a bs d Hlen Hb Ha Hr Hd Hs Hl; cbn [server_run].
  - intros [= <-]. exists bs, d. by rewrite Z.add_0_r.
  - apply Forall_cons in Hl as [Hev Hl]. intros HR. apply res_bind_Ok in HR as (s1 & HS & HR).
    rewrite length_cons, Nat2Z.inj_succ in *.
    destruct (server_step_serves ev s s1 a bs d) as (bs1 & d1 & Hr1 & Hl1 & Hd1 & Hs1); [done|lia|nia|done..|].
    destruct (IH s1 (a + 1) (bs ++ bs1) d1) as (bs2 & d2 & Hr2 & Hd2 & Hs2); try done;
      [rewrite length_app; lia|nia|lia|].
    exists bs2, d2. split_and!; [done..|]. by replace (a + Z.succ (Z.of_nat (length l))) with (a + 1 + Z.of_nat (length l)) by lia.
Qed.
End server.

(** A seek that is accepted starts the service. *)
Lemma seek_serves si close_ok send_ok dead k d d' bs :
  0 < Z.of_nat (length (k_log k)) < 2 ^ 63 → Z.of_nat (length bs) = Z.of_nat (length (k_log k)) →
  client_step (KUpdate (UpdateSeek (Some si)) close_ok send_ok) dead k d = Ok d' → cd_done d' = false →
  0 < i64 (seek_WindowSize si) ∧ cd_window d' = i64 (seek_WindowSize si)
  ∧ 0 ≤ seek_start si k ≤ Z.of_nat (length bs)
  ∧ serves (Z.to_nat (seek_start si k)) (i64 (seek_WindowSize si)) (cd_sent d') 0 bs d'.
Proof.
  intros Hlen Hbs. unfold client_step. destruct (cd_done d) eqn:Hdn; [intros [= <-]; congruence|].
  intros HS. apply res_bind_Ok in HS as ([err d1] & HP & HS). injection HS as <-.
  destruct err; [done|]. intros Hdone. apply processSeek_ok in HP as (Hw & Hwin & Hst & Hc & Ht & HA & Hs & Hdn'); [|done].
  pose proof (k_oldest_range k). rewrite Hw in *. split_and!; [lia|done|lia|lia|].
  constructor; [|done|lia]. exists 0%nat, []. rewrite Nat.add_0_r, Z2Nat.id by lia.
  split_and!; [by rewrite take_0, !app_nil_r|lia|lia|by left|].
  intros _. split_and!; [done|done|]. rewrite Ht. f_equal. lia.
Qed.

End proofs.

(** ** A concrete topic *)
Module KafkaSim.
Import OrdererEnv.

(** The messages written; none is ever dropped. *)
Definition topic := list bytes.
#[global] Instance topic_kafka : Kafka topic := {|
  k_SendMessage m k := (true, k ++ [m]);
  k_Open _ := true;
  k_GetAvailableOffsets n k := Some [if bool_decide (n = -2) then 0 else Z.of_nat (length k)];
  k_ConsumePartition n k :=
    if bool_decide (n = -2) then Some 0
    else if bool_decide (n = -1) then Some (Z.of_nat (length k))
    else if bool_decide (0 ≤ n) && bool_decide (n ≤ Z.of_nat (length k)) then Some n else None;
  k_Message n k := if bool_decide (0 ≤ n) then k !! Z.to_nat n else None |}.
#[global] Instance topic_log : KafkaLog topic := {| k_log k := k; k_oldest _ := 0 |}.
#[global] Instance topic_laws : KafkaLaws topic.
Proof.
  split; cbn.
  - by intros m k k' [= <-].
  - lia.
  - intros k l [= <-]. done.
  - intros k l [= <-]. done.
  - intros n k o Hn. repeat (case_bool_decide; try lia); cbn; [|done..]. intros [= <-]. lia.
  - intros n k m. by case_bool_decide.
Qed.

#[global] Instance block_proto : BlockProto := {| marshal_block b := Some (put_block b); decode_block := get_block |}.
#[global] Instance block_proto_laws : BlockProtoLaws.
Proof.
  split.
  - by eexists.
  - intros b m Hp Hd [= <-]. exact (FileProofs.json_unmarshal_marshal (J := json) b (conj Hp Hd)).
  - intros m Hm. apply (f_equal length) in Hm. cbn in Hm. unfold hash in Hm. by rewrite sha256_length in Hm.
Qed.

Definition gen : list bytes := [[byte_of_Z 9]].
Definition msg (n : Z) : Envelope := mkEnvelope (Some [byte_of_Z n]) None.
Definition events : list cut_event := [CConnect; CRecv (msg 1); CRecv (msg 2); CTake; CTake; CRecv (msg 3); CTake].

(** Two blocks are in the topic and the third message waits for the timer. *)
Lemma kafka_writes_one_chain_witness :
  ∃ (w w' : broadcasterImpl topic) bs, cut_run events (newBroadcaster [] 2 gen) = Ok w
    ∧ cut_run (replicate 2 CTake ++ [CTimer]) w = Ok w'
    ∧ Forall2 (λ b m, marshal_block b = Some m) bs (k_log (bc_producer w'))
    ∧ bc_answered w' = bc_answered w
    ∧ concat (blk_Data <$> bs) = gen ++ (marshal_envelope <$> bc_answered w).
Proof.
  apply (kafka_writes_one_chain (K := topic) [] 2 gen events).
  - reflexivity.
  - intros m _. reflexivity.
  - vm_compute. reflexivity.
  - lia.
  - intros m k. reflexivity.
  - reflexivity.
Defined.

Definition unwrap (r : res (serverImpl topic)) : serverImpl topic :=
  match r with Ok s => s | _ => New [] 2 10 gen end.
Definition before_seek : list server_event := (SBroadcast <$> events) ++ [SDeliver].
Definition seek : SeekInfo := mkSeekInfo OLDEST 0 1.
Definition seek_ev : server_event := SClient 0 (KUpdate (UpdateSeek (Some seek)) true true).
Definition after_seek : list server_event :=
  [SClient 0 (KToken true true); SClient 0 (KToken true true); SBroadcast CTimer;
   SClient 0 (KUpdate (UpdateAcknowledgement 0) true true); SClient 0 (KToken true true)].
Definition s1 : serverImpl topic := unwrap (server_run before_seek (New [] 2 10 gen)).
Definition s2 : serverImpl topic := unwrap (server_step seek_ev s1).
Definition s3 : serverImpl topic := unwrap (server_run after_seek s2).
Definition d2 : clientDelivererImpl := mkClientDeliverer 10 (Some 0) (Some 1) (-1) 1 false [].

(** The client has got the genesis block, acknowledged it, and got the next. *)
Lemma served_two : option_map (λ d, length (cd_sent d)) (sv_clients s3 !! 0%nat) = Some 2%nat.
Proof. vm_compute. reflexivity. Qed.
End KafkaSim.
