(* ===== verification/Varint.v ===== *)
(** * Protocol-buffer primitives

    The part of the vendored [github.com/golang/protobuf/proto] the peer's
    ledger computes with directly: varints and length-delimited bytes, as
    functions and as methods of [proto.Buffer].  A buffer being encoded is its
    bytes; a buffer being decoded is its bytes from [index] on.  Go strings are
    byte strings. *)

From Stdlib Require Import Strings.Byte.
From stdpp Require Import base numbers strings gmap list.
From S2P Require Import Prelude.
Local Open Scope Z_scope.

(** ** encode.go *)
Definition maxVarintBytes : nat := 10.

(** The loop of the function [EncodeVarint], with the room left in its array. *)
Fixpoint encode_varint (room : nat) (x : Z) : bytes :=
  match room with
  | O => []
  | S room =>
      if bool_decide (x > 127)
      then byte_of_Z (Z.lor 128 (Z.land x 127)) :: encode_varint room (Z.shiftr x 7)
      else [byte_of_Z x]
  end.
Definition EncodeVarint (x : Z) : bytes := encode_varint maxVarintBytes x.

(** The method [Buffer.EncodeVarint]; ten steps shift a 64-bit integer out. *)
Fixpoint buffer_varint (steps : nat) (x : Z) (buf : bytes) : bytes :=
  match steps with
  | O => buf
  | S steps =>
      if bool_decide (x >= Z.shiftl 1 7)
      then buffer_varint steps (Z.shiftr x 7) (buf ++ [byte_of_Z (Z.lor (Z.land x 127) 128)])
      else buf ++ [byte_of_Z x]
  end.
Definition Buffer_EncodeVarint (x : Z) (buf : bytes) : bytes := buffer_varint maxVarintBytes x buf.

Definition EncodeRawBytes (b : bytes) (buf : bytes) : bytes :=
  Buffer_EncodeVarint (Z.of_nat (length b)) buf ++ b.
Definition EncodeStringBytes (s : bytes) (buf : bytes) : bytes :=
  Buffer_EncodeVarint (Z.of_nat (length s)) buf ++ s.

(** ** decode.go

    The loop [for shift := 0; shift < 64; shift += 7]: ten rounds.  [None] is
    the end of the bytes or an overflow. *)
Fixpoint decode_varint (rounds : nat) (shift x : Z) (buf : bytes) : option (Z * bytes) :=
  match rounds, buf with
  | S rounds, b :: rest =>
      let b := Z_of_byte b in
      let x := Z.lor x (u64 (Z.shiftl (Z.land b 127) shift)) in
      if bool_decide (Z.land b 128 = 0) then Some (x, rest)
      else decode_varint rounds (shift + 7) x rest
  | _, _ => None
  end.

(** The function: the integer and the number of bytes consumed, 0 on error. *)
Definition DecodeVarint (buf : bytes) : Z * Z :=
  match decode_varint 10 0 0 buf with
  | Some (x, rest) => (x, Z.of_nat (length buf) - Z.of_nat (length rest))
  | None => (0, 0)
  end.

(** The methods: the result and the buffer after it. *)
Definition decoder (A : Type) : Type := bytes → option (A * bytes).

Definition Buffer_DecodeVarint : decoder Z := decode_varint 10 0 0.

(** The slice returned is never nil.  [index + nb] cannot wrap around without
    exceeding the length of the buffer. *)
Definition DecodeRawBytes : decoder bytes := λ buf,
  '(n, buf) ← Buffer_DecodeVarint buf;
  let nb := i64 n in
  if bool_decide (nb < 0) then None else
  if bool_decide (nb > Z.of_nat (length buf)) then None else
  Some (take (Z.to_nat nb) buf, drop (Z.to_nat nb) buf).
Definition DecodeStringBytes : decoder bytes := DecodeRawBytes.

(** ** Round trips *)
Lemma varint_split (acc x s : Z) :
  0 ≤ s →
  Z.lor (Z.lor acc (Z.shiftl (Z.land x 127) s)) (Z.shiftl (Z.shiftr x 7) (s + 7))
  = Z.lor acc (Z.shiftl x s).
Proof.
  intros Hs. rewrite <-Z.lor_assoc. f_equal. apply Z.bits_inj'. intros i Hi.
  rewrite Z.lor_spec, !Z.shiftl_spec, Z.land_spec by done.
  change 127 with (Z.ones 7).
  destruct (decide (i - s < 0)).
  { rewrite !(Z.testbit_neg_r _ (i - s)), !Z.testbit_neg_r by lia. done. }
  destruct (decide (i - s < 7)).
  - rewrite Z.ones_spec_low, (Z.testbit_neg_r _ (i - (s + 7))) by lia.
    by rewrite andb_true_r, orb_false_r.
  - rewrite Z.ones_spec_high, Z.shiftr_spec by lia. rewrite andb_false_r. simpl. f_equal. lia.
Qed.

Lemma land_127 x : Z.land x 127 = x `mod` 128.
Proof. change 127 with (Z.ones 7). by rewrite Z.land_ones. Qed.

Lemma lor_128 x : 0 ≤ x < 128 → Z.lor 128 x = 128 + x.
Proof.
  intros Hx. rewrite <-Z.add_lor_land. replace (Z.land 128 x) with 0; [lia|].
  symmetry. apply Z.bits_inj'. intros i Hi. rewrite Z.land_spec, Z.bits_0.
  change 128 with (2 ^ 7). rewrite Z.pow2_bits_eqb by lia.
  destruct (Z.eqb_spec 7 i) as [<-|]; [|done]. rewrite andb_true_l.
  destruct (decide (x = 0)) as [->|]; [done|].
  apply Z.bits_above_log2; [lia|]. apply Z.log2_lt_pow2; lia.
Qed.

Lemma land_128_high x : 128 ≤ x < 256 → Z.land x 128 ≠ 0.
Proof.
  intros Hx H. assert (Z.testbit (Z.land x 128) 7 = true) as Hb; [|by rewrite H in Hb].
  rewrite Z.land_spec. change 128 with (2 ^ 7) at 1.
  rewrite Z.pow2_bits_true by lia. rewrite andb_true_r, Z.testbit_true by lia.
  change (2 ^ 7) with 128. replace (x / 128) with 1; [done|].
  apply (Z.div_unique _ _ _ (x - 128)); lia.
Qed.

Lemma land_128_low x : 0 ≤ x < 128 → Z.land x 128 = 0.
Proof.
  intros Hx. pose proof (Z.add_lor_land 128 x) as H. rewrite lor_128 in H by done.
  rewrite Z.land_comm. lia.
Qed.

Lemma decode_encode_varint n shift acc x rest :
  0 ≤ shift → 0 ≤ x < 2 ^ (7 * Z.of_nat n) → Z.shiftl x shift < 2 ^ 64 → (0 < n)%nat →
  decode_varint n shift acc (encode_varint n x ++ rest) = Some (Z.lor acc (Z.shiftl x shift), rest).
Proof.
  revert shift acc x. induction n as [|n IH]; intros shift acc x Hs Hx Hb Hn; [lia|].
  rewrite Z.shiftl_mul_pow2 in Hb by done. pose proof (Z.pow_pos_nonneg 2 shift ltac:(lia) Hs).
  assert (∀ y, 0 ≤ y ≤ x → u64 (Z.shiftl y shift) = Z.shiftl y shift) as Hu.
  { intros y Hy. rewrite Z.shiftl_mul_pow2 by done. apply u64_small. nia. }
  cbn [encode_varint]. case_bool_decide as Hc; cbn [app decode_varint]; rewrite Z_of_byte_of_Z.
  - pose proof (Z.mod_pos_bound x 128 ltac:(lia)) as Hm.
    pose proof (Z.mod_le x 128 ltac:(lia) ltac:(lia)) as Hle.
    rewrite land_127, lor_128 by done. rewrite (Z.mod_small (128 + _)) by lia.
    rewrite bool_decide_eq_false_2 by (apply land_128_high; lia).
    rewrite land_127. replace (128 + x `mod` 128) with (x `mod` 128 + 1 * 128) by lia.
    rewrite Z.mod_add, Zmod_mod, Hu by lia. rewrite Z.shiftr_div_pow2 by lia.
    rewrite Nat2Z.inj_succ in Hx.
    assert (2 ^ (7 * Z.succ (Z.of_nat n)) = 2 ^ (7 * Z.of_nat n) * 2 ^ 7) as Hpow
      by (rewrite <-Z.pow_add_r by lia; f_equal; lia).
    assert (0 ≤ x / 2 ^ 7 < 2 ^ (7 * Z.of_nat n)).
    { split; [apply Z.div_pos; lia|]. apply Z.div_lt_upper_bound; lia. }
    rewrite IH; [|lia|done| |destruct n; [simpl in Hx; lia|lia]].
    + rewrite <-Z.shiftr_div_pow2, <-land_127, varint_split by lia. done.
    + rewrite Z.shiftl_mul_pow2, Z.pow_add_r by lia.
      pose proof (Z.mul_div_le x (2 ^ 7) ltac:(lia)). nia.
  - rewrite Z.mod_small by lia. rewrite bool_decide_eq_true_2 by (apply land_128_low; lia).
    rewrite land_127, Z.mod_small, Hu by lia. done.
Qed.

(** A 64-bit integer. *)
Definition is_u64 (x : Z) : Prop := 0 ≤ x < 2 ^ 64.

Lemma Buffer_DecodeVarint_Encode x rest :
  is_u64 x → Buffer_DecodeVarint (EncodeVarint x ++ rest) = Some (x, rest).
Proof.
  intros [Hx Hx']. unfold Buffer_DecodeVarint, EncodeVarint. unfold maxVarintBytes.
  rewrite decode_encode_varint; rewrite ?Z.shiftl_0_r; simpl; try lia. done.
Qed.

Lemma DecodeVarint_Encode x rest :
  is_u64 x →
  DecodeVarint (EncodeVarint x ++ rest) = (x, Z.of_nat (length (EncodeVarint x))).
Proof.
  intros Hx. unfold DecodeVarint. fold Buffer_DecodeVarint.
  rewrite Buffer_DecodeVarint_Encode by done. rewrite length_app. f_equal. lia.
Qed.

(** Up to 127 an integer is one byte. *)
Lemma EncodeVarint_small x : x ≤ 127 → EncodeVarint x = [byte_of_Z x].
Proof.
  intros Hx. unfold EncodeVarint, maxVarintBytes. generalize 9%nat as n. intros n. simpl.
  by rewrite bool_decide_eq_false_2 by lia.
Qed.

Lemma DecodeVarint_small x rest : 0 ≤ x ≤ 127 → DecodeVarint (byte_of_Z x :: rest) = (x, 1).
Proof.
  intros Hx. pose proof (DecodeVarint_Encode x rest ltac:(unfold is_u64; lia)) as H.
  by rewrite EncodeVarint_small in H by lia.
Qed.

Lemma buffer_varint_eq n x buf : buffer_varint n x buf = buf ++ encode_varint n x.
Proof.
  revert x buf. induction n as [|n IH]; intros x buf; simpl; [by rewrite app_nil_r|].
  rewrite (bool_decide_ext (x >= Z.shiftl 1 7) (x > 127)) by (change (Z.shiftl 1 7) with 128; lia).
  case_bool_decide; [|done]. rewrite IH, <-app_assoc, Z.lor_comm. done.
Qed.

Lemma Buffer_EncodeVarint_eq x buf : Buffer_EncodeVarint x buf = buf ++ EncodeVarint x.
Proof. apply buffer_varint_eq. Qed.

Lemma encode_varint_length n x : (0 < n)%nat → (0 < length (encode_varint n x) ≤ n)%nat.
Proof.
  revert x. induction n as [|n IH]; intros x Hn; simpl; [lia|].
  case_bool_decide; simpl; [|lia]. destruct n; simpl; [lia|]. specialize (IH (Z.shiftr x 7)). simpl in IH. lia.
Qed.

(** A decoded value leaves a shorter buffer and is a 64-bit integer. *)
Lemma decode_varint_shrinks n shift x buf y rest :
  decode_varint n shift x buf = Some (y, rest) → (length rest < length buf)%nat.
Proof.
  revert shift x buf. induction n as [|n IH]; intros shift x [|b buf] H; try discriminate.
  simpl in *. case_bool_decide; [injection H as _ <-; lia|]. apply IH in H. lia.
Qed.

Lemma decode_varint_range n shift x buf y rest :
  is_u64 x → decode_varint n shift x buf = Some (y, rest) → is_u64 y.
Proof.
  revert shift x buf. induction n as [|n IH]; intros shift x [|b buf] Hx H; try discriminate.
  simpl in H.
  assert (is_u64 (Z.lor x (u64 (Z.shiftl (Z.land (Z_of_byte b) 127) shift)))) as Hl.
  { pose proof (u64_range (Z.shiftl (Z.land (Z_of_byte b) 127) shift)) as Hu.
    generalize dependent (u64 (Z.shiftl (Z.land (Z_of_byte b) 127) shift)). intros u _ Hu.
    destruct Hx as [Hx1 Hx2], Hu as [Hu1 Hu2]. split; [apply Z.lor_nonneg; lia|].
    destruct (decide (Z.lor x u = 0)) as [->|]; [lia|].
    apply Z.log2_lt_pow2; [pose proof (proj2 (Z.lor_nonneg x u)); lia|].
    rewrite Z.log2_lor by lia. apply Z.max_lub_lt.
    - destruct (decide (x = 0)) as [->|]; [done|]. apply Z.log2_lt_pow2; lia.
    - destruct (decide (u = 0)) as [->|]; [done|]. apply Z.log2_lt_pow2; lia. }
  case_bool_decide; [by injection H as <- _|]. eauto.
Qed.

Lemma Buffer_DecodeVarint_shrinks buf y rest :
  Buffer_DecodeVarint buf = Some (y, rest) → (length rest < length buf)%nat.
Proof. apply decode_varint_shrinks. Qed.

(** Lengths of Go slices are [int]s. *)
Definition len_ok {A} (l : list A) : Prop := Z.of_nat (length l) < 2 ^ 63.

Lemma EncodeRawBytes_eq b buf :
  EncodeRawBytes b buf = buf ++ EncodeVarint (Z.of_nat (length b)) ++ b.
Proof. unfold EncodeRawBytes. by rewrite Buffer_EncodeVarint_eq, app_assoc. Qed.
Lemma EncodeStringBytes_eq b buf :
  EncodeStringBytes b buf = buf ++ EncodeVarint (Z.of_nat (length b)) ++ b.
Proof. apply EncodeRawBytes_eq. Qed.

Lemma DecodeRawBytes_Encode b rest :
  len_ok b → DecodeRawBytes (EncodeVarint (Z.of_nat (length b)) ++ b ++ rest) = Some (b, rest).
Proof.
  intros Hb. unfold len_ok in Hb. unfold DecodeRawBytes.
  rewrite Buffer_DecodeVarint_Encode by (split; lia). simpl.
  rewrite i64_small by lia. rewrite bool_decide_eq_false_2 by lia.
  rewrite length_app, bool_decide_eq_false_2 by lia.
  by rewrite Nat2Z.id, take_app_length, drop_app_length.
Qed.
Lemma DecodeStringBytes_Encode b rest :
  len_ok b → DecodeStringBytes (EncodeVarint (Z.of_nat (length b)) ++ b ++ rest) = Some (b, rest).
Proof. apply DecodeRawBytes_Encode. Qed.

Lemma DecodeRawBytes_shrinks buf y rest :
  DecodeRawBytes buf = Some (y, rest) → (length rest < length buf)%nat.
Proof.
  unfold DecodeRawBytes. destruct (Buffer_DecodeVarint buf) as [[n r]|] eqn:E; [|done]. simpl.
  apply Buffer_DecodeVarint_shrinks in E. repeat case_bool_decide; try done.
  intros [= _ <-]. rewrite length_drop. lia.
Qed.

Create Rewrite HintDb varint.
#[export] Hint Rewrite Buffer_EncodeVarint_eq EncodeRawBytes_eq EncodeStringBytes_eq : varint.
#[global] Arguments EncodeVarint : simpl never.
#[global] Arguments DecodeVarint : simpl never.
#[global] Arguments Buffer_DecodeVarint : simpl never.
#[global] Arguments Buffer_EncodeVarint : simpl never.
#[global] Arguments DecodeRawBytes : simpl never.
#[global] Arguments EncodeRawBytes : simpl never.
