(* ===== verification/RWSet.v ===== *)
(** * Read-write sets (core/ledger/kvledger/txmgmt/rwset.go)

    What the simulation of a transaction read and wrote, and its serialised
    form, which travels in the transaction.  The decoder reads back what the
    encoder wrote, and returns on every input. *)

From Stdlib Require Import Strings.Byte.
From stdpp Require Import base numbers strings gmap list.
From S2P Require Import Prelude Varint.
Local Open Scope Z_scope.

(** ** Data *)
Record KVRead := mkKVRead { kr_Key : bytes; kr_Version : Z }.
Record KVWrite := mkKVWrite { kw_Key : bytes; kw_IsDelete : bool; kw_Value : slice }.
Record NsReadWriteSet := mkNsRWSet {
  ns_NameSpace : bytes; ns_Reads : list KVRead; ns_Writes : list KVWrite }.
Abbreviation TxReadWriteSet := (list NsReadWriteSet).

Definition NewKVRead (key : bytes) (version : Z) : KVRead := mkKVRead key version.
Definition NewKVWrite (key : bytes) (value : slice) : KVWrite :=
  mkKVWrite key (bool_decide (value = None)) value.
Definition SetValue (w : KVWrite) (value : slice) : KVWrite :=
  mkKVWrite (kw_Key w) (bool_decide (value = None)) value.

#[global] Instance KVRead_eq_dec : EqDecision KVRead.
Proof. solve_decision. Defined.
#[global] Instance KVWrite_eq_dec : EqDecision KVWrite.
Proof. solve_decision. Defined.
#[global] Instance NsReadWriteSet_eq_dec : EqDecision NsReadWriteSet.
Proof. solve_decision. Defined.

(** ** Marshal: append to the buffer *)
Definition KVRead_Marshal (r : KVRead) (buf : bytes) : bytes :=
  Buffer_EncodeVarint (kr_Version r) (EncodeStringBytes (kr_Key r) buf).

Definition KVWrite_Marshal (w : KVWrite) (buf : bytes) : bytes :=
  let buf := EncodeStringBytes (kw_Key w) buf in
  let deleteMarker := if kw_IsDelete w then 1 else 0 in
  let buf := Buffer_EncodeVarint deleteMarker buf in
  if bool_decide (deleteMarker = 0) then EncodeRawBytes (sl (kw_Value w)) buf else buf.

Definition NsReadWriteSet_Marshal (n : NsReadWriteSet) (buf : bytes) : bytes :=
  let buf := EncodeStringBytes (ns_NameSpace n) buf in
  let buf := Buffer_EncodeVarint (Z.of_nat (length (ns_Reads n))) buf in
  let buf := fold_left (λ buf r, KVRead_Marshal r buf) (ns_Reads n) buf in
  let buf := Buffer_EncodeVarint (Z.of_nat (length (ns_Writes n))) buf in
  fold_left (λ buf w, KVWrite_Marshal w buf) (ns_Writes n) buf.

Definition TxReadWriteSet_Marshal (t : TxReadWriteSet) : bytes :=
  let buf := Buffer_EncodeVarint (Z.of_nat (length t)) [] in
  fold_left (λ buf n, NsReadWriteSet_Marshal n buf) t buf.

(** ** Unmarshal: [None] is an error *)

(** [for i := 0; i < n; i++ { x.Unmarshal(buf) }]: every item takes at least a
    byte, so after as many items as there are bytes the next one fails. *)
Fixpoint repeat_dec {A} (fuel : nat) (n : Z) (d : decoder A) (buf : bytes)
    : option (list A * bytes) :=
  if bool_decide (n <= 0) then Some ([], buf) else
  match fuel with
  | O => None
  | S fuel =>
      '(a, buf) ← d buf;
      '(l, buf) ← repeat_dec fuel (n - 1) d buf;
      Some (a :: l, buf)
  end.

Definition KVRead_Unmarshal : decoder KVRead := λ buf,
  '(key, buf) ← DecodeStringBytes buf;
  '(version, buf) ← Buffer_DecodeVarint buf;
  Some (mkKVRead key version, buf).

Definition KVWrite_Unmarshal : decoder KVWrite := λ buf,
  '(key, buf) ← DecodeStringBytes buf;
  '(deleteMarker, buf) ← Buffer_DecodeVarint buf;
  if bool_decide (deleteMarker = 1) then Some (mkKVWrite key true None, buf) else
  '(value, buf) ← DecodeRawBytes buf;
  Some (mkKVWrite key false (Some value), buf).

Definition NsReadWriteSet_Unmarshal : decoder NsReadWriteSet := λ buf,
  '(ns, buf) ← DecodeStringBytes buf;
  '(numReads, buf) ← Buffer_DecodeVarint buf;
  '(reads, buf) ← repeat_dec (S (length buf)) (i64 numReads) KVRead_Unmarshal buf;
  '(numWrites, buf) ← Buffer_DecodeVarint buf;
  '(writes, buf) ← repeat_dec (S (length buf)) (i64 numWrites) KVWrite_Unmarshal buf;
  Some (mkNsRWSet ns reads writes, buf).

(** Bytes after the last entry are ignored. *)
Definition TxReadWriteSet_Unmarshal (b : bytes) : option TxReadWriteSet :=
  '(numEntries, buf) ← Buffer_DecodeVarint b;
  '(l, _) ← repeat_dec (S (length buf)) (i64 numEntries) NsReadWriteSet_Unmarshal buf;
  Some l.

(** ** Well-formed sets: what the constructors build from 64-bit integers and
    Go slices *)
Definition KVRead_ok (r : KVRead) : Prop := len_ok (kr_Key r) ∧ is_u64 (kr_Version r).
Definition KVWrite_ok (w : KVWrite) : Prop :=
  len_ok (kw_Key w) ∧ len_ok (sl (kw_Value w)) ∧ kw_IsDelete w = bool_decide (kw_Value w = None).
Definition Ns_ok (n : NsReadWriteSet) : Prop :=
  len_ok (ns_NameSpace n) ∧ len_ok (ns_Reads n) ∧ len_ok (ns_Writes n)
  ∧ Forall KVRead_ok (ns_Reads n) ∧ Forall KVWrite_ok (ns_Writes n).
Definition Tx_ok (t : TxReadWriteSet) : Prop := len_ok t ∧ Forall Ns_ok t.

(** ** Encoders that append *)
Definition appends {A} (enc : A → bytes → bytes) : Prop := ∀ a buf, enc a buf = buf ++ enc a [].

Lemma appends_fold {A} (enc : A → bytes → bytes) (l : list A) buf :
  appends enc → fold_left (λ buf a, enc a buf) l buf = buf ++ concat ((λ a, enc a []) <$> l).
Proof.
  intros He. revert buf. induction l as [|a l IH]; intros buf; simpl; [by rewrite app_nil_r|].
  by rewrite IH, He, <-app_assoc.
Qed.

Ltac solve_appends :=
  intros ? ?; autorewrite with varint; simpl; rewrite <-?app_assoc; done.

Lemma KVRead_appends : appends KVRead_Marshal.
Proof. unfold appends, KVRead_Marshal. solve_appends. Qed.
Lemma KVWrite_appends : appends KVWrite_Marshal.
Proof.
  intros w buf. unfold KVWrite_Marshal. autorewrite with varint. simpl.
  case_bool_decide; by rewrite <-?app_assoc.
Qed.
Lemma Ns_appends : appends NsReadWriteSet_Marshal.
Proof.
  intros n buf. unfold NsReadWriteSet_Marshal.
  rewrite !(appends_fold _ _ _ KVWrite_appends).
  autorewrite with varint. rewrite !(appends_fold _ _ _ KVRead_appends).
  simpl. by rewrite <-!app_assoc.
Qed.

(** ** Round trips *)

(** [d] reads back one [a] written by [enc], and leaves the rest. *)
Definition reads_back {A} (enc : A → bytes → bytes) (d : decoder A) (a : A) : Prop :=
  ∀ rest, d (enc a [] ++ rest) = Some (a, rest).

Lemma repeat_dec_reads_back {A} (enc : A → bytes → bytes) d (l : list A) fuel rest :
  Forall (reads_back enc d) l → (length l ≤ fuel)%nat →
  repeat_dec fuel (Z.of_nat (length l)) d (concat ((λ a, enc a []) <$> l) ++ rest) = Some (l, rest).
Proof.
  intros Hl. revert fuel. induction Hl as [|a l Ha Hl IH]; intros fuel Hf; [by destruct fuel|].
  destruct fuel as [|fuel]; simpl in Hf; [lia|].
  cbn [repeat_dec length]. rewrite bool_decide_eq_false_2 by lia.
  simpl concat. rewrite <-app_assoc, Ha. simpl.
  replace (Z.of_nat (S (length l)) - 1) with (Z.of_nat (length l)) by lia.
  rewrite IH by lia. done.
Qed.

(** With more fuel than bytes, the loop never stops for want of fuel. *)
Lemma repeat_dec_fuel {A} (d : decoder A) fuel n buf :
  (∀ b a b', d b = Some (a, b') → (length b' < length b)%nat) → (length buf < fuel)%nat →
  repeat_dec fuel n d buf = repeat_dec (S (length buf)) n d buf.
Proof.
  intros Hd. revert n buf.
  assert (∀ f1 f2 n buf, (length buf < f1)%nat → (length buf < f2)%nat →
    repeat_dec f1 n d buf = repeat_dec f2 n d buf) as Hg.
  { induction f1 as [|f1 IH]; intros [|f2] n buf H1 H2; try lia. cbn [repeat_dec].
    case_bool_decide; [done|]. destruct (d buf) as [[a b]|] eqn:E; [|done]. simpl.
    apply Hd in E. by rewrite (IH f2) by lia. }
  intros n buf Hf. apply Hg; lia.
Qed.

#[global] Arguments repeat_dec : simpl never.

Lemma encoded_length {A} (enc : A → bytes → bytes) (l : list A) :
  Forall (λ a, enc a [] ≠ []) l → (length l ≤ length (concat ((λ a, enc a []) <$> l)))%nat.
Proof.
  induction 1 as [|a l Ha _ IH]; csimpl; [lia|]. rewrite length_app.
  destruct (enc a []); [done|]. simpl. lia.
Qed.

Lemma EncodeVarint_nonempty x b : EncodeVarint x ++ b ≠ [].
Proof.
  pose proof (encode_varint_length 10 x ltac:(lia)) as H. fold maxVarintBytes in H.
  change (encode_varint maxVarintBytes x) with (EncodeVarint x) in H.
  destruct (EncodeVarint x); simpl in *; [lia|done].
Qed.

Lemma KVRead_reads_back r : KVRead_ok r → reads_back KVRead_Marshal KVRead_Unmarshal r.
Proof.
  intros [Hk Hv] rest. unfold KVRead_Marshal, KVRead_Unmarshal. autorewrite with varint.
  simpl. rewrite <-!app_assoc, DecodeStringBytes_Encode by done. simpl.
  rewrite Buffer_DecodeVarint_Encode by done. by destruct r.
Qed.

Lemma KVWrite_reads_back w : KVWrite_ok w → reads_back KVWrite_Marshal KVWrite_Unmarshal w.
Proof.
  intros (Hk & Hv & Hd) rest. unfold KVWrite_Marshal, KVWrite_Unmarshal.
  destruct w as [key del value]; simpl in *. subst del.
  destruct value as [v|]; simpl; autorewrite with varint; simpl.
  - rewrite <-!app_assoc, DecodeStringBytes_Encode by done. simpl.
    by rewrite DecodeRawBytes_Encode by done.
  - by rewrite <-!app_assoc, DecodeStringBytes_Encode by done.
Qed.

Lemma len_i64 {A} (l : list A) : len_ok l → i64 (Z.of_nat (length l)) = Z.of_nat (length l).
Proof. unfold len_ok. intros. apply i64_small. lia. Qed.
Lemma len_u64 {A} (l : list A) : len_ok l → is_u64 (Z.of_nat (length l)).
Proof. unfold len_ok, is_u64. lia. Qed.

(** The items of a counted list, after the count. *)
Lemma counted_reads_back {A} (enc : A → bytes → bytes) (d : decoder A) (l : list A) rest :
  len_ok l → Forall (reads_back enc d) l → Forall (λ a, enc a [] ≠ []) l →
  let buf := concat ((λ a, enc a []) <$> l) ++ rest in
  repeat_dec (S (length buf)) (i64 (Z.of_nat (length l))) d buf = Some (l, rest).
Proof.
  intros Hl Hr Hn buf. rewrite len_i64 by done. apply repeat_dec_reads_back; [done|].
  apply encoded_length in Hn. unfold buf. rewrite length_app. lia.
Qed.

Lemma KVRead_nonempty r : KVRead_Marshal r [] ≠ [].
Proof.
  unfold KVRead_Marshal. autorewrite with varint. simpl. rewrite <-app_assoc. apply EncodeVarint_nonempty.
Qed.
Lemma KVWrite_nonempty w : KVWrite_Marshal w [] ≠ [].
Proof.
  unfold KVWrite_Marshal. autorewrite with varint. simpl.
  case_bool_decide; rewrite <-!app_assoc; apply EncodeVarint_nonempty.
Qed.
Lemma Ns_nonempty n : NsReadWriteSet_Marshal n [] ≠ [].
Proof.
  unfold NsReadWriteSet_Marshal. rewrite (appends_fold _ _ _ KVWrite_appends).
  autorewrite with varint. rewrite (appends_fold _ _ _ KVRead_appends).
  simpl. rewrite <-!app_assoc. apply EncodeVarint_nonempty.
Qed.

Lemma Ns_reads_back n : Ns_ok n → reads_back NsReadWriteSet_Marshal NsReadWriteSet_Unmarshal n.
Proof.
  intros (Hns & Hlr & Hlw & Hr & Hw) rest.
  unfold NsReadWriteSet_Marshal, NsReadWriteSet_Unmarshal.
  rewrite (appends_fold _ _ _ KVWrite_appends). autorewrite with varint.
  rewrite (appends_fold _ _ _ KVRead_appends). simpl. rewrite <-!app_assoc.
  rewrite DecodeStringBytes_Encode by done. cbn [mbind option_bind].
  rewrite Buffer_DecodeVarint_Encode by auto using len_u64. cbn [mbind option_bind].
  rewrite (counted_reads_back KVRead_Marshal KVRead_Unmarshal);
    [|done|by eapply Forall_impl, KVRead_reads_back|apply Forall_true, KVRead_nonempty].
  cbn [mbind option_bind].
  rewrite Buffer_DecodeVarint_Encode by auto using len_u64. cbn [mbind option_bind].
  rewrite (counted_reads_back KVWrite_Marshal KVWrite_Unmarshal);
    [|done|by eapply Forall_impl, KVWrite_reads_back|apply Forall_true, KVWrite_nonempty].
  by destruct n.
Qed.

Lemma TxReadWriteSet_reads_back t rest :
  Tx_ok t → TxReadWriteSet_Unmarshal (TxReadWriteSet_Marshal t ++ rest) = Some t.
Proof.
  intros [Hl Ht]. unfold TxReadWriteSet_Marshal, TxReadWriteSet_Unmarshal.
  rewrite (appends_fold _ _ _ Ns_appends). autorewrite with varint. rewrite app_nil_l, <-app_assoc.
  rewrite Buffer_DecodeVarint_Encode by auto using len_u64. cbn [mbind option_bind].
  rewrite (counted_reads_back NsReadWriteSet_Marshal NsReadWriteSet_Unmarshal);
    [done|done|by eapply Forall_impl, Ns_reads_back|apply Forall_true, Ns_nonempty].
Qed.

(** C33. A read-write set survives serialisation: for every set built by the
    constructors [Unmarshal] reads back exactly what [Marshal] wrote (a write
    is a delete exactly when its value is nil; an empty value stays apart from
    a nil one), whatever bytes follow, so two sets with the same bytes are
    equal. *)
Theorem rwset_roundtrip (t t' : TxReadWriteSet) (rest : bytes) :
  Tx_ok t → Tx_ok t' →
  TxReadWriteSet_Unmarshal (TxReadWriteSet_Marshal t ++ rest) = Some t
  ∧ (TxReadWriteSet_Marshal t = TxReadWriteSet_Marshal t' → t = t').
Proof.
  intros Ht Ht'. split; [by apply TxReadWriteSet_reads_back|]. intros E.
  pose proof (TxReadWriteSet_reads_back t [] Ht) as H1.
  rewrite E, TxReadWriteSet_reads_back in H1 by done. congruence.
Qed.

Definition example_rwset : TxReadWriteSet :=
  [mkNsRWSet (bytes_of_string "ns1")
     [mkKVRead (bytes_of_string "a") 300; mkKVRead (bytes_of_string "b") 0]
     [NewKVWrite (bytes_of_string "c") (Some []); NewKVWrite (bytes_of_string "d") None];
   mkNsRWSet [] [] []].

Lemma rwset_roundtrip_witness :
  TxReadWriteSet_Unmarshal (TxReadWriteSet_Marshal example_rwset ++ [x07]) = Some example_rwset
  ∧ (TxReadWriteSet_Marshal example_rwset = TxReadWriteSet_Marshal [] → example_rwset = []).
Proof.
  apply rwset_roundtrip; unfold Tx_ok, Ns_ok, KVRead_ok, KVWrite_ok, len_ok, is_u64;
    repeat (split || constructor || done).
Defined.
