(* ===== verification/LedgerUtil.v ===== *)
(** * Order-preserving integers (core/ledger/util/util.go)

    Block numbers in database keys: the bytes of the number without leading
    zeros after their count, so that the order of the keys is the order of the
    numbers, also when the keys go on after the number. *)

From Stdlib Require Import Strings.Byte.
From stdpp Require Import base numbers strings gmap list.
From S2P Require Import Prelude Sha256 Varint.
Local Open Scope Z_scope.

(** [bytes.Compare]: lexicographic. *)
Fixpoint bytes_Compare (a b : bytes) : comparison :=
  match a, b with
  | [], [] => Eq
  | [], _ :: _ => Lt
  | _ :: _, [] => Gt
  | x :: a, y :: b =>
      match Z_of_byte x ?= Z_of_byte y with Eq => bytes_Compare a b | c => c end
  end.

(** [binary.BigEndian.PutUint64] and [Uint64]. *)
Definition PutUint64 (n : Z) : bytes := Sha.be_bytes 8 n.
Definition Uint64 (b : bytes) : Z := fold_left (λ acc x, acc * 256 + Z_of_byte x) b 0.

(** The index of the first byte that is not zero. *)
Fixpoint first_nonzero (i : nat) (b : bytes) : option nat :=
  match b with
  | [] => None
  | x :: b => if bool_decide (x = x00) then first_nonzero (S i) b else Some i
  end.

Definition EncodeOrderPreservingVarUint64 (number : Z) : res bytes :=
  let bs := PutUint64 number in
  let '(startingIndex, size) :=
    match first_nonzero 0 bs with Some i => (i, (8 - i)%nat) | None => (0%nat, 0%nat) end in
  let sizeBytes := EncodeVarint (Z.of_nat size) in
  if bool_decide (Z.of_nat (length sizeBytes) > 1) then Panic else
  b0 ← deref (head sizeBytes);
  Ok (b0 :: take size (drop startingIndex bs)).

(** The number and the number of bytes consumed. *)
Definition DecodeOrderPreservingVarUint64 (b : bytes) : res (Z * Z) :=
  let size := i64 (DecodeVarint b).1 in
  if bool_decide (size < 0 ∨ 8 < size) then Panic else
  if bool_decide (Z.of_nat (length b) < size + 1) then Panic else
  let decodedBytes := replicate (Z.to_nat (8 - size)) x00 ++ take (Z.to_nat size) (drop 1 b) in
  Ok (Uint64 decodedBytes, size + 1).

(** ** Big-endian numbers *)
Lemma be_bytes_S k z : Sha.be_bytes (S k) z = byte_of_Z (z / 256 ^ Z.of_nat k) :: Sha.be_bytes k z.
Proof.
  simpl. rewrite Z.shiftr_div_pow2 by lia. rewrite Z.pow_mul_r by lia. done.
Qed.

Lemma length_be_bytes k z : length (Sha.be_bytes k z) = k.
Proof. induction k; simpl; congruence. Qed.

Lemma drop_be_bytes i k z : drop i (Sha.be_bytes k z) = Sha.be_bytes (k - i) z.
Proof. revert i. induction k as [|k IH]; intros [|i]; simpl; auto. Qed.

Lemma pow256_S k : 256 ^ Z.of_nat (S k) = 256 * 256 ^ Z.of_nat k.
Proof. rewrite Nat2Z.inj_succ, Z.pow_succ_r by lia. done. Qed.

(** The bytes only depend on the number up to [256 ^ k]. *)
Lemma be_bytes_mod k z : Sha.be_bytes k (z `mod` 256 ^ Z.of_nat k) = Sha.be_bytes k z.
Proof.
  assert (∀ j, (j ≤ k)%nat → Sha.be_bytes j (z `mod` 256 ^ Z.of_nat k) = Sha.be_bytes j z) as H.
  { induction j as [|j IH]; intros Hj; [done|]. rewrite !be_bytes_S, IH by lia. f_equal.
    apply Z_of_byte_inj. rewrite !Z_of_byte_of_Z.
    assert (256 ^ Z.of_nat k = 256 ^ Z.of_nat j * (256 * 256 ^ Z.of_nat (k - S j))) as ->.
    { rewrite <-pow256_S, <-Z.pow_add_r by lia. f_equal. lia. }
    rewrite Z.rem_mul_r by lia. rewrite Z.add_comm, Z.mul_comm, Z.div_add_l by lia.
    rewrite (Z.div_small (z `mod` _)) by (apply Z.mod_pos_bound; lia). rewrite Z.add_0_r.
    rewrite Z.rem_mul_r by lia. rewrite Z.mul_comm, Z.mod_add by lia. by rewrite Zmod_mod. }
  by apply H.
Qed.

Lemma Uint64_app a b : Uint64 (a ++ b) = fold_left (λ acc x, acc * 256 + Z_of_byte x) b (Uint64 a).
Proof. unfold Uint64. by rewrite fold_left_app. Qed.

Lemma be_value k z acc :
  fold_left (λ acc x, acc * 256 + Z_of_byte x) (Sha.be_bytes k z) acc
  = acc * 256 ^ Z.of_nat k + z `mod` 256 ^ Z.of_nat k.
Proof.
  revert acc. induction k as [|k IH]; intros acc.
  { simpl. rewrite Z.mod_1_r. lia. }
  rewrite be_bytes_S. cbn [fold_left]. rewrite IH, Z_of_byte_of_Z, pow256_S, (Z.mul_comm 256).
  rewrite Z.rem_mul_r by lia. lia.
Qed.

Lemma zeros_value n : Uint64 (replicate n x00) = 0.
Proof. induction n as [|n IH]; [done|]. rewrite replicate_S_end, Uint64_app, IH. done. Qed.

(** Big-endian numbers of one width are ordered like their bytes. *)
Lemma be_bytes_Compare k a b r r' :
  0 ≤ a < b → b < 256 ^ Z.of_nat k →
  bytes_Compare (Sha.be_bytes k a ++ r) (Sha.be_bytes k b ++ r') = Lt.
Proof.
  revert a b. induction k as [|k IH]; intros a b Hab Hb; [simpl in Hb; lia|].
  rewrite !be_bytes_S. cbn [app bytes_Compare]. rewrite !Z_of_byte_of_Z.
  pose proof (Z.pow_pos_nonneg 256 (Z.of_nat k) ltac:(lia) ltac:(lia)) as Hp.
  rewrite pow256_S in Hb.
  assert (∀ z, 0 ≤ z < 256 * 256 ^ Z.of_nat k → (z / 256 ^ Z.of_nat k) `mod` 256 = z / 256 ^ Z.of_nat k) as Hd.
  { intros z Hz. apply Z.mod_small. split; [apply Z.div_pos; lia|]. apply Z.div_lt_upper_bound; lia. }
  rewrite !Hd by lia.
  pose proof (Z.div_le_mono a b (256 ^ Z.of_nat k) Hp ltac:(lia)) as Hle.
  destruct (Z.compare_spec (a / 256 ^ Z.of_nat k) (b / 256 ^ Z.of_nat k)) as [He|?|?]; [|done|lia].
  rewrite <-(be_bytes_mod k a), <-(be_bytes_mod k b). apply IH; [|apply Z.mod_pos_bound; lia].
  pose proof (Z.div_mod a (256 ^ Z.of_nat k)). pose proof (Z.div_mod b (256 ^ Z.of_nat k)).
  pose proof (Z.mod_pos_bound a (256 ^ Z.of_nat k) Hp). nia.
Qed.

(** ** The encoding in closed form *)

(** The number of bytes of [n] without leading zeros. *)
Definition width (n : Z) : nat :=
  match first_nonzero 0 (PutUint64 n) with Some i => (8 - i)%nat | None => 0%nat end.

Lemma first_nonzero_shift i b : first_nonzero i b = Nat.add i <$> first_nonzero 0 b.
Proof.
  revert i. induction b as [|x b IH]; intros i; simpl; [done|]. case_bool_decide; simpl.
  - rewrite (IH (S i)), (IH 1%nat). destruct (first_nonzero 0 b); simpl; [f_equal; lia|done].
  - f_equal. lia.
Qed.

Lemma first_nonzero_be k n :
  0 ≤ n < 256 ^ Z.of_nat k →
  match first_nonzero 0 (Sha.be_bytes k n) with
  | Some i => (i < k)%nat ∧ 256 ^ Z.of_nat (k - S i) ≤ n < 256 ^ Z.of_nat (k - i)
  | None => n = 0
  end.
Proof.
  induction k as [|k IH]; intros Hn; [simpl in *; lia|].
  rewrite be_bytes_S. cbn [first_nonzero]. rewrite pow256_S in Hn.
  pose proof (Z.pow_pos_nonneg 256 (Z.of_nat k) ltac:(lia) ltac:(lia)) as Hp.
  assert (byte_of_Z (n / 256 ^ Z.of_nat k) = x00 ↔ n < 256 ^ Z.of_nat k) as Hz.
  { transitivity (n / 256 ^ Z.of_nat k = 0).
    - split.
      + intros H. apply (f_equal Z_of_byte) in H. rewrite Z_of_byte_of_Z in H.
        rewrite Z.mod_small in H; [done|]. split; [apply Z.div_pos; lia|]. apply Z.div_lt_upper_bound; lia.
      + by intros ->.
    - rewrite Z.div_small_iff by lia. lia. }
  case_bool_decide as Hc; rewrite Hz in Hc.
  - rewrite first_nonzero_shift. specialize (IH ltac:(lia)).
    destruct (first_nonzero 0 (Sha.be_bytes k n)) as [i|]; simpl; [|done]. destruct IH. split; [lia|done].
  - split; [lia|]. rewrite Nat.sub_0_r, pow256_S. replace (S k - 1)%nat with k by lia. lia.
Qed.

Lemma width_le n : (width n ≤ 8)%nat.
Proof. unfold width. destruct (first_nonzero _ _); lia. Qed.

Lemma width_bounds n :
  is_u64 n → n < 256 ^ Z.of_nat (width n) ∧ ∀ w, n < 256 ^ Z.of_nat w → 0 ≤ n → (width n ≤ w)%nat.
Proof.
  intros [Hn Hn']. pose proof (first_nonzero_be 8 n) as H. unfold width, PutUint64.
  destruct (first_nonzero 0 (Sha.be_bytes 8 n)) as [i|].
  - destruct H as [Hi [Hlo Hhi]]; [simpl; lia|]. split; [done|]. intros w Hw _.
    destruct (decide (8 - i ≤ w)%nat); [done|].
    assert (256 ^ Z.of_nat w ≤ 256 ^ Z.of_nat (8 - S i)); [|lia].
    apply Z.pow_le_mono_r; lia.
  - rewrite H by (simpl; lia). split; [simpl; lia|]. lia.
Qed.

Lemma encode_width n :
  EncodeOrderPreservingVarUint64 n = Ok (byte_of_Z (Z.of_nat (width n)) :: Sha.be_bytes (width n) n).
Proof.
  unfold EncodeOrderPreservingVarUint64, width, PutUint64.
  destruct (first_nonzero 0 (Sha.be_bytes 8 n)) as [i|].
  - rewrite EncodeVarint_small by lia. simpl length. rewrite bool_decide_eq_false_2 by done. cbn [head deref mbind res_bind].
    rewrite drop_be_bytes, take_ge by (rewrite length_be_bytes; lia). done.
  - by rewrite EncodeVarint_small by lia.
Qed.

Lemma decode_width n rest :
  is_u64 n →
  DecodeOrderPreservingVarUint64
    ((byte_of_Z (Z.of_nat (width n)) :: Sha.be_bytes (width n) n) ++ rest)
  = Ok (n, Z.of_nat (S (width n))).
Proof.
  intros Hn. destruct (width_bounds n Hn) as [Hwn _]. pose proof (width_le n) as Hn8.
  unfold DecodeOrderPreservingVarUint64. cbn [app].
  rewrite DecodeVarint_small by lia. cbn [fst]. rewrite i64_small by lia.
  rewrite bool_decide_eq_false_2 by lia.
  cbn [length]. rewrite length_app, length_be_bytes, bool_decide_eq_false_2 by lia.
  rewrite skipn_cons, drop_0, Nat2Z.id, take_app_le, take_ge by (rewrite length_be_bytes; lia).
  rewrite Uint64_app, zeros_value, be_value. destruct Hn. rewrite Z.mod_small by lia. f_equal. f_equal; lia.
Qed.

(** Block numbers in keys keep their order: the encoder never fails, the
    decoder gives back the number and its length whatever follows, and of two
    keys that start with two numbers the one with the smaller number comes
    first in the byte order of the database, whatever follows the numbers. *)
Theorem order_preserving (n m : Z) :
  is_u64 n → is_u64 m →
  ∃ a b, EncodeOrderPreservingVarUint64 n = Ok a ∧ EncodeOrderPreservingVarUint64 m = Ok b
    ∧ (∀ rest, DecodeOrderPreservingVarUint64 (a ++ rest) = Ok (n, Z.of_nat (length a)))
    ∧ (n < m → ∀ r r', bytes_Compare (a ++ r) (b ++ r') = Lt)
    ∧ (a = b → n = m).
Proof.
  intros Hn Hm. rewrite !encode_width. eexists _, _. split; [done|]. split; [done|].
  destruct (width_bounds n Hn) as [Hwn Hminn], (width_bounds m Hm) as [Hwm _].
  pose proof (width_le n) as Hn8. pose proof (width_le m) as Hm8. split_and!.
  - intros rest. rewrite decode_width by done. cbn [length]. by rewrite length_be_bytes.
  - intros Hlt r r'. cbn [app bytes_Compare]. rewrite !Z_of_byte_of_Z, !Z.mod_small by lia.
    pose proof (Hminn (width m) ltac:(lia) ltac:(destruct Hn; lia)).
    destruct (Z.compare_spec (Z.of_nat (width n)) (Z.of_nat (width m))) as [He|?|?]; [|done|lia].
    apply Nat2Z.inj in He. rewrite He. apply be_bytes_Compare; [destruct Hn; lia|done].
  - intros Heq. pose proof (decode_width n [] Hn) as H1. rewrite Heq, decode_width in H1 by done.
    congruence.
Qed.

Lemma order_preserving_witness :
  ∃ a b, EncodeOrderPreservingVarUint64 255 = Ok a ∧ EncodeOrderPreservingVarUint64 256 = Ok b
    ∧ (∀ rest, DecodeOrderPreservingVarUint64 (a ++ rest) = Ok (255, Z.of_nat (length a)))
    ∧ (255 < 256 → ∀ r r', bytes_Compare (a ++ r) (b ++ r') = Lt)
    ∧ (a = b → 255 = 256).
Proof. apply (order_preserving 255 256); unfold is_u64; lia. Defined.
