(* ===== verification/LevelDB.v ===== *)
(** * The key-value database (core/ledger/util/db/db.go)

    The wrapper the peer's ledger uses, over the vendored LevelDB, which is an
    interface with its documented behaviour as laws: the operations act on an
    ordered map of byte strings, and any of them may fail.  An in-memory
    instance serves the examples. *)

From Stdlib Require Import Strings.Byte.
From stdpp Require Import base numbers strings sorting gmap list.
From S2P Require Import Prelude LedgerUtil.
Local Open Scope Z_scope.

(** ** LevelDB *)
Inductive get_result := GetOk (v : bytes) | GetNotFound | GetErr.

(** A batch of puts. *)
Abbreviation batch := (list (bytes * bytes)).

Class LevelDB (D : Type) := {
  ldb_Get : bytes → D → get_result;
  ldb_Put : bytes → bytes → D → option D;
  ldb_Delete : bytes → D → option D;
  ldb_Write : batch → D → option D;
  ldb_NewIterator : slice → slice → D → list (bytes * bytes) }.

Definition apply_batch (b : batch) (m : gmap bytes bytes) : gmap bytes bytes :=
  foldl (λ m kv, <[kv.1 := kv.2]> m) m b.

(** [util.Range]: a nil start is before all keys, a nil limit after them. *)
Definition in_range (start limit : slice) (k : bytes) : bool :=
  match start with Some s => negb (bool_decide (bytes_Compare k s = Lt)) | None => true end
  && match limit with Some l => bool_decide (bytes_Compare k l = Lt) | None => true end.

Definition bytes_lt (a b : bytes) : Prop := bytes_Compare a b = Lt.

Class LevelDBLaws (D : Type) `{LevelDB D} := {
  contents : D → gmap bytes bytes;
  ldb_Get_spec k d :
    match ldb_Get k d with
    | GetOk v => contents d !! k = Some v
    | GetNotFound => contents d !! k = None
    | GetErr => True
    end;
  ldb_Put_spec k v d d' : ldb_Put k v d = Some d' → contents d' = <[k := v]> (contents d);
  ldb_Delete_spec k d d' : ldb_Delete k d = Some d' → contents d' = delete k (contents d);
  ldb_Write_spec b d d' : ldb_Write b d = Some d' → contents d' = apply_batch b (contents d);
  ldb_NewIterator_spec s l d k v :
    (k, v) ∈ ldb_NewIterator s l d ↔ contents d !! k = Some v ∧ in_range s l k = true;
  ldb_NewIterator_sorted s l d : StronglySorted bytes_lt (ldb_NewIterator s l d).*1 }.

(** A database on which no operation fails. *)
Class Reliable (D : Type) `{LevelDB D} : Prop := {
  reliable_Get k d : ldb_Get k d ≠ GetErr;
  reliable_Put k v d : is_Some (ldb_Put k v d);
  reliable_Write b d : is_Some (ldb_Write b d) }.

(** ** db.go: [None] is an error, a nil value a missing key *)
Section db.
Context {D : Type} `{LevelDB D}.

Definition DB_Get (key : bytes) (d : D) : option slice :=
  match ldb_Get key d with
  | GetOk v => Some (Some v)
  | GetNotFound => Some None
  | GetErr => None
  end.
(** The [sync] flag only matters for what survives a crash. *)
Definition DB_Put (key value : bytes) (sync : bool) (d : D) : option D := ldb_Put key value d.
Definition DB_Delete (key : bytes) (sync : bool) (d : D) : option D := ldb_Delete key d.
Definition DB_GetIterator (startKey endKey : slice) (d : D) : list (bytes * bytes) :=
  ldb_NewIterator startKey endKey d.
Definition DB_WriteBatch (b : batch) (sync : bool) (d : D) : option D := ldb_Write b d.

Context `{!LevelDBLaws D}.

Lemma DB_Get_contents k d v : DB_Get k d = Some v → v = contents d !! k.
Proof.
  unfold DB_Get. pose proof (ldb_Get_spec k d). destruct (ldb_Get k d); naive_solver.
Qed.

Lemma DB_Get_reliable `{!Reliable D} k d : DB_Get k d = Some (contents d !! k).
Proof.
  destruct (DB_Get k d) as [v|] eqn:E; [by apply DB_Get_contents in E as ->|].
  unfold DB_Get in E. pose proof (reliable_Get k d). by destruct (ldb_Get k d).
Qed.
End db.

(** ** Batches *)
Lemma apply_batch_app b b' m : apply_batch (b ++ b') m = apply_batch b' (apply_batch b m).
Proof. apply foldl_app. Qed.

Lemma apply_batch_notin b m k : k ∉ b.*1 → apply_batch b m !! k = m !! k.
Proof.
  revert m. induction b as [|[k' v] b IH]; intros m Hk; [done|]. simpl in *.
  rewrite not_elem_of_cons in Hk. destruct Hk. rewrite IH by done. by rewrite lookup_insert_ne.
Qed.

(** A batch with one put per key stores its values, in any order. *)
Lemma apply_batch_lookup b m k :
  NoDup b.*1 →
  apply_batch b m !! k = match (list_to_map b : gmap bytes bytes) !! k with
                         | Some v => Some v | None => m !! k end.
Proof.
  revert m. induction b as [|[k' v] b IH]; intros m Hnd; simpl in *; [by rewrite lookup_empty|].
  apply NoDup_cons in Hnd as [Hk Hnd]. rewrite IH by done.
  destruct (decide (k = k')) as [->|Hne].
  - rewrite !lookup_insert_eq. by rewrite (not_elem_of_list_to_map_1 _ _ Hk).
  - by rewrite !lookup_insert_ne by done.
Qed.

(** ** The order of keys *)
Lemma bytes_Compare_refl a : bytes_Compare a a = Eq.
Proof. induction a as [|x a IH]; simpl; [done|]. by rewrite Z.compare_refl. Qed.

Lemma bytes_Compare_eq a b : bytes_Compare a b = Eq ↔ a = b.
Proof.
  split; [|intros ->; apply bytes_Compare_refl].
  revert b. induction a as [|x a IH]; intros [|y b]; simpl; try done.
  destruct (Z.compare_spec (Z_of_byte x) (Z_of_byte y)) as [E| |]; [|done|done].
  intros. f_equal; [by apply Z_of_byte_inj|by apply IH].
Qed.

Lemma bytes_Compare_antisym a b : bytes_Compare b a = CompOpp (bytes_Compare a b).
Proof.
  revert b. induction a as [|x a IH]; intros [|y b]; simpl; try done.
  rewrite Z.compare_antisym. by destruct (Z_of_byte x ?= Z_of_byte y); simpl.
Qed.

#[global] Instance bytes_lt_trans : Transitive bytes_lt.
Proof.
  unfold bytes_lt. intros a. induction a as [|x a IH]; intros [|y b] [|z c]; simpl; try done.
  destruct (Z.compare_spec (Z_of_byte x) (Z_of_byte y)) as [->| |]; try done.
  - destruct (Z_of_byte y ?= Z_of_byte z); eauto.
  - destruct (Z.compare_spec (Z_of_byte y) (Z_of_byte z)) as [<-| |]; try done.
    + intros _ _. by rewrite (proj2 (Z.compare_lt_iff _ _)).
    + intros _ _. by rewrite (proj2 (Z.compare_lt_iff _ _)) by lia.
Qed.
#[global] Instance bytes_lt_irrefl : Irreflexive bytes_lt.
Proof. intros a. unfold complement, bytes_lt. by rewrite bytes_Compare_refl. Qed.

Lemma bytes_lt_total a b : bytes_lt a b ∨ a = b ∨ bytes_lt b a.
Proof.
  unfold bytes_lt. rewrite (bytes_Compare_antisym a b).
  destruct (bytes_Compare a b) eqn:E; [|auto|auto]. apply bytes_Compare_eq in E. auto.
Qed.

(** A common prefix does not matter. *)
Lemma bytes_Compare_app p a b : bytes_Compare (p ++ a) (p ++ b) = bytes_Compare a b.
Proof. induction p as [|x p IH]; simpl; [done|]. by rewrite Z.compare_refl. Qed.

(** ** An in-memory database *)
Module MemDB.
Definition key_le (a b : bytes * bytes) : Prop := bytes_Compare a.1 b.1 ≠ Gt.
#[global] Instance key_le_dec : RelDecision key_le.
Proof. intros a b. unfold key_le. apply _. Defined.

#[global] Instance key_le_trans : Transitive key_le.
Proof.
  intros [a ?] [b ?] [c ?]. unfold key_le. simpl. intros Hab Hbc.
  destruct (bytes_Compare a b) eqn:E1; [by apply bytes_Compare_eq in E1 as ->| |done].
  destruct (bytes_Compare b c) eqn:E2; [apply bytes_Compare_eq in E2 as <-; by rewrite E1| |done].
  rewrite (bytes_lt_trans _ _ _ E1 E2). done.
Qed.
#[global] Instance key_le_total : Total key_le.
Proof.
  intros [a ?] [b ?]. unfold key_le. simpl. rewrite (bytes_Compare_antisym a b).
  destruct (bytes_Compare a b); simpl; auto.
Qed.

Definition entries (m : gmap bytes bytes) : list (bytes * bytes) := merge_sort key_le (map_to_list m).

#[export] Instance db : LevelDB (gmap bytes bytes) := {
  ldb_Get k d := match d !! k with Some v => GetOk v | None => GetNotFound end;
  ldb_Put k v d := Some (<[k := v]> d);
  ldb_Delete k d := Some (delete k d);
  ldb_Write b d := Some (apply_batch b d);
  ldb_NewIterator s l d := List.filter (λ kv, in_range s l kv.1) (entries d) }.

Lemma entries_sorted m : StronglySorted bytes_lt (entries m).*1.
Proof.
  assert (StronglySorted key_le (entries m)) as Hs by apply (StronglySorted_merge_sort key_le).
  assert (NoDup (entries m).*1) as Hn.
  { unfold entries. eapply NoDup_Permutation_proper; [apply fmap_Permutation, merge_sort_Permutation|].
    apply NoDup_fst_map_to_list. }
  induction Hs as [|[k v] l Hs IH Hl]; simpl in *; constructor.
  - apply IH. by apply NoDup_cons in Hn as [_ ?].
  - apply NoDup_cons in Hn as [Hk _]. rewrite Forall_fmap. rewrite Forall_forall in Hl |- *.
    intros [k' v'] Hin. specialize (Hl _ Hin). unfold key_le in Hl. simpl in *.
    destruct (bytes_lt_total k k') as [?|[->|Hgt]]; [done| |].
    + exfalso. apply Hk. apply list_elem_of_fmap. by exists (k', v').
    + rewrite (bytes_Compare_antisym k' k) in Hl. unfold bytes_lt in Hgt. by rewrite Hgt in Hl.
Qed.

Lemma sorted_filter (P : bytes * bytes → bool) l :
  StronglySorted bytes_lt l.*1 → StronglySorted bytes_lt (List.filter P l).*1.
Proof.
  induction l as [|kv l IH]; simpl; intros Hs; [constructor|].
  apply StronglySorted_inv in Hs as [Hs Hf]. destruct (P kv); simpl; [|auto].
  constructor; [auto|]. rewrite Forall_fmap in Hf |- *. rewrite Forall_forall in Hf |- *.
  intros x Hx. apply Hf. apply list_elem_of_In in Hx. apply filter_In in Hx as [Hx _]. by apply list_elem_of_In.
Qed.

#[export] Instance db_laws : LevelDBLaws (gmap bytes bytes).
Proof.
  refine {| contents := λ d, d |}; simpl.
  - intros k d. by destruct (d !! k).
  - by intros k v d d' [= <-].
  - by intros k d d' [= <-].
  - by intros b d d' [= <-].
  - intros s l d k v. rewrite list_elem_of_In, filter_In, <-list_elem_of_In. simpl.
    unfold entries. by rewrite merge_sort_Permutation, elem_of_map_to_list.
  - intros s l d. apply sorted_filter, entries_sorted.
Defined.

#[export] Instance db_reliable : Reliable (gmap bytes bytes).
Proof. split; simpl; intros; [by case_match|done..]. Qed.
End MemDB.
