(* ===== verification/PeerTypes.v ===== *)
(** * Messages of the peer

    The protobuf messages of [protos/common/common.proto] and [protos/peer]
    that proposals, endorsements and transactions are made of, with protobuf's
    marshalling as a class of its own for each message type, and the accessors
    of [protos/utils] the ledger uses. *)

From Stdlib Require Import Strings.Byte.
From stdpp Require Import base numbers strings gmap list.
From S2P Require Import Prelude.
Local Open Scope Z_scope.

(** ** Marshalling

    [proto.Marshal] fails on some messages (a nil pointer in a repeated field);
    [proto.Unmarshal] fails on some byte strings.  A [string] field is a byte
    string. *)
Class Proto (A : Type) := {
  Marshal : A → option bytes;
  Unmarshal : bytes → option A }.

(** The messages that read back as they are: protobuf does not tell an empty
    byte field from a nil one. *)
Class Canonical (A : Type) := canonical : A → Prop.

Class ProtoLaws (A : Type) `{Proto A, Canonical A} : Prop :=
  Unmarshal_Marshal (a : A) : canonical a → ∃ b, Marshal a = Some b ∧ Unmarshal b = Some a.

(** Only a message whose fields are all unset marshals to nothing. *)
Class ProtoZero (A : Type) `{Proto A, Canonical A} (zero : A) : Prop :=
  Marshal_nil (a : A) : canonical a → Marshal a = Some [] → a = zero.

(** A byte field that reads back as it is. *)
Definition field_ok (s : slice) : Prop := s ≠ Some [].

Definition is_i32 (z : Z) : Prop := - 2 ^ 31 ≤ z < 2 ^ 31.
Definition is_uint64 (z : Z) : Prop := 0 ≤ z < 2 ^ 64.
Definition timestamp_ok (t : option (Z * Z)) : Prop :=
  ∀ s n, t = Some (s, n) → - 2 ^ 63 ≤ s < 2 ^ 63 ∧ is_i32 n.

(** ** common.proto *)
Definition ENDORSER_TRANSACTION : Z := 3.
Definition CONFIGURATION_TRANSACTION : Z := 1.
Definition CONFIGURATION_ITEM : Z := 2.

(** A timestamp is seconds and nanoseconds. *)
Record ChainHeader := mkChainHeader {
  ch_Type : Z; ch_Version : Z; ch_Timestamp : option (Z * Z); ch_ChainID : slice;
  ch_TxID : bytes; ch_Epoch : Z; ch_Extension : slice }.
Record SignatureHeader := mkSignatureHeader { sh_Creator : slice; sh_Nonce : slice }.
Record Header := mkHeader {
  hdr_ChainHeader : option ChainHeader; hdr_SignatureHeader : option SignatureHeader }.
Record Payload := mkPayload { pl_Header : option Header; pl_Data : slice }.
Record Envelope := mkEnvelope { env_Payload : slice; env_Signature : slice }.

#[global] Instance SignatureHeader_canonical : Canonical SignatureHeader := λ h,
  field_ok (sh_Creator h) ∧ field_ok (sh_Nonce h).
#[global] Instance ChainHeader_canonical : Canonical ChainHeader := λ h,
  is_i32 (ch_Type h) ∧ is_i32 (ch_Version h) ∧ timestamp_ok (ch_Timestamp h)
  ∧ field_ok (ch_ChainID h) ∧ is_uint64 (ch_Epoch h) ∧ field_ok (ch_Extension h).
#[global] Instance option_canonical {A} `{Canonical A} : Canonical (option A) := λ o,
  ∀ a, o = Some a → canonical a.
#[global] Instance Header_canonical : Canonical Header := λ h,
  canonical (hdr_ChainHeader h) ∧ canonical (hdr_SignatureHeader h).
#[global] Instance Payload_canonical : Canonical Payload := λ p,
  canonical (pl_Header p) ∧ field_ok (pl_Data p).
#[global] Instance Envelope_canonical : Canonical Envelope := λ e,
  field_ok (env_Payload e) ∧ field_ok (env_Signature e).

(** ** protos/peer: proposals *)
Record ChaincodeID := mkChaincodeID { cid_Path : bytes; cid_Name : bytes }.
Record ChaincodeHeaderExtension := mkCHE {
  che_PayloadVisibility : slice; che_ChaincodeID : option ChaincodeID }.
Record ChaincodeProposalPayload := mkCPP { cpp_Input : slice; cpp_Transient : slice }.
Record Proposal := mkProposal { prop_Header : slice; prop_Payload : slice; prop_Extension : slice }.
Record SignedProposal := mkSignedProposal { sp_ProposalBytes : slice; sp_Signature : slice }.

#[global] Instance CHE_canonical : Canonical ChaincodeHeaderExtension := λ c,
  field_ok (che_PayloadVisibility c).
#[global] Instance CPP_canonical : Canonical ChaincodeProposalPayload := λ c,
  field_ok (cpp_Input c) ∧ field_ok (cpp_Transient c).
#[global] Instance Proposal_canonical : Canonical Proposal := λ p,
  field_ok (prop_Header p) ∧ field_ok (prop_Payload p) ∧ field_ok (prop_Extension p).

(** ** protos/peer: responses *)
Record Endorsement := mkEndorsement { en_Endorser : slice; en_Signature : slice }.
Record Response := mkResponse { resp_Status : Z; resp_Message : bytes; resp_Payload : slice }.
Record ProposalResponse := mkProposalResponse {
  pr_Version : Z; pr_Timestamp : option (Z * Z); pr_Response : option Response; pr_Payload : slice;
  pr_Endorsement : option Endorsement }.
Record ProposalResponsePayload := mkPRP { prp_ProposalHash : slice; prp_Extension : slice }.
Record ChaincodeAction := mkChaincodeAction { ca_Results : slice; ca_Events : slice }.

#[global] Instance Endorsement_canonical : Canonical Endorsement := λ e,
  field_ok (en_Endorser e) ∧ field_ok (en_Signature e).
#[global] Instance ProposalResponsePayload_canonical : Canonical ProposalResponsePayload := λ p,
  field_ok (prp_ProposalHash p) ∧ field_ok (prp_Extension p).
#[global] Instance ChaincodeAction_canonical : Canonical ChaincodeAction := λ a,
  field_ok (ca_Results a) ∧ field_ok (ca_Events a).

(** ** protos/peer: transactions *)
Record ChaincodeEndorsedAction := mkCEA {
  cea_ProposalResponsePayload : slice; cea_Endorsements : list (option Endorsement) }.
Record ChaincodeActionPayload := mkCAP {
  cap_ChaincodeProposalPayload : slice; cap_Action : option ChaincodeEndorsedAction }.
Record TransactionAction := mkTransactionAction { ta_Header : slice; ta_Payload : slice }.
Record Transaction := mkTransaction {
  tx_Version : Z; tx_Timestamp : option (Z * Z); tx_Actions : list (option TransactionAction) }.

#[global] Instance CEA_canonical : Canonical ChaincodeEndorsedAction := λ c,
  field_ok (cea_ProposalResponsePayload c)
  ∧ Forall (λ e, ∃ x, e = Some x ∧ canonical x) (cea_Endorsements c).
#[global] Instance CAP_canonical : Canonical ChaincodeActionPayload := λ c,
  field_ok (cap_ChaincodeProposalPayload c) ∧ canonical (cap_Action c).
#[global] Instance TransactionAction_canonical : Canonical TransactionAction := λ t,
  field_ok (ta_Header t) ∧ field_ok (ta_Payload t).
#[global] Instance Transaction_canonical : Canonical Transaction := λ t,
  is_i32 (tx_Version t) ∧ timestamp_ok (tx_Timestamp t)
  ∧ Forall (λ a, ∃ x, a = Some x ∧ canonical x) (tx_Actions t).

(** ** fabric_block.proto, fabric_transaction.proto, fabric.proto *)
Record Block2 := mkBlock2 { b2_PreviousBlockHash : slice; b2_Transactions : list bytes }.
Inductive Cause := TxIdAlreadyExists | RWConflictDuringCommit.
Record InvalidTransaction := mkInvalidTransaction {
  it_Transaction : Transaction; it_Cause : Cause }.
Record BlockchainInfo := mkBlockchainInfo {
  bi_Height : Z; bi_CurrentBlockHash : slice; bi_PreviousBlockHash : slice }.

(** ** protos/utils: accessors

    [None] is the error return; the inner option of [GetPayloads] and
    [GetActionFromEnvelope] is a pointer, which is nil without an error when
    the response payload has no extension. *)
Section utils.
Context `{!Proto Envelope, !Proto Payload, !Proto Transaction, !Proto ChaincodeActionPayload,
  !Proto ProposalResponsePayload, !Proto ChaincodeAction}.

Definition GetEnvelope (b : slice) : option Envelope := Unmarshal (sl b).
Definition GetPayload (e : Envelope) : option Payload := Unmarshal (sl (env_Payload e)).
Definition GetTransaction (txBytes : slice) : option Transaction := Unmarshal (sl txBytes).
Definition GetChaincodeActionPayload (b : slice) : option ChaincodeActionPayload := Unmarshal (sl b).
Definition GetProposalResponsePayload (b : slice) : option ProposalResponsePayload := Unmarshal (sl b).
Definition GetChaincodeAction (b : slice) : option ChaincodeAction := Unmarshal (sl b).

Definition GetPayloads (txActions : TransactionAction)
    : option (option ChaincodeActionPayload * option ChaincodeAction) :=
  ccPayload ← Unmarshal (A := ChaincodeActionPayload) (sl (ta_Payload txActions));
  match cap_Action ccPayload with
  | None => None
  | Some action =>
      match cea_ProposalResponsePayload action with
      | None => None
      | Some prpBytes =>
          pRespPayload ← Unmarshal (A := ProposalResponsePayload) prpBytes;
          match prp_Extension pRespPayload with
          | None => Some (None, None)
          | Some ext =>
              respPayload ← Unmarshal (A := ChaincodeAction) ext;
              Some (Some ccPayload, Some respPayload)
          end
      end
  end.

(** [tx.Actions[0]] panics when there is none. *)
Definition GetActionFromEnvelope (envBytes : bytes) : res (option (option ChaincodeAction)) :=
  match (env ← GetEnvelope (Some envBytes); payl ← GetPayload env; GetTransaction (pl_Data payl)) with
  | None => Ok None
  | Some tx =>
      a ← deref (head (tx_Actions tx));
      a ← deref a;
      Ok (snd <$> GetPayloads a)
  end.
End utils.
