(* ===== verification/TxMgr.v ===== *)
(** * Transaction simulation and validation
      (core/ledger/kvledger/txmgmt/lockbasedtxmgmt)

    The state database holds under the key [ns 0x00 key] the version and the
    value of a key; a deleted key keeps its version.  A simulator records the
    versions it reads and the values it writes; a block is validated by
    comparing the versions read with the committed ones (multi-version
    concurrency control), and the writes of its valid transactions are
    committed together.  The transaction manager's lock, which keeps a commit
    out while simulators and query executors are open, is the number of
    readers. *)

From Stdlib Require Import Strings.Byte.
From stdpp Require Import base numbers strings gmap list.
From S2P Require Import Prelude Varint RWSet LevelDB PeerTypes.
Local Open Scope Z_scope.

(** ** Keys and values in the database *)
Definition compositeKeySep : bytes := [x00].

Definition constructCompositeKey (ns key : bytes) : bytes := ns ++ compositeKeySep ++ key.

(** [bytes.SplitN(compositeKey, sep, 2)]: at the first separator, if any. *)
Fixpoint split_at_sep (b : bytes) : option (bytes * bytes) :=
  match b with
  | [] => None
  | c :: b => if bool_decide (c = x00) then Some ([], b)
              else '(p, r) ← split_at_sep b; Some (c :: p, r)
  end.
Definition splitCompositeKey (compositeKey : bytes) : res (bytes * bytes) :=
  deref (split_at_sep compositeKey).

Definition encodeValue (value : slice) (version : Z) : bytes :=
  let deleteMarker := if bool_decide (value = None) then 1 else 0 in
  EncodeVarint version ++ EncodeVarint deleteMarker ++ sl value.

Definition decodeValue (encodedValue : bytes) : slice * Z :=
  let '(version, len1) := DecodeVarint encodedValue in
  let '(deleteMarker, len2) := DecodeVarint (drop (Z.to_nat len1) encodedValue) in
  if bool_decide (deleteMarker = 1) then (None, version)
  else (Some (drop (Z.to_nat (len1 + len2)) encodedValue), version).

(** ** The pending updates of a block *)
Record versionedValue := mkVV { vv_value : slice; vv_version : Z }.
Abbreviation updateSet := (gmap bytes versionedValue).

Definition us_add (compositeKey : bytes) (vv : versionedValue) (u : updateSet) : updateSet :=
  <[compositeKey := vv]> u.
Definition us_exists (compositeKey : bytes) (u : updateSet) : bool :=
  bool_decide (is_Some (u !! compositeKey)).
Definition us_get (compositeKey : bytes) (u : updateSet) : option versionedValue :=
  u !! compositeKey.

Record LockBasedTxMgr (D : Type) := mkTxMgr {
  tm_db : D; tm_updateSet : option updateSet; tm_readers : nat }.
Arguments mkTxMgr {D}.
Arguments tm_db {D}.
Arguments tm_updateSet {D}.
Arguments tm_readers {D}.

(** ** The simulator's record of a transaction *)
Record kvReadCache := mkReadCache { rc_kvRead : KVRead; rc_cachedValue : slice }.
Record nsRWs := mkNsRWs { readMap : gmap bytes kvReadCache; writeMap : gmap bytes KVWrite }.
Definition newNsRWs : nsRWs := mkNsRWs ∅ ∅.
Record LockBasedTxSimulator := mkSim { sim_done : bool; sim_rwMap : gmap bytes nsRWs }.

Definition newSimulator : LockBasedTxSimulator := mkSim false ∅.

Section txmgr.
Context {D : Type} `{LevelDB D}.
Abbreviation TxMgr := (LockBasedTxMgr D).

Definition set_updateSet (u : option updateSet) (tm : TxMgr) : TxMgr :=
  mkTxMgr (tm_db tm) u (tm_readers tm).
Definition set_readers (n : nat) (tm : TxMgr) : TxMgr :=
  mkTxMgr (tm_db tm) (tm_updateSet tm) n.

Definition NewLockBasedTxMgr (d : D) : TxMgr := mkTxMgr d None 0.

(** Both take the read lock. *)
Definition NewQueryExecutor (tm : TxMgr) : bool * TxMgr := (false, set_readers (S (tm_readers tm)) tm).
Definition NewTxSimulator (tm : TxMgr) : LockBasedTxSimulator * TxMgr :=
  (newSimulator, set_readers (S (tm_readers tm)) tm).

(** ** Committed state: [None] is a database error *)
Definition getCommittedValueAndVersion (ns key : bytes) (d : D) : option (slice * Z) :=
  v ← DB_Get (constructCompositeKey ns key) d;
  match v with
  | None => Some (None, 0)
  | Some encodedValue => Some (decodeValue encodedValue)
  end.
Definition getCommitedVersion (ns key : bytes) (d : D) : option Z :=
  snd <$> getCommittedValueAndVersion ns key d.

(** The entries a scanner has still to visit. *)
Definition getCommittedRangeScanner (namespace startKey endKey : bytes) (d : D) : list (bytes * bytes) :=
  let compositeStartKey :=
    if bool_decide (startKey = []) then None else Some (constructCompositeKey namespace startKey) in
  let compositeEndKey :=
    if bool_decide (endKey = []) then None else Some (constructCompositeKey namespace endKey) in
  DB_GetIterator compositeStartKey compositeEndKey d.

(** ** Validation of a block *)
Fixpoint validate_reads (ns : bytes) (reads : list KVRead) (tm : TxMgr) : option bool :=
  match reads with
  | [] => Some true
  | kvRead :: rest =>
      let compositeKey := constructCompositeKey ns (kr_Key kvRead) in
      if match tm_updateSet tm with Some u => us_exists compositeKey u | None => false end
      then Some false else
      currentVersion ← getCommitedVersion ns (kr_Key kvRead) (tm_db tm);
      if negb (bool_decide (currentVersion = kr_Version kvRead)) then Some false
      else validate_reads ns rest tm
  end.

Fixpoint validateTx (txRWSet : TxReadWriteSet) (tm : TxMgr) : option bool :=
  match txRWSet with
  | [] => Some true
  | nsRWSet :: rest =>
      ok ← validate_reads (ns_NameSpace nsRWSet) (ns_Reads nsRWSet) tm;
      if (ok : bool) then validateTx rest tm else Some false
  end.

(** The result is whether there was no error; on an error the updates made so
    far stay. *)
Fixpoint add_writes (ns : bytes) (writes : list KVWrite) (d : D) (u : updateSet) : bool * updateSet :=
  match writes with
  | [] => (true, u)
  | kvWrite :: rest =>
      let compositeKey := constructCompositeKey ns (kw_Key kvWrite) in
      let currentVersion :=
        match us_get compositeKey u with
        | Some versionedVal => Some (vv_version versionedVal)
        | None => getCommitedVersion ns (kw_Key kvWrite) d
        end in
      match currentVersion with
      | None => (false, u)
      | Some v => add_writes ns rest d (us_add compositeKey (mkVV (kw_Value kvWrite) (u64 (v + 1))) u)
      end
  end.

Fixpoint add_ns_writes (txRWSet : TxReadWriteSet) (d : D) (u : updateSet) : bool * updateSet :=
  match txRWSet with
  | [] => (true, u)
  | nsRWSet :: rest =>
      let '(ok, u) := add_writes (ns_NameSpace nsRWSet) (ns_Writes nsRWSet) d u in
      if (ok : bool) then add_ns_writes rest d u else (false, u)
  end.

Definition addWriteSetToBatch (txRWSet : TxReadWriteSet) (tm : TxMgr) : bool * TxMgr :=
  let u := default ∅ (tm_updateSet tm) in
  let '(ok, u) := add_ns_writes txRWSet (tm_db tm) u in
  (ok, set_updateSet (Some u) tm).

Context `{!Proto Envelope, !Proto Payload, !Proto Transaction, !Proto ChaincodeActionPayload,
  !Proto ProposalResponsePayload, !Proto ChaincodeAction}.

(** The loop over the transactions: the valid ones and the invalid ones, or
    [None] for an error. *)
Fixpoint validate_txs (txs : list bytes) (valid : list bytes) (invalid : list InvalidTransaction)
    : M TxMgr (option (list bytes * list InvalidTransaction)) :=
  match txs with
  | [] => mret (Some (valid, invalid))
  | envBytes :: rest =>
      respPayload ← lift (GetActionFromEnvelope envBytes);
      match respPayload with
      | None => mret None
      | Some p =>
          action ← lift (deref p);
          match TxReadWriteSet_Unmarshal (sl (ca_Results action)) with
          | None => mret None
          | Some txRWSet =>
              v ← gets (validateTx txRWSet);
              match v with
              | None => mret None
              | Some true =>
                  tm ← get;
                  let '(ok, tm) := addWriteSetToBatch txRWSet tm in
                  _ ← modify (λ _, tm);
                  if (ok : bool) then validate_txs rest (valid ++ [envBytes]) invalid else mret None
              | Some false =>
                  validate_txs rest valid
                    (invalid ++ [mkInvalidTransaction (mkTransaction 0 None []) RWConflictDuringCommit])
              end
          end
      end
  end.

Definition ValidateAndPrepare (block : Block2) : M TxMgr (option (Block2 * list InvalidTransaction)) :=
  _ ← modify (set_updateSet (Some ∅));
  r ← validate_txs (b2_Transactions block) [] [];
  mret (match r with
        | Some (txs, invalidTxs) => Some (mkBlock2 (b2_PreviousBlockHash block) txs, invalidTxs)
        | None => None
        end).

(** The puts of a commit; the map is ranged over in some order. *)
Definition commit_batch (u : updateSet) : batch :=
  (λ kv, (kv.1, encodeValue (vv_value kv.2) (vv_version kv.2))) <$> map_to_list u.

(** With the write lock held.  The result is whether there was no error; the
    updates are dropped in both cases. *)
Definition Commit : M TxMgr bool :=
  u ← gets tm_updateSet;
  u ← lift (match u with Some u => Ok u | None => Panic end);
  tm ← get;
  match DB_WriteBatch (commit_batch u) false (tm_db tm) with
  | Some d => _ ← modify (λ tm, mkTxMgr d None (tm_readers tm)); mret true
  | None => _ ← modify (set_updateSet None); mret false
  end.

Definition Rollback : M TxMgr unit := modify (set_updateSet None).

(** ** RWLockQueryExecutor

    Its only own state is [done]. *)
Definition checkDone (done : bool) : res unit := if done then Panic else Ok tt.

Definition query_GetState (done : bool) (ns key : bytes) (tm : TxMgr) : res (option slice) :=
  _ ← checkDone done;
  Ok (fst <$> getCommittedValueAndVersion ns key (tm_db tm)).

Fixpoint query_GetStateMultipleKeys (done : bool) (namespace : bytes) (keys : list bytes) (tm : TxMgr)
    : res (option (list slice)) :=
  match keys with
  | [] => Ok (Some [])
  | key :: rest =>
      v ← query_GetState done namespace key tm;
      match v with
      | None => Ok None
      | Some value =>
          r ← query_GetStateMultipleKeys done namespace rest tm;
          Ok (match r with Some l => Some (value :: l) | None => None end)
      end
  end.

Definition query_GetStateRangeScanIterator (done : bool) (namespace startKey endKey : bytes) (tm : TxMgr)
    : res (list (bytes * bytes)) :=
  _ ← checkDone done;
  Ok (getCommittedRangeScanner namespace startKey endKey (tm_db tm)).

(** [RUnlock] of a lock that is not held is fatal. *)
Definition query_Done (tm : TxMgr) : res (bool * TxMgr) :=
  match tm_readers tm with
  | O => Panic
  | S n => Ok (true, set_readers n tm)
  end.

(** A key, its version and its value; a nil value is a deleted key. *)
Definition scanner_next (entries : list (bytes * bytes))
    : res (option (bytes * Z * slice) * list (bytes * bytes)) :=
  match entries with
  | [] => Ok (None, [])
  | (k, v) :: rest =>
      sp ← splitCompositeKey k;
      let '(value, version) := decodeValue v in
      Ok (Some (sp.2, version, value), rest)
  end.

(** [qKVItr.Next]: the recursion skips deleted keys. *)
Fixpoint qKVItr_Next (entries : list (bytes * bytes))
    : res (option (bytes * bytes) * list (bytes * bytes)) :=
  match entries with
  | [] => Ok (None, [])
  | e :: rest =>
      r ← scanner_next [e];
      match r.1 with
      | Some (key, _, Some value) => Ok (Some (key, value), rest)
      | _ => qKVItr_Next rest
      end
  end.

(** ** LockBasedTxSimulator *)
Abbreviation Sim := LockBasedTxSimulator.

Definition getOrCreateNsRWHolder (ns : bytes) : M Sim nsRWs :=
  m ← gets sim_rwMap;
  match m !! ns with
  | Some n => mret n
  | None => _ ← modify (λ s, mkSim (sim_done s) (<[ns := newNsRWs]> (sim_rwMap s))); mret newNsRWs
  end.

Definition put_read (ns key : bytes) (c : kvReadCache) : M Sim unit :=
  modify (λ s, mkSim (sim_done s)
    (alter (λ n, mkNsRWs (<[key := c]> (readMap n)) (writeMap n)) ns (sim_rwMap s))).
Definition put_write (ns key : bytes) (w : KVWrite) : M Sim unit :=
  modify (λ s, mkSim (sim_done s)
    (alter (λ n, mkNsRWs (readMap n) (<[key := w]> (writeMap n))) ns (sim_rwMap s))).

Definition GetState (ns key : bytes) (tm : TxMgr) : M Sim (option slice) :=
  done ← gets sim_done;
  _ ← lift (checkDone done);
  nsRWs ← getOrCreateNsRWHolder ns;
  match writeMap nsRWs !! key with
  | Some kvWrite => mret (Some (kw_Value kvWrite))
  | None =>
      match readMap nsRWs !! key with
      | Some readCache => mret (Some (rc_cachedValue readCache))
      | None =>
          match getCommittedValueAndVersion ns key (tm_db tm) with
          | None => mret None
          | Some (value, version) =>
              _ ← put_read ns key (mkReadCache (NewKVRead key version) value);
              mret (Some value)
          end
      end
  end.

Definition SetState (ns key : bytes) (value : slice) : M Sim unit :=
  done ← gets sim_done;
  _ ← lift (checkDone done);
  nsRWs ← getOrCreateNsRWHolder ns;
  match writeMap nsRWs !! key with
  | Some kvWrite => put_write ns key (SetValue kvWrite value)
  | None => put_write ns key (NewKVWrite key value)
  end.

Definition DeleteState (ns key : bytes) : M Sim unit := SetState ns key None.

Fixpoint SetStateMultipleKeys (namespace : bytes) (kvs : list (bytes * slice)) : M Sim unit :=
  match kvs with
  | [] => mret tt
  | (k, v) :: rest => _ ← SetState namespace k v; SetStateMultipleKeys namespace rest
  end.

(** The method of the embedded executor, which calls the executor's own
    [GetState]. *)
Definition GetStateMultipleKeys (namespace : bytes) (keys : list bytes) (tm : TxMgr)
    : M Sim (option (list slice)) :=
  done ← gets sim_done;
  lift (query_GetStateMultipleKeys done namespace keys tm).

Definition GetStateRangeScanIterator (namespace startKey endKey : bytes) (tm : TxMgr)
    : M Sim (list (bytes * bytes)) :=
  done ← gets sim_done;
  _ ← lift (checkDone done);
  mret (getCommittedRangeScanner namespace startKey endKey (tm_db tm)).

(** [sKVItr.Next]: what is returned is recorded as read. *)
Fixpoint sKVItr_Next (namespace : bytes) (entries : list (bytes * bytes))
    : M Sim (option (bytes * bytes) * list (bytes * bytes)) :=
  match entries with
  | [] => mret (None, [])
  | e :: rest =>
      r ← lift (scanner_next [e]);
      match r.1 with
      | Some (key, version, Some value) =>
          _ ← getOrCreateNsRWHolder namespace;
          _ ← put_read namespace key (mkReadCache (mkKVRead key version) (Some value));
          mret (Some (key, value), rest)
      | _ => sKVItr_Next namespace rest
      end
  end.

Definition Done (tm : TxMgr) : M Sim TxMgr :=
  r ← lift (query_Done tm);
  _ ← modify (λ s, mkSim true (sim_rwMap s));
  mret r.2.

(** *** The read-write set

    [order n l]: the order in which the [n]-th map is ranged over. *)
Context (order : nat → list bytes → list bytes).

Definition getSortedKeys {V} (n : nat) (m : gmap bytes V) : list bytes := order n (map_to_list m).*1.

Fixpoint ns_rwsets (n : nat) (namespaces : list bytes) (m : gmap bytes nsRWs) : TxReadWriteSet :=
  match namespaces with
  | [] => []
  | ns :: rest =>
      let nsReadWriteMap := default newNsRWs (m !! ns) in
      let reads := omap (λ key, rc_kvRead <$> readMap nsReadWriteMap !! key)
        (getSortedKeys (2 * n + 1) (readMap nsReadWriteMap)) in
      let writes := omap (λ key, writeMap nsReadWriteMap !! key)
        (getSortedKeys (2 * n + 2) (writeMap nsReadWriteMap)) in
      mkNsRWSet ns reads writes :: ns_rwsets (S n) rest m
  end.

Definition getTxReadWriteSet (s : Sim) : TxReadWriteSet :=
  ns_rwsets 0 (getSortedKeys 0 (sim_rwMap s)) (sim_rwMap s).

Definition GetTxSimulationResults (s : Sim) : bytes := TxReadWriteSet_Marshal (getTxReadWriteSet s).

End txmgr.
