(* ===== verification/TxMgrProofs.v ===== *)
(** * Serializability of validated transactions

    A chaincode is a program that reads and writes keys; its meaning is a
    function on the key-value state.  The transactions of a block that are
    found valid have, together, the effect of running their chaincodes one
    after the other in block order, although each was simulated earlier, on a
    state that has changed since. *)

From Stdlib Require Import Strings.Byte.
From stdpp Require Import base numbers strings functions relations gmap list.
From S2P Require Import Prelude Varint RWSet LevelDB PeerTypes TxMgr.
Local Open Scope Z_scope.

(** ** Keys and values *)

(** A namespace without the separator byte. *)
Definition no_sep (ns : bytes) : Prop := x00 ∉ ns.
#[global] Instance no_sep_dec ns : Decision (no_sep ns).
Proof. unfold no_sep. apply _. Defined.

Lemma split_constructCompositeKey ns key :
  no_sep ns → split_at_sep (constructCompositeKey ns key) = Some (ns, key).
Proof.
  unfold no_sep, constructCompositeKey. induction ns as [|c ns IH]; intros Hns; simpl in *; [done|].
  rewrite not_elem_of_cons in Hns. destruct Hns as [Hc Hns].
  rewrite bool_decide_eq_false_2 by (intros ->; done). by rewrite IH.
Qed.

Lemma constructCompositeKey_inj ns key ns' key' :
  no_sep ns → no_sep ns' → constructCompositeKey ns key = constructCompositeKey ns' key' →
  ns = ns' ∧ key = key'.
Proof.
  intros Hns Hns' E. apply (f_equal split_at_sep) in E.
  rewrite !split_constructCompositeKey in E by done. naive_solver.
Qed.

Lemma decode_encodeValue value version :
  is_u64 version → decodeValue (encodeValue value version) = (value, version).
Proof.
  intros Hv. unfold decodeValue, encodeValue. rewrite DecodeVarint_Encode by done.
  rewrite Nat2Z.id, drop_app_length.
  destruct value as [v|]; simpl bool_decide; cbn [sl default]; rewrite DecodeVarint_Encode by done.
  - rewrite bool_decide_eq_false_2 by done. do 2 f_equal.
    rewrite Z2Nat.inj_add, !Nat2Z.id, app_assoc, <-length_app by lia. apply drop_app_length.
  - done.
Qed.

Lemma decodeValue_version b : is_u64 (decodeValue b).2.
Proof.
  assert (∀ b, is_u64 (DecodeVarint b).1) as Hd.
  { intros c. unfold DecodeVarint. destruct (decode_varint 10 0 0 c) as [[x r]|] eqn:E; simpl.
    - eapply decode_varint_range; [|exact E]. unfold is_u64. lia.
    - unfold is_u64. lia. }
  unfold decodeValue. specialize (Hd b). destruct (DecodeVarint b) as [v l].
  destruct (DecodeVarint _) as [m l2]. by case_bool_decide.
Qed.

(** ** Chaincode *)
Inductive chaincode :=
  | CDone
  | CGet (ns key : bytes) (k : slice → chaincode)
  | CSet (ns key : bytes) (v : slice) (c : chaincode).

(** A key-value state: what every key of every namespace holds. *)
Definition kvstate : Type := bytes * bytes → slice.

Definition kv_set (p : bytes * bytes) (v : slice) (st : kvstate) : kvstate := λ q,
  if decide (q = p) then v else st q.

Fixpoint exec (c : chaincode) (st : kvstate) : kvstate :=
  match c with
  | CDone => st
  | CGet ns key k => exec (k (st (ns, key))) st
  | CSet ns key v c => exec c (kv_set (ns, key) v st)
  end.

(** It only uses namespaces without the separator. *)
Fixpoint chaincode_ok (c : chaincode) : Prop :=
  match c with
  | CDone => True
  | CGet ns _ k => no_sep ns ∧ ∀ v, chaincode_ok (k v)
  | CSet ns _ _ c => no_sep ns ∧ chaincode_ok c
  end.

(** States that agree on those namespaces. *)
#[global] Instance kv_equiv : Equiv kvstate := λ st st',
  ∀ ns key, no_sep ns → st (ns, key) = st' (ns, key).
#[global] Instance kv_equiv_equivalence : Equivalence (≡@{kvstate}).
Proof.
  split.
  - by intros st ns key.
  - intros st st' E ns key Hns. by rewrite E.
  - intros a b c E1 E2 ns key Hns. by rewrite E1, E2.
Qed.

#[global] Instance kv_set_proper p v : Proper ((≡) ==> (≡)) (kv_set p v).
Proof. intros st st' E ns key Hns. unfold kv_set. case_decide; auto. Qed.

Lemma exec_proper c : chaincode_ok c → Proper ((≡) ==> (≡)) (exec c).
Proof.
  induction c as [|ns key k IH|ns key v c IH]; simpl; intros Hok st st' E; [done| |].
  - destruct Hok as [Hns Hk]. rewrite (E ns key Hns). by apply IH.
  - destruct Hok as [Hns Hk]. apply IH; [done|]. by rewrite E.
Qed.

(** ** What a simulator has recorded *)
Definition reads_of (s : LockBasedTxSimulator) (p : bytes * bytes) : option kvReadCache :=
  n ← sim_rwMap s !! p.1; readMap n !! p.2.
Definition writes_of (s : LockBasedTxSimulator) (p : bytes * bytes) : option KVWrite :=
  n ← sim_rwMap s !! p.1; writeMap n !! p.2.

(** The state with the simulator's writes on top. *)
Definition overlay (s : LockBasedTxSimulator) (st : kvstate) : kvstate := λ p,
  match writes_of s p with Some w => kw_Value w | None => st p end.

Lemma wp_Ok {S A} (m : M S A) Q s a s' : wp m Q s → m s = Ok (a, s') → Q a s'.
Proof. intros. by eapply wp_intro. Qed.

Section simulation.
Context {D : Type} `{LevelDB D} `{!LevelDBLaws D}.

(** The committed value and version of a key. *)
Definition committed (d : D) (ck : bytes) : slice * Z :=
  match contents d !! ck with Some e => decodeValue e | None => (None, 0) end.
Definition val (d : D) (ck : bytes) : slice := (committed d ck).1.
Definition ver (d : D) (ck : bytes) : Z := (committed d ck).2.
Definition vals (d : D) : kvstate := λ p, val d (constructCompositeKey p.1 p.2).

Lemma getCommitted_committed ns key d x :
  getCommittedValueAndVersion ns key d = Some x → x = committed d (constructCompositeKey ns key).
Proof.
  unfold getCommittedValueAndVersion, committed.
  destruct (DB_Get _ d) as [v|] eqn:E; [|done]. apply DB_Get_contents in E as ->. simpl.
  destruct (contents d !! _); naive_solver.
Qed.
Lemma getCommitted_reliable `{!Reliable D} ns key d :
  getCommittedValueAndVersion ns key d = Some (committed d (constructCompositeKey ns key)).
Proof.
  unfold getCommittedValueAndVersion, committed. rewrite DB_Get_reliable. simpl.
  by destruct (contents d !! _).
Qed.

Lemma ver_range d ck : is_u64 (ver d ck).
Proof.
  unfold ver, committed. destruct (contents d !! ck) as [e|]; [apply decodeValue_version|].
  simpl. unfold is_u64. lia.
Qed.

(** What holds of an open simulator over the database [d]: it has recorded the
    committed versions and values of what it read. *)
Record sim_inv (d : D) (s : LockBasedTxSimulator) : Prop := {
  si_ns ns n : sim_rwMap s !! ns = Some n → no_sep ns;
  si_reads p c : reads_of s p = Some c →
    rc_kvRead c = mkKVRead p.2 (ver d (constructCompositeKey p.1 p.2)) ∧ rc_cachedValue c = vals d p;
  si_writes p w : writes_of s p = Some w →
    kw_Key w = p.2 ∧ kw_IsDelete w = bool_decide (kw_Value w = None) }.

Lemma sim_inv_new d : sim_inv d newSimulator.
Proof.
  split; unfold reads_of, writes_of; simpl; intros *; rewrite lookup_empty; done.
Qed.

(** Simulators that have read and written the same keys. *)
Definition same_records (s s' : LockBasedTxSimulator) : Prop :=
  (∀ p, reads_of s' p = reads_of s p) ∧ (∀ p, writes_of s' p = writes_of s p).

Lemma wp_getOrCreateNsRWHolder ns s (Q : nsRWs → LockBasedTxSimulator → Prop) :
  (∀ n s', sim_rwMap s' !! ns = Some n → sim_done s' = sim_done s → same_records s s' →
     (∀ ns' n', sim_rwMap s' !! ns' = Some n' → ns' = ns ∨ sim_rwMap s !! ns' = Some n') → Q n s') →
  wp (getOrCreateNsRWHolder ns) Q s.
Proof.
  intros HQ. unfold getOrCreateNsRWHolder. apply wp_bind, wp_gets.
  destruct (sim_rwMap s !! ns) as [n|] eqn:E.
  - apply wp_ret, HQ; eauto; by split.
  - apply wp_bind, wp_modify, wp_ret, HQ; simpl; [by rewrite lookup_insert_eq|done| |].
    + split; intros p; unfold reads_of, writes_of; simpl;
        (destruct (decide (p.1 = ns)) as [->|];
         [by rewrite lookup_insert_eq, E|by rewrite lookup_insert_ne]).
    + intros ns' n' Hn'. destruct (decide (ns' = ns)); [by left|]. rewrite lookup_insert_ne in Hn'; auto.
Qed.

Lemma reads_of_put_read ns key c s n p :
  sim_rwMap s !! ns = Some n →
  reads_of (mkSim (sim_done s) (alter (λ n, mkNsRWs (<[key := c]> (readMap n)) (writeMap n)) ns (sim_rwMap s))) p
  = if decide (p = (ns, key)) then Some c else reads_of s p.
Proof.
  intros Hn. destruct p as [ns' key']. unfold reads_of. simpl.
  destruct (decide (ns' = ns)) as [->|].
  - rewrite lookup_alter_eq, Hn. simpl. destruct (decide (key' = key)) as [->|].
    + by rewrite lookup_insert_eq, decide_True.
    + rewrite lookup_insert_ne by done. by rewrite decide_False by naive_solver.
  - rewrite lookup_alter_ne by done. by rewrite decide_False by naive_solver.
Qed.
Lemma writes_of_put_read ns key c s p :
  writes_of (mkSim (sim_done s) (alter (λ n, mkNsRWs (<[key := c]> (readMap n)) (writeMap n)) ns (sim_rwMap s))) p
  = writes_of s p.
Proof.
  destruct p as [ns' key']. unfold writes_of. simpl. destruct (decide (ns' = ns)) as [->|].
  - rewrite lookup_alter_eq. by destruct (sim_rwMap s !! ns).
  - by rewrite lookup_alter_ne.
Qed.
Lemma writes_of_put_write ns key w s n p :
  sim_rwMap s !! ns = Some n →
  writes_of (mkSim (sim_done s) (alter (λ n, mkNsRWs (readMap n) (<[key := w]> (writeMap n))) ns (sim_rwMap s))) p
  = if decide (p = (ns, key)) then Some w else writes_of s p.
Proof.
  intros Hn. destruct p as [ns' key']. unfold writes_of. simpl.
  destruct (decide (ns' = ns)) as [->|].
  - rewrite lookup_alter_eq, Hn. simpl. destruct (decide (key' = key)) as [->|].
    + by rewrite lookup_insert_eq, decide_True.
    + rewrite lookup_insert_ne by done. by rewrite decide_False by naive_solver.
  - rewrite lookup_alter_ne by done. by rewrite decide_False by naive_solver.
Qed.
Lemma reads_of_put_write ns key w s p :
  reads_of (mkSim (sim_done s) (alter (λ n, mkNsRWs (readMap n) (<[key := w]> (writeMap n))) ns (sim_rwMap s))) p
  = reads_of s p.
Proof.
  destruct p as [ns' key']. unfold reads_of. simpl. destruct (decide (ns' = ns)) as [->|].
  - rewrite lookup_alter_eq. by destruct (sim_rwMap s !! ns).
  - by rewrite lookup_alter_ne.
Qed.

(** The keys of the map that [alter] leaves. *)
Lemma alter_ns (f : nsRWs → nsRWs) (ns : bytes) (m : gmap bytes nsRWs) ns' n' :
  alter f ns m !! ns' = Some n' → is_Some (m !! ns').
Proof.
  destruct (decide (ns' = ns)) as [->|].
  - rewrite lookup_alter_eq. destruct (m !! ns); naive_solver.
  - rewrite lookup_alter_ne by done. eauto.
Qed.

Lemma sim_inv_same d s s' :
  sim_inv d s → same_records s s' →
  (∀ ns n, sim_rwMap s' !! ns = Some n → no_sep ns) → sim_inv d s'.
Proof.
  intros [? Hr Hw] [Er Ew] Hns. split; [done| |]; intros p x.
  - rewrite Er. apply Hr.
  - rewrite Ew. apply Hw.
Qed.

(** ** One operation of the simulator *)

(** [GetState] returns the value under the simulator's own writes, and records
    what it takes from the database. *)
Lemma wp_GetState ns key (tm : LockBasedTxMgr D) s :
  no_sep ns → sim_inv (tm_db tm) s → sim_done s = false →
  wp (GetState ns key tm) (λ r s', sim_inv (tm_db tm) s' ∧ sim_done s' = false
    ∧ (∀ p, writes_of s' p = writes_of s p)
    ∧ (∀ p c, reads_of s p = Some c → reads_of s' p = Some c)
    ∧ (∀ v, r = Some v → v = overlay s (vals (tm_db tm)) (ns, key)
         ∧ (writes_of s (ns, key) = None → ∃ c, reads_of s' (ns, key) = Some c ∧ rc_cachedValue c = v))
    ∧ (r = None → getCommittedValueAndVersion ns key (tm_db tm) = None)) s.
Proof.
  intros Hns Hinv Hd. unfold GetState. apply wp_bind, wp_gets. rewrite Hd.
  apply wp_bind, wp_lift; [done|]. intros _ _. apply wp_bind, wp_getOrCreateNsRWHolder.
  intros n s1 Hn Hd1 [Er Ew] Hdom. rewrite Hd in Hd1.
  assert (sim_inv (tm_db tm) s1) as Hinv1.
  { eapply sim_inv_same; [done|by split|]. intros ns' n' [->|Hn']%Hdom; [done|]. by eapply si_ns. }
  assert (writeMap n !! key = writes_of s (ns, key)) as Hw by (rewrite <-Ew; unfold writes_of; simpl; by rewrite Hn).
  assert (readMap n !! key = reads_of s (ns, key)) as Hr by (rewrite <-Er; unfold reads_of; simpl; by rewrite Hn).
  rewrite Hw. unfold overlay. destruct (writes_of s (ns, key)) as [w|] eqn:Ew'.
  { apply wp_ret. split_and!; try done; [intros p c; by rewrite Er|]. by intros v [= <-]. }
  rewrite Hr. destruct (reads_of s (ns, key)) as [c|] eqn:Er'.
  { apply wp_ret. destruct (si_reads _ _ Hinv _ _ Er') as [_ Hc].
    split_and!; try done; [intros p c'; by rewrite Er|]. intros v [= <-]. split; [done|].
    intros _. exists c. by rewrite Er. }
  destruct (getCommittedValueAndVersion ns key (tm_db tm)) as [[value version]|] eqn:Eg.
  - apply getCommitted_committed in Eg. apply wp_bind, wp_modify, wp_ret. simpl.
    assert (∀ p, reads_of (mkSim (sim_done s1) (alter (λ n, mkNsRWs (<[key :=
      mkReadCache (NewKVRead key version) value]> (readMap n)) (writeMap n)) ns (sim_rwMap s1))) p
      = if decide (p = (ns, key)) then Some (mkReadCache (NewKVRead key version) value) else reads_of s p) as HR.
    { intros p. rewrite (reads_of_put_read _ _ _ _ _ _ Hn). by rewrite Er. }
    unfold put_read. split_and!.
    + split.
      * simpl. intros ns' n' [x Hx]%alter_ns. by eapply si_ns.
      * intros p c. rewrite HR. case_decide as Hp; [|by apply (si_reads _ _ Hinv)].
        intros [= <-]. subst p. simpl. unfold NewKVRead, vals, val, ver. simpl. by rewrite <-Eg.
      * intros p w. rewrite writes_of_put_read. apply (si_writes _ _ Hinv1).
    + done.
    + intros p. rewrite writes_of_put_read. apply Ew.
    + intros p c Hc. rewrite HR. case_decide; [congruence|done].
    + intros v [= <-]. unfold vals, val. simpl. rewrite <-Eg. split; [done|]. intros _.
      eexists. rewrite HR, decide_True by done. done.
    + done.
  - apply wp_ret. split_and!; try done. intros p c. by rewrite Er.
Qed.

Lemma wp_SetState ns key v d s :
  no_sep ns → sim_inv d s → sim_done s = false →
  wp (SetState ns key v) (λ _ s', sim_inv d s' ∧ sim_done s' = false
    ∧ (∀ p, reads_of s' p = reads_of s p)
    ∧ ∀ st p, overlay s' st p = kv_set (ns, key) v (overlay s st) p) s.
Proof.
  intros Hns Hinv Hd. unfold SetState. apply wp_bind, wp_gets. rewrite Hd.
  apply wp_bind, wp_lift; [done|]. intros _ _. apply wp_bind, wp_getOrCreateNsRWHolder.
  intros n s1 Hn Hd1 [Er Ew] Hdom. rewrite Hd in Hd1.
  assert (∀ w, kw_Key w = key → kw_IsDelete w = bool_decide (v = None) → kw_Value w = v →
    wp (put_write ns key w) (λ _ s', sim_inv d s' ∧ sim_done s' = false
      ∧ (∀ p, reads_of s' p = reads_of s p)
      ∧ ∀ st p, overlay s' st p = kv_set (ns, key) v (overlay s st) p) s1) as Hput.
  { intros w Hk Hdel Hv. unfold put_write. apply wp_modify.
    assert (∀ p, writes_of (mkSim (sim_done s1) (alter (λ n, mkNsRWs (readMap n)
      (<[key := w]> (writeMap n))) ns (sim_rwMap s1))) p
      = if decide (p = (ns, key)) then Some w else writes_of s p) as HW.
    { intros p. rewrite (writes_of_put_write _ _ _ _ _ _ Hn). by rewrite Ew. }
    split_and!; [split| | |]; simpl.
    - intros ns' n' [x Hx]%alter_ns. destruct (Hdom _ _ Hx) as [->|]; [done|]. by eapply si_ns.
    - intros p c. rewrite reads_of_put_write, Er. apply (si_reads _ _ Hinv).
    - intros p w'. rewrite HW. case_decide as Hp; [|by apply (si_writes _ _ Hinv)].
      intros [= <-]. subst p. simpl. by rewrite Hv.
    - done.
    - intros p. rewrite reads_of_put_write. apply Er.
    - intros st p. unfold overlay at 1, kv_set. rewrite HW. by case_decide. }
  destruct (writeMap n !! key) as [w|] eqn:E; apply Hput; try done.
  simpl. eapply (proj1 (si_writes _ _ Hinv (ns, key) w _)).
  Unshelve. rewrite <-Ew. unfold writes_of. simpl. by rewrite Hn.
Qed.

(** ** Simulation of a chaincode: [false] is a database error *)
Fixpoint simulate (c : chaincode) (tm : LockBasedTxMgr D) : M LockBasedTxSimulator bool :=
  match c with
  | CDone => mret true
  | CGet ns key k =>
      v ← GetState ns key tm;
      match v with Some v => simulate (k v) tm | None => mret false end
  | CSet ns key v c => _ ← SetState ns key v; simulate c tm
  end.

(** The reads of a simulator agree with a state. *)
Definition agrees (s : LockBasedTxSimulator) (st : kvstate) : Prop :=
  ∀ p c, reads_of s p = Some c → st p = rc_cachedValue c.

(** On every state that agrees with what was read, running the chaincode has
    the effect of the writes recorded. *)
Lemma wp_simulate c (tm : LockBasedTxMgr D) s :
  chaincode_ok c → sim_inv (tm_db tm) s → sim_done s = false →
  wp (simulate c tm) (λ ok s', sim_inv (tm_db tm) s' ∧ sim_done s' = false
    ∧ (∀ p c, reads_of s p = Some c → reads_of s' p = Some c)
    ∧ (ok = true → ∀ st, agrees s' st → exec c (overlay s st) ≡ overlay s' st)) s.
Proof.
  revert s. induction c as [|ns key k IH|ns key v c IH]; intros s Hok Hinv Hd; simpl.
  - apply wp_ret. split_and!; try done.
  - destruct Hok as [Hns Hk]. apply wp_bind. eapply wp_mono; [by apply wp_GetState|].
    intros [v|] s1 (Hinv1 & Hd1 & Ew & Hr & Hv & _).
    + destruct (Hv v eq_refl) as [Hval Hrec]. eapply wp_mono; [by apply IH|].
      intros ok s2 (Hinv2 & Hd2 & Hr2 & Hex). split_and!; [done|done|auto|].
      intros Ht st Hag. simpl in *. specialize (Hex Ht st Hag).
      assert (∀ p, overlay s1 st p = overlay s st p) as Heq by (intros p; unfold overlay; by rewrite Ew).
      replace (overlay s st (ns, key)) with v.
      * etransitivity; [|exact Hex]. apply exec_proper; [done|]. intros ns' key' _. by rewrite Heq.
      * unfold overlay in Hval |- *. destruct (writes_of s (ns, key)) as [w|]; [done|].
        destruct (Hrec eq_refl) as (c & Hc & <-). symmetry. by apply Hag, Hr2.
    + apply wp_ret. split_and!; auto. done.
  - destruct Hok as [Hns Hk]. apply wp_bind. eapply wp_mono; [by apply wp_SetState|].
    intros _ s1 (Hinv1 & Hd1 & Er & Ho). eapply wp_mono; [by apply IH|].
    intros ok s2 (Hinv2 & Hd2 & Hr2 & Hex). split_and!; [done|done| |].
    + intros p c' Hc. apply Hr2. by rewrite Er.
    + intros Ht st Hag. simpl. etransitivity; [|by apply Hex]. apply exec_proper; [done|].
      intros ns' key' _. by rewrite Ho.
Qed.

Lemma GetState_Ok ns key (tm : LockBasedTxMgr D) s :
  sim_done s = false → ∃ r, GetState ns key tm s = Ok r.
Proof.
  intros Hd. unfold GetState, getOrCreateNsRWHolder, mbind, M_bind, gets, lift. simpl. rewrite Hd. simpl.
  destruct (sim_rwMap s !! ns); simpl; repeat case_match; eauto.
Qed.
Lemma SetState_Ok ns key v s : sim_done s = false → ∃ r, SetState ns key v s = Ok r.
Proof.
  intros Hd. unfold SetState, getOrCreateNsRWHolder, mbind, M_bind, gets, lift. simpl. rewrite Hd. simpl.
  destruct (sim_rwMap s !! ns); simpl; repeat case_match; eauto.
Qed.

Lemma simulate_total `{!Reliable D} c (tm : LockBasedTxMgr D) s :
  chaincode_ok c → sim_inv (tm_db tm) s → sim_done s = false →
  ∃ s', simulate c tm s = Ok (true, s').
Proof.
  revert s. induction c as [|ns key k IH|ns key v c IH]; intros s Hok Hinv Hd; [by eexists| |];
    destruct Hok as [Hns Hk]; simpl; unfold mbind, M_bind.
  - pose proof (wp_GetState ns key tm s Hns Hinv Hd) as Hwp. unfold wp in Hwp.
    destruct (GetState_Ok ns key tm s Hd) as [[r s1] E]. rewrite E in Hwp |- *.
    destruct Hwp as (Hinv1 & Hd1 & _ & _ & _ & Hn). destruct r as [v|]; [by apply IH|].
    rewrite getCommitted_reliable in Hn. by specialize (Hn eq_refl).
  - pose proof (wp_SetState ns key v (tm_db tm) s Hns Hinv Hd) as Hwp. unfold wp in Hwp.
    destruct (SetState_Ok ns key v s Hd) as [[[] s1] E]. rewrite E in Hwp |- *.
    destruct Hwp as (Hinv1 & Hd1 & _). by apply IH.
Qed.

End simulation.
