(* ===== verification/Mvcc.v ===== *)
(** * The theorem of multi-version concurrency control

    From the simulator's read-write set through the validation of a block to
    its commit: the valid transactions of a block take effect as if their
    chaincodes had run one after the other, on the state before the block. *)

From Stdlib Require Import Strings.Byte.
From stdpp Require Import base numbers strings functions relations gmap list.
From S2P Require Import Prelude Varint RWSet LevelDB PeerTypes TxMgr TxMgrProofs.
Local Open Scope Z_scope.

(** ** The read-write set of a simulator *)
Section rwset.
Context (order : nat → list bytes → list bytes) (Horder : ∀ n l, order n l ≡ₚ l).

Lemma getSortedKeys_elem {V} (n : nat) (m : gmap bytes V) (k : bytes) :
  k ∈ getSortedKeys order n m ↔ is_Some (m !! k).
Proof.
  unfold getSortedKeys. rewrite (Horder n), list_elem_of_fmap. split.
  - intros ([k' v] & -> & Hin). apply elem_of_map_to_list in Hin. by exists v.
  - intros [v Hv]. exists (k, v). split; [done|]. by apply elem_of_map_to_list.
Qed.

(** The entry of one namespace. *)
Definition ns_entry (m : gmap bytes nsRWs) (e : NsReadWriteSet) : Prop :=
  ∃ n, m !! ns_NameSpace e = Some n
    ∧ (∀ r, r ∈ ns_Reads e ↔ ∃ key c, readMap n !! key = Some c ∧ r = rc_kvRead c)
    ∧ (∀ w, w ∈ ns_Writes e ↔ ∃ key, writeMap n !! key = Some w).

Lemma ns_rwsets_entries k nss m :
  (∀ ns, ns ∈ nss → is_Some (m !! ns)) →
  Forall (ns_entry m) (ns_rwsets order k nss m) ∧ ns_NameSpace <$> ns_rwsets order k nss m = nss.
Proof.
  revert k. induction nss as [|ns nss IH]; intros k Hns; [done|]. cbn [ns_rwsets]. rewrite fmap_cons.
  destruct (IH (S k)) as [IH1 IH2]; [set_solver|]. rewrite IH2. split; [|done].
  constructor; [|done]. destruct (Hns ns) as [n Hn]; [set_solver|].
  exists n. simpl. rewrite Hn. simpl. split_and!; [done| |].
  - intros r. rewrite list_elem_of_omap. setoid_rewrite getSortedKeys_elem. split.
    + intros (key & [c Hc] & Hr). exists key, c. rewrite Hc in Hr. by injection Hr as <-.
    + intros (key & c & Hc & ->). exists key. split; [by exists c|]. by rewrite Hc.
  - intros w. rewrite list_elem_of_omap. setoid_rewrite getSortedKeys_elem. split.
    + intros (key & _ & Hw). by exists key.
    + intros (key & Hw). exists key. eauto.
Qed.

Lemma rwset_entries s :
  Forall (ns_entry (sim_rwMap s)) (getTxReadWriteSet order s)
  ∧ ∀ ns, is_Some (sim_rwMap s !! ns) → ∃ e, e ∈ getTxReadWriteSet order s ∧ ns_NameSpace e = ns.
Proof.
  unfold getTxReadWriteSet.
  destruct (ns_rwsets_entries 0 (getSortedKeys order 0 (sim_rwMap s)) (sim_rwMap s)) as [H1 H2].
  { intros ns. apply getSortedKeys_elem. }
  split; [done|]. intros ns Hns. apply (getSortedKeys_elem 0) in Hns. rewrite <-H2 in Hns.
  apply list_elem_of_fmap in Hns as (e & -> & He). eauto.
Qed.

(** What was read is in it. *)
Lemma rwset_reads s p c :
  reads_of s p = Some c →
  ∃ e, e ∈ getTxReadWriteSet order s ∧ ns_NameSpace e = p.1 ∧ rc_kvRead c ∈ ns_Reads e.
Proof.
  unfold reads_of. destruct (sim_rwMap s !! p.1) as [n|] eqn:En; [|done]. simpl. intros Hc.
  destruct (rwset_entries s) as [HF Hall]. destruct (Hall p.1) as (e & He & Hns); [by eexists|].
  exists e. split_and!; [done|done|]. rewrite Forall_forall in HF.
  destruct (HF e He) as (n' & Hn' & Hr & _). rewrite Hns, En in Hn'. injection Hn' as <-.
  apply Hr. eauto.
Qed.
End rwset.

(** ** Writes in order *)
Abbreviation writes := (list (bytes * slice)).

Definition apply_writes (l : writes) (st : bytes → slice) : bytes → slice :=
  foldl (λ st kv ck, if decide (ck = kv.1) then kv.2 else st ck) st l.

Definition ns_write_list (ns : bytes) (ws : list KVWrite) : writes :=
  (λ w, (constructCompositeKey ns (kw_Key w), kw_Value w)) <$> ws.
Definition write_list (rw : TxReadWriteSet) : writes :=
  rw ≫= λ n, ns_write_list (ns_NameSpace n) (ns_Writes n).

Lemma apply_writes_cons kv l st :
  apply_writes (kv :: l) st = apply_writes l (λ ck, if decide (ck = kv.1) then kv.2 else st ck).
Proof. done. Qed.
Lemma apply_writes_app l l' st : apply_writes (l ++ l') st = apply_writes l' (apply_writes l st).
Proof. apply foldl_app. Qed.
Lemma apply_writes_ext l f g : (∀ x, f x = g x) → ∀ x, apply_writes l f x = apply_writes l g x.
Proof.
  revert f g. induction l as [|kv l IH]; intros f g Hfg x; [apply Hfg|].
  rewrite !apply_writes_cons. apply IH. intros y. by rewrite Hfg.
Qed.

Lemma apply_writes_notin l st ck : (∀ v, (ck, v) ∉ l) → apply_writes l st ck = st ck.
Proof.
  revert st. induction l as [|[k v] l IH]; intros st Hl; [done|]. rewrite apply_writes_cons, IH by set_solver.
  simpl. case_decide; [|done]. subst. exfalso. apply (Hl v). set_solver.
Qed.
Lemma apply_writes_in l st ck v :
  (ck, v) ∈ l → (∀ v', (ck, v') ∈ l → v' = v) → apply_writes l st ck = v.
Proof.
  revert st. induction l as [|[k w] l IH]; intros st Hin Hall; [set_solver|]. rewrite apply_writes_cons.
  destruct (decide ((ck, v) ∈ l)) as [Hin'|Hnin]; [apply IH; set_solver|].
  rewrite apply_writes_notin.
  - apply elem_of_cons in Hin as [[= -> ->]|]; [|done]. simpl. by rewrite decide_True.
  - intros v' Hv'. assert (v' = v) as -> by (apply Hall; set_solver). done.
Qed.

Section validation.
Context {D : Type} `{LevelDB D} `{!LevelDBLaws D}.
Abbreviation TxMgr := (LockBasedTxMgr D).

(** ** Validation of a read set *)

(** The key read has not been written, in this block or since. *)
Definition fresh (tm : TxMgr) (ns : bytes) (r : KVRead) : bool :=
  let ck := constructCompositeKey ns (kr_Key r) in
  negb (match tm_updateSet tm with Some u => us_exists ck u | None => false end)
  && bool_decide (ver (tm_db tm) ck = kr_Version r).
Definition rwset_fresh (tm : TxMgr) (rw : TxReadWriteSet) : bool :=
  forallb (λ n, forallb (fresh tm (ns_NameSpace n)) (ns_Reads n)) rw.

Lemma getCommitedVersion_reliable `{!Reliable D} ns key d :
  getCommitedVersion ns key d = Some (ver d (constructCompositeKey ns key)).
Proof. unfold getCommitedVersion. by rewrite getCommitted_reliable. Qed.

Lemma validate_reads_fresh `{!Reliable D} ns reads tm :
  validate_reads ns reads tm = Some (forallb (fresh tm ns) reads).
Proof.
  induction reads as [|r reads IH]; simpl; [done|]. unfold fresh at 1.
  destruct (match tm_updateSet tm with Some _ => _ | None => _ end); simpl; [done|].
  rewrite getCommitedVersion_reliable. simpl. case_bool_decide; simpl; [apply IH|done].
Qed.

Lemma validateTx_fresh `{!Reliable D} rw tm : validateTx rw tm = Some (rwset_fresh tm rw).
Proof.
  induction rw as [|n rw IH]; simpl; [done|]. rewrite validate_reads_fresh. simpl.
  destruct (forallb _ (ns_Reads n)); simpl; [apply IH|done].
Qed.

(** ** The pending updates *)

(** The value of a key with the pending updates on top. *)
Definition us_val (u : updateSet) (st : bytes → slice) : bytes → slice := λ ck,
  match u !! ck with Some vv => vv_value vv | None => st ck end.

(** [u] holds versions above the committed ones, by at most [n]. *)
Definition us_ok (d : D) (n : Z) (u : updateSet) : Prop :=
  ∀ ck vv, u !! ck = Some vv → ver d ck < vv_version vv ≤ ver d ck + n.

(** No version is within [n] of the end of the 64-bit range. *)
Definition room (d : D) (n : Z) : Prop := ∀ ck, ver d ck + n < 2 ^ 64.

Lemma add_writes_spec `{!Reliable D} ns ws d u n :
  0 ≤ n → us_ok d n u → room d (n + Z.of_nat (length ws)) →
  ∃ u', add_writes ns ws d u = (true, u') ∧ us_ok d (n + Z.of_nat (length ws)) u'
    ∧ ∀ st ck, us_val u' st ck = apply_writes (ns_write_list ns ws) (us_val u st) ck.
Proof.
  revert u n. induction ws as [|w ws IH]; intros u n Hn Hu Hroom; simpl.
  { exists u. split; [done|]. split; [|done]. intros ck vv Hvv. specialize (Hu ck vv Hvv). lia. }
  set (ck := constructCompositeKey ns (kw_Key w)).
  assert (∃ v, match us_get ck u with Some vv => Some (vv_version vv)
               | None => getCommitedVersion ns (kw_Key w) d end = Some v ∧ ver d ck ≤ v ≤ ver d ck + n)
    as (v & -> & Hv).
  { unfold us_get. destruct (u !! ck) as [vv|] eqn:E.
    - exists (vv_version vv). specialize (Hu ck vv E). split; [done|lia].
    - rewrite getCommitedVersion_reliable. eexists. split; [done|]. fold ck. lia. }
  pose proof (ver_range d ck) as [Hr _]. pose proof (Hroom ck) as Hck. simpl in Hck.
  rewrite u64_small by lia.
  destruct (IH (us_add ck (mkVV (kw_Value w) (v + 1)) u) (n + 1)) as (u' & Hadd & Hok & Hval).
  - lia.
  - intros ck' vv. unfold us_add. destruct (decide (ck' = ck)) as [->|].
    + rewrite lookup_insert_eq. intros [= <-]. simpl. lia.
    + rewrite lookup_insert_ne by done. intros Hvv. specialize (Hu ck' vv Hvv). lia.
  - intros ck'. specialize (Hroom ck'). simpl in Hroom. lia.
  - exists u'. split; [done|]. split.
    + intros ck' vv Hvv. specialize (Hok ck' vv Hvv). lia.
    + intros st ck'. rewrite Hval. apply (apply_writes_ext (ns_write_list ns ws)). intros x. unfold us_val, us_add. cbn [fst snd]. fold ck. case_decide as Hx.
      * subst x. by rewrite lookup_insert_eq.
      * by rewrite lookup_insert_ne.
Qed.

Definition rw_writes (rw : TxReadWriteSet) : Z := Z.of_nat (length (write_list rw)).

Lemma add_ns_writes_spec `{!Reliable D} rw d u n :
  0 ≤ n → us_ok d n u → room d (n + rw_writes rw) →
  ∃ u', add_ns_writes rw d u = (true, u') ∧ us_ok d (n + rw_writes rw) u'
    ∧ ∀ st ck, us_val u' st ck = apply_writes (write_list rw) (us_val u st) ck.
Proof.
  revert u n. induction rw as [|e rw IH]; intros u n Hn Hu Hroom; cbn [add_ns_writes].
  { exists u. split; [done|]. split; [|done]. intros ck vv Hvv. specialize (Hu ck vv Hvv). unfold rw_writes. simpl. lia. }
  assert (rw_writes (e :: rw) = Z.of_nat (length (ns_Writes e)) + rw_writes rw) as Hlen.
  { unfold rw_writes, write_list. rewrite bind_cons, length_app. unfold ns_write_list at 1.
    rewrite length_fmap. lia. }
  rewrite Hlen in Hroom |- *.
  destruct (add_writes_spec (ns_NameSpace e) (ns_Writes e) d u n) as (u1 & -> & Hok1 & Hval1); [done|done| |].
  { intros ck. specialize (Hroom ck). unfold rw_writes in Hroom. lia. }
  destruct (IH u1 (n + Z.of_nat (length (ns_Writes e)))) as (u2 & -> & Hok2 & Hval2); [lia|done| |].
  { intros ck. specialize (Hroom ck). lia. }
  exists u2. split; [done|]. split.
  - intros ck vv Hvv. specialize (Hok2 ck vv Hvv). lia.
  - intros st ck. rewrite Hval2. unfold write_list. rewrite bind_cons, apply_writes_app.
    by apply apply_writes_ext.
Qed.

(** The keys of the pending updates. *)
Lemma add_writes_keys ns ws d u u' ck :
  add_writes ns ws d u = (true, u') →
  is_Some (u' !! ck) ↔ ck ∈ (ns_write_list ns ws).*1 ∨ is_Some (u !! ck).
Proof.
  revert u. induction ws as [|w ws IH]; intros u; cbn [add_writes].
  { intros [= <-]. split; [by right|]. intros [?%not_elem_of_nil|?]; done. }
  destruct (match us_get _ u with Some _ => _ | None => _ end) as [v|]; [|done]. intros Hadd.
  rewrite (IH _ Hadd). unfold us_add, ns_write_list.
  rewrite !fmap_cons, elem_of_cons, lookup_insert_is_Some'. naive_solver.
Qed.
Lemma add_ns_writes_keys rw d u u' ck :
  add_ns_writes rw d u = (true, u') →
  is_Some (u' !! ck) ↔ ck ∈ (write_list rw).*1 ∨ is_Some (u !! ck).
Proof.
  revert u. induction rw as [|e rw IH]; intros u; cbn [add_ns_writes].
  { intros [= <-]. split; [by right|]. intros [?%not_elem_of_nil|?]; done. }
  destruct (add_writes _ _ d u) as [[] u1] eqn:E; [|done]. intros Hadd. rewrite (IH _ Hadd).
  rewrite (add_writes_keys _ _ _ _ _ ck E). unfold write_list. rewrite bind_cons, fmap_app, elem_of_app. naive_solver.
Qed.

(** ** Commit *)

(** [d'] is a later state than [d]: versions only grow, and a key whose version
    is the same holds the same value. *)
Definition db_le (d d' : D) : Prop := ∀ ck,
  ver d ck ≤ ver d' ck ∧ (ver d ck = ver d' ck → val d ck = val d' ck).

#[global] Instance db_le_preorder : PreOrder db_le.
Proof.
  split.
  - by intros d ck.
  - intros a b c H1 H2 ck. destruct (H1 ck) as [L1 E1], (H2 ck) as [L2 E2]. split; [lia|].
    intros E. rewrite E1, E2 by lia. done.
Qed.

Lemma commit_batch_lookup u d d' ck :
  DB_WriteBatch (commit_batch u) false d = Some d' →
  contents d' !! ck = match u !! ck with
                      | Some vv => Some (encodeValue (vv_value vv) (vv_version vv))
                      | None => contents d !! ck end.
Proof.
  intros Hw. apply ldb_Write_spec in Hw as ->.
  assert ((commit_batch u).*1 = (map_to_list u).*1) as Hfst.
  { unfold commit_batch. rewrite <-list_fmap_compose. done. }
  rewrite apply_batch_lookup by (rewrite Hfst; apply NoDup_fst_map_to_list).
  destruct (u !! ck) as [vv|] eqn:E.
  - rewrite (elem_of_list_to_map_1 _ ck (encodeValue (vv_value vv) (vv_version vv))); [done| |].
    + rewrite Hfst. apply NoDup_fst_map_to_list.
    + unfold commit_batch. apply list_elem_of_fmap. exists (ck, vv). split; [done|]. by apply elem_of_map_to_list.
  - rewrite not_elem_of_list_to_map_1; [done|]. rewrite Hfst. intros Hin.
    apply list_elem_of_fmap in Hin as ([k vv] & -> & Hin). apply elem_of_map_to_list in Hin.
    simpl in *. congruence.
Qed.

Lemma committed_commit u d d' n ck :
  us_ok d n u → room d n → DB_WriteBatch (commit_batch u) false d = Some d' →
  committed d' ck = match u !! ck with Some vv => (vv_value vv, vv_version vv) | None => committed d ck end.
Proof.
  intros Hu Hroom Hw. unfold committed. rewrite (commit_batch_lookup u d d' ck Hw).
  destruct (u !! ck) as [vv|] eqn:E; [|done]. apply decode_encodeValue.
  specialize (Hu ck vv E). pose proof (Hroom ck). pose proof (ver_range d ck) as [? _]. unfold is_u64. lia.
Qed.

Lemma commit_db_le u d d' n :
  us_ok d n u → room d n → DB_WriteBatch (commit_batch u) false d = Some d' → db_le d d'.
Proof.
  intros Hu Hroom Hw ck. unfold ver, val. rewrite (committed_commit u d d' n ck Hu Hroom Hw).
  destruct (u !! ck) as [vv|] eqn:E; [|done]. specialize (Hu ck vv E). unfold ver in Hu. simpl. split; lia.
Qed.

(** ** Endorsed transactions *)

(** A chaincode with its simulation: on which state, and with what result. *)
Record endorsement := mkEndorsed {
  e_db : D; e_code : chaincode; e_sim : LockBasedTxSimulator;
  e_order : nat → list bytes → list bytes }.
Definition e_rwset (e : endorsement) : TxReadWriteSet := getTxReadWriteSet (e_order e) (e_sim e).

Context `{!Proto Envelope, !Proto Payload, !Proto Transaction, !Proto ChaincodeActionPayload,
  !Proto ProposalResponsePayload, !Proto ChaincodeAction}.

(** [env] carries the simulation [e], done on [cur] or on a state before it. *)
Definition endorsed (cur : D) (env : bytes) (e : endorsement) : Prop :=
  chaincode_ok (e_code e) ∧ db_le (e_db e) cur ∧ (∀ n l, e_order e n l ≡ₚ l)
  ∧ simulate (e_code e) (NewLockBasedTxMgr (e_db e)) newSimulator = Ok (true, e_sim e)
  ∧ Tx_ok (e_rwset e)
  ∧ ∃ a, GetActionFromEnvelope env = Ok (Some (Some a))
      ∧ ca_Results a = Some (GetTxSimulationResults (e_order e) (e_sim e)).

(** The state a transaction of the block is to see. *)
Definition view (d : D) (u : updateSet) : kvstate := λ p,
  us_val u (val d) (constructCompositeKey p.1 p.2).

Lemma endorsed_sim cur env e :
  endorsed cur env e → sim_inv (e_db e) (e_sim e)
  ∧ ∀ st, agrees (e_sim e) st → exec (e_code e) st ≡ overlay (e_sim e) st.
Proof.
  intros (Hok & _ & _ & Hsim & _).
  pose proof (wp_simulate (e_code e) (NewLockBasedTxMgr (e_db e)) newSimulator Hok (sim_inv_new _) eq_refl) as Hwp.
  destruct (wp_intro _ _ _ Hwp _ _ Hsim) as (Hinv & _ & _ & Hex). split; [done|].
  intros st Hag. etransitivity; [|by apply Hex]. apply exec_proper; [done|].
  intros ns key _. unfold overlay, writes_of. simpl. by rewrite lookup_empty.
Qed.

(** A transaction found valid has read what the serial execution gives it. *)
Lemma fresh_agrees cur env e tm u :
  endorsed cur env e → tm_db tm = cur → tm_updateSet tm = Some u →
  rwset_fresh tm (e_rwset e) = true → agrees (e_sim e) (view cur u).
Proof.
  intros He Hdb Hu Hfresh p c Hc. pose proof (endorsed_sim _ _ _ He) as [Hinv _].
  destruct He as (_ & Hle & Hord & _). destruct (si_reads _ _ Hinv _ _ Hc) as [Hread Hval].
  destruct (rwset_reads _ Hord _ _ _ Hc) as (en & Hen & Hns & Hin).
  unfold rwset_fresh in Hfresh. rewrite forallb_forall in Hfresh.
  specialize (Hfresh en ltac:(by apply list_elem_of_In)). rewrite forallb_forall in Hfresh.
  specialize (Hfresh _ ltac:(by apply list_elem_of_In)). unfold fresh in Hfresh.
  rewrite Hns, Hread, Hu, Hdb in Hfresh. simpl in Hfresh.
  apply andb_true_iff in Hfresh as [Hnot Hver]. apply negb_true_iff in Hnot.
  unfold us_exists in Hnot. apply bool_decide_eq_false in Hnot.
  apply bool_decide_eq_true in Hver. rewrite Hval. unfold view, us_val, vals.
  destruct (u !! _) as [vv|] eqn:E; [exfalso; eauto|].
  destruct (Hle (constructCompositeKey p.1 p.2)) as [_ Heq]. symmetry. by apply Heq.
Qed.

(** The writes of the read-write set are those of the simulator. *)
Lemma write_list_overlay cur env e st ns key :
  endorsed cur env e → no_sep ns →
  apply_writes (write_list (e_rwset e)) st (constructCompositeKey ns key)
  = match writes_of (e_sim e) (ns, key) with
    | Some w => kw_Value w | None => st (constructCompositeKey ns key) end.
Proof.
  intros He Hns. pose proof (endorsed_sim _ _ _ He) as [Hinv _].
  destruct He as (_ & _ & Hord & _). destruct (rwset_entries _ Hord (e_sim e)) as [HF Hall].
  rewrite Forall_forall in HF.
  assert (∀ v, (constructCompositeKey ns key, v) ∈ write_list (e_rwset e) →
    ∃ w, writes_of (e_sim e) (ns, key) = Some w ∧ v = kw_Value w) as Hin.
  { intros v Hv. unfold write_list in Hv. apply list_elem_of_bind in Hv as (en & Hv & Hen).
    unfold ns_write_list in Hv. apply list_elem_of_fmap in Hv as (w & [= Hck ->] & Hw).
    destruct (HF en Hen) as (n & Hn & _ & HW). apply HW in Hw as (key' & Hw).
    assert (writes_of (e_sim e) (ns_NameSpace en, key') = Some w) as Hwo
      by (unfold writes_of; simpl; by rewrite Hn).
    destruct (si_writes _ _ Hinv _ _ Hwo) as [Hk _]. simpl in Hk.
    apply constructCompositeKey_inj in Hck as [-> ->]; [|done|by eapply (si_ns _ _ Hinv)].
    exists w. rewrite <-Hk in Hwo. done. }
  destruct (writes_of (e_sim e) (ns, key)) as [w|] eqn:Ew.
  - apply apply_writes_in.
    + pose proof Ew as Ew'. unfold writes_of in Ew. simpl in Ew.
      destruct (sim_rwMap (e_sim e) !! ns) as [n|] eqn:En; [|done]. simpl in Ew.
      destruct (Hall ns) as (en & Hen & Hnsen); [by eexists|].
      destruct (HF en Hen) as (n' & Hn' & _ & HW). rewrite Hnsen, En in Hn'. injection Hn' as <-.
      unfold write_list. apply list_elem_of_bind. exists en. split; [|done].
      unfold ns_write_list. apply list_elem_of_fmap. exists w. split; [|apply HW; eauto].
      destruct (si_writes _ _ Hinv _ _ Ew') as [Hk _]. simpl in Hk. by rewrite Hnsen, Hk.
    + intros v' Hv'. apply Hin in Hv' as (w' & Hw' & ->). congruence.
  - apply apply_writes_notin. intros v Hv. by apply Hin in Hv as (w & Hw & _).
Qed.

(** ** A block *)

(** The elements marked [true]. *)
Fixpoint select {A} (bs : list bool) (l : list A) : list A :=
  match bs, l with
  | b :: bs, x :: l => if b then x :: select bs l else select bs l
  | _, _ => []
  end.

Definition conflict : InvalidTransaction :=
  mkInvalidTransaction (mkTransaction 0 None []) RWConflictDuringCommit.

Definition serial (es : list endorsement) (st : kvstate) : kvstate :=
  foldl (λ st e, exec (e_code e) st) st es.

(** Every read is of the committed version, and of a key not in [written]. *)
Definition reads_current (d : D) (written : list bytes) (rw : TxReadWriteSet) : bool :=
  forallb (λ n, forallb (λ r,
    let ck := constructCompositeKey (ns_NameSpace n) (kr_Key r) in
    negb (bool_decide (ck ∈ written)) && bool_decide (ver d ck = kr_Version r)) (ns_Reads n)) rw.

(** Which transactions of a block are kept: those whose reads are current and
    not of keys that an earlier one that is kept has written. *)
Fixpoint kept (d : D) (written : list bytes) (es : list endorsement) : list bool :=
  match es with
  | [] => []
  | e :: es =>
      let b := reads_current d written (e_rwset e) in
      b :: kept d (if b then (write_list (e_rwset e)).*1 ++ written else written) es
  end.

Lemma length_kept d written es : length (kept d written es) = length es.
Proof. revert written. induction es; intros; simpl; [done|]. by f_equal. Qed.

Lemma rwset_fresh_current (tm : TxMgr) u written rw :
  tm_updateSet tm = Some u → (∀ ck, is_Some (u !! ck) ↔ ck ∈ written) →
  rwset_fresh tm rw = reads_current (tm_db tm) written rw.
Proof.
  intros Hu Hw. unfold rwset_fresh, reads_current, fresh. rewrite Hu. unfold us_exists.
  induction rw as [|n rw IH]; [done|]. simpl. rewrite IH. f_equal.
  induction (ns_Reads n) as [|r rs IH']; [done|]. simpl. rewrite IH'. do 3 f_equal.
  by apply bool_decide_ext.
Qed.

Definition total_writes (es : list endorsement) : Z :=
  foldr (λ e n, rw_writes (e_rwset e) + n) 0 es.

Lemma total_writes_nonneg es : 0 ≤ total_writes es.
Proof. induction es; simpl; [lia|]. unfold rw_writes. lia. Qed.

Lemma serial_proper es cur envs :
  Forall2 (endorsed cur) envs es → ∀ bs, Proper ((≡) ==> (≡)) (serial (select bs es)).
Proof.
  induction 1 as [|env e envs es He _ IH]; intros [|b bs] st st' E; simpl; try done.
  destruct b; [|by apply IH]. apply IH. apply exec_proper; [by destruct He|done].
Qed.

Lemma validate_txs_serial `{!Reliable D} txs es : ∀ valid invalid (tm : TxMgr) u written n,
  Forall2 (endorsed (tm_db tm)) txs es → tm_updateSet tm = Some u →
  (∀ ck, is_Some (u !! ck) ↔ ck ∈ written) →
  0 ≤ n → us_ok (tm_db tm) n u → room (tm_db tm) (n + total_writes es) →
  let bs := kept (tm_db tm) written es in
  ∃ u', validate_txs txs valid invalid tm
      = Ok (Some (valid ++ select bs txs, invalid ++ (select (negb <$> bs) ((λ _, conflict) <$> txs))),
            set_updateSet (Some u') tm)
    ∧ us_ok (tm_db tm) (n + total_writes es) u'
    ∧ view (tm_db tm) u' ≡ serial (select bs es) (view (tm_db tm) u).
Proof.
  revert es. induction txs as [|env txs IH]; intros es valid invalid tm u written n Hes Hu Hw Hn Hok Hroom.
  { apply Forall2_nil_inv_l in Hes as ->. exists u. simpl in *. rewrite !app_nil_r, Z.add_0_r in *.
    split_and!; try done. destruct tm; simpl in *. by subst. }
  apply Forall2_cons_inv_l in Hes as (e & es' & He & Hes & ->). simpl in Hroom.
  pose proof (total_writes_nonneg es') as Hnn.
  pose proof He as (_ & _ & Hord & _ & Htx & a & Ha & Hres).
  cbn [validate_txs]. unfold mbind at 1, M_bind, lift at 1. rewrite Ha.
  unfold mbind at 1, M_bind, lift at 1. cbn [deref].
  rewrite Hres. cbn [sl default from_option id]. unfold GetTxSimulationResults. fold (e_rwset e).
  rewrite <-(app_nil_r (TxReadWriteSet_Marshal _)), TxReadWriteSet_reads_back by done.
  unfold mbind at 1, M_bind, gets at 1. rewrite validateTx_fresh.
  cbn [kept]. rewrite <-(rwset_fresh_current tm u written (e_rwset e) Hu Hw).
  destruct (rwset_fresh tm (e_rwset e)) eqn:Hf.
  - unfold mbind at 1, M_bind, get at 1, addWriteSetToBatch. rewrite Hu. cbn [default from_option id].
    destruct (add_ns_writes_spec (e_rwset e) (tm_db tm) u n) as (u1 & Hadd & Hok1 & Hval1); [done|done| |].
    { intros ck. specialize (Hroom ck). lia. }
    rewrite Hadd. unfold mbind at 1, M_bind, modify at 1.
    destruct (IH es' (valid ++ [env]) invalid (set_updateSet (Some u1) tm) u1
                ((write_list (e_rwset e)).*1 ++ written) (n + rw_writes (e_rwset e)))
      as (u2 & Hrun & Hok2 & Hser); [done|done| |unfold rw_writes; lia|done| |].
    { intros ck. rewrite (add_ns_writes_keys _ _ _ _ ck Hadd), elem_of_app. by rewrite Hw. }
    { intros ck. specialize (Hroom ck). simpl. lia. }
    exists u2. split_and!.
    + rewrite Hrun. simpl. by rewrite <-app_assoc.
    + intros ck vv Hvv. specialize (Hok2 ck vv Hvv). simpl in *. lia.
    + etransitivity; [exact Hser|]. simpl. apply (serial_proper _ _ _ Hes).
      destruct (endorsed_sim _ _ _ He) as [_ Hex].
      rewrite (Hex (view (tm_db tm) u)) by (by eapply fresh_agrees).
      intros ns key Hns. unfold view at 1. simpl. rewrite Hval1.
      rewrite (write_list_overlay _ _ _ _ _ _ He Hns). done.
  - destruct (IH es' valid (invalid ++ [conflict]) tm u written n) as (u2 & Hrun & Hok2 & Hser);
      [done|done|done|done|done| |].
    { intros ck. specialize (Hroom ck). unfold rw_writes in Hroom. lia. }
    exists u2. split_and!; [| |done].
    + fold conflict. rewrite Hrun. simpl. by rewrite <-app_assoc.
    + intros ck vv Hvv. specialize (Hok2 ck vv Hvv). simpl. unfold rw_writes. lia.
Qed.

(** Validation and commit of one block. *)
Lemma validate_commit_serial `{!Reliable D} (tm : TxMgr) (block : Block2) (es : list endorsement) :
  Forall2 (endorsed (tm_db tm)) (b2_Transactions block) es →
  room (tm_db tm) (total_writes es) →
  let bs := kept (tm_db tm) [] es in
  ∃ tm1 tm2,
    ValidateAndPrepare block tm
      = Ok (Some (mkBlock2 (b2_PreviousBlockHash block) (select bs (b2_Transactions block)),
                  select (negb <$> bs) ((λ _, conflict) <$> b2_Transactions block)), tm1)
    ∧ Commit tm1 = Ok (true, tm2)
    ∧ vals (tm_db tm2) ≡ serial (select bs es) (vals (tm_db tm))
    ∧ db_le (tm_db tm) (tm_db tm2).
Proof.
  intros Hes Hroom.
  destruct (validate_txs_serial (b2_Transactions block) es [] [] (set_updateSet (Some ∅) tm) ∅ [] 0)
    as (u & Hrun & Hok & Hser); [done|done| |lia| |done|].
  { intros ck. rewrite lookup_empty. split; [by intros [? ?]|by intros ?%elem_of_nil]. }
  { intros ck vv. by rewrite lookup_empty. }
  simpl in *. destruct (reliable_Write (commit_batch u) (tm_db tm)) as [d' Hd'].
  exists (set_updateSet (Some u) tm), (mkTxMgr d' None (tm_readers tm)). split_and!.
  - unfold ValidateAndPrepare, mbind, M_bind, modify. by rewrite Hrun.
  - unfold Commit, mbind, M_bind, gets, lift, get. simpl. unfold DB_WriteBatch. by rewrite Hd'.
  - simpl. etransitivity; [|etransitivity; [exact Hser|]].
    + intros ns key _. unfold vals, view, us_val, val. simpl.
      rewrite (committed_commit u _ d' (0 + total_writes es)) by done.
      by destruct (u !! constructCompositeKey ns key).
    + apply (serial_proper _ _ _ Hes). intros ns key _. unfold view, us_val, vals. by rewrite lookup_empty.
  - simpl. by eapply commit_db_le.
Qed.

End validation.
