(* ===== verification/PeerSim.v ===== *)
(** * A concrete peer

    A lawful marshalling of the messages of PeerTypes.v, on the encoding of
    Wire.v, and runs of the transaction manager. *)

From Stdlib Require Import Strings.Byte.
From stdpp Require Import base numbers strings gmap list.
From S2P Require Import Prelude Wire Varint RWSet LevelDB PeerTypes TxMgr TxMgrProofs Mvcc.
Local Open Scope Z_scope.

Module PeerCodec.

(** ** Fields *)
Definition put_time (t : Z * Z) : bytes := put_Z t.1 ++ put_Z t.2.
Definition get_time : parser (Z * Z) := λ l, '(s, l) ← get_Z l; '(n, l) ← get_Z l; Some ((s, n), l).

Definition put_sighdr (h : SignatureHeader) : bytes := put_slice (sh_Creator h) ++ put_slice (sh_Nonce h).
Definition get_sighdr : parser SignatureHeader := λ l,
  '(c, l) ← get_slice l; '(n, l) ← get_slice l; Some (mkSignatureHeader c n, l).

Definition put_chain (h : ChainHeader) : bytes :=
  put_Z (ch_Type h) ++ put_Z (ch_Version h) ++ put_option put_time (ch_Timestamp h)
  ++ put_slice (ch_ChainID h) ++ put_bytes (ch_TxID h) ++ put_Z (ch_Epoch h) ++ put_slice (ch_Extension h).
Definition get_chain : parser ChainHeader := λ l,
  '(t, l) ← get_Z l; '(v, l) ← get_Z l; '(ts, l) ← get_option get_time l; '(c, l) ← get_slice l;
  '(i, l) ← get_bytes l; '(e, l) ← get_Z l; '(x, l) ← get_slice l;
  Some (mkChainHeader t v ts c i e x, l).

Definition put_header (h : Header) : bytes :=
  put_option put_chain (hdr_ChainHeader h) ++ put_option put_sighdr (hdr_SignatureHeader h).
Definition get_header : parser Header := λ l,
  '(c, l) ← get_option get_chain l; '(s, l) ← get_option get_sighdr l; Some (mkHeader c s, l).

Definition put_pair (p : slice * slice) : bytes := put_slice p.1 ++ put_slice p.2.
Definition get_pair : parser (slice * slice) := λ l,
  '(a, l) ← get_slice l; '(b, l) ← get_slice l; Some ((a, b), l).

Definition put_ccid (c : ChaincodeID) : bytes := put_bytes (cid_Path c) ++ put_bytes (cid_Name c).
Definition get_ccid : parser ChaincodeID := λ l,
  '(p, l) ← get_bytes l; '(n, l) ← get_bytes l; Some (mkChaincodeID p n, l).

(** Repeated messages: a nil one is refused. *)
Definition put_repeated {A} (put : A → bytes) (xs : list (option A)) : option bytes :=
  put_list put <$> mapM id xs.
Definition get_repeated {A} (get : parser A) : parser (list (option A)) := λ l,
  match get_list get (length l) l with
  | Some (xs, l) => Some (Some <$> xs, l)
  | None => None
  end.

Definition put_endorsement (e : Endorsement) : bytes := put_pair (en_Endorser e, en_Signature e).
Definition get_endorsement : parser Endorsement := λ l,
  '(p, l) ← get_pair l; Some (mkEndorsement p.1 p.2, l).

Definition put_action (t : TransactionAction) : bytes := put_pair (ta_Header t, ta_Payload t).
Definition get_action : parser TransactionAction := λ l,
  '(p, l) ← get_pair l; Some (mkTransactionAction p.1 p.2, l).

Definition put_cea (c : ChaincodeEndorsedAction) : option bytes :=
  es ← put_repeated put_endorsement (cea_Endorsements c);
  Some (put_slice (cea_ProposalResponsePayload c) ++ es).
Definition get_cea : parser ChaincodeEndorsedAction := λ l,
  '(p, l) ← get_slice l; '(es, l) ← get_repeated get_endorsement l; Some (mkCEA p es, l).

(** ** Messages *)
#[export] Instance SignatureHeader_proto : Proto SignatureHeader := {
  Marshal h := Some (put_sighdr h); Unmarshal l := fst <$> get_sighdr l }.
#[export] Instance ChainHeader_proto : Proto ChainHeader := {
  Marshal h := Some (put_chain h); Unmarshal l := fst <$> get_chain l }.
#[export] Instance Header_proto : Proto Header := {
  Marshal h := Some (put_header h); Unmarshal l := fst <$> get_header l }.
#[export] Instance Payload_proto : Proto Payload := {
  Marshal p := Some (put_option put_header (pl_Header p) ++ put_slice (pl_Data p));
  Unmarshal l := '(h, l) ← get_option get_header l; '(d, l) ← get_slice l; Some (mkPayload h d) }.
#[export] Instance Envelope_proto : Proto Envelope := {
  Marshal e := Some (put_pair (env_Payload e, env_Signature e));
  Unmarshal l := '(p, l) ← get_pair l; Some (mkEnvelope p.1 p.2) }.
#[export] Instance CHE_proto : Proto ChaincodeHeaderExtension := {
  Marshal c := Some (put_slice (che_PayloadVisibility c) ++ put_option put_ccid (che_ChaincodeID c));
  Unmarshal l := '(v, l) ← get_slice l; '(c, l) ← get_option get_ccid l; Some (mkCHE v c) }.
#[export] Instance CPP_proto : Proto ChaincodeProposalPayload := {
  Marshal c := Some (put_pair (cpp_Input c, cpp_Transient c));
  Unmarshal l := '(p, l) ← get_pair l; Some (mkCPP p.1 p.2) }.
#[export] Instance Proposal_proto : Proto Proposal := {
  Marshal p := Some (put_pair (prop_Header p, prop_Payload p) ++ put_slice (prop_Extension p));
  Unmarshal l := '(p, l) ← get_pair l; '(e, l) ← get_slice l; Some (mkProposal p.1 p.2 e) }.
#[export] Instance PRP_proto : Proto ProposalResponsePayload := {
  Marshal p := Some (put_pair (prp_ProposalHash p, prp_Extension p));
  Unmarshal l := '(p, l) ← get_pair l; Some (mkPRP p.1 p.2) }.
#[export] Instance ChaincodeAction_proto : Proto ChaincodeAction := {
  Marshal a := Some (put_pair (ca_Results a, ca_Events a));
  Unmarshal l := '(p, l) ← get_pair l; Some (mkChaincodeAction p.1 p.2) }.
#[export] Instance CAP_proto : Proto ChaincodeActionPayload := {
  Marshal c :=
    match cap_Action c with
    | None => Some (put_slice (cap_ChaincodeProposalPayload c) ++ [x00])
    | Some a => b ← put_cea a; Some (put_slice (cap_ChaincodeProposalPayload c) ++ x01 :: b)
    end;
  Unmarshal l := '(p, l) ← get_slice l; '(a, l) ← get_option get_cea l; Some (mkCAP p a) }.
#[export] Instance Transaction_proto : Proto Transaction := {
  Marshal t :=
    b ← put_repeated put_action (tx_Actions t);
    Some (put_Z (tx_Version t) ++ put_option put_time (tx_Timestamp t) ++ b);
  Unmarshal l :=
    '(v, l) ← get_Z l; '(ts, l) ← get_option get_time l; '(a, l) ← get_repeated get_action l;
    Some (mkTransaction v ts a) }.

(** ** They read back *)
Lemma get_put_time t l : get_time (put_time t ++ l) = Some (t, l).
Proof.
  destruct t. unfold get_time, put_time. simpl. rewrite <-app_assoc, get_put_Z. cbn.
  by rewrite get_put_Z.
Qed.
Lemma get_put_pair p l : field_ok p.1 → field_ok p.2 → get_pair (put_pair p ++ l) = Some (p, l).
Proof.
  destruct p. unfold get_pair, put_pair. intros. simpl in *. rewrite <-app_assoc, get_put_slice by done. cbn.
  by rewrite get_put_slice.
Qed.
Lemma get_put_sighdr h l : canonical h → get_sighdr (put_sighdr h ++ l) = Some (h, l).
Proof.
  destruct h. unfold get_sighdr, put_sighdr. intros [??]. simpl in *.
  rewrite <-app_assoc, get_put_slice by done. cbn. by rewrite get_put_slice.
Qed.
Lemma get_put_chain h l : canonical h → get_chain (put_chain h ++ l) = Some (h, l).
Proof.
  destruct h. unfold get_chain, put_chain. intros (?&?&?&?&?&?). simpl in *.
  rewrite <-!app_assoc, get_put_Z. cbn. rewrite get_put_Z. cbn.
  rewrite get_put_option by apply get_put_time. cbn. rewrite get_put_slice by done. cbn.
  rewrite get_put_bytes. cbn. rewrite get_put_Z. cbn. by rewrite get_put_slice.
Qed.

Lemma get_put_option' {A} (put : A → bytes) (get : parser A) o l :
  (∀ a l, o = Some a → get (put a ++ l) = Some (a, l)) →
  get_option get (put_option put o ++ l) = Some (o, l).
Proof. intros Hg. destruct o as [a|]; simpl; [|done]. by rewrite Hg. Qed.

Lemma get_put_header h l : canonical h → get_header (put_header h ++ l) = Some (h, l).
Proof.
  destruct h as [c s]. unfold get_header, put_header. intros [Hc Hs]. simpl in *.
  rewrite <-app_assoc, get_put_option' by (intros a ? ->; apply get_put_chain; by apply Hc). cbn.
  by rewrite get_put_option' by (intros a ? ->; apply get_put_sighdr; by apply Hs).
Qed.
Lemma get_put_ccid c l : get_ccid (put_ccid c ++ l) = Some (c, l).
Proof.
  destruct c. unfold get_ccid, put_ccid. simpl. rewrite <-app_assoc, get_put_bytes. cbn.
  by rewrite get_put_bytes.
Qed.

Lemma get_put_repeated {A} `{Canonical A} (put : A → bytes) (get : parser A) xs l :
  (∀ a l, canonical a → get (put a ++ l) = Some (a, l)) →
  Forall (λ o, ∃ a, o = Some a ∧ canonical a) xs →
  ∃ b, put_repeated put xs = Some b ∧ get_repeated get (b ++ l) = Some (xs, l).
Proof.
  intros Hg Hxs.
  assert (∃ ys, xs = Some <$> ys ∧ Forall canonical ys) as (ys & -> & Hys).
  { induction Hxs as [|x xs (a & -> & Ha) _ (ys & -> & Hys)]; [by exists []|].
    exists (a :: ys). split; [done|]. by constructor. }
  assert (mapM id (Some <$> ys) = Some ys) as Hm.
  { clear. apply mapM_Some, Forall2_fmap_l. induction ys; by constructor. }
  unfold put_repeated. rewrite Hm. eexists. split; [done|].
  unfold get_repeated. clear Hm Hxs.
  assert (∀ fuel, (length ys ≤ fuel)%nat → get_list get fuel (put_list put ys ++ l) = Some (ys, l)) as ->; [|done|].
  - induction Hys as [|y ys Hy _ IH]; intros fuel Hf; simpl in *; [by destruct fuel|].
    destruct fuel as [|fuel]; [lia|]. rewrite <-app_assoc. cbn [get_list]. rewrite Hg by done. cbn.
    by rewrite IH by lia.
  - rewrite length_app. pose proof (length_put_list put ys). lia.
Qed.

Lemma get_put_endorsement e l : canonical e → get_endorsement (put_endorsement e ++ l) = Some (e, l).
Proof.
  destruct e. unfold get_endorsement, put_endorsement. intros [??]. by rewrite get_put_pair.
Qed.
Lemma get_put_action a l : canonical a → get_action (put_action a ++ l) = Some (a, l).
Proof. destruct a. unfold get_action, put_action. intros [??]. by rewrite get_put_pair. Qed.

Lemma get_put_cea c l :
  canonical c → ∃ b, put_cea c = Some b ∧ get_cea (b ++ l) = Some (c, l).
Proof.
  destruct c as [p es]. intros [Hp Hes]. simpl in *.
  destruct (get_put_repeated put_endorsement get_endorsement es l get_put_endorsement Hes) as (b & Hb & Hg).
  unfold put_cea. simpl. rewrite Hb. eexists. split; [done|].
  unfold get_cea. rewrite <-app_assoc, get_put_slice by done. cbn. by rewrite Hg.
Qed.

(** ** The laws *)
#[export] Instance SignatureHeader_laws : ProtoLaws SignatureHeader.
Proof.
  intros h Hh. eexists. split; [done|]. simpl. rewrite <-(app_nil_r (put_sighdr h)).
  by rewrite get_put_sighdr.
Qed.
#[export] Instance ChainHeader_laws : ProtoLaws ChainHeader.
Proof.
  intros h Hh. eexists. split; [done|]. simpl. rewrite <-(app_nil_r (put_chain h)).
  by rewrite get_put_chain.
Qed.
#[export] Instance Header_laws : ProtoLaws Header.
Proof.
  intros h Hh. eexists. split; [done|]. simpl. rewrite <-(app_nil_r (put_header h)).
  by rewrite get_put_header.
Qed.
#[export] Instance Payload_laws : ProtoLaws Payload.
Proof.
  intros [h d] [Hh Hd]. eexists. split; [done|]. simpl in *.
  rewrite get_put_option' by (intros a ? ->; apply get_put_header; by apply Hh). cbn.
  rewrite <-(app_nil_r (put_slice d)). by rewrite get_put_slice.
Qed.
#[export] Instance Envelope_laws : ProtoLaws Envelope.
Proof.
  intros [p s] [??]. eexists. split; [done|]. simpl. rewrite <-(app_nil_r (put_pair _)).
  by rewrite get_put_pair.
Qed.
#[export] Instance CHE_laws : ProtoLaws ChaincodeHeaderExtension.
Proof.
  intros [v c] Hv. eexists. split; [done|]. simpl in *. rewrite get_put_slice by done. cbn.
  rewrite <-(app_nil_r (put_option _ c)). by rewrite get_put_option by apply get_put_ccid.
Qed.
#[export] Instance CPP_laws : ProtoLaws ChaincodeProposalPayload.
Proof.
  intros [p s] [??]. eexists. split; [done|]. simpl. rewrite <-(app_nil_r (put_pair _)).
  by rewrite get_put_pair.
Qed.
#[export] Instance Proposal_laws : ProtoLaws Proposal.
Proof.
  intros [h p e] (?&?&?). eexists. split; [done|]. simpl in *. rewrite get_put_pair by done. cbn.
  rewrite <-(app_nil_r (put_slice e)). by rewrite get_put_slice.
Qed.
#[export] Instance PRP_laws : ProtoLaws ProposalResponsePayload.
Proof.
  intros [p s] [??]. eexists. split; [done|]. simpl. rewrite <-(app_nil_r (put_pair _)).
  by rewrite get_put_pair.
Qed.
#[export] Instance ChaincodeAction_laws : ProtoLaws ChaincodeAction.
Proof.
  intros [p s] [??]. eexists. split; [done|]. simpl. rewrite <-(app_nil_r (put_pair _)).
  by rewrite get_put_pair.
Qed.
#[export] Instance CAP_laws : ProtoLaws ChaincodeActionPayload.
Proof.
  intros [p [c|]] [Hp Hc]; simpl in *.
  - destruct (get_put_cea c [] (Hc c eq_refl)) as (b & -> & Hg). rewrite app_nil_r in Hg.
    eexists. split; [done|]. simpl. rewrite get_put_slice by done. cbn. by rewrite Hg.
  - eexists. split; [done|]. by rewrite get_put_slice.
Qed.
#[export] Instance Transaction_laws : ProtoLaws Transaction.
Proof.
  intros [v ts xs] (_ & _ & Hxs). simpl in *.
  destruct (get_put_repeated put_action get_action xs [] get_put_action Hxs) as (b & -> & Hg).
  rewrite app_nil_r in Hg. eexists. split; [done|].
  rewrite get_put_Z. cbn. rewrite get_put_option by apply get_put_time. cbn. by rewrite Hg.
Qed.

End PeerCodec.

(** ** A concrete peer

    Runs of the peer's components on a lawful instance of their environment. *)

Module MvccWitness.
Import MemDB PeerCodec.

Definition cc : bytes := bytes_of_string "cc".
Definition key_a : bytes := bytes_of_string "a".
Definition key_b : bytes := bytes_of_string "b".

(** The key a holds the value 1, at version 1. *)
Definition db0 : gmap bytes bytes :=
  {[ constructCompositeKey cc key_a := encodeValue (Some (bytes_of_string "1")) 1 ]}.

(** One chaincode appends to a what it reads there, the other sets b. *)
Definition append_a : chaincode :=
  CGet cc key_a (λ v, CSet cc key_a (Some (sl v ++ bytes_of_string "+")) CDone).
Definition set_b : chaincode := CSet cc key_b (Some (bytes_of_string "2")) CDone.

Definition order0 (n : nat) (l : list bytes) : list bytes := l.
Definition sim_of (c : chaincode) : LockBasedTxSimulator :=
  match simulate c (NewLockBasedTxMgr db0) newSimulator with Ok (_, s) => s | _ => newSimulator end.
Definition endorse (c : chaincode) : endorsement (D := gmap bytes bytes) :=
  mkEndorsed db0 c (sim_of c) order0.

(** The envelope of an endorsed transaction. *)
Definition marshal {A} `{Proto A} (a : A) : slice := Marshal a.
Definition wrap (results : bytes) : bytes :=
  let prp := marshal (mkPRP None (marshal (mkChaincodeAction (Some results) None))) in
  let cap := marshal (mkCAP None (Some (mkCEA prp []))) in
  let tx := marshal (mkTransaction 1 None [Some (mkTransactionAction None cap)]) in
  sl (marshal (mkEnvelope (marshal (mkPayload None tx)) None)).
Definition envelope_of (e : endorsement (D := gmap bytes bytes)) : bytes :=
  wrap (GetTxSimulationResults (e_order e) (e_sim e)).

Definition es0 : list (endorsement (D := gmap bytes bytes)) :=
  [endorse append_a; endorse append_a; endorse set_b].
Definition block0 : Block2 := mkBlock2 None (envelope_of <$> es0).

Lemma endorse_endorsed c :
  chaincode_ok c → match simulate c (NewLockBasedTxMgr db0) newSimulator with
                   | Ok (b, _) => b = true | _ => False end →
  Tx_ok (e_rwset (endorse c)) →
  GetActionFromEnvelope (envelope_of (endorse c))
  = Ok (Some (Some (mkChaincodeAction (Some (GetTxSimulationResults order0 (sim_of c))) None))) →
  endorsed db0 (envelope_of (endorse c)) (endorse c).
Proof.
  intros Hok Hsim Htx Hact. unfold endorsed. split_and!; [done|done|done| |done|].
  - unfold endorse. simpl. unfold sim_of. destruct (simulate _ _ _) as [[b s]| |]; [by subst|done|done].
  - eexists. split; [exact Hact|done].
Qed.

Lemma no_sep_cc : no_sep cc.
Proof. by apply (bool_decide_unpack _). Qed.

Ltac rwset_ok :=
  unfold Tx_ok, Ns_ok, KVRead_ok, KVWrite_ok, len_ok, is_u64; repeat (split || constructor || done).

Lemma append_a_endorsed : endorsed db0 (envelope_of (endorse append_a)) (endorse append_a).
Proof.
  apply endorse_endorsed.
  - split; [apply no_sep_cc|]. intros v. split; [apply no_sep_cc|done].
  - vm_compute. reflexivity.
  - assert (e_rwset (endorse append_a) = [mkNsRWSet cc [mkKVRead key_a 1]
      [NewKVWrite key_a (Some (bytes_of_string "1+"))]]) as -> by (vm_compute; reflexivity). rwset_ok.
  - vm_compute. reflexivity.
Qed.
Lemma set_b_endorsed : endorsed db0 (envelope_of (endorse set_b)) (endorse set_b).
Proof.
  apply endorse_endorsed.
  - split; [apply no_sep_cc|done].
  - vm_compute. reflexivity.
  - assert (e_rwset (endorse set_b) = [mkNsRWSet cc []
      [NewKVWrite key_b (Some (bytes_of_string "2"))]]) as -> by (vm_compute; reflexivity). rwset_ok.
  - vm_compute. reflexivity.
Qed.
Lemma es0_endorsed : Forall2 (endorsed db0) (b2_Transactions block0) es0.
Proof.
  apply Forall2_cons_2; [exact append_a_endorsed|]. apply Forall2_cons_2; [exact append_a_endorsed|].
  apply Forall2_cons_2; [exact set_b_endorsed|]. constructor.
Qed.

Lemma room0 : room db0 (total_writes es0).
Proof.
  intros ck. assert (total_writes es0 = 3) as -> by (vm_compute; reflexivity).
  unfold ver, committed, db0. simpl. destruct (decide (constructCompositeKey cc key_a = ck)) as [<-|Hne].
  - rewrite lookup_singleton_eq, decode_encodeValue by (unfold is_u64; lia). simpl. lia.
  - rewrite lookup_singleton_ne by done. simpl. lia.
Qed.

(** The second transaction has read what the first has written. *)
Lemma block0_validated :
  (λ p, (length (b2_Transactions p.1), p.2)) <$>
    match ValidateAndPrepare block0 (NewLockBasedTxMgr db0) with Ok (r, _) => r | _ => None end
  = Some (2%nat, [conflict]).
Proof. vm_compute. reflexivity. Qed.
End MvccWitness.
