(* ===== verification/SerBlock2.v ===== *)
(** * Serialised blocks (protos/peer/ser_block2.go)

    A block is written as its previous hash, its transactions one after the
    other, and a trailer with their offsets; the last four bytes say where the
    trailer starts. *)

From Stdlib Require Import Strings.Byte.
From stdpp Require Import base numbers strings gmap list.
From S2P Require Import Prelude Varint RWSet PeerTypes.
Local Open Scope Z_scope.

(** [util.ComputeCryptoHash], a SHAKE-256 of [golang.org/x/crypto]. *)
Class CryptoHash := ComputeCryptoHash : bytes → bytes.

Abbreviation len l := (Z.of_nat (length l)).

Definition u32 (z : Z) : Z := z `mod` 2 ^ 32.

(** [binary.LittleEndian] *)
Fixpoint le_bytes (n : nat) (z : Z) : bytes :=
  match n with O => [] | S n => byte_of_Z z :: le_bytes n (Z.shiftr z 8) end.
Fixpoint le_Z (b : bytes) : Z :=
  match b with [] => 0 | x :: b => Z_of_byte x + 256 * le_Z b end.
Definition intToBytes (i : Z) : bytes := le_bytes 4 i.
Definition bytesToInt (b : bytes) : Z := le_Z b.

Record SerBlock2 := mkSerBlock2 {
  sb_txOffsets : option (list Z); sb_blockHash : slice; sb_blockBytes : bytes }.

(** The loop over the transactions: where each starts, and the bytes so far. *)
Fixpoint append_txs (txs : list bytes) (blockBytes : bytes) : list Z * bytes :=
  match txs with
  | [] => ([], blockBytes)
  | tx :: rest =>
      let '(offs, b) := append_txs rest (blockBytes ++ tx) in (len blockBytes :: offs, b)
  end.

Definition ConstructSerBlock2 (block : Block2) : SerBlock2 :=
  let blockBytes := EncodeRawBytes (sl (b2_PreviousBlockHash block)) [] in
  let '(offs, blockBytes) := append_txs (b2_Transactions block) blockBytes in
  let trailerOffset := len blockBytes in
  let buf := Buffer_EncodeVarint (len (b2_Transactions block)) blockBytes in
  let buf := fold_left (λ buf o, Buffer_EncodeVarint o buf) offs buf in
  mkSerBlock2 (Some (offs ++ [trailerOffset])) None (buf ++ intToBytes (u32 trailerOffset)).

Definition NewSerBlock2 (blockBytes : bytes) : SerBlock2 := mkSerBlock2 None None blockBytes.
Definition GetBytes (s : SerBlock2) : bytes := sb_blockBytes s.

Definition ComputeHash `{CryptoHash} (s : SerBlock2) : bytes * SerBlock2 :=
  match sb_blockHash s with
  | Some h => (h, s)
  | None => let h := ComputeCryptoHash (sb_blockBytes s) in
            (h, mkSerBlock2 (sb_txOffsets s) (Some h) (sb_blockBytes s))
  end.

(** The slice read is never nil. *)
Definition extractPreviousBlockHash (buf : bytes) : option bytes := fst <$> DecodeRawBytes buf.
Definition GetPreviousBlockHash (s : SerBlock2) : option bytes := extractPreviousBlockHash (sb_blockBytes s).

Definition extractTxOffsets (blockBytes : bytes) : res (option (list Z)) :=
  if bool_decide (len blockBytes < 4) then Panic else
  let lastBytes := drop (length blockBytes - 4) blockBytes in
  let trailerOffset := bytesToInt lastBytes in
  if bool_decide (trailerOffset > len blockBytes) then Panic else
  let trailerBytes := drop (Z.to_nat trailerOffset) blockBytes in
  Ok (match Buffer_DecodeVarint trailerBytes with
      | None => None
      | Some (numTxs, buf) =>
          match repeat_dec (S (length buf)) (i64 numTxs) Buffer_DecodeVarint buf with
          | None => None
          | Some (txOffsets, _) => Some ((i64 <$> txOffsets) ++ [trailerOffset])
          end
      end).

Definition GetTxOffsets (s : SerBlock2) : res (option (list Z) * SerBlock2) :=
  match sb_txOffsets s with
  | Some offs => Ok (Some offs, s)
  | None =>
      match extractPreviousBlockHash (sb_blockBytes s) with
      | None => Ok (None, s)
      | Some _ =>
          offs ← extractTxOffsets (sb_blockBytes s);
          Ok (offs, mkSerBlock2 offs (sb_blockHash s) (sb_blockBytes s))
      end
  end.

(** [b[lo:hi]] *)
Definition subslice (b : bytes) (lo hi : Z) : res bytes :=
  if bool_decide (0 ≤ lo ≤ hi) && bool_decide (hi ≤ len b)
  then Ok (take (Z.to_nat (hi - lo)) (drop (Z.to_nat lo) b)) else Panic.

Fixpoint tx_slices (b : bytes) (txOffsets : list Z) : res (list bytes) :=
  match txOffsets with
  | lo :: (hi :: _) as rest => t ← subslice b lo hi; ts ← tx_slices b rest; Ok (t :: ts)
  | _ => Ok []
  end.

Definition ToBlock2 (s : SerBlock2) : res (option Block2) :=
  match extractPreviousBlockHash (sb_blockBytes s) with
  | None => Ok None
  | Some previousBlockHash =>
      offs ← extractTxOffsets (sb_blockBytes s);
      match offs with
      | None => Ok None
      | Some txOffsets =>
          txs ← tx_slices (sb_blockBytes s) txOffsets;
          Ok (Some (mkBlock2 (Some previousBlockHash) txs))
      end
  end.

(** ** What is written *)
Fixpoint offsets (start : Z) (txs : list bytes) : list Z :=
  match txs with [] => [] | tx :: rest => start :: offsets (start + len tx) rest end.

Lemma append_txs_eq txs b : append_txs txs b = (offsets (len b) txs, b ++ concat txs).
Proof.
  revert b. induction txs as [|tx txs IH]; intros b; simpl; [by rewrite app_nil_r|].
  rewrite IH, length_app, Nat2Z.inj_add. by rewrite <-app_assoc.
Qed.

Definition ser_prefix (b : Block2) : bytes :=
  let h := sl (b2_PreviousBlockHash b) in EncodeVarint (len h) ++ h.
Definition ser_body (b : Block2) : bytes := ser_prefix b ++ concat (b2_Transactions b).
Definition ser_offsets (b : Block2) : list Z := offsets (len (ser_prefix b)) (b2_Transactions b).

Lemma varint_appends : appends Buffer_EncodeVarint.
Proof. intros x buf. by rewrite !Buffer_EncodeVarint_eq. Qed.

Lemma varint_nonempty x : Buffer_EncodeVarint x [] ≠ [].
Proof. rewrite Buffer_EncodeVarint_eq. simpl. rewrite <-(app_nil_r (EncodeVarint x)). apply EncodeVarint_nonempty. Qed.

Lemma ConstructSerBlock2_eq b :
  ConstructSerBlock2 b
  = mkSerBlock2 (Some (ser_offsets b ++ [len (ser_body b)])) None
      (ser_body b ++ EncodeVarint (len (b2_Transactions b))
       ++ concat ((λ o, Buffer_EncodeVarint o []) <$> ser_offsets b) ++ intToBytes (u32 (len (ser_body b)))).
Proof.
  unfold ConstructSerBlock2. rewrite append_txs_eq, EncodeRawBytes_eq. simpl.
  fold (ser_prefix b). fold (ser_body b). fold (ser_offsets b).
  rewrite (appends_fold _ _ _ varint_appends), Buffer_EncodeVarint_eq. by rewrite <-!app_assoc.
Qed.

Definition ser_bytes (b : Block2) : bytes := sb_blockBytes (ConstructSerBlock2 b).

(** ** Reading it back *)
Lemma le_bytes_length n z : length (le_bytes n z) = n.
Proof. revert z. induction n as [|n IH]; intros z; simpl; [done|]. by rewrite IH. Qed.

Lemma le_Z_bytes n z : 0 ≤ z < 2 ^ (8 * Z.of_nat n) → le_Z (le_bytes n z) = z.
Proof.
  revert z. induction n as [|n IH]; intros z Hz; simpl; [simpl in Hz; lia|].
  rewrite Z_of_byte_of_Z, Z.shiftr_div_pow2 by lia. change (2 ^ 8) with 256.
  rewrite IH; [pose proof (Z.div_mod z 256); lia|].
  replace (8 * Z.of_nat (S n)) with (8 + 8 * Z.of_nat n) in Hz by lia.
  rewrite Z.pow_add_r in Hz by lia. change (2 ^ 8) with 256 in Hz.
  split; [apply Z.div_pos; lia|]. apply Z.div_lt_upper_bound; lia.
Qed.

Lemma offsets_bound start txs :
  0 ≤ start → Forall (λ o, start ≤ o ≤ start + len (concat txs)) (offsets start txs).
Proof.
  revert start. induction txs as [|tx txs IH]; intros start Hs; simpl; [done|].
  rewrite length_app. constructor; [lia|].
  eapply Forall_impl; [apply IH; lia|]. simpl. intros. lia.
Qed.
Lemma offsets_length start txs : length (offsets start txs) = length txs.
Proof. revert start. induction txs as [|tx txs IH]; intros start; simpl; [done|]. by rewrite IH. Qed.

Section block.
Context (b : Block2) (Hsize : len (ser_bytes b) < 2 ^ 32).

Lemma ser_bytes_eq :
  ser_bytes b = ser_body b ++ EncodeVarint (len (b2_Transactions b))
    ++ concat ((λ o, Buffer_EncodeVarint o []) <$> ser_offsets b) ++ intToBytes (len (ser_body b)).
Proof.
  unfold ser_bytes in *. rewrite ConstructSerBlock2_eq in *. simpl in *.
  rewrite !length_app in Hsize. unfold u32 in *. rewrite Z.mod_small by lia. done.
Qed.

Lemma ser_body_small : len (ser_body b) < 2 ^ 32.
Proof. rewrite ser_bytes_eq, !length_app in Hsize. lia. Qed.

Lemma ser_offsets_fit : Forall (λ o, 0 ≤ o ≤ len (ser_body b)) (ser_offsets b).
Proof.
  unfold ser_offsets, ser_body. rewrite length_app.
  eapply Forall_impl; [apply offsets_bound; lia|]. simpl. intros. lia.
Qed.

Lemma txs_small : len (b2_Transactions b) < 2 ^ 32.
Proof.
  rewrite ser_bytes_eq, !length_app in Hsize.
  assert (length (b2_Transactions b)
    ≤ length (concat ((λ o, Buffer_EncodeVarint o []) <$> ser_offsets b)))%nat as Hle; [|lia].
  rewrite <-(offsets_length (len (ser_prefix b))). apply encoded_length.
  apply Forall_true, varint_nonempty.
Qed.
Lemma txs_count : len_ok (b2_Transactions b).
Proof. pose proof txs_small. unfold len_ok. lia. Qed.

Lemma extractTxOffsets_ser :
  extractTxOffsets (ser_bytes b) = Ok (Some (ser_offsets b ++ [len (ser_body b)])).
Proof.
  pose proof ser_body_small as Hbody. pose proof ser_offsets_fit as Hoff. pose proof txs_count as Hcnt.
  unfold extractTxOffsets. rewrite ser_bytes_eq. set (tr := EncodeVarint _ ++ _).
  set (l4 := intToBytes _) in *. assert (length l4 = 4%nat) as Hl4 by apply le_bytes_length.
  rewrite bool_decide_eq_false_2 by (rewrite length_app; unfold tr; rewrite !length_app; lia).
  replace (drop _ (ser_body b ++ tr)) with l4.
  2:{ unfold tr. rewrite !(app_assoc _ _ l4), !length_app, drop_app_length'; [done|]. rewrite !length_app. lia. }
  assert (bytesToInt l4 = len (ser_body b)) as ->.
  { unfold l4, bytesToInt, intToBytes. rewrite le_Z_bytes; [done|]. split; [lia|exact Hbody]. }
  rewrite bool_decide_eq_false_2 by (rewrite length_app; lia).
  rewrite Nat2Z.id, drop_app_length. unfold tr.
  rewrite Buffer_DecodeVarint_Encode by by apply len_u64. rewrite len_i64 by done.
  replace (len (b2_Transactions b)) with (len (ser_offsets b)) by (unfold ser_offsets; by rewrite offsets_length).
  rewrite (repeat_dec_reads_back Buffer_EncodeVarint).
  - do 2 f_equal. f_equal. rewrite <-(list_fmap_id (ser_offsets b)) at 2. apply list_fmap_ext.
    intros i o Ho. rewrite Forall_lookup in Hoff. specialize (Hoff i o Ho). simpl in Hoff.
    unfold id. apply i64_small. lia.
  - eapply Forall_impl; [apply Hoff|]. simpl. intros o Ho rest. rewrite Buffer_EncodeVarint_eq.
    apply Buffer_DecodeVarint_Encode. unfold is_u64. lia.
  - rewrite length_app. etransitivity; [apply (encoded_length Buffer_EncodeVarint)|lia].
    apply Forall_true, varint_nonempty.
Qed.

Lemma extractPreviousBlockHash_ser :
  extractPreviousBlockHash (ser_bytes b) = Some (sl (b2_PreviousBlockHash b)).
Proof.
  unfold extractPreviousBlockHash. rewrite ser_bytes_eq. unfold ser_body, ser_prefix. simpl.
  rewrite <-!app_assoc, DecodeRawBytes_Encode; [done|].
  pose proof ser_body_small. unfold ser_body, ser_prefix in *. rewrite !length_app in *. unfold len_ok. lia.
Qed.
End block.

Lemma tx_slices_offsets pre txs post :
  tx_slices (pre ++ concat txs ++ post) (offsets (len pre) txs ++ [len (pre ++ concat txs)]) = Ok txs.
Proof.
  revert pre. induction txs as [|tx txs IH]; intros pre; [done|].
  specialize (IH (pre ++ tx)). rewrite length_app, Nat2Z.inj_add in IH.
  change (concat (tx :: txs)) with (tx ++ concat txs). rewrite <-!app_assoc in IH.
  change (offsets (len pre) (tx :: txs)) with (len pre :: offsets (len pre + len tx) txs).
  assert (subslice (pre ++ tx ++ concat txs ++ post) (len pre) (len pre + len tx) = Ok tx) as Hs.
  { unfold subslice. rewrite !bool_decide_eq_true_2 by (rewrite ?length_app; lia). simpl.
    replace (len pre + len tx - len pre) with (len tx) by lia.
    by rewrite !Nat2Z.id, drop_app_length, take_app_length. }
  rewrite <-!app_assoc. destruct txs as [|tx' txs].
  - simpl in *. rewrite app_nil_r in *. rewrite !length_app, Nat2Z.inj_add in *. by rewrite Hs.
  - cbn [offsets] in *. cbn [app tx_slices] in *. rewrite Hs. simpl. simpl in IH. by rewrite IH.
Qed.

(** The block as it reads back: a nil hash is empty. *)
Definition norm_block (b : Block2) : Block2 :=
  mkBlock2 (Some (sl (b2_PreviousBlockHash b))) (b2_Transactions b).

Lemma ToBlock2_ser b :
  len (ser_bytes b) < 2 ^ 32 → ToBlock2 (NewSerBlock2 (ser_bytes b)) = Ok (Some (norm_block b)).
Proof.
  intros Hs. unfold ToBlock2. simpl. rewrite extractPreviousBlockHash_ser, extractTxOffsets_ser by done. simpl.
  rewrite ser_bytes_eq by done. unfold ser_body, ser_offsets. rewrite <-!app_assoc.
  by rewrite tx_slices_offsets.
Qed.

Lemma GetTxOffsets_ser b :
  len (ser_bytes b) < 2 ^ 32 →
  GetTxOffsets (NewSerBlock2 (ser_bytes b))
  = Ok (sb_txOffsets (ConstructSerBlock2 b),
        mkSerBlock2 (sb_txOffsets (ConstructSerBlock2 b)) None (ser_bytes b)).
Proof.
  intros Hs. unfold GetTxOffsets. simpl. rewrite extractPreviousBlockHash_ser, extractTxOffsets_ser by done.
  by rewrite ConstructSerBlock2_eq.
Qed.

(** The bytes of the transactions are where the offsets say. *)
Lemma tx_at_offset b i tx :
  b2_Transactions b !! i = Some tx →
  ∃ o, (ser_offsets b ++ [len (ser_body b)]) !! i = Some o
    ∧ (ser_offsets b ++ [len (ser_body b)]) !! S i = Some (o + len tx)
    ∧ 0 ≤ o ∧ ∀ rest, take (length tx) (drop (Z.to_nat o) (ser_body b ++ rest)) = tx.
Proof.
  unfold ser_offsets, ser_body. generalize (ser_prefix b) as pre. generalize (b2_Transactions b) as txs.
  intros txs. revert i. induction txs as [|t txs IH]; intros i pre Hi; [done|].
  destruct i as [|i]; simpl in Hi.
  - injection Hi as ->. exists (len pre). split_and!; [done| |lia|].
    + destruct txs as [|t' txs]; simpl; [|done]. rewrite app_nil_r, length_app, Nat2Z.inj_add. done.
    + intros rest. cbn [concat]. rewrite <-!app_assoc, Nat2Z.id, drop_app_length. by rewrite take_app_length.
  - destruct (IH i (pre ++ t) Hi) as (o & H1 & H2 & H3 & H4). rewrite length_app, Nat2Z.inj_add in H1, H2.
    exists o. cbn [concat offsets]. rewrite <-!app_assoc in H1, H2.
    split_and!; [done|done|done|]. intros rest. specialize (H4 rest). by rewrite <-!app_assoc in *.
Qed.

(** C32. A serialised block reads back: of a block whose serialisation takes
    less than 4 GiB, [ToBlock2] gives the previous hash (a nil one as an empty
    one) and the same transactions, and the offsets found in the bytes are
    those of the construction, at which the transactions lie one after the
    other. *)
Theorem ser_block2_roundtrip (b : Block2) :
  len (ser_bytes b) < 2 ^ 32 →
  ToBlock2 (NewSerBlock2 (ser_bytes b)) = Ok (Some (norm_block b))
  ∧ GetPreviousBlockHash (NewSerBlock2 (ser_bytes b)) = Some (sl (b2_PreviousBlockHash b))
  ∧ ∃ offs, sb_txOffsets (ConstructSerBlock2 b) = Some offs
    ∧ GetTxOffsets (NewSerBlock2 (ser_bytes b)) = Ok (Some offs, mkSerBlock2 (Some offs) None (ser_bytes b))
    ∧ tx_slices (ser_bytes b) offs = Ok (b2_Transactions b).
Proof.
  intros Hs. split_and!.
  - by apply ToBlock2_ser.
  - by apply extractPreviousBlockHash_ser.
  - exists (ser_offsets b ++ [len (ser_body b)]). split_and!.
    + by rewrite ConstructSerBlock2_eq.
    + rewrite GetTxOffsets_ser by done. by rewrite ConstructSerBlock2_eq.
    + rewrite ser_bytes_eq by done. unfold ser_body, ser_offsets. rewrite <-app_assoc.
      apply tx_slices_offsets.
Qed.

Definition example_block : Block2 := mkBlock2 None [bytes_of_string "tx0"; []; bytes_of_string "tx2"].
Lemma ser_block2_roundtrip_witness :
  ToBlock2 (NewSerBlock2 (ser_bytes example_block)) = Ok (Some (norm_block example_block))
  ∧ GetPreviousBlockHash (NewSerBlock2 (ser_bytes example_block)) = Some []
  ∧ ∃ offs, sb_txOffsets (ConstructSerBlock2 example_block) = Some offs
    ∧ GetTxOffsets (NewSerBlock2 (ser_bytes example_block))
      = Ok (Some offs, mkSerBlock2 (Some offs) None (ser_bytes example_block))
    ∧ tx_slices (ser_bytes example_block) offs = Ok (b2_Transactions example_block).
Proof. apply (ser_block2_roundtrip example_block). reflexivity. Defined.
