(* ===== verification/BlockFiles.v ===== *)
(** * Block files (core/ledger/blkstorage/fsblkstorage: blockfile_rw.go, block_stream.go)

    The files [blockfile_000000], [blockfile_000001], ... of a block store,
    each known by its number, with the operating system's file operations as an
    interface that may fail at any point: a failed write may leave a part of
    its bytes.  A stream reads the blocks of one file, or of one file after
    another, each block behind its length.  The read buffer of [bufio] is
    transparent. *)

From Stdlib Require Import Strings.Byte.
From stdpp Require Import base numbers strings gmap list.
From S2P Require Import Prelude Varint RWSet SerBlock2.
Local Open Scope Z_scope.

(** ** The file system *)
Class FileSystem (F : Type) := {
  fs_open : Z → F → option F;
  fs_write : Z → bytes → F → bool * F;
  fs_sync : Z → F → bool;
  fs_truncate : Z → Z → F → F;
  fs_stat : Z → F → option (option Z);
  fs_read : Z → F → option bytes }.

Class FileSystemLaws (F : Type) `{FileSystem F} := {
  files : F → gmap Z bytes;
  (** [O_RDWR|O_APPEND|O_CREATE] *)
  fs_open_spec n f f' : fs_open n f = Some f' →
    files f' = match files f !! n with Some _ => files f | None => <[n := []]> (files f) end;
  fs_write_spec n b f c : files f !! n = Some c →
    ∃ p, p `prefix_of` b ∧ ((fs_write n b f).1 = true → p = b)
      ∧ files (fs_write n b f).2 = <[n := c ++ p]> (files f);
  (** it may fail *)
  fs_truncate_spec n size f c : files f !! n = Some c →
    files (fs_truncate n size f) = files f
    ∨ files (fs_truncate n size f) = <[n := take (Z.to_nat size) c]> (files f);
  (** the size, or that there is no such file *)
  fs_stat_spec n f o : fs_stat n f = Some o → o = (λ c, len c) <$> files f !! n;
  fs_read_spec n f c : fs_read n f = Some c → files f !! n = Some c }.

(** A file system on which nothing fails. *)
Class ReliableFS (F : Type) `{FileSystemLaws F} : Prop := {
  reliable_open n f : is_Some (fs_open n f);
  reliable_write n b f : (fs_write n b f).1 = true;
  reliable_sync n f : fs_sync n f = true;
  reliable_truncate n size f c : files f !! n = Some c →
    files (fs_truncate n size f) = <[n := take (Z.to_nat size) c]> (files f);
  reliable_stat n f : is_Some (fs_stat n f);
  reliable_read n f c : files f !! n = Some c → fs_read n f = Some c }.

(** ** Writer: whether there was no error, and the file system *)
Section files.
Context {F : Type} `{FileSystem F}.

Definition newBlockfileWriter (n : Z) (f : F) : option F := fs_open n f.

(** An error of [Truncate] itself is not looked at. *)
Definition truncateFile (n targetSize : Z) (f : F) : bool * F :=
  match fs_stat n f with
  | Some (Some size) =>
      if bool_decide (size > targetSize) then (true, fs_truncate n targetSize f) else (true, f)
  | _ => (false, f)
  end.

Definition append (n : Z) (b : bytes) (sync : bool) (f : F) : bool * F :=
  let '(ok, f) := fs_write n b f in
  if ok then (if sync then fs_sync n f else true, f) else (false, f).

(** ** Reader *)
Definition reader_read (n offset length : Z) (f : F) : res (option bytes) :=
  match fs_read n f with
  | None => Ok None
  | Some c =>
      if bool_decide (length < 0) then Panic else
      if bool_decide (0 ≤ offset) && (bool_decide (length = 0) || bool_decide (offset + length ≤ len c))
      then Ok (Some (take (Z.to_nat length) (drop (Z.to_nat offset) c))) else Ok None
  end.

(** ** Streams *)
Record blockfileStream := mkFileStream { fst_fileNum : Z; fst_currentOffset : Z }.

Definition newBlockfileStream (fileNum startOffset : Z) (f : F) : option blockfileStream :=
  match fs_read fileNum f with
  | None => None
  | Some _ => if bool_decide (startOffset < 0) then None else Some (mkFileStream fileNum startOffset)
  end.

Record blockPlacementInfo := mkPlacement {
  bpi_fileNum : Z; bpi_blockStartOffset : Z; bpi_blockBytesOffset : Z }.

(** [SEnd]: nil bytes without an error; [SUnexpectedEnd]:
    [ErrUnexpectedEndOfBlockfile]. *)
Inductive stream_result :=
  | SBlock (blockBytes : bytes) (placement : blockPlacementInfo)
  | SEnd
  | SUnexpectedEnd
  | SError.

Definition fileStream_next (s : blockfileStream) (f : F) : res (stream_result * blockfileStream) :=
  match fs_read (fst_fileNum s) f with
  | None => Ok (SError, s)
  | Some c =>
      let off := fst_currentOffset s in
      if bool_decide (off = len c) then Ok (SEnd, s) else
      let remainingBytes := len c - off in
      let moreContentAvailable := negb (bool_decide (remainingBytes < 8)) in
      let peekBytes := if moreContentAvailable then 8 else remainingBytes in
      if bool_decide (peekBytes < 0) then Ok (SError, s) else
      let lenBytes := take (Z.to_nat peekBytes) (drop (Z.to_nat off) c) in
      let '(length, n) := DecodeVarint lenBytes in
      if bool_decide (n = 0)
      then if moreContentAvailable then Panic else Ok (SUnexpectedEnd, s) else
      let bytesExpected := i64 (n + i64 length) in
      if bool_decide (bytesExpected > remainingBytes) then Ok (SUnexpectedEnd, s) else
      if bool_decide (i64 length < 0) then Panic else
      let blockBytes := take (Z.to_nat length) (drop (Z.to_nat (off + n)) c) in
      Ok (SBlock blockBytes (mkPlacement (fst_fileNum s) off (off + n)),
          mkFileStream (fst_fileNum s) (off + n + length))
  end.

(** The file stream is nil after a file could not be opened. *)
Record blockStream := mkStream {
  bst_currentFileNum : Z; bst_endFileNum : Z; bst_file : option blockfileStream }.

Definition newBlockStream (startFileNum startOffset endFileNum : Z) (f : F) : option blockStream :=
  s ← newBlockfileStream startFileNum startOffset f;
  Some (mkStream startFileNum endFileNum (Some s)).

(** The recursion moves on to the next file. *)
Fixpoint stream_next (fuel : nat) (s : blockStream) (f : F) : res (stream_result * blockStream) :=
  match fuel with
  | O => OutOfFuel
  | S fuel =>
      fs ← deref (bst_file s);
      r ← fileStream_next fs f;
      let s1 := mkStream (bst_currentFileNum s) (bst_endFileNum s) (Some r.2) in
      match r.1 with
      | SEnd =>
          if bool_decide (bst_currentFileNum s < bst_endFileNum s) || bool_decide (bst_endFileNum s < 0)
          then
            let next := bst_currentFileNum s + 1 in
            match newBlockfileStream next 0 f with
            | None => Ok (SError, mkStream next (bst_endFileNum s) None)
            | fs => stream_next fuel (mkStream next (bst_endFileNum s) fs) f
            end
          else Ok (SEnd, s1)
      | x => Ok (x, s1)
      end
  end.

(** *** The last complete block of a file: its end, the number of blocks read
    and whether there was no error *)
Fixpoint scan_blocks (fuel : nat) (s : blockfileStream) (numBlocks : Z) (f : F) : res (Z * Z * bool) :=
  match fuel with
  | O => OutOfFuel
  | S fuel =>
      r ← fileStream_next s f;
      match r.1 with
      | SBlock _ _ => scan_blocks fuel r.2 (numBlocks + 1) f
      | SEnd | SUnexpectedEnd => Ok (fst_currentOffset r.2, numBlocks, true)
      | SError => Ok (fst_currentOffset r.2, numBlocks, false)
      end
  end.
Definition scanForLastCompleteBlock (fuel : nat) (fileNum startingOffset : Z) (f : F) : res (Z * Z * bool) :=
  match newBlockfileStream fileNum startingOffset f with
  | None => Ok (0, 0, false)
  | Some s => scan_blocks fuel s 0 f
  end.
End files.

(** ** Instances: a disk without faults, and one with room for a number of
    bytes, on which files can or cannot be cut *)
Module MemFS.
#[export] Instance fs : FileSystem (gmap Z bytes) := {
  fs_open n f := Some (match f !! n with Some _ => f | None => <[n := []]> f end);
  fs_write n b f := (true, <[n := default [] (f !! n) ++ b]> f);
  fs_sync n f := true;
  fs_truncate n size f := <[n := take (Z.to_nat size) (default [] (f !! n))]> f;
  fs_stat n f := Some ((λ c, len c) <$> f !! n);
  fs_read n f := f !! n }.
#[export] Instance fs_laws : FileSystemLaws (gmap Z bytes).
Proof.
  refine {| files := λ f, f |}; simpl.
  - by intros n f f' [= <-].
  - intros n b f c ->. exists b. split_and!; done.
  - intros n size f c ->. by right.
  - by intros n f o [= <-].
  - done.
Defined.
#[export] Instance fs_reliable : ReliableFS (gmap Z bytes).
Proof.
  split; simpl; try done.
  - by intros n size f c ->.
Qed.
End MemFS.

Module CapFS.
Record capfs (cuts : bool) := mkCapFS { cap_files : gmap Z bytes; cap_left : nat }.
#[global] Arguments mkCapFS {cuts}.
#[global] Arguments cap_files {cuts}.
#[global] Arguments cap_left {cuts}.

#[export] Instance fs cuts : FileSystem (capfs cuts) := {
  fs_open n f := Some (match cap_files f !! n with
                       | Some _ => f | None => mkCapFS (<[n := []]> (cap_files f)) (cap_left f) end);
  fs_write n b f :=
    (bool_decide (length b ≤ cap_left f)%nat,
     mkCapFS (<[n := default [] (cap_files f !! n) ++ take (cap_left f) b]> (cap_files f)) (cap_left f - length b));
  fs_sync n f := true;
  fs_truncate n size f :=
    if cuts then mkCapFS (<[n := take (Z.to_nat size) (default [] (cap_files f !! n))]> (cap_files f)) (cap_left f) else f;
  fs_stat n f := Some ((λ c, len c) <$> cap_files f !! n);
  fs_read n f := cap_files f !! n }.
#[export] Instance fs_laws cuts : FileSystemLaws (capfs cuts).
Proof.
  refine {| files := cap_files |}; simpl.
  - intros n f f' [= <-]. by destruct (cap_files f !! n).
  - intros n b f c ->. exists (take (cap_left f) b). split_and!; [apply prefix_take| |done].
    intros Hle. apply bool_decide_eq_true in Hle. by rewrite take_ge.
  - intros n size f c ->. destruct cuts; [by right|by left].
  - by intros n f o [= <-].
  - done.
Defined.
End CapFS.
