(* ===== verification/BlockIndex.v ===== *)
(** * The index of a block store (core/ledger/blkstorage/fsblkstorage/blockindex.go)

    Where blocks lie in the block files, by number and by hash, and where
    transactions lie, by block and position; kept in the key-value database
    together with the number of the last block indexed. *)

From Stdlib Require Import Strings.Byte.
From stdpp Require Import base numbers strings gmap list.
From S2P Require Import Prelude Varint RWSet LedgerUtil LevelDB SerBlock2.
Local Open Scope Z_scope.

(** ** blockstorage.go *)
Inductive IndexableAttr := IndexableAttrBlockNum | IndexableAttrBlockHash | IndexableAttrTxID.
#[global] Instance IndexableAttr_eq_dec : EqDecision IndexableAttr.
Proof. solve_decision. Defined.

Inductive index_error := ErrNotFoundInIndex | ErrAttrNotIndexed | ErrDB.

(** ** Keys *)
Definition blockNumIdxKeyPrefix : byte := x6e.
Definition blockHashIdxKeyPrefix : byte := x68.
Definition txIDIdxKeyPrefix : byte := x74.
Definition indexCheckpointKey : bytes := bytes_of_string "indexCheckpointKey".

(** The encoding never panics on a 64-bit number. *)
Definition constructBlockNumKey (blockNum : Z) : bytes :=
  blockNumIdxKeyPrefix :: match EncodeOrderPreservingVarUint64 blockNum with Ok b => b | _ => [] end.
Definition constructBlockHashKey (blockHash : bytes) : bytes := blockHashIdxKeyPrefix :: blockHash.
Definition constructTxIDKey (txID : bytes) : bytes := txIDIdxKeyPrefix :: txID.

Definition constructTxID (blockNum txNum : Z) : bytes :=
  decimal 20 blockNum ++ bytes_of_string ":" ++ decimal 20 txNum.

Definition encodeBlockNum (blockNum : Z) : bytes := EncodeVarint blockNum.
Definition decodeBlockNum (blockNumBytes : bytes) : Z := fst (DecodeVarint blockNumBytes).

(** ** Locations *)
Record locPointer := mkLoc { lp_offset : Z; lp_bytesLength : Z }.
Record fileLocPointer := mkFlp { flp_fileSuffixNum : Z; flp_loc : locPointer }.

Definition newFileLocationPointer (fileSuffixNum begginingOffset : Z) (relativeLP : locPointer)
    : fileLocPointer :=
  mkFlp fileSuffixNum (mkLoc (begginingOffset + lp_offset relativeLP) (lp_bytesLength relativeLP)).

Definition flp_marshal (flp : fileLocPointer) : bytes :=
  let buf := Buffer_EncodeVarint (u64 (flp_fileSuffixNum flp)) [] in
  let buf := Buffer_EncodeVarint (u64 (lp_offset (flp_loc flp))) buf in
  Buffer_EncodeVarint (u64 (lp_bytesLength (flp_loc flp))) buf.

(** What is filled in of a zero pointer; the callers do not look at the error. *)
Definition flp_unmarshal (b : bytes) : fileLocPointer :=
  match Buffer_DecodeVarint b with
  | None => mkFlp 0 (mkLoc 0 0)
  | Some (i, b) =>
      match Buffer_DecodeVarint b with
      | None => mkFlp (i64 i) (mkLoc 0 0)
      | Some (o, b) =>
          match Buffer_DecodeVarint b with
          | None => mkFlp (i64 i) (mkLoc (i64 o) 0)
          | Some (l, _) => mkFlp (i64 i) (mkLoc (i64 o) (i64 l))
          end
      end
  end.

Record blockIdxInfo := mkBlockIdxInfo {
  bii_blockNum : Z; bii_blockHash : bytes; bii_flp : fileLocPointer; bii_txOffsets : list Z }.

(** ** Operations: [items] are the attributes to index *)
Section index.
Context {D : Type} `{LevelDB D}.

Definition getLastBlockIndexed (d : D) : Z :=
  match DB_Get indexCheckpointKey d with
  | None => 0
  | Some blockNumBytes => decodeBlockNum (sl blockNumBytes)
  end.

Definition is_indexed (items : list IndexableAttr) (a : IndexableAttr) : bool := bool_decide (a ∈ items).

(** The transactions from number [i] on. *)
Fixpoint tx_puts (info : blockIdxInfo) (i : Z) (txOffsets : list Z) : batch :=
  match txOffsets with
  | lo :: (hi :: _) as rest =>
      let flp := bii_flp info in
      let txFlp := newFileLocationPointer (flp_fileSuffixNum flp) (lp_offset (flp_loc flp)) (mkLoc lo (hi - lo)) in
      (constructTxIDKey (constructTxID (bii_blockNum info) i), flp_marshal txFlp) :: tx_puts info (i + 1) rest
  | _ => []
  end.

Definition index_batch (items : list IndexableAttr) (info : blockIdxInfo) : batch :=
  let flpBytes := flp_marshal (bii_flp info) in
  (if is_indexed items IndexableAttrBlockHash
   then [(constructBlockHashKey (bii_blockHash info), flpBytes)] else [])
  ++ (if is_indexed items IndexableAttrBlockNum
      then [(constructBlockNumKey (bii_blockNum info), flpBytes)] else [])
  ++ (if is_indexed items IndexableAttrTxID then tx_puts info 0 (bii_txOffsets info) else [])
  ++ [(indexCheckpointKey, encodeBlockNum (bii_blockNum info))].

(** [None] is an error. *)
Definition indexBlock (items : list IndexableAttr) (info : blockIdxInfo) (d : D) : option D :=
  if bool_decide (items = []) then Some d
  else DB_WriteBatch (index_batch items info) false d.

Definition get_location (items : list IndexableAttr) (a : IndexableAttr) (key : bytes) (d : D)
    : index_error + fileLocPointer :=
  if negb (is_indexed items a) then inl ErrAttrNotIndexed else
  match DB_Get key d with
  | None => inl ErrDB
  | Some None => inl ErrNotFoundInIndex
  | Some (Some b) => inr (flp_unmarshal b)
  end.

Definition getBlockLocByHash items (blockHash : bytes) (d : D) : index_error + fileLocPointer :=
  get_location items IndexableAttrBlockHash (constructBlockHashKey blockHash) d.
Definition getBlockLocByBlockNum items (blockNum : Z) (d : D) : index_error + fileLocPointer :=
  get_location items IndexableAttrBlockNum (constructBlockNumKey blockNum) d.
Definition getTxLoc items (txID : bytes) (d : D) : index_error + fileLocPointer :=
  get_location items IndexableAttrTxID (constructTxIDKey txID) d.
End index.

(** ** Keys are distinct *)
Lemma constructBlockNumKey_inj n m :
  is_u64 n → is_u64 m → constructBlockNumKey n = constructBlockNumKey m → n = m.
Proof.
  intros Hn Hm. unfold constructBlockNumKey. rewrite !encode_width. intros H. apply (f_equal tail) in H.
  cbn [tail] in H. pose proof (decode_width n [] Hn) as E. rewrite H, decode_width in E by done. congruence.
Qed.

Lemma constructTxID_inj n i m j :
  is_u64 n → is_u64 i → is_u64 m → is_u64 j →
  constructTxID n i = constructTxID m j → n = m ∧ i = j.
Proof.
  unfold is_u64. intros Hn Hi Hm Hj H. unfold constructTxID in H.
  change (bytes_of_string ":") with [x3a] in H.
  apply app_sep_inj in H as [H1 H2]; [|by apply decimal_digits; lia..].
  assert (2 ^ 64 < 10 ^ Z.of_nat 20) by (vm_compute; reflexivity).
  apply (f_equal decimal_value) in H1, H2. rewrite !decimal_value_decimal in H1, H2 by lia. split; assumption.
Qed.

(** ** What a block's batch does to the database *)
Lemma apply_batch_cons kv (b : batch) m : apply_batch (kv :: b) m = apply_batch b (<[kv.1 := kv.2]> m).
Proof. done. Qed.

Lemma apply_batch_ext (b : batch) m m' k : m !! k = m' !! k → apply_batch b m !! k = apply_batch b m' !! k.
Proof.
  revert m m'. induction b as [|[k' v] b IH]; intros m m' Hk; [done|]. rewrite !apply_batch_cons. simpl.
  apply IH. destruct (decide (k' = k)) as [->|]; [by rewrite !lookup_insert_eq|by rewrite !lookup_insert_ne].
Qed.

Lemma apply_batch_other c (b : batch) m k :
  Forall (λ kv, head kv.1 = Some c) b → head k ≠ Some c → apply_batch b m !! k = m !! k.
Proof.
  intros Hb Hk. apply apply_batch_notin. intros Hin. apply list_elem_of_fmap in Hin as (kv & -> & Hin).
  rewrite Forall_forall in Hb. by apply Hk, Hb.
Qed.

Lemma tx_puts_head info i offs : Forall (λ kv, head kv.1 = Some txIDIdxKeyPrefix) (tx_puts info i offs).
Proof.
  revert i. induction offs as [|lo [|hi offs] IH]; intros i; [constructor..|].
  cbn [tx_puts]. constructor; [done|apply IH].
Qed.

#[local] Opaque EncodeOrderPreservingVarUint64 EncodeVarint Buffer_EncodeVarint.

Ltac solve_puts :=
  done || (destruct is_indexed;
    first [apply Forall_nil_2 | apply Forall_singleton; reflexivity | apply tx_puts_head]).

Section batch.
Context (items : list IndexableAttr) (info : blockIdxInfo) (m : gmap bytes bytes).

Lemma index_batch_other k :
  head k ≠ Some blockHashIdxKeyPrefix → head k ≠ Some blockNumIdxKeyPrefix →
  head k ≠ Some txIDIdxKeyPrefix → k ≠ indexCheckpointKey →
  apply_batch (index_batch items info) m !! k = m !! k.
Proof.
  intros H1 H2 H3 H4. unfold index_batch. rewrite !apply_batch_app.
  cbn [apply_batch foldl fst snd]. rewrite lookup_insert_ne by done.
  rewrite (apply_batch_other txIDIdxKeyPrefix) by solve_puts.
  rewrite (apply_batch_other blockNumIdxKeyPrefix) by solve_puts.
  by rewrite (apply_batch_other blockHashIdxKeyPrefix) by solve_puts.
Qed.
Lemma index_batch_checkpoint :
  apply_batch (index_batch items info) m !! indexCheckpointKey = Some (encodeBlockNum (bii_blockNum info)).
Proof. unfold index_batch. rewrite !apply_batch_app. cbn [apply_batch foldl fst snd]. by rewrite lookup_insert_eq. Qed.
Lemma index_batch_num n :
  apply_batch (index_batch items info) m !! constructBlockNumKey n
  = if is_indexed items IndexableAttrBlockNum
       && bool_decide (constructBlockNumKey n = constructBlockNumKey (bii_blockNum info))
    then Some (flp_marshal (bii_flp info)) else m !! constructBlockNumKey n.
Proof.
  unfold index_batch. rewrite !apply_batch_app.
  cbn [apply_batch foldl fst snd]. rewrite lookup_insert_ne by done.
  rewrite (apply_batch_other txIDIdxKeyPrefix) by solve_puts.
  destruct (is_indexed items IndexableAttrBlockNum); simpl.
  - case_bool_decide as E; [by rewrite E, lookup_insert_eq|]. rewrite lookup_insert_ne by done.
    by rewrite (apply_batch_other blockHashIdxKeyPrefix) by solve_puts.
  - by rewrite (apply_batch_other blockHashIdxKeyPrefix) by solve_puts.
Qed.
Lemma index_batch_hash h :
  apply_batch (index_batch items info) m !! constructBlockHashKey h
  = if is_indexed items IndexableAttrBlockHash && bool_decide (h = bii_blockHash info)
    then Some (flp_marshal (bii_flp info)) else m !! constructBlockHashKey h.
Proof.
  unfold index_batch. rewrite !apply_batch_app.
  cbn [apply_batch foldl fst snd]. rewrite lookup_insert_ne by done.
  rewrite (apply_batch_other txIDIdxKeyPrefix) by solve_puts.
  rewrite (apply_batch_other blockNumIdxKeyPrefix) by solve_puts.
  destruct (is_indexed items IndexableAttrBlockHash); simpl; [|done].
  case_bool_decide as E; [by subst; rewrite lookup_insert_eq|].
  rewrite lookup_insert_ne; [done|]. intros [= He]. congruence.
Qed.
End batch.

(** ** Transactions *)
Section txs.
Context (info : blockIdxInfo) (Hnum : is_u64 (bii_blockNum info)).

(** The location of a transaction between two offsets of the block. *)
Definition tx_location (lo hi : Z) : fileLocPointer :=
  newFileLocationPointer (flp_fileSuffixNum (bii_flp info)) (lp_offset (flp_loc (bii_flp info))) (mkLoc lo (hi - lo)).
Definition tx_key (i : Z) : bytes := constructTxIDKey (constructTxID (bii_blockNum info) i).

Lemma tx_puts_cons i lo hi offs :
  tx_puts info i (lo :: hi :: offs)
  = (tx_key i, flp_marshal (tx_location lo hi)) :: tx_puts info (i + 1) (hi :: offs).
Proof. done. Qed.

Lemma tx_puts_keys i offs k v :
  (k, v) ∈ tx_puts info i offs → ∃ j, i ≤ j < i + len offs ∧ k = tx_key j.
Proof.
  revert i. induction offs as [|lo [|hi offs] IH]; intros i Hin; [by apply not_elem_of_nil in Hin..|].
  rewrite tx_puts_cons in Hin. apply elem_of_cons in Hin as [[= -> ->]|Hin].
  - exists i. simpl. split; [lia|done].
  - apply IH in Hin as (j & Hj & ->). exists j. simpl in *. split; [lia|done].
Qed.

Lemma tx_puts_lookup i offs m j lo hi :
  0 ≤ i → i + len offs < 2 ^ 63 → offs !! j = Some lo → offs !! S j = Some hi →
  apply_batch (tx_puts info i offs) m !! tx_key (i + Z.of_nat j) = Some (flp_marshal (tx_location lo hi)).
Proof.
  revert i m j. induction offs as [|o [|o' offs] IH]; intros i m j Hi Hlen Hlo Hhi;
    [done|by destruct j|].
  rewrite tx_puts_cons, apply_batch_cons.
  destruct j as [|j]; simpl in Hlo, Hhi.
  - injection Hlo as ->. injection Hhi as ->. rewrite apply_batch_notin.
    + by rewrite Z.add_0_r, lookup_insert_eq.
    + intros Hin. apply list_elem_of_fmap in Hin as ([k v] & Hk & Hin). simpl in Hk. subst.
      apply tx_puts_keys in Hin as (j & Hj & Heq). injection Heq as Heq.
      apply constructTxID_inj in Heq as [_ ?]; simpl in *; unfold is_u64 in *; lia.
  - replace (i + Z.of_nat (S j)) with (i + 1 + Z.of_nat j) by lia. simpl in *. apply IH; [lia|simpl; lia|done|done].
Qed.

Lemma tx_puts_other offs m n i :
  is_u64 n → 0 ≤ i < 2 ^ 63 → len offs < 2 ^ 63 → n ≠ bii_blockNum info →
  apply_batch (tx_puts info 0 offs) m !! constructTxIDKey (constructTxID n i)
  = m !! constructTxIDKey (constructTxID n i).
Proof.
  intros Hn Hi Hlen Hne. apply apply_batch_notin. intros Hin.
  apply list_elem_of_fmap in Hin as ([k v] & Hk & Hin). simpl in Hk. subst.
  apply tx_puts_keys in Hin as (j & Hj & Heq). injection Heq as Heq.
  apply constructTxID_inj in Heq as [? _]; [done|done|unfold is_u64; lia|done|unfold is_u64; lia].
Qed.

Lemma index_batch_tx items m k :
  head k = Some txIDIdxKeyPrefix →
  apply_batch (index_batch items info) m !! k
  = apply_batch (if is_indexed items IndexableAttrTxID then tx_puts info 0 (bii_txOffsets info) else []) m !! k.
Proof.
  intros Hk. unfold index_batch. rewrite !apply_batch_app, apply_batch_cons. cbn [apply_batch foldl fst snd].
  rewrite lookup_insert_ne by (intros <-; done). apply apply_batch_ext.
  rewrite (apply_batch_other blockNumIdxKeyPrefix) by (rewrite ?Hk; solve_puts).
  by rewrite (apply_batch_other blockHashIdxKeyPrefix) by (rewrite ?Hk; solve_puts).
Qed.
End txs.

(** ** Locations read back *)
Definition flp_ok (p : fileLocPointer) : Prop :=
  0 ≤ flp_fileSuffixNum p < 2 ^ 63 ∧ 0 ≤ lp_offset (flp_loc p) < 2 ^ 63 ∧ 0 ≤ lp_bytesLength (flp_loc p) < 2 ^ 63.

Lemma flp_unmarshal_marshal p : flp_ok p → flp_unmarshal (flp_marshal p) = p.
Proof.
  destruct p as [n [o l]]. intros (Hn & Ho & Hl). simpl in *. unfold flp_unmarshal, flp_marshal. simpl.
  rewrite !Buffer_EncodeVarint_eq. simpl. rewrite !u64_small by lia. rewrite <-!app_assoc.
  rewrite !Buffer_DecodeVarint_Encode by (unfold is_u64; lia).
  rewrite <-(app_nil_r (EncodeVarint l)), Buffer_DecodeVarint_Encode by (unfold is_u64; lia).
  by rewrite !i64_small by lia.
Qed.
