(* ===== verification/BlockStore.v ===== *)
(** * The block store (core/ledger/blkstorage/fsblkstorage: blockfile_mgr.go,
      blocks_itr.go, fs_blockstore.go)

    The manager appends serialised blocks to block files and keeps, in the
    key-value database, a checkpoint (the file written last, its size, the
    number of blocks) and the index.  On start-up it brings the checkpoint and
    the index up to date with the files.  Code that changes the disk keeps the
    state it has reached when it panics, so that every point at which the
    process can stop is a state of the model. *)

From Stdlib Require Import Strings.Byte.
From stdpp Require Import base numbers strings gmap list.
From S2P Require Import Prelude Varint RWSet LevelDB PeerTypes SerBlock2 BlockFiles BlockIndex.
Local Open Scope Z_scope.

(** ** Code whose state survives a panic *)
Definition P (S A : Type) : Type := S → res A * S.
#[global] Instance P_ret {S} : MRet (P S) := λ A a s, (Ok a, s).
#[global] Instance P_bind {S} : MBind (P S) := λ A B f m s,
  match m s with
  | (Ok a, s') => f a s'
  | (Panic, s') => (Panic, s')
  | (OutOfFuel, s') => (OutOfFuel, s')
  end.
Definition p_gets {S A} (f : S → A) : P S A := λ s, (Ok (f s), s).
Definition p_modify {S} (f : S → S) : P S unit := λ s, (Ok tt, f s).
Definition p_lift {S A} (r : res A) : P S A := λ s, (r, s).
Definition p_panic {S A} : P S A := λ s, (Panic, s).

(** ** The checkpoint *)
Record checkpointInfo := mkCp {
  latestFileChunkSuffixNum : Z; latestFileChunksize : Z; lastBlockNumber : Z }.

Definition cp_marshal (i : checkpointInfo) : bytes :=
  let buf := Buffer_EncodeVarint (u64 (latestFileChunkSuffixNum i)) [] in
  let buf := Buffer_EncodeVarint (u64 (latestFileChunksize i)) buf in
  Buffer_EncodeVarint (lastBlockNumber i) buf.

Definition cp_unmarshal (b : bytes) : option checkpointInfo :=
  '(n, b) ← Buffer_DecodeVarint b;
  '(size, b) ← Buffer_DecodeVarint b;
  '(last, b) ← Buffer_DecodeVarint b;
  Some (mkCp (i64 n) (i64 size) last).

Definition blkMgrInfoKey : bytes := bytes_of_string "blkMgrInfo".

(** ** The manager *)
Record blockfileMgr (F D : Type) := mkMgr {
  mgr_fs : F; mgr_db : D; mgr_cpInfo : checkpointInfo; mgr_writer : Z; mgr_bcInfo : BlockchainInfo }.
Arguments mkMgr {F D}.
Arguments mgr_fs {F D}.
Arguments mgr_db {F D}.
Arguments mgr_cpInfo {F D}.
Arguments mgr_writer {F D}.
Arguments mgr_bcInfo {F D}.

Section store.
Context {F D : Type} `{FileSystem F, LevelDB D, CryptoHash}.
Context (maxBlockfileSize : Z) (items : list IndexableAttr).
Abbreviation Mgr := (blockfileMgr F D).

Definition set_fs (f : F) (m : Mgr) : Mgr := mkMgr f (mgr_db m) (mgr_cpInfo m) (mgr_writer m) (mgr_bcInfo m).
Definition set_db (d : D) (m : Mgr) : Mgr := mkMgr (mgr_fs m) d (mgr_cpInfo m) (mgr_writer m) (mgr_bcInfo m).
Definition set_writer (n : Z) (m : Mgr) : Mgr := mkMgr (mgr_fs m) (mgr_db m) (mgr_cpInfo m) n (mgr_bcInfo m).
Definition updateCheckpoint (cp : checkpointInfo) (m : Mgr) : Mgr :=
  mkMgr (mgr_fs m) (mgr_db m) cp (mgr_writer m) (mgr_bcInfo m).
Definition set_bcInfo (i : BlockchainInfo) (m : Mgr) : Mgr :=
  mkMgr (mgr_fs m) (mgr_db m) (mgr_cpInfo m) (mgr_writer m) i.

(** Operations on the disk: whether there was no error. *)
Definition on_fs (op : F → bool * F) : P Mgr bool := λ m,
  let '(ok, f) := op (mgr_fs m) in (Ok ok, set_fs f m).
Definition on_db (op : D → option D) : P Mgr bool := λ m,
  match op (mgr_db m) with Some d => (Ok true, set_db d m) | None => (Ok false, m) end.
Definition open_writer (n : Z) : P Mgr bool := λ m,
  match newBlockfileWriter n (mgr_fs m) with Some f => (Ok true, set_fs f m) | None => (Ok false, m) end.
Definition or_panic (m : P Mgr bool) : P Mgr unit := ok ← m; if (ok : bool) then mret tt else p_panic.

(** [None] is an error. *)
Definition loadCurrentInfo (d : D) : option (option checkpointInfo) :=
  match DB_Get blkMgrInfoKey d with
  | None => None
  | Some None => Some None
  | Some (Some b) => match cp_unmarshal b with Some i => Some (Some i) | None => None end
  end.
Definition saveCurrentInfo (i : checkpointInfo) (sync : bool) : P Mgr bool :=
  on_db (DB_Put blkMgrInfoKey (cp_marshal i) sync).

(** ** Adding a block *)
Definition moveToNextFile : P Mgr unit :=
  old ← p_gets mgr_cpInfo;
  let cpInfo := mkCp (latestFileChunkSuffixNum old + 1) 0 (lastBlockNumber old) in
  _ ← or_panic (open_writer (latestFileChunkSuffixNum cpInfo));
  _ ← or_panic (saveCurrentInfo cpInfo true);
  _ ← p_modify (set_writer (latestFileChunkSuffixNum cpInfo));
  p_modify (updateCheckpoint cpInfo).

Definition updateBlockchainInfo (latestBlockHash : bytes) (latestBlock : Block2) : P Mgr unit :=
  p_modify (λ m, set_bcInfo (mkBlockchainInfo (u64 (bi_Height (mgr_bcInfo m) + 1))
                               (Some latestBlockHash) (b2_PreviousBlockHash latestBlock)) m).

(** The error path: the file is cut back to the size of the checkpoint. *)
Definition cut_back : P Mgr bool :=
  m ← p_gets id;
  _ ← or_panic (on_fs (truncateFile (mgr_writer m) (latestFileChunksize (mgr_cpInfo m))));
  mret false.

(** [addBlock] from the first append on. *)
Definition write_block (block : Block2) (blockBytes blockHash : bytes) (txOffsets : list Z)
    (currentOffset : Z) : P Mgr bool :=
  let blockBytesEncodedLen := EncodeVarint (len blockBytes) in
  let totalBytesToAppend := len blockBytes + len blockBytesEncodedLen in
  w ← p_gets mgr_writer;
  ok ← on_fs (append w blockBytesEncodedLen false);
  ok ← (if (ok : bool) then on_fs (append w blockBytes true) else mret false);
  if negb ok then cut_back else
  cur ← p_gets mgr_cpInfo;
  let newCPInfo := mkCp (latestFileChunkSuffixNum cur) (latestFileChunksize cur + totalBytesToAppend)
                        (u64 (lastBlockNumber cur + 1)) in
  ok ← saveCurrentInfo newCPInfo false;
  if negb ok then cut_back else
  let txOffsets := (λ o, o + len blockBytesEncodedLen) <$> txOffsets in
  _ ← on_db (indexBlock items
        (mkBlockIdxInfo (lastBlockNumber newCPInfo) blockHash
           (mkFlp (latestFileChunkSuffixNum newCPInfo) (mkLoc currentOffset 0)) txOffsets));
  _ ← p_modify (updateCheckpoint newCPInfo);
  _ ← updateBlockchainInfo blockHash block;
  mret true.

Definition addBlock (block : Block2) : P Mgr bool :=
  let serBlock := ConstructSerBlock2 block in
  let blockBytes := GetBytes serBlock in
  let '(blockHash, serBlock) := ComputeHash serBlock in
  offs ← p_lift (GetTxOffsets serBlock);
  match offs.1 with
  | None => mret false
  | Some txOffsets =>
      cp ← p_gets mgr_cpInfo;
      let totalBytesToAppend := len blockBytes + len (EncodeVarint (len blockBytes)) in
      currentOffset ←
        (if bool_decide (latestFileChunksize cp + totalBytesToAppend > maxBlockfileSize)
         then (_ ← moveToNextFile; mret 0) else mret (latestFileChunksize cp));
      write_block block blockBytes blockHash txOffsets currentOffset
  end.

(** ** Retrieval: [None] is an error *)
Definition fetchBlockBytes (lp : fileLocPointer) (m : Mgr) : res (option bytes) :=
  match newBlockfileStream (flp_fileSuffixNum lp) (lp_offset (flp_loc lp)) (mgr_fs m) with
  | None => Ok None
  | Some s =>
      r ← fileStream_next s (mgr_fs m);
      Ok (match r.1 with
          | SBlock b _ => Some b
          | SEnd => Some []
          | SUnexpectedEnd | SError => None
          end)
  end.
Definition fetchSerBlock (lp : fileLocPointer) (m : Mgr) : res (option SerBlock2) :=
  b ← fetchBlockBytes lp m;
  Ok (match b with Some b => Some (NewSerBlock2 b) | None => None end).
Definition fetchBlock (lp : fileLocPointer) (m : Mgr) : res (option Block2) :=
  s ← fetchSerBlock lp m;
  match s with Some s => ToBlock2 s | None => Ok None end.
Definition fetchRawBytes (lp : fileLocPointer) (m : Mgr) : res (option bytes) :=
  reader_read (flp_fileSuffixNum lp) (lp_offset (flp_loc lp)) (lp_bytesLength (flp_loc lp)) (mgr_fs m).

Definition retrieveBlockByHash (blockHash : bytes) (m : Mgr) : res (option Block2) :=
  match getBlockLocByHash items blockHash (mgr_db m) with inl _ => Ok None | inr loc => fetchBlock loc m end.
Definition retrieveBlockByNumber (blockNum : Z) (m : Mgr) : res (option Block2) :=
  match getBlockLocByBlockNum items blockNum (mgr_db m) with inl _ => Ok None | inr loc => fetchBlock loc m end.
Definition retrieveSerBlockByNumber (blockNum : Z) (m : Mgr) : res (option SerBlock2) :=
  match getBlockLocByBlockNum items blockNum (mgr_db m) with inl _ => Ok None | inr loc => fetchSerBlock loc m end.

Section tx.
Context `{!Proto Envelope, !Proto Payload, !Proto Transaction}.
Definition extractTransaction (txEnvelopeBytes : bytes) : option Transaction :=
  txEnvelope ← GetEnvelope (Some txEnvelopeBytes);
  txPayload ← GetPayload txEnvelope;
  GetTransaction (pl_Data txPayload).
Definition fetchTransaction (lp : fileLocPointer) (m : Mgr) : res (option Transaction) :=
  b ← fetchRawBytes lp m;
  Ok (match b with Some b => extractTransaction b | None => None end).
Definition retrieveTransactionByID (txID : bytes) (m : Mgr) : res (option Transaction) :=
  match getTxLoc items txID (mgr_db m) with inl _ => Ok None | inr loc => fetchTransaction loc m end.
End tx.

(** ** Start-up *)

(** The checkpoint, brought up to date with the file. *)
Definition syncCPInfoFromFS (fuel : nat) (cpInfo : checkpointInfo) (f : F) : res checkpointInfo :=
  match fs_stat (latestFileChunkSuffixNum cpInfo) f with
  | None => Panic
  | Some None => Ok cpInfo
  | Some (Some size) =>
      if bool_decide (size = latestFileChunksize cpInfo) then Ok cpInfo else
      r ← scanForLastCompleteBlock fuel (latestFileChunkSuffixNum cpInfo) (latestFileChunksize cpInfo) f;
      let '(endOffsetLastBlock, numBlocks, ok) := r in
      if (ok : bool)
      then Ok (mkCp (latestFileChunkSuffixNum cpInfo) endOffsetLastBlock
                    (u64 (lastBlockNumber cpInfo + numBlocks)))
      else Panic
  end.

(** The loop of [syncIndex]. *)
Fixpoint index_blocks (fuel : nat) (stream : blockStream) (blockNum : Z) : P Mgr bool :=
  match fuel with
  | O => p_lift OutOfFuel
  | S fuel' =>
      f ← p_gets mgr_fs;
      r ← p_lift (stream_next fuel stream f);
      match r.1 with
      | SEnd => mret true
      | SUnexpectedEnd | SError => mret false
      | SBlock blockBytes placement =>
          let serBlock2 := NewSerBlock2 blockBytes in
          offs ← p_lift (GetTxOffsets serBlock2);
          match offs.1 with
          | None => mret false
          | Some txOffsets =>
              let txOffsets := (λ o, o + bpi_blockBytesOffset placement) <$> txOffsets in
              ok ← on_db (indexBlock items
                (mkBlockIdxInfo blockNum (fst (ComputeHash serBlock2))
                   (mkFlp (bpi_fileNum placement) (mkLoc (bpi_blockStartOffset placement) 0)) txOffsets));
              if (ok : bool) then index_blocks fuel' r.2 (u64 (blockNum + 1)) else mret false
          end
      end
  end.

Definition syncIndex (fuel : nat) : P Mgr bool :=
  m ← p_gets id;
  let lastBlockIndexed := getLastBlockIndexed (mgr_db m) in
  let endFileNum := latestFileChunkSuffixNum (mgr_cpInfo m) in
  let start :=
    if bool_decide (lastBlockIndexed = 0) then Some (0, 0, 1) else
    match getBlockLocByBlockNum items lastBlockIndexed (mgr_db m) with
    | inl _ => None
    | inr flp => Some (flp_fileSuffixNum flp, lp_offset (flp_loc flp), lastBlockIndexed)
    end in
  match start with
  | None => mret false
  | Some (startFileNum, startOffset, blockNum) =>
      match newBlockStream startFileNum startOffset endFileNum (mgr_fs m) with
      | None => mret false
      | Some stream => index_blocks fuel stream blockNum
      end
  end.

(** A manager with nothing but the disk. *)
Definition on_disk (f : F) (d : D) : Mgr := mkMgr f d (mkCp 0 0 0) 0 (mkBlockchainInfo 0 None None).

(** [newBlockfileMgr] until the manager has its checkpoint and its writer. *)
Definition start_files (fuel : nat) : P Mgr unit :=
  d ← p_gets mgr_db;
  cpInfo ←
    match loadCurrentInfo d with
    | None => p_panic
    | Some (Some cpInfo) => mret cpInfo
    | Some None => _ ← or_panic (saveCurrentInfo (mkCp 0 0 0) true); mret (mkCp 0 0 0)
    end;
  f ← p_gets mgr_fs;
  cpInfo ← p_lift (syncCPInfoFromFS fuel cpInfo f);
  _ ← or_panic (open_writer (latestFileChunkSuffixNum cpInfo));
  _ ← or_panic (on_fs (truncateFile (latestFileChunkSuffixNum cpInfo) (latestFileChunksize cpInfo)));
  _ ← p_modify (updateCheckpoint cpInfo);
  p_modify (set_writer (latestFileChunkSuffixNum cpInfo)).

(** ... and from there on; the error of [syncIndex] is not looked at. *)
Definition start_index (fuel : nat) : P Mgr unit :=
  _ ← syncIndex fuel;
  m ← p_gets id;
  let last := lastBlockNumber (mgr_cpInfo m) in
  if bool_decide (last > 0) then
    lastBlock ← p_lift (retrieveSerBlockByNumber last m);
    match lastBlock with
    | None => p_panic
    | Some lastBlock =>
        match GetPreviousBlockHash lastBlock with
        | None => p_panic
        | Some previousBlockHash =>
            p_modify (set_bcInfo (mkBlockchainInfo last (Some (fst (ComputeHash lastBlock))) (Some previousBlockHash)))
        end
    end
  else p_modify (set_bcInfo (mkBlockchainInfo 0 None None)).

Definition newBlockfileMgr (fuel : nat) : P Mgr unit := _ ← start_files fuel; start_index fuel.

(** ** blocks_itr.go *)
Record BlocksItr := mkItr {
  maxBlockNumAvailable : Z; blockNumToRetrieve : Z; itr_stream : option blockStream; closeMarker : bool }.

Definition newBlockItr (startBlockNum : Z) (m : Mgr) : BlocksItr :=
  mkItr (lastBlockNumber (mgr_cpInfo m)) startBlockNum None false.

(** [Blocked]: the call waits for a newer block. *)
Inductive itr_result := Blocked | ItrBlock (b : bytes) | ItrClosed | ItrErr.

Definition initStream (itr : BlocksItr) (m : Mgr) : option blockStream :=
  match getBlockLocByBlockNum items (blockNumToRetrieve itr) (mgr_db m) with
  | inl _ => None
  | inr lp => newBlockStream (flp_fileSuffixNum lp) (lp_offset (flp_loc lp)) (-1) (mgr_fs m)
  end.

Definition Next (fuel : nat) (itr : BlocksItr) (m : Mgr) : res (itr_result * BlocksItr) :=
  let last := lastBlockNumber (mgr_cpInfo m) in
  let wait := bool_decide (maxBlockNumAvailable itr < blockNumToRetrieve itr) in
  if wait && bool_decide (last < blockNumToRetrieve itr) && negb (closeMarker itr) then Ok (Blocked, itr) else
  let itr := if wait then mkItr last (blockNumToRetrieve itr) (itr_stream itr) (closeMarker itr) else itr in
  if closeMarker itr then Ok (ItrClosed, itr) else
  match match itr_stream itr with Some s => Some s | None => initStream itr m end with
  | None => Ok (ItrErr, itr)
  | Some stream =>
      r ← stream_next fuel stream (mgr_fs m);
      let next n := mkItr (maxBlockNumAvailable itr) n (Some r.2) (closeMarker itr) in
      Ok (match r.1 with
          | SBlock b _ => (ItrBlock b, next (u64 (blockNumToRetrieve itr + 1)))
          | SEnd => (ItrBlock [], next (u64 (blockNumToRetrieve itr + 1)))
          | SUnexpectedEnd | SError => (ItrErr, next (blockNumToRetrieve itr))
          end)
  end.

(** [itr.stream.close()] dereferences a nil stream. *)
Definition itr_Close (itr : BlocksItr) : res BlocksItr :=
  match itr_stream itr with
  | None => Panic
  | Some s => _ ← deref (bst_file s); Ok (mkItr (maxBlockNumAvailable itr) (blockNumToRetrieve itr) (itr_stream itr) true)
  end.
End store.
