(* ===== verification/BlockStoreProofs.v ===== *)
(** * The block store keeps its blocks

    The layout of blocks in the files, what the index says of it, and that
    adding a block, failing to, stopping in the middle and starting up again
    all lead from one list of blocks to the right other one. *)

From Stdlib Require Import Strings.Byte.
From stdpp Require Import base numbers strings gmap list.
From S2P Require Import Prelude Varint RWSet LevelDB PeerTypes SerBlock2 BlockFiles BlockIndex BlockStore.
Local Open Scope Z_scope.

(** ** Varints that are cut off *)
Definition high (b : byte) : Prop := Z.land (Z_of_byte b) 128 ≠ 0.

Lemma decode_high n s a p : Forall high p → decode_varint n s a p = None.
Proof.
  revert s a p. induction n as [|n IH]; intros s a [|b p] Hp; try done. simpl.
  apply Forall_cons in Hp as [Hb Hp]. rewrite bool_decide_eq_false_2 by done. by apply IH.
Qed.

Lemma encode_varint_last n x :
  (0 < n)%nat → 0 ≤ x < 2 ^ (7 * Z.of_nat n) →
  ∃ init z, encode_varint n x = init ++ [z] ∧ Forall high init ∧ (length init < n)%nat.
Proof.
  revert x. induction n as [|n IH]; intros x Hn Hx; [lia|]. cbn [encode_varint].
  case_bool_decide as E.
  - assert (0 < n)%nat as Hn'.
    { destruct n; [|lia]. simpl in Hx. lia. }
    destruct (IH (Z.shiftr x 7) Hn') as (init & z & -> & Hh & Hl).
    { rewrite Z.shiftr_div_pow2 by lia. split; [apply Z.div_pos; lia|]. apply Z.div_lt_upper_bound; [lia|].
      rewrite <-Z.pow_add_r by lia. replace (7 + 7 * Z.of_nat n) with (7 * Z.of_nat (S n)) by lia. lia. }
    exists (byte_of_Z (Z.lor 128 (Z.land x 127)) :: init), z. split_and!; [done| |simpl; lia].
    constructor; [|done]. unfold high. rewrite Z_of_byte_of_Z.
    pose proof (Z.mod_pos_bound x 128 ltac:(lia)). rewrite land_127, lor_128, Z.mod_small by lia.
    apply land_128_high. lia.
  - exists [], (byte_of_Z x). split_and!; [done|constructor|simpl; lia].
Qed.

Lemma encode_varint_more n m x :
  (0 < n ≤ m)%nat → 0 ≤ x < 2 ^ (7 * Z.of_nat n) → encode_varint m x = encode_varint n x.
Proof.
  revert m x. induction n as [|n IH]; intros [|m] x Hn Hx; try lia. cbn [encode_varint].
  case_bool_decide as E; [|done]. f_equal. apply IH.
  - destruct n; [simpl in Hx; lia|lia].
  - rewrite Z.shiftr_div_pow2 by lia. split; [apply Z.div_pos; lia|]. apply Z.div_lt_upper_bound; [lia|].
    rewrite <-Z.pow_add_r by lia. replace (7 + 7 * Z.of_nat n) with (7 * Z.of_nat (S n)) by lia. lia.
Qed.

(** The length of a block of less than 4 GiB takes at most five bytes. *)
Lemma EncodeVarint_32 x :
  0 ≤ x < 2 ^ 32 →
  ∃ init z, EncodeVarint x = init ++ [z] ∧ Forall high init ∧ (length init < 5)%nat.
Proof.
  intros Hx. unfold EncodeVarint, maxVarintBytes. rewrite (encode_varint_more 5 10) by (simpl; lia).
  apply encode_varint_last; simpl; lia.
Qed.

Lemma strict_prefix_app {A} (p a b : list A) z :
  p `prefix_of` a ++ [z] ++ b → (length p ≤ length a)%nat → p `prefix_of` a.
Proof.
  intros [k Hk] Hl. exists (drop (length p) a).
  assert (take (length p) (a ++ [z] ++ b) = p) as Ht by (rewrite Hk; by rewrite take_app_length).
  rewrite take_app_le in Ht by done. by rewrite <-Ht at 1; rewrite take_drop.
Qed.

(** ** Blocks in files *)
Definition block_ok (b : Block2) : Prop := len (ser_bytes b) < 2 ^ 32.
Definition len_bytes (b : Block2) : bytes := EncodeVarint (len (ser_bytes b)).
Definition frame (b : Block2) : bytes := len_bytes b ++ ser_bytes b.
Definition seg_bytes (seg : list Block2) : bytes := concat (frame <$> seg).

Lemma seg_bytes_app s s' : seg_bytes (s ++ s') = seg_bytes s ++ seg_bytes s'.
Proof. unfold seg_bytes. by rewrite fmap_app, concat_app. Qed.
Lemma seg_bytes_cons b s : seg_bytes (b :: s) = frame b ++ seg_bytes s.
Proof. done. Qed.
Lemma seg_bytes_snoc s b : seg_bytes (s ++ [b]) = seg_bytes s ++ frame b.
Proof. rewrite seg_bytes_app. by rewrite seg_bytes_cons, app_nil_r. Qed.

Lemma len_bytes_bounds b : block_ok b → (0 < length (len_bytes b) ≤ 5)%nat.
Proof.
  intros Hb. destruct (EncodeVarint_32 (len (ser_bytes b))) as (i & z & E & _ & Hl); [unfold block_ok in Hb; lia|].
  unfold len_bytes. rewrite E, length_app. simpl. lia.
Qed.

Section files.
Context {F : Type} `{FileSystem F} `{!FileSystemLaws F} `{!ReliableFS F}.

Lemma fileStream_next_end n off (f : F) c :
  files f !! n = Some c → off = len c →
  fileStream_next (mkFileStream n off) f = Ok (SEnd, mkFileStream n off).
Proof.
  intros Hc ->. unfold fileStream_next. simpl. rewrite (reliable_read n f c) by done.
  by rewrite bool_decide_eq_true_2.
Qed.

Lemma take_app_more {A} (k : nat) (a b : list A) : (length a ≤ k)%nat → take k (a ++ b) = a ++ take (k - length a) b.
Proof. intros. by rewrite take_app, take_ge. Qed.

Lemma fileStream_next_block n (f : F) pre b rest :
  files f !! n = Some (pre ++ frame b ++ rest) → block_ok b →
  fileStream_next (mkFileStream n (len pre)) f
  = Ok (SBlock (ser_bytes b) (mkPlacement n (len pre) (len pre + len (len_bytes b))),
        mkFileStream n (len (pre ++ frame b))).
Proof.
  intros Hc Hb. pose proof (len_bytes_bounds b Hb) as Hl. unfold block_ok in Hb.
  unfold fileStream_next. simpl. rewrite (reliable_read n f _ Hc). unfold frame in *.
  rewrite !length_app. rewrite bool_decide_eq_false_2 by lia.
  set (rem := Z.of_nat _ - len pre).
  assert (rem = len (len_bytes b) + len (ser_bytes b) + len rest) as Hrem by (unfold rem; lia).
  clearbody rem.
  set (pk := if negb _ then 8 else rem).
  assert (len (len_bytes b) ≤ pk) as Hpk by (unfold pk; case_bool_decide; simpl; lia).
  rewrite bool_decide_eq_false_2 by lia.
  rewrite Nat2Z.id, drop_app_length, <-!app_assoc, take_app_more by lia.
  unfold len_bytes in *. rewrite DecodeVarint_Encode by (unfold is_u64; lia).
  rewrite bool_decide_eq_false_2 by lia. rewrite (i64_small (len _)) by lia. rewrite i64_small by lia.
  rewrite bool_decide_eq_false_2 by lia. rewrite bool_decide_eq_false_2 by lia.
  rewrite Nat2Z.id, Z2Nat.inj_add, !Nat2Z.id by lia.
  rewrite <-drop_drop, drop_app_length, drop_app_length, take_app_length.
  do 2 f_equal. f_equal. lia.
Qed.

(** What a write that stopped in the middle leaves. *)
Definition cut (p : bytes) : Prop :=
  p = [] ∨ ∃ b, block_ok b ∧ p `prefix_of` frame b ∧ (length p < length (frame b))%nat.

Lemma fileStream_next_cut n (f : F) pre p :
  files f !! n = Some (pre ++ p) → cut p → p ≠ [] →
  fileStream_next (mkFileStream n (len pre)) f = Ok (SUnexpectedEnd, mkFileStream n (len pre)).
Proof.
  intros Hc [->|(b & Hb & Hpre & Hlt)] Hne; [done|].
  pose proof (len_bytes_bounds b Hb) as Hl. unfold block_ok in Hb.
  assert (0 < len p) as Hp by (destruct p; simpl; [done|lia]).
  unfold fileStream_next. simpl. rewrite (reliable_read n f _ Hc).
  rewrite length_app. rewrite bool_decide_eq_false_2 by lia.
  replace (Z.of_nat (length pre + length p) - len pre) with (len p) by lia.
  rewrite Nat2Z.id, drop_app_length. unfold frame in *. rewrite length_app in Hlt.
  destruct (EncodeVarint_32 (len (ser_bytes b))) as (init & z & E & Hh & Hi); [lia|].
  unfold len_bytes in *. destruct (decide (length p ≤ length init)%nat) as [Hs|Hs].
  - assert (p `prefix_of` init) as [k Hk].
    { eapply (strict_prefix_app p init (ser_bytes b) z); [|done]. by rewrite E, <-app_assoc in Hpre. }
    rewrite (bool_decide_eq_true_2 (len p < 8)) by lia. simpl. rewrite bool_decide_eq_false_2 by lia.
    rewrite take_ge by lia. unfold DecodeVarint. rewrite decode_high; [done|].
    rewrite Hk, Forall_app in Hh. by destruct Hh.
  - assert (∃ q, p = EncodeVarint (len (ser_bytes b)) ++ q) as [q ->].
    { destruct Hpre as [k Hk]. exists (drop (length (EncodeVarint (len (ser_bytes b)))) p).
      rewrite <-(take_app_length (EncodeVarint (len (ser_bytes b))) (ser_bytes b)) at 1. rewrite Hk.
      rewrite take_app_le by (rewrite E, length_app; simpl; lia). by rewrite take_drop. }
    rewrite length_app in *. set (pk := if negb _ then 8 else _).
    assert (len (EncodeVarint (len (ser_bytes b))) ≤ pk) as Hpk by (unfold pk; case_bool_decide; simpl; lia).
    rewrite bool_decide_eq_false_2 by lia. rewrite take_app_more by lia.
    rewrite DecodeVarint_Encode by (unfold is_u64; lia).
    rewrite bool_decide_eq_false_2 by lia. rewrite (i64_small (len _)) by lia. rewrite i64_small by lia.
    by rewrite bool_decide_eq_true_2 by lia.
Qed.

(** Scanning a file finds its complete blocks. *)
Lemma scan_blocks_spec n (f : F) pre seg p num fuel :
  files f !! n = Some (pre ++ seg_bytes seg ++ p) → Forall block_ok seg → cut p → (length seg < fuel)%nat →
  scan_blocks fuel (mkFileStream n (len pre)) num f = Ok (len (pre ++ seg_bytes seg), num + len seg, true).
Proof.
  revert pre num fuel. induction seg as [|b seg IH]; intros pre num fuel Hc Hok Hp Hf;
    (destruct fuel as [|fuel]; [simpl in Hf; lia|]); cbn [scan_blocks].
  - simpl in Hc. rewrite app_nil_r. destruct (decide (p = [])) as [->|Hne].
    + rewrite (fileStream_next_end n _ f pre) by (rewrite ?app_nil_r in Hc; done).
      simpl. do 2 f_equal. f_equal. lia.
    + rewrite (fileStream_next_cut n f pre p) by done. simpl. do 2 f_equal. f_equal. lia.
  - apply Forall_cons in Hok as [Hb Hok]. rewrite seg_bytes_cons, <-app_assoc in Hc.
    rewrite (fileStream_next_block n f pre b _ Hc Hb). simpl.
    rewrite (IH (pre ++ frame b)); [|by rewrite <-app_assoc|done|done|simpl in Hf; lia].
    rewrite seg_bytes_cons, <-app_assoc. simpl. do 2 f_equal. f_equal. lia.
Qed.
End files.

(** ** Where the blocks are *)
Definition located (segs : list (list Block2)) (k i : nat) (off : Z) (b : Block2) : Prop :=
  ∃ s1 s2, segs !! i = Some (s1 ++ b :: s2) ∧ off = len (seg_bytes s1)
    ∧ k = (length (concat (take i segs)) + length s1)%nat.

Lemma located_lookup segs k i off b : located segs k i off b → concat segs !! k = Some b.
Proof.
  intros (s1 & s2 & Hi & _ & ->). pose proof (f_equal (@concat _) (take_drop_middle segs i _ Hi)) as E.
  rewrite concat_app in E. simpl in E. rewrite <-E. rewrite lookup_app_r by lia. rewrite <-app_assoc, lookup_app_r by lia.
  by replace (_ + _ - _ - _)%nat with 0%nat by lia.
Qed.

Lemma located_exists segs k b : concat segs !! k = Some b → ∃ i off, located segs k i off b.
Proof.
  revert k. induction segs as [|seg segs IH]; intros k Hk; [done|]. simpl in Hk.
  destruct (decide (k < length seg)%nat) as [Hlt|Hge].
  - rewrite lookup_app_l in Hk by done. exists 0%nat, (len (seg_bytes (take k seg))).
    exists (take k seg), (drop (S k) seg). simpl. rewrite take_drop_middle by done.
    rewrite length_take. split_and!; [done|done|lia].
  - rewrite lookup_app_r in Hk by lia. destruct (IH _ Hk) as (i & off & s1 & s2 & H1 & H2 & H3).
    exists (S i), off, s1, s2. simpl. rewrite length_app. split_and!; [done|done|lia].
Qed.

(** They stay where they are when blocks or files are added at the end. *)
Lemma located_append full last new k i off b :
  located (full ++ [last]) k i off b → located (full ++ [last ++ new]) k i off b.
Proof.
  intros (s1 & s2 & Hi & Ho & Hk). apply lookup_app_Some in Hi as [Hi|[Hi Hx]].
  - exists s1, s2. split_and!; [by apply lookup_app_l_Some|done|].
    rewrite take_app_le in * by (apply lookup_lt_Some in Hi; lia). done.
  - apply list_lookup_singleton_Some in Hx as [Hx ->]. exists s1, (s2 ++ new).
    split_and!; [|done|].
    + rewrite lookup_app_r by done. replace (i - length full)%nat with 0%nat by lia. simpl.
      by rewrite <-app_assoc.
    + replace i with (length full) in * by lia. by rewrite take_app_length in *.
Qed.
Lemma located_new_file segs k i off b : located segs k i off b → located (segs ++ [[]]) k i off b.
Proof.
  intros (s1 & s2 & Hi & Ho & Hk). exists s1, s2.
  split_and!; [by apply lookup_app_l_Some|done|].
  by rewrite take_app_le by (apply lookup_lt_Some in Hi; lia).
Qed.
Lemma located_last full last b new :
  located (full ++ [last ++ b :: new]) (length (concat full) + length last) (length full) (len (seg_bytes last)) b.
Proof.
  exists last, new. split_and!; [|done|by rewrite take_app_length].
  by rewrite lookup_app_r, Nat.sub_diag by lia.
Qed.

(** ** Files and index *)

(** The block files: the full ones, the last one, after it at most files that
    were created and not used. *)
Record Files (m : gmap Z bytes) (full : list (list Block2)) (last : list Block2) (p : bytes) : Prop := {
  f_full i seg : full !! i = Some seg → m !! Z.of_nat i = Some (seg_bytes seg);
  f_last : m !! len full = Some (seg_bytes last ++ p);
  f_next i c : len full < i → m !! i = Some c → c = [] }.

Lemma Files_located m full last p k i off b :
  Files m full last p → located (full ++ [last]) k i off b →
  ∃ pre rest, m !! Z.of_nat i = Some (pre ++ frame b ++ rest) ∧ off = len pre.
Proof.
  intros HF (s1 & s2 & Hi & -> & _). exists (seg_bytes s1).
  apply lookup_app_Some in Hi as [Hi|[Hi Hx]].
  - exists (seg_bytes s2). rewrite (f_full _ _ _ _ HF _ _ Hi), seg_bytes_app. done.
  - apply list_lookup_singleton_Some in Hx as [Hx ->]. exists (seg_bytes s2 ++ p).
    replace i with (length full) by lia. rewrite (f_last _ _ _ _ HF), seg_bytes_app, <-app_assoc.
    rewrite seg_bytes_cons. by rewrite <-app_assoc.
Qed.

Definition block_flp (i : nat) (off : Z) : fileLocPointer := mkFlp (Z.of_nat i) (mkLoc off 0).
Definition num_key (k : nat) : bytes := constructBlockNumKey (Z.of_nat (S k)).

Section index.
Context `{CryptoHash} (items : list IndexableAttr) (Hitems : ∀ a, is_indexed items a = true).

Definition hash_of (b : Block2) : bytes := ComputeCryptoHash (ser_bytes b).

(** The database knows the first [j] blocks, by number and by hash. *)
Record Indexed (c : gmap bytes bytes) (segs : list (list Block2)) (j : nat) : Prop := {
  ix_le : (j ≤ length (concat segs))%nat;
  ix_last : decodeBlockNum (sl (c !! indexCheckpointKey)) = Z.of_nat j;
  ix_num k b : (k < j)%nat → concat segs !! k = Some b →
    ∃ i off, located segs k i off b ∧ c !! num_key k = Some (flp_marshal (block_flp i off));
  ix_hash h v : c !! constructBlockHashKey h = Some v →
    ∃ k i off b, located segs k i off b ∧ h = hash_of b ∧ v = flp_marshal (block_flp i off);
  ix_hash_all k b : (k < j)%nat → concat segs !! k = Some b →
    is_Some (c !! constructBlockHashKey (hash_of b));
  ix_none k : (j ≤ k)%nat → Z.of_nat (S k) < 2 ^ 64 → c !! num_key k = None }.

(** It knows the transactions of the blocks from [t] to [j]. *)
Definition tx_flp (i : nat) (off : Z) (b : Block2) (o : Z) (tx : bytes) : fileLocPointer :=
  mkFlp (Z.of_nat i) (mkLoc (off + len (len_bytes b) + o) (len tx)).
Definition TxIndexed (c : gmap bytes bytes) (segs : list (list Block2)) (t j : nat) : Prop :=
  ∀ k b q tx, (t ≤ k < j)%nat → concat segs !! k = Some b → b2_Transactions b !! q = Some tx →
    ∃ i off o, located segs k i off b ∧ ser_offsets b !! q = Some o
      ∧ c !! constructTxIDKey (constructTxID (Z.of_nat (S k)) (Z.of_nat q))
        = Some (flp_marshal (tx_flp i off b o tx)).

(** Only the index keys matter. *)
Definition same_index (c c' : gmap bytes bytes) : Prop := ∀ k, k ≠ blkMgrInfoKey → c' !! k = c !! k.

Lemma Indexed_same c c' segs j : same_index c c' → Indexed c segs j → Indexed c' segs j.
Proof.
  intros Hs [H1 H2 H3 H4 H5 H6]. split.
  - done.
  - by rewrite (Hs indexCheckpointKey).
  - intros k b Hk Hb. destruct (H3 k b Hk Hb) as (i & off & ? & ?). exists i, off. split; [done|]. by rewrite (Hs (num_key k)).
  - intros h v. rewrite (Hs (constructBlockHashKey h)) by done. apply H4.
  - intros k b Hk Hb. rewrite (Hs (constructBlockHashKey _)) by done. eauto.
  - intros k Hk Hk'. rewrite (Hs (num_key k)) by done. eauto.
Qed.
Lemma TxIndexed_same c c' segs t j : same_index c c' → TxIndexed c segs t j → TxIndexed c' segs t j.
Proof.
  intros Hs Ht k b q tx Hk Hb Hq. destruct (Ht k b q tx Hk Hb Hq) as (i & off & o & ? & ? & ?).
  exists i, off, o. split_and!; [done|done|]. by rewrite (Hs (constructTxIDKey _)).
Qed.

(** [segs'] has the blocks of [segs] in their places. *)
Definition extends (segs segs' : list (list Block2)) : Prop :=
  concat segs `prefix_of` concat segs' ∧ ∀ k i off b, located segs k i off b → located segs' k i off b.

Lemma extends_lookup segs segs' k b :
  extends segs segs' → (k < length (concat segs))%nat →
  concat segs' !! k = Some b → concat segs !! k = Some b.
Proof. intros [[r ->] _] Hk Hb. by rewrite lookup_app_l in Hb. Qed.

Lemma Indexed_extends c segs segs' j : extends segs segs' → Indexed c segs j → Indexed c segs' j.
Proof.
  intros Hx [H1 H2 H3 H4 H5 H6]. pose proof Hx as [[r Hr] Hloc]. split.
  - rewrite Hr, length_app. lia.
  - done.
  - intros k b Hk Hb. apply (extends_lookup segs) in Hb; [|done|lia].
    destruct (H3 k b Hk Hb) as (i & off & ? & ?). eauto.
  - intros h v Hv. destruct (H4 h v Hv) as (k & i & off & b & ? & ? & ?). exists k, i, off, b. eauto.
  - intros k b Hk Hb. apply (extends_lookup segs) in Hb; [|done|lia]. eauto.
  - eauto.
Qed.
Lemma TxIndexed_extends c segs segs' t j :
  extends segs segs' → (j ≤ length (concat segs))%nat → TxIndexed c segs t j → TxIndexed c segs' t j.
Proof.
  intros Hx Hj Ht k b q tx Hk Hb Hq. apply (extends_lookup segs) in Hb; [|done|lia].
  destruct (Ht k b q tx Hk Hb Hq) as (i & off & o & ? & ? & ?). exists i, off, o.
  split_and!; [by apply Hx|done|done].
Qed.

Lemma extends_append full last new : extends (full ++ [last]) (full ++ [last ++ new]).
Proof.
  split; [|intros; by apply located_append]. rewrite !concat_app. simpl. rewrite !app_nil_r, app_assoc.
  by apply prefix_app_r.
Qed.
Lemma extends_new_file segs : extends segs (segs ++ [[]]).
Proof. split; [|intros; by apply located_new_file]. rewrite concat_app. simpl. by rewrite !app_nil_r. Qed.
#[global] Instance extends_trans : Transitive extends.
Proof. intros a b c [H1 H2] [H3 H4]. split; [by etransitivity|auto]. Qed.

(** Indexing a block: the next one, or the last one again. *)
Lemma Indexed_step c segs j k i off b offs :
  Indexed c segs j → located segs k i off b → (k ≤ j ≤ S k)%nat → len (concat segs) < 2 ^ 63 →
  Indexed (apply_batch (index_batch items (mkBlockIdxInfo (Z.of_nat (S k)) (hash_of b) (block_flp i off) offs)) c)
    segs (S k).
Proof.
  intros [H1 H2 H3 H4 H5 H6] Hloc Hj Hlen. pose proof (located_lookup _ _ _ _ _ Hloc) as Hk.
  pose proof (lookup_lt_Some _ _ _ Hk) as Hlt. split.
  - lia.
  - rewrite index_batch_checkpoint. unfold decodeBlockNum, encodeBlockNum. simpl bii_blockNum.
    cbn [sl default from_option id]. rewrite <-(app_nil_r (EncodeVarint _)), DecodeVarint_Encode; [done|].
    unfold is_u64. lia.
  - intros k' b' Hk' Hb'. unfold num_key. rewrite index_batch_num, Hitems. simpl bii_blockNum.
    case_bool_decide as E; cbn [andb].
    + apply constructBlockNumKey_inj in E; [|unfold is_u64; lia..]. replace k' with k in * by lia.
      rewrite Hk in Hb'. injection Hb' as <-. eauto.
    + apply H3; [|done]. destruct (decide (k' = k)) as [->|]; [done|lia].
  - intros h v. rewrite index_batch_hash, Hitems. simpl bii_blockHash.
    case_bool_decide as E; cbn [andb]; [|apply H4]. intros [= <-]. exists k, i, off, b. done.
  - intros k' b' Hk' Hb'. rewrite index_batch_hash, Hitems. simpl bii_blockHash.
    case_bool_decide as E; cbn [andb]; [by eexists|]. apply (H5 k'); [|done].
    destruct (decide (k' = k)) as [->|]; [|lia]. rewrite Hk in Hb'. by injection Hb' as <-.
  - intros k' Hk' Hb'. unfold num_key. rewrite index_batch_num, bool_decide_eq_false_2, andb_false_r.
    + apply H6; [lia|done].
    + intros E. apply constructBlockNumKey_inj in E; simpl in *; unfold is_u64; lia.
Qed.

(** Indexing a new block with the right offsets. *)
Lemma TxIndexed_step c segs t k i off b :
  TxIndexed c segs t k → located segs k i off b → len (concat segs) < 2 ^ 63 →
  Forall block_ok (concat segs) →
  TxIndexed (apply_batch (index_batch items (mkBlockIdxInfo (Z.of_nat (S k)) (hash_of b) (block_flp i off)
      ((λ o, o + len (len_bytes b)) <$> (ser_offsets b ++ [len (ser_body b)])))) c) segs t (S k).
Proof.
  intros Ht Hloc Hlen Hok k' b' q tx Hk' Hb' Hq. rewrite Forall_lookup in Hok.
  pose proof (located_lookup _ _ _ _ _ Hloc) as Hk. pose proof (lookup_lt_Some _ _ _ Hk) as Hlt.
  pose proof (lookup_lt_Some _ _ _ Hb') as Hlt'. pose proof (lookup_lt_Some _ _ _ Hq) as Hq'.
  pose proof (txs_small b (Hok _ _ Hk)) as Hb. pose proof (txs_small b' (Hok _ _ Hb')) as Hbs'.
  rewrite index_batch_tx, Hitems by done. simpl bii_txOffsets.
  destruct (decide (k' = k)) as [->|Hne].
  - rewrite Hk in Hb'. injection Hb' as <-. destruct (tx_at_offset b q tx Hq) as (o & Ho & Ho' & _).
    exists i, off, o. split_and!; [done| |].
    + rewrite lookup_app_l in Ho; [done|]. unfold ser_offsets. by rewrite offsets_length.
    + set (info := mkBlockIdxInfo _ _ _ _).
      pose proof (tx_puts_lookup info ltac:(unfold is_u64, info; simpl; lia) 0 (bii_txOffsets info) c q
        (o + len (len_bytes b)) (o + len tx + len (len_bytes b))) as HL.
      etransitivity; [apply HL|]; clear HL.
      * lia.
      * unfold info. simpl. rewrite length_fmap, length_app. unfold ser_offsets. rewrite offsets_length. simpl. lia.
      * unfold info. simpl. by rewrite list_lookup_fmap, Ho.
      * unfold info. simpl. by rewrite list_lookup_fmap, Ho'.
      * unfold tx_location, newFileLocationPointer, tx_flp. simpl. do 4 f_equal; lia.
  - rewrite tx_puts_other; [by apply (Ht k' b' q tx); [lia|..]|unfold is_u64; simpl; lia|unfold is_u64; lia|lia| |simpl; lia].
    rewrite length_fmap, length_app. unfold ser_offsets. rewrite offsets_length. simpl. lia.
Qed.
End index.

(** ** The state of a store *)
Abbreviation blocks full last := (concat (full ++ [last])).

Record sized (full : list (list Block2)) (last : list Block2) : Prop := {
  sz_ok : Forall block_ok (blocks full last);
  sz_segs : Forall (λ seg, len (seg_bytes seg) < 2 ^ 62) (full ++ [last]);
  sz_files : len full < 2 ^ 62;
  sz_count : len (blocks full last) < 2 ^ 62 }.

Definition cp_of (full : list (list Block2)) (last : list Block2) : checkpointInfo :=
  mkCp (len full) (len (seg_bytes last)) (len (blocks full last)).

Lemma cp_unmarshal_marshal full last : sized full last → cp_unmarshal (cp_marshal (cp_of full last)) = Some (cp_of full last).
Proof.
  intros [_ Hs Hf Hc]. apply Forall_app in Hs as [_ Hs]. rewrite Forall_singleton in Hs.
  unfold cp_unmarshal, cp_marshal, cp_of. simpl latestFileChunkSuffixNum. simpl latestFileChunksize. simpl lastBlockNumber.
  rewrite !Buffer_EncodeVarint_eq. rewrite !u64_small by lia. rewrite app_nil_l, <-!app_assoc.
  rewrite Buffer_DecodeVarint_Encode by (unfold is_u64; lia). cbn [mbind option_bind].
  rewrite Buffer_DecodeVarint_Encode by (unfold is_u64; lia). cbn [mbind option_bind].
  rewrite <-(app_nil_r (EncodeVarint (len (blocks full last)))), Buffer_DecodeVarint_Encode by (unfold is_u64; lia).
  cbn [mbind option_bind]. by rewrite !i64_small by lia.
Qed.

Section store.
Context {F D : Type} `{FileSystem F} `{!FileSystemLaws F} `{LevelDB D} `{!LevelDBLaws D} `{CryptoHash}.
Context (maxBlockfileSize : Z) (items : list IndexableAttr) (Hitems : ∀ a, is_indexed items a = true).
Abbreviation Mgr := (blockfileMgr F D).

(** The checkpoint in the database is one of the last file. *)
Definition cp_saved (c : gmap bytes bytes) (full : list (list Block2)) (last : list Block2) : Prop :=
  ∃ l0, l0 `prefix_of` last ∧ c !! blkMgrInfoKey = Some (cp_marshal (cp_of full l0)).

Definition info_ok (i : BlockchainInfo) (bs : list Block2) : Prop :=
  bi_Height i = len bs
  ∧ match list.last bs with
    | None => bi_CurrentBlockHash i = None
    | Some b => bi_CurrentBlockHash i = Some (hash_of b)
                ∧ sl (bi_PreviousBlockHash i) = sl (b2_PreviousBlockHash b)
    end.

(** [p]: what lies after the last complete block. *)
Record Store (m : Mgr) (full : list (list Block2)) (last : list Block2) (t : nat) (p : bytes) : Prop := {
  st_files : Files (files (mgr_fs m)) full last p;
  st_cp : mgr_cpInfo m = cp_of full last;
  st_writer : mgr_writer m = len full;
  st_saved : cp_saved (contents (mgr_db m)) full last;
  st_index : Indexed (contents (mgr_db m)) (full ++ [last]) (length (blocks full last));
  st_tx : TxIndexed (contents (mgr_db m)) (full ++ [last]) t (length (blocks full last));
  st_bc : info_ok (mgr_bcInfo m) (blocks full last);
  st_sized : sized full last }.

(** *** Retrieval *)
Lemma located_bounds full last k i off b :
  sized full last → located (full ++ [last]) k i off b → flp_ok (block_flp i off) ∧ block_ok b.
Proof.
  intros [Hok Hs Hf Hc] Hloc. rewrite Forall_lookup in Hok. split; [|eapply Hok, located_lookup, Hloc].
  destruct Hloc as (s1 & s2 & Hi & -> & _). rewrite Forall_lookup in Hs. pose proof (Hs _ _ Hi) as Hsi.
  simpl in Hsi. rewrite seg_bytes_app, length_app in Hsi.
  apply lookup_lt_Some in Hi. rewrite length_app in Hi. simpl in Hi.
  unfold flp_ok, block_flp. simpl. lia.
Qed.

Section reading.
Context `{!ReliableFS F, !Reliable D}.

Lemma fetchBlockBytes_located (m : Mgr) full last p k i off b :
  Files (files (mgr_fs m)) full last p → sized full last → located (full ++ [last]) k i off b →
  fetchBlockBytes (block_flp i off) m = Ok (Some (ser_bytes b)).
Proof.
  intros HF Hsz Hloc. destruct (located_bounds _ _ _ _ _ _ Hsz Hloc) as [_ Hb].
  destruct (Files_located _ _ _ _ _ _ _ _ HF Hloc) as (pre & rest & Hc & ->).
  unfold fetchBlockBytes, newBlockfileStream. simpl. rewrite (reliable_read _ _ _ Hc).
  rewrite bool_decide_eq_false_2 by lia. by rewrite (fileStream_next_block _ _ _ _ _ Hc Hb).
Qed.

Lemma fetchBlock_located (m : Mgr) full last p k i off b :
  Files (files (mgr_fs m)) full last p → sized full last → located (full ++ [last]) k i off b →
  fetchBlock (block_flp i off) m = Ok (Some (norm_block b)).
Proof.
  intros HF Hsz Hloc. destruct (located_bounds _ _ _ _ _ _ Hsz Hloc) as [_ Hb].
  unfold fetchBlock, fetchSerBlock. rewrite (fetchBlockBytes_located _ _ _ _ _ _ _ _ HF Hsz Hloc).
  cbn [mbind res_bind]. by apply ToBlock2_ser.
Qed.

Lemma get_location_found a key (d : D) v :
  contents d !! key = Some v → get_location items a key d = inr (flp_unmarshal v).
Proof. intros Hv. unfold get_location. by rewrite Hitems, DB_Get_reliable, Hv. Qed.

Lemma get_num_location (d : D) full last j k b :
  Indexed (contents d) (full ++ [last]) j → sized full last → (k < j)%nat → blocks full last !! k = Some b →
  ∃ i off, located (full ++ [last]) k i off b
    ∧ getBlockLocByBlockNum items (Z.of_nat (S k)) d = inr (block_flp i off).
Proof.
  intros Hix Hsz Hk Hb. destruct (ix_num _ _ _ Hix k b Hk Hb) as (i & off & Hloc & Hc).
  exists i, off. split; [done|]. unfold getBlockLocByBlockNum. rewrite (get_location_found _ _ _ _ Hc).
  rewrite flp_unmarshal_marshal; [done|]. by eapply located_bounds.
Qed.

(** What the store answers. *)
Lemma Store_by_number (m : Mgr) full last t k b :
  Store m full last t [] → blocks full last !! k = Some b →
  retrieveBlockByNumber items (Z.of_nat (S k)) m = Ok (Some (norm_block b)).
Proof.
  intros HS Hb. destruct (get_num_location _ _ _ _ k b (st_index _ _ _ _ _ HS) (st_sized _ _ _ _ _ HS))
    as (i & off & Hloc & E); [by eapply lookup_lt_Some|done|].
  unfold retrieveBlockByNumber. rewrite E. eapply fetchBlock_located; [apply HS..|done].
Qed.
Lemma Store_by_number_none (m : Mgr) full last t k :
  Store m full last t [] → (length (blocks full last) ≤ k)%nat → Z.of_nat (S k) < 2 ^ 64 →
  retrieveBlockByNumber items (Z.of_nat (S k)) m = Ok None.
Proof.
  intros HS Hk Hb. pose proof (ix_none _ _ _ (st_index _ _ _ _ _ HS) k Hk Hb) as E.
  unfold retrieveBlockByNumber, getBlockLocByBlockNum, get_location.
  by rewrite Hitems, DB_Get_reliable; unfold num_key in E; rewrite E.
Qed.
Lemma Store_by_hash (m : Mgr) full last t b :
  Store m full last t [] → b ∈ blocks full last →
  ∃ b', b' ∈ blocks full last ∧ hash_of b' = hash_of b
    ∧ retrieveBlockByHash items (hash_of b) m = Ok (Some (norm_block b')).
Proof.
  intros HS Hb. apply list_elem_of_lookup in Hb as [k Hk].
  destruct (ix_hash_all _ _ _ (st_index _ _ _ _ _ HS) k b ltac:(by eapply lookup_lt_Some) Hk) as [v Hv].
  destruct (ix_hash _ _ _ (st_index _ _ _ _ _ HS) _ _ Hv) as (k' & i & off & b' & Hloc & Hh & ->).
  exists b'. split_and!; [by eapply list_elem_of_lookup_2, located_lookup|done|].
  unfold retrieveBlockByHash, getBlockLocByHash. rewrite (get_location_found _ _ _ _ Hv).
  rewrite flp_unmarshal_marshal; [|by eapply located_bounds; [apply HS|]].
  eapply fetchBlock_located; [apply HS..|done].
Qed.
End reading.

(** ** Code that may stop anywhere *)
Definition pwp {S A} (m : P S A) (Q : res A → S → Prop) (s : S) : Prop := Q (m s).1 (m s).2.

Lemma pwp_bind {S A B} (m : P S A) (f : A → P S B) Q s :
  pwp m (λ r s', match r with
                 | Ok a => pwp (f a) Q s' | Panic => Q Panic s' | OutOfFuel => Q OutOfFuel s' end) s →
  pwp (m ≫= f) Q s.
Proof. unfold pwp, mbind, P_bind. by destruct (m s) as [[a| |] s']. Qed.
Lemma pwp_mono {S A} (m : P S A) (Q Q' : res A → S → Prop) s :
  pwp m Q s → (∀ r s', Q r s' → Q' r s') → pwp m Q' s.
Proof. unfold pwp. auto. Qed.
Lemma pwp_ret {S A} (a : A) (Q : res A → S → Prop) s : Q (Ok a) s → pwp (mret a) Q s.
Proof. done. Qed.

Lemma pwp_or_panic (m : P Mgr bool) (Q : res unit → Mgr → Prop) s :
  pwp m (λ r s', match r with
                 | Ok true => Q (Ok tt) s' | Ok false | Panic => Q Panic s' | OutOfFuel => Q OutOfFuel s' end) s →
  pwp (or_panic m) Q s.
Proof. unfold or_panic, pwp, mbind, P_bind. by destruct (m s) as [[[]| |] s']. Qed.
Lemma set_fs_id (m : Mgr) : set_fs (mgr_fs m) m = m.
Proof. by destruct m. Qed.

(** *** Single operations *)
Lemma append_spec n b sync (f : F) c :
  files f !! n = Some c →
  ∃ p, p `prefix_of` b ∧ ((append n b sync f).1 = true → p = b)
    ∧ files (append n b sync f).2 = <[n := c ++ p]> (files f).
Proof.
  intros Hc. destruct (fs_write_spec n b f c Hc) as (p & Hp & Hok & Hf). exists p.
  unfold append. destruct (fs_write n b f) as [[] f'] eqn:E; simpl in *; auto.
Qed.

(** Something has failed. *)
Definition faults : Prop := ReliableFS F → Reliable D → False.

Lemma append_faults n b sync (f : F) : (append n b sync f).1 = false → faults.
Proof.
  unfold append. intros Hf HR _. pose proof (reliable_write n b f) as Hw. destruct (fs_write n b f) as [ok f'].
  simpl in Hw. subst ok. destruct sync; [|done]. simpl in Hf. by rewrite reliable_sync in Hf.
Qed.
Lemma put_faults k v (d : D) : ldb_Put k v d = None → faults.
Proof. intros E _ HR. pose proof (reliable_Put k v d) as [? ?]. congruence. Qed.

Lemma Files_insert m full last p q :
  Files m full last p → Files (<[len full := seg_bytes last ++ q]> m) full last q.
Proof.
  intros [A1 A2 A3]. split.
  - intros i seg Hi. rewrite lookup_insert_ne; [eauto|]. apply lookup_lt_Some in Hi. lia.
  - by rewrite lookup_insert_eq.
  - intros i c Hi. rewrite lookup_insert_ne by lia. eauto.
Qed.

Lemma Store_append m full last t p b sync (Q : res bool → Mgr → Prop) :
  Store m full last t p →
  (∀ ok m' q, q `prefix_of` b → (ok = true → q = b) → (ok = false → faults) → Store m' full last t (p ++ q) →
     mgr_cpInfo m' = mgr_cpInfo m → contents (mgr_db m') = contents (mgr_db m) → Q (Ok ok) m') →
  pwp (on_fs (append (mgr_writer m) b sync)) Q m.
Proof.
  intros [Hfl Hcp Hw Hsv Hix Htx Hbc Hsd] HQ. unfold pwp, on_fs. rewrite Hw.
  destruct (append_spec (len full) b sync (mgr_fs m) _ (f_last _ _ _ _ Hfl)) as (q & Hq & Hok & Hf).
  pose proof (append_faults (len full) b sync (mgr_fs m)) as Hfa.
  destruct (append (len full) b sync (mgr_fs m)) as [ok f']. simpl in *.
  apply (HQ ok _ q); [done|done|done| |done|done].
  split; try done. simpl. rewrite Hf, <-app_assoc. by eapply Files_insert.
Qed.

(** Files can be cut. *)
Definition truncates : Prop := ∀ n size (f : F) c, files f !! n = Some c →
  files (fs_truncate n size f) = <[n := take (Z.to_nat size) c]> (files f).

Lemma Store_cut_back m full last t p (Q : res bool → Mgr → Prop) :
  Store m full last t p →
  Q Panic m →
  (∀ m' q, (q = p ∨ q = []) → (truncates → q = []) → Store m' full last t q → mgr_cpInfo m' = mgr_cpInfo m →
     contents (mgr_db m') = contents (mgr_db m) → Q (Ok false) m') →
  pwp cut_back Q m.
Proof.
  intros [Hfl Hcp Hw Hsv Hix Htx Hbc Hsd] HP HQ. unfold cut_back. apply pwp_bind.
  apply pwp_bind, pwp_or_panic. unfold pwp at 1, on_fs, truncateFile. simpl. unfold id. rewrite Hcp, Hw. simpl.
  destruct (fs_stat (len full) (mgr_fs m)) as [o|] eqn:Es; [|by rewrite set_fs_id].
  apply fs_stat_spec in Es. rewrite (f_last _ _ _ _ Hfl) in Es. simpl in Es. subst o.
  assert (Files (<[len full := take (length (seg_bytes last)) (seg_bytes last ++ p)]> (files (mgr_fs m))) full last [])
    as Hcut.
  { rewrite take_app_length. rewrite <-(app_nil_r (seg_bytes last)) at 1. by eapply Files_insert. }
  case_bool_decide as Hsz; simpl.
  - destruct (decide (p = [])) as [->|Hp].
    { apply (HQ _ []); [by right|done| |done|done]. split; try done. simpl.
      destruct (fs_truncate_spec (len full) (len (seg_bytes last)) (mgr_fs m) _ (f_last _ _ _ _ Hfl)) as [->| ->];
        [done|by rewrite Nat2Z.id]. }
    pose proof (f_last _ _ _ _ Hfl) as Hlast.
    destruct (fs_truncate_spec (len full) (len (seg_bytes last)) (mgr_fs m) _ Hlast) as [Hf|Hf].
    + apply (HQ _ p); [by left| | |done|done]; [|split; try done; simpl; by rewrite Hf].
      intros Htr. rewrite (Htr _ _ _ _ Hlast), Nat2Z.id, take_app_length in Hf.
      rewrite <-Hf, lookup_insert_eq in Hlast. injection Hlast as E. apply (f_equal length) in E.
      rewrite length_app in E. apply length_zero_iff_nil. lia.
    + apply (HQ _ []); [by right|done| |done|done]. split; try done. simpl. by rewrite Hf, Nat2Z.id.
  - rewrite length_app in Hsz. assert (p = []) as -> by (apply length_zero_iff_nil; lia).
    apply (HQ _ []); [by right|done| |done|done]. by split.
Qed.

Lemma blocks_new_file (full : list (list Block2)) last : blocks (full ++ [last]) [] = blocks full last.
Proof. rewrite concat_app. simpl. by rewrite app_nil_r. Qed.
Lemma blocks_append (full : list (list Block2)) last b : blocks full (last ++ [b]) = blocks full last ++ [b].
Proof. rewrite !concat_app. simpl. by rewrite !app_nil_r, app_assoc. Qed.

Lemma insert_same_index c v : same_index c (<[blkMgrInfoKey := v]> c).
Proof. intros k Hk. by rewrite lookup_insert_ne. Qed.

(** *** A new file *)
Definition opened (fm fm' : gmap Z bytes) (n : Z) : Prop :=
  fm' = match fm !! n with Some _ => fm | None => <[n := []]> fm end.

Lemma Files_opened fm fm' full last p :
  Files fm full last p → opened fm fm' (len full + 1) → Files fm' full last p.
Proof.
  intros [A1 A2 A3] ->. destruct (fm !! (len full + 1)) eqn:E; [done|]. split.
  - intros i seg Hi. rewrite lookup_insert_ne; [eauto|]. apply lookup_lt_Some in Hi. lia.
  - rewrite lookup_insert_ne by lia. done.
  - intros i c Hi Hc. apply lookup_insert_Some in Hc as [[_ <-]|[_ Hc]]; [done|]. eauto.
Qed.
Lemma Files_next fm fm' full last :
  Files fm full last [] → opened fm fm' (len full + 1) → Files fm' (full ++ [last]) [] [].
Proof.
  intros HF Ho. pose proof (Files_opened _ _ _ _ _ HF Ho) as [A1 A2 A3]. rewrite app_nil_r in A2.
  assert (len (full ++ [last]) = len full + 1) as Hl by (rewrite length_app; simpl; lia). split.
  - intros i seg Hi. apply lookup_app_Some in Hi as [Hi|[Hi Hx]]; [eauto|].
    apply list_lookup_singleton_Some in Hx as [Hx ->]. by replace (Z.of_nat i) with (len full) by lia.
  - rewrite Hl. simpl. unfold opened in Ho. destruct (fm !! (len full + 1)) as [c|] eqn:E.
    + subst. rewrite E. f_equal. eapply (f_next _ _ _ _ HF); [|exact E]. lia.
    + subst. by rewrite lookup_insert_eq.
  - intros i c Hi. rewrite Hl in Hi. apply A3. lia.
Qed.

Lemma Store_moveToNextFile m full last t (Q : res unit → Mgr → Prop) :
  Store m full last t [] → sized (full ++ [last]) [] →
  (∀ m', Files (files (mgr_fs m')) full last [] → contents (mgr_db m') = contents (mgr_db m) →
     mgr_cpInfo m' = mgr_cpInfo m → faults → Q Panic m') →
  (∀ m', Store m' (full ++ [last]) [] t [] → Q (Ok tt) m') →
  pwp moveToNextFile Q m.
Proof.
  intros [Hfl Hcp Hw Hsv Hix Htx Hbc Hsd] Hsd' HP HQ. unfold moveToNextFile. apply pwp_bind.
  unfold pwp at 1, p_gets. simpl. rewrite Hcp. simpl.
  apply pwp_bind, pwp_or_panic. unfold pwp at 1, open_writer, newBlockfileWriter.
  destruct (fs_open (len full + 1) (mgr_fs m)) as [f'|] eqn:Eo; simpl.
  2:{ apply HP; [done..|]. intros HR _. pose proof (reliable_open (len full + 1) (mgr_fs m)) as [? ?]. congruence. }
  apply fs_open_spec in Eo. apply pwp_bind, pwp_or_panic. unfold pwp at 1, saveCurrentInfo, on_db, DB_Put. simpl.
  destruct (ldb_Put blkMgrInfoKey _ (mgr_db m)) as [d'|] eqn:Ed; simpl.
  2:{ apply HP; [by eapply Files_opened|done|done|by eapply put_faults]. }
  apply ldb_Put_spec in Ed. apply HQ.
  assert (mkCp (len full + 1) 0 (len (blocks full last)) = cp_of (full ++ [last]) []) as Hcp'.
  { unfold cp_of. rewrite blocks_new_file, length_app. simpl. f_equal. lia. }
  split; simpl.
  - by eapply Files_next.
  - done.
  - rewrite length_app. simpl. lia.
  - exists []. split; [done|]. rewrite Ed, lookup_insert_eq. by rewrite <-Hcp'.
  - rewrite Ed. eapply Indexed_same; [apply insert_same_index|]. rewrite blocks_new_file.
    by eapply Indexed_extends; [apply extends_new_file|].
  - rewrite Ed. eapply TxIndexed_same; [apply insert_same_index|]. rewrite blocks_new_file.
    by eapply TxIndexed_extends; [apply extends_new_file|..].
  - by rewrite blocks_new_file.
  - done.
Qed.

(** ** What can be recovered from a disk *)
Record Recoverable (fm : gmap Z bytes) (c : gmap bytes bytes)
    (full : list (list Block2)) (last : list Block2) (p : bytes) : Prop := {
  rc_files : Files fm full last p;
  rc_cut : cut p;
  rc_cp : cp_saved c full last;
  rc_index : ∃ j, Indexed c (full ++ [last]) j;
  rc_sized : sized full last }.

Lemma Store_Recoverable m full last t p :
  Store m full last t p → cut p → Recoverable (files (mgr_fs m)) (contents (mgr_db m)) full last p.
Proof. intros [] Hp. by split; eauto. Qed.

Lemma cp_saved_prefix c full l0 last : cp_saved c full l0 → l0 `prefix_of` last → cp_saved c full last.
Proof. intros (l & Hl & Hc) Hp. exists l. split; [by etransitivity|done]. Qed.

(** A complete frame after the last block is one block more. *)
Lemma Files_frame fm full last b : Files fm full last (frame b) → Files fm full (last ++ [b]) [].
Proof.
  intros [A1 A2 A3]. split; [done| |done]. by rewrite A2, seg_bytes_snoc, app_nil_r.
Qed.
Lemma Recoverable_frame fm c full last b :
  Files fm full last (frame b) → cp_saved c full last → (∃ j, Indexed c (full ++ [last]) j) →
  sized full (last ++ [b]) → Recoverable fm c full (last ++ [b]) [].
Proof.
  intros HF Hc [j Hj] Hs. split; [by apply Files_frame|by left| | |done].
  - eapply cp_saved_prefix; [done|]. by apply prefix_app_r.
  - exists j. eapply Indexed_extends; [apply extends_append|done].
Qed.

(** ** Adding a block *)
Definition new_info (full : list (list Block2)) (last : list Block2) (b : Block2) : blockIdxInfo :=
  mkBlockIdxInfo (Z.of_nat (S (length (blocks full last)))) (hash_of b)
    (block_flp (length full) (len (seg_bytes last)))
    ((λ o, o + len (len_bytes b)) <$> (ser_offsets b ++ [len (ser_body b)])).

(** The block is written, and indexed unless the database refused. *)
Record Added (m m' : Mgr) (full : list (list Block2)) (last : list Block2) (b : Block2) : Prop := {
  ad_files : Files (files (mgr_fs m')) full (last ++ [b]) [];
  ad_cp : mgr_cpInfo m' = cp_of full (last ++ [b]);
  ad_writer : mgr_writer m' = len full;
  ad_db : let c1 := <[blkMgrInfoKey := cp_marshal (cp_of full (last ++ [b]))]> (contents (mgr_db m)) in
    contents (mgr_db m') = apply_batch (index_batch items (new_info full last b)) c1
    ∨ contents (mgr_db m') = c1 ∧ ∃ d, contents d = c1 ∧ ldb_Write (index_batch items (new_info full last b)) d = None;
  ad_bc : info_ok (mgr_bcInfo m') (blocks full (last ++ [b])) }.

Lemma cp_of_append full last b :
  sized full (last ++ [b]) →
  mkCp (len full) (len (seg_bytes last) + (len (ser_bytes b) + len (len_bytes b))) (u64 (len (blocks full last) + 1))
  = cp_of full (last ++ [b]).
Proof.
  intros [_ _ _ Hc]. unfold cp_of. rewrite blocks_append, seg_bytes_snoc in *. rewrite !length_app in *.
  simpl in *. unfold frame. rewrite length_app. rewrite u64_small by lia. f_equal; lia.
Qed.

Lemma items_nonempty : items ≠ [].
Proof. intros E. specialize (Hitems IndexableAttrTxID). by rewrite E in Hitems. Qed.

Lemma Store_write_block m full last t b (Q : res bool → Mgr → Prop) :
  Store m full last t [] → sized full (last ++ [b]) →
  (∀ r m' q, r = Panic ∨ r = Ok false → q `prefix_of` frame b → Store m' full last t q →
     mgr_cpInfo m' = mgr_cpInfo m → contents (mgr_db m') = contents (mgr_db m) →
     (r = Ok false → truncates → q = []) → faults → Q r m') →
  (∀ m', Added m m' full last b → Q (Ok true) m') →
  pwp (write_block items b (ser_bytes b) (hash_of b) (ser_offsets b ++ [len (ser_body b)]) (len (seg_bytes last))) Q m.
Proof.
  intros HS Hsd HF HA. unfold write_block. fold (len_bytes b). apply pwp_bind. unfold pwp at 1. simpl.
  assert (∀ m1 q, Store m1 full last t q → q `prefix_of` frame b → mgr_cpInfo m1 = mgr_cpInfo m →
    contents (mgr_db m1) = contents (mgr_db m) → faults → pwp cut_back Q m1) as Hcut.
  { intros m1 q HS1 Hq E1 E2 Hfa. apply (Store_cut_back m1 full last t q); [done| |].
    - apply (HF _ _ q); auto. intros ?. done.
    - intros m2 q2 Hq2 Htr HS2 E3 E4. apply (HF _ _ q2); auto; [|congruence|congruence].
      destruct Hq2 as [->| ->]; [done|apply prefix_nil]. }
  apply pwp_bind. apply (Store_append m full last t []); [done|]. intros ok m1 q Hq Hok Hfa HS1 E1 E2. simpl in HS1.
  apply pwp_bind. destruct ok.
  2:{ apply pwp_ret. simpl. apply (Hcut m1 q); [done|by apply prefix_app_r|done|done|by apply Hfa]. }
  rewrite (Hok eq_refl) in *. replace (mgr_writer m) with (mgr_writer m1)
    by (by rewrite (st_writer _ _ _ _ _ HS1), (st_writer _ _ _ _ _ HS)).
  apply (Store_append m1 full last t (len_bytes b)); [done|]. intros ok m2 q2 Hq2 Hok2 Hfa2 HS2 E3 E4.
  destruct ok; simpl.
  2:{ apply (Hcut m2 (len_bytes b ++ q2)); [done|by apply prefix_app|congruence|congruence|by apply Hfa2]. }
  rewrite (Hok2 eq_refl) in *. fold (frame b) in HS2. apply pwp_bind. unfold pwp at 1. simpl.
  apply pwp_bind. rewrite (st_cp _ _ _ _ _ HS2). simpl. rewrite cp_of_append by done.
  unfold pwp at 1, saveCurrentInfo, on_db, DB_Put.
  destruct (ldb_Put blkMgrInfoKey _ (mgr_db m2)) as [d'|] eqn:Ed; simpl.
  2:{ apply (Hcut m2 (frame b)); [done|done|congruence|congruence|by eapply put_faults]. }
  apply ldb_Put_spec in Ed. rewrite E4, E2 in Ed. apply pwp_bind. unfold pwp at 1, on_db, indexBlock, DB_WriteBatch.
  rewrite bool_decide_eq_false_2 by apply items_nonempty. simpl.
  replace (mkBlockIdxInfo _ _ _ _) with (new_info full last b).
  2:{ pose proof (sz_count _ _ Hsd) as Hc. rewrite blocks_append, length_app in Hc. simpl in Hc.
      unfold new_info, block_flp. rewrite u64_small by lia. repeat f_equal; lia. }
  destruct HS2 as [Hfl2 Hcp2 Hw2 Hsv2 Hix2 Htx2 [Hbc2 _] _].
  assert (info_ok (mkBlockchainInfo (u64 (bi_Height (mgr_bcInfo m2) + 1)) (Some (hash_of b)) (b2_PreviousBlockHash b))
    (blocks full (last ++ [b]))) as Hbc.
  { pose proof (sz_count _ _ Hsd) as Hc. rewrite blocks_append in *. unfold info_ok. rewrite last_snoc. simpl.
    rewrite length_app in *. simpl in *. rewrite Hbc2, u64_small by lia. split_and!; [lia|done|done]. }
  apply Files_frame in Hfl2.
  destruct (ldb_Write _ d') as [d2|] eqn:Ew; apply HA; split; try done; simpl.
  - left. apply ldb_Write_spec in Ew. by rewrite Ew, Ed.
  - right. split; [done|]. by exists d'.
Qed.

Lemma Added_Store m m' full last t b :
  Store m full last t [] → sized full (last ++ [b]) → Added m m' full last b →
  contents (mgr_db m') = apply_batch (index_batch items (new_info full last b))
    (<[blkMgrInfoKey := cp_marshal (cp_of full (last ++ [b]))]> (contents (mgr_db m))) →
  Store m' full (last ++ [b]) t [].
Proof.
  intros [_ _ _ _ Hix Htx _ _] Hsd [A1 A2 A3 _ A5] Hdb.
  set (c1 := <[_ := _]> _) in Hdb. assert (same_index (contents (mgr_db m)) c1) as Hsame by apply insert_same_index.
  assert (length (blocks full (last ++ [b])) = S (length (blocks full last))) as Hlen
    by (rewrite blocks_append, length_app; simpl; lia).
  pose proof (located_last full last b []) as Hloc.
  replace (length (concat full) + length last)%nat with (length (blocks full last)) in Hloc
    by (rewrite concat_app, length_app; simpl; rewrite app_nil_r; lia).
  pose proof (sz_count _ _ Hsd) as Hc. split; try done.
  - exists (last ++ [b]). split; [done|]. rewrite Hdb, index_batch_other by done. apply lookup_insert_eq.
  - rewrite Hdb, Hlen. apply (Indexed_step items Hitems _ _ (length (blocks full last))); [|done|lia|lia].
    eapply Indexed_extends; [apply extends_append|]. by eapply Indexed_same.
  - rewrite Hdb, Hlen. apply (TxIndexed_step items Hitems); [|done|lia|by apply sz_ok].
    eapply TxIndexed_extends; [apply extends_append|done|]. by eapply TxIndexed_same.
Qed.

Lemma Added_Recoverable m m' full last t b :
  Store m full last t [] → sized full (last ++ [b]) → Added m m' full last b →
  Recoverable (files (mgr_fs m')) (contents (mgr_db m')) full (last ++ [b]) [].
Proof.
  intros HS Hsd HA. destruct (ad_db _ _ _ _ _ HA) as [Hdb|[Hdb _]].
  - apply Store_Recoverable with t; [by eapply Added_Store|by left].
  - destruct HS as [_ _ _ _ Hix _ _ _]. destruct HA as [A1 A2 A3 _ A5]. split; [done|by left| | |done].
    + exists (last ++ [b]). split; [done|]. by rewrite Hdb, lookup_insert_eq.
    + exists (length (blocks full last)). eapply Indexed_extends; [apply extends_append|].
      eapply Indexed_same; [|done]. rewrite Hdb. apply insert_same_index.
Qed.

(** There is room for one more block. *)
Definition has_room (full : list (list Block2)) (last : list Block2) : Prop :=
  maxBlockfileSize < 2 ^ 61 ∧ len full + 1 < 2 ^ 62 ∧ len (blocks full last) + 1 < 2 ^ 62.

Lemma frame_small b : block_ok b → len (frame b) < 2 ^ 32 + 6.
Proof. intros Hb. pose proof (len_bytes_bounds b Hb). unfold block_ok, frame in *. rewrite length_app. lia. Qed.

Lemma sized_here full last b :
  sized full last → has_room full last → block_ok b →
  len (seg_bytes last) + (len (ser_bytes b) + len (len_bytes b)) ≤ maxBlockfileSize → sized full (last ++ [b]).
Proof.
  intros [S1 S2 S3 S4] (R1 & R2 & R3) Hb Hle. apply Forall_app in S2 as [S2 S2']. split; [| |lia|].
  - rewrite blocks_append. apply Forall_app. split; [done|by constructor].
  - apply Forall_app. split; [done|]. apply Forall_singleton. rewrite seg_bytes_snoc. unfold frame.
    rewrite !length_app. lia.
  - rewrite blocks_append, length_app. simpl. lia.
Qed.
Lemma sized_next full last b :
  sized full last → has_room full last → block_ok b →
  sized (full ++ [last]) [] ∧ sized (full ++ [last]) ([] ++ [b]).
Proof.
  intros [S1 S2 S3 S4] (R1 & R2 & R3) Hb. pose proof (frame_small b Hb) as Hf.
  assert (blocks (full ++ [last]) [b] = blocks full last ++ [b]) as E by (rewrite (concat_app (full ++ [last])); done).
  split; split.
  - by rewrite blocks_new_file.
  - apply Forall_app. split; [done|]. by apply Forall_singleton.
  - rewrite length_app. simpl. lia.
  - by rewrite blocks_new_file.
  - rewrite app_nil_l, E. apply Forall_app. split; [done|by constructor].
  - apply Forall_app. split; [done|]. apply Forall_singleton. rewrite app_nil_l, seg_bytes_cons, app_nil_r. lia.
  - rewrite length_app. simpl. lia.
  - rewrite app_nil_l, E, length_app. simpl. lia.
Qed.

(** *** What [addBlock] can do *)
Inductive moved (m : Mgr) (full : list (list Block2)) (last : list Block2)
    : list (list Block2) → list Block2 → Prop :=
  | moved_not : moved m full last full last
  | moved_next : moved m full last (full ++ [last]) [].

Lemma moved_blocks m full last full' last' : moved m full last full' last' → blocks full' last' = blocks full last.
Proof. intros []; [done|apply blocks_new_file]. Qed.

Inductive add_outcome (m : Mgr) (full : list (list Block2)) (last : list Block2) (t : nat) (b : Block2)
    : res bool → Mgr → Prop :=
  | add_refused r m' full' last' q :
      moved m full last full' last' → r = Panic ∨ r = Ok false → q `prefix_of` frame b →
      Store m' full' last' t q → sized full' (last' ++ [b]) → (r = Ok false → truncates → q = []) → faults →
      add_outcome m full last t b r m'
  | add_not_moved m' :
      Files (files (mgr_fs m')) full last [] → contents (mgr_db m') = contents (mgr_db m) →
      mgr_cpInfo m' = mgr_cpInfo m → faults → add_outcome m full last t b Panic m'
  | add_done m1 m' full' last' :
      moved m full last full' last' → Store m1 full' last' t [] → sized full' (last' ++ [b]) →
      Added m1 m' full' last' b → add_outcome m full last t b (Ok true) m'.

Lemma Store_addBlock m full last t b :
  Store m full last t [] → has_room full last → block_ok b →
  add_outcome m full last t b (addBlock maxBlockfileSize items b m).1 (addBlock maxBlockfileSize items b m).2.
Proof.
  intros HS Hroom Hb. change (pwp (addBlock maxBlockfileSize items b) (add_outcome m full last t b) m).
  unfold addBlock, ComputeHash. rewrite ConstructSerBlock2_eq. cbn [sb_blockHash].
  rewrite <-ConstructSerBlock2_eq. fold (ser_bytes b). unfold GetBytes. fold (ser_bytes b).
  fold (hash_of b).
  apply pwp_bind. unfold pwp at 1, p_lift, GetTxOffsets. rewrite ConstructSerBlock2_eq. cbn [sb_txOffsets fst snd].
  apply pwp_bind. unfold pwp at 1, p_gets. cbn [fst snd]. rewrite (st_cp _ _ _ _ _ HS).
  cbn [cp_of latestFileChunksize]. fold (len_bytes b).
  assert (∀ m1 full' last', moved m full last full' last' → Store m1 full' last' t [] → sized full' (last' ++ [b]) →
    pwp (write_block items b (ser_bytes b) (hash_of b) (ser_offsets b ++ [len (ser_body b)]) (len (seg_bytes last')))
      (add_outcome m full last t b) m1) as Hw.
  { intros m1 full' last' Hmv HS1 Hsd. apply (Store_write_block m1 full' last' t b); [done|done| |].
    - intros r m' q Hr Hq HS' _ _ Htr Hfa. by eapply add_refused.
    - intros m' HA. by eapply add_done. }
  apply pwp_bind. case_bool_decide as Hfit.
  - apply pwp_bind. destruct (sized_next full last b (st_sized _ _ _ _ _ HS) Hroom Hb) as [Hs1 Hs2].
    apply (Store_moveToNextFile m full last t); [done|done| |].
    + intros m' HF Hdb Hcp Hfa. by apply add_not_moved.
    + intros m' HS'. apply pwp_ret. apply (Hw m' (full ++ [last]) []); [constructor|done|done].
  - apply pwp_ret. apply (Hw m full last); [constructor|done|].
    eapply sized_here; [by apply HS|done|done|lia].
Qed.

(** On a disk that works the block is added. *)
Lemma Store_addBlock_reliable `{!ReliableFS F, !Reliable D} m full last t b :
  Store m full last t [] → has_room full last → block_ok b →
  ∃ m' full' last', addBlock maxBlockfileSize items b m = (Ok true, m')
    ∧ Store m' full' last' t [] ∧ blocks full' last' = blocks full last ++ [b]
    ∧ (full' = full ∧ last' = last ++ [b] ∨ full' = full ++ [last] ∧ last' = [b]).
Proof.
  intros HS Hroom Hb. pose proof (Store_addBlock m full last t b HS Hroom Hb) as Hout.
  destruct (addBlock maxBlockfileSize items b m) as [r m']. simpl in Hout.
  destruct Hout as [r m' full' last' q _ _ _ _ _ _ []|m' _ _ _ []|m1 m' full' last' Hmv HS1 Hsd HA]; [done..|].
  exists m', full', (last' ++ [b]). split_and!; [done| | |].
  - eapply Added_Store; [done|done|done|]. destruct (ad_db _ _ _ _ _ HA) as [?|(_ & d & _ & Hd)]; [done|].
    pose proof (reliable_Write (index_batch items (new_info full' last' b)) d) as [? ?]. congruence.
  - by rewrite blocks_append, (moved_blocks _ _ _ _ _ Hmv).
  - destruct Hmv; [by left|by right].
Qed.
End store.
