(* ===== verification/BlockRecovery.v ===== *)
(** * The block store after a stop

    Whatever fails while a block is added, and wherever the process stops, the
    disk holds the blocks added before, the new one either completely or not
    at all, and starting up again finds them. *)

From Stdlib Require Import Strings.Byte.
From stdpp Require Import base numbers strings gmap list.
From S2P Require Import Prelude Varint RWSet LevelDB PeerTypes SerBlock2 BlockFiles BlockIndex BlockStore BlockStoreProofs.
Local Open Scope Z_scope.

Lemma Files_seg fm full last i seg :
  Files fm full last [] → (full ++ [last]) !! i = Some seg → fm !! Z.of_nat i = Some (seg_bytes seg).
Proof.
  intros [A1 A2 _] Hi. apply lookup_app_Some in Hi as [Hi|[Hi Hx]]; [eauto|].
  apply list_lookup_singleton_Some in Hx as [Hx ->]. rewrite app_nil_r in A2.
  by replace (Z.of_nat i) with (len full) by lia.
Qed.

(** ** Going through the files *)
Section stream.
Context {F : Type} `{FileSystem F} `{!FileSystemLaws F} `{!ReliableFS F}.
Context (f : F) (full : list (list Block2)) (last : list Block2).
Context (HF : Files (files f) full last []) (Hsd : sized full last).
Abbreviation segs := (full ++ [last]).

(** A stream after [s1] in file [i]; [e] is the file it ends with, if any. *)
Definition at_cursor (e : Z) (i : nat) (s1 : list Block2) : blockStream :=
  mkStream (Z.of_nat i) e (Some (mkFileStream (Z.of_nat i) (len (seg_bytes s1)))).

Lemma segs_ok i seg : segs !! i = Some seg → Forall block_ok seg.
Proof.
  intros Hi. pose proof (sz_ok _ _ Hsd) as Hok. rewrite Forall_concat, Forall_lookup in Hok. eauto.
Qed.

Lemma stream_next_spec e n : e = len full ∨ e < 0 → ∀ i s1 s2 fuel,
  (length full - i = n)%nat → segs !! i = Some (s1 ++ s2) → (n < fuel)%nat →
  match s2 ++ concat (drop (S i) segs) with
  | [] => e = len full → ∃ s, stream_next fuel (at_cursor e i s1) f = Ok (SEnd, s)
  | b :: rest =>
      ∃ i' s1' s2', segs !! i' = Some (s1' ++ b :: s2') ∧ rest = s2' ++ concat (drop (S i') segs)
        ∧ (length (concat (take i' segs)) + length s1' = length (concat (take i segs)) + length s1)%nat
        ∧ stream_next fuel (at_cursor e i s1) f
          = Ok (SBlock (ser_bytes b) (mkPlacement (Z.of_nat i') (len (seg_bytes s1'))
                                        (len (seg_bytes s1') + len (len_bytes b))),
                at_cursor e i' (s1' ++ [b]))
  end.
Proof.
  intros He. induction n as [|n IH]; intros i s1 s2 fuel Hn Hi Hf; (destruct fuel as [|fuel]; [lia|]);
    pose proof (Files_seg _ _ _ _ _ HF Hi) as Hc; pose proof (lookup_lt_Some _ _ _ Hi) as Hlt;
    rewrite length_app in Hlt; simpl in Hlt; cbn [stream_next at_cursor bst_file deref mbind res_bind].
  all: destruct s2 as [|b s2].
  2,4: apply segs_ok in Hi as Hok; rewrite Forall_app, Forall_cons in Hok; destruct Hok as (_ & Hb & _);
    rewrite seg_bytes_app, seg_bytes_cons in Hc; exists i, s1, s2; split_and!; [done|done|done|];
    rewrite (fileStream_next_block _ _ _ _ _ Hc Hb); simpl; unfold at_cursor; by rewrite seg_bytes_snoc.
  - rewrite app_nil_r in Hi, Hc. rewrite drop_ge by (rewrite length_app; simpl; lia). simpl. intros ->.
    rewrite (fileStream_next_end _ _ _ _ Hc) by done. simpl.
    rewrite bool_decide_eq_false_2 by lia. rewrite bool_decide_eq_false_2 by lia. simpl. eauto.
  - rewrite app_nil_r in Hi, Hc. rewrite (fileStream_next_end _ _ _ _ Hc) by done. simpl.
    replace (bool_decide (Z.of_nat i < e) || bool_decide (e < 0)) with true
      by (symmetry; apply orb_true_iff; rewrite !bool_decide_eq_true; lia).
    destruct (lookup_lt_is_Some_2 segs (S i)) as [seg Hseg]; [rewrite length_app; simpl; lia|].
    unfold newBlockfileStream. replace (Z.of_nat i + 1) with (Z.of_nat (S i)) by lia.
    rewrite (reliable_read _ _ _ (Files_seg _ _ _ _ _ HF Hseg)). simpl.
    specialize (IH (S i) [] seg fuel ltac:(lia) Hseg ltac:(lia)).
    rewrite (drop_S _ _ _ Hseg). simpl.
    assert (concat (take (S i) segs) = concat (take i segs) ++ s1) as Et.
    { rewrite (take_S_r _ _ _ Hi), concat_app. simpl. by rewrite app_nil_r. }
    rewrite Et, length_app in IH. simpl in IH. rewrite Nat.add_0_r in IH. exact IH.
Qed.
End stream.

Section recovery.
Context {F D : Type} `{FileSystem F} `{!FileSystemLaws F} `{!ReliableFS F}.
Context `{LevelDB D} `{!LevelDBLaws D} `{!Reliable D} `{CryptoHash}.
Context (items : list IndexableAttr) (Hitems : ∀ a, is_indexed items a = true).
Abbreviation Mgr := (blockfileMgr F D).

Lemma on_db_indexBlock (m : Mgr) info :
  ∃ d, on_db (indexBlock items info) m = (Ok true, set_db d m)
    ∧ contents d = apply_batch (index_batch items info) (contents (mgr_db m)).
Proof.
  destruct (reliable_Write (index_batch items info) (mgr_db m)) as [d Hd]. exists d.
  split; [|by apply ldb_Write_spec]. unfold on_db, indexBlock, DB_WriteBatch.
  rewrite bool_decide_eq_false_2 by by apply (items_nonempty items). by rewrite Hd.
Qed.

(** ** Bringing the index up to date *)
Lemma index_blocks_spec full last rest : ∀ (m : Mgr) i s1 s2 j fuel,
  Files (files (mgr_fs m)) full last [] → sized full last → (full ++ [last]) !! i = Some (s1 ++ s2) →
  s2 ++ concat (drop (S i) (full ++ [last])) = rest →
  let k := (length (concat (take i (full ++ [last]))) + length s1)%nat in
  Indexed (contents (mgr_db m)) (full ++ [last]) j → (k ≤ j ≤ S k)%nat →
  (length rest + length full < fuel)%nat →
  ∃ d, index_blocks items fuel (at_cursor (len full) i s1) (Z.of_nat (S k)) m = (Ok true, set_db d m)
    ∧ Indexed (contents d) (full ++ [last]) (length (blocks full last))
    ∧ contents d !! blkMgrInfoKey = contents (mgr_db m) !! blkMgrInfoKey.
Proof.
  induction rest as [|b rest IH]; intros m i s1 s2 j fuel HF Hsd Hi Hrest k Hix Hj Hfuel;
    (destruct fuel as [|fuel]; [lia|]);
    pose proof (stream_next_spec (mgr_fs m) full last HF Hsd (len full) _ ltac:(by left) i s1 s2 (S fuel) eq_refl Hi ltac:(simpl in *; lia)) as Hs;
    rewrite Hrest in Hs.
  - destruct (Hs eq_refl) as [s Hs']. clear Hs. rename Hs' into Hs. exists (mgr_db m). cbn [index_blocks]. unfold mbind, P_bind, p_gets, p_lift.
    rewrite Hs. simpl. split_and!; [by destruct m| |done].
    assert (length (blocks full last) = k) as Hk.
    { pose proof (f_equal (@concat _) (take_drop_middle _ i _ Hi)) as E. rewrite <-E, concat_app. simpl.
      rewrite <-app_assoc, !length_app, <-length_app, Hrest. simpl. unfold k. lia. }
    replace (length (blocks full last)) with j; [done|]. pose proof (ix_le _ _ _ Hix). lia.
  - destruct Hs as (i' & s1' & s2' & Hi' & Hrest' & Hk' & Hs). cbn [index_blocks].
    unfold mbind at 1, P_bind at 1, p_gets at 1. unfold mbind at 1, P_bind at 1, p_lift at 1. rewrite Hs.
    cbn [fst snd]. assert (block_ok b) as Hb.
    { pose proof (segs_ok full last Hsd _ _ Hi') as Hok. rewrite Forall_app, Forall_cons in Hok. naive_solver. }
    unfold mbind at 1, P_bind at 1, p_lift at 1. rewrite GetTxOffsets_ser by done. cbn [fst].
    rewrite ConstructSerBlock2_eq. cbn [sb_txOffsets bpi_blockBytesOffset bpi_fileNum bpi_blockStartOffset].
    set (info := mkBlockIdxInfo _ _ _ _). destruct (on_db_indexBlock m info) as (d & Hd & Hc).
    unfold mbind at 1, P_bind at 1. rewrite Hd.
    assert (located (full ++ [last]) k i' (len (seg_bytes s1')) b) as Hloc.
    { exists s1', s2'. split_and!; [done|done|]. unfold k. lia. }
    pose proof (sz_count _ _ Hsd) as Hcnt. pose proof (lookup_lt_Some _ _ _ (located_lookup _ _ _ _ _ Hloc)) as Hlt.
    assert (Indexed (contents d) (full ++ [last]) (S k)) as Hix'.
    { rewrite Hc. by apply (Indexed_step items Hitems _ _ j); [..|lia]. }
    replace (u64 (Z.of_nat (S k) + 1)) with (Z.of_nat (S (S k))) by (rewrite u64_small; lia).
    destruct (IH (set_db d m) i' (s1' ++ [b]) s2' (S k) fuel) as (d' & Hd' & Hix'' & Hcp);
      [done|done|by rewrite <-app_assoc|done|done|rewrite length_app; simpl; lia|simpl in *; lia|].
    rewrite length_app in Hd'. simpl in Hd'.
    replace (length (concat (take i' (full ++ [last]))) + (length s1' + 1))%nat with (S k) in Hd' by lia.
    exists d'. split_and!; [by rewrite Hd'|done|]. rewrite Hcp. simpl. rewrite Hc. by apply index_batch_other.
Qed.

Lemma syncIndex_spec (m : Mgr) full last j fuel :
  Files (files (mgr_fs m)) full last [] → sized full last → mgr_cpInfo m = cp_of full last →
  Indexed (contents (mgr_db m)) (full ++ [last]) j → (length (blocks full last) + length full < fuel)%nat →
  ∃ d, syncIndex items fuel m = (Ok true, set_db d m)
    ∧ Indexed (contents d) (full ++ [last]) (length (blocks full last))
    ∧ contents d !! blkMgrInfoKey = contents (mgr_db m) !! blkMgrInfoKey.
Proof.
  intros HF Hsd Hcp Hix Hfuel. unfold syncIndex. unfold mbind at 1, P_bind at 1, p_gets at 1, id.
  unfold getLastBlockIndexed. rewrite DB_Get_reliable. rewrite (ix_last _ _ _ Hix), Hcp.
  simpl latestFileChunkSuffixNum. case_bool_decide as Hj.
  - assert (j = 0%nat) as -> by lia.
    destruct (lookup_lt_is_Some_2 (full ++ [last]) 0) as [seg Hseg]; [rewrite length_app; simpl; lia|].
    unfold newBlockStream, newBlockfileStream.
    rewrite (reliable_read 0 _ _ (Files_seg _ _ _ _ _ HF Hseg)). simpl.
    apply (index_blocks_spec full last (blocks full last) m 0 [] seg 0 fuel); try done; [|simpl; lia].
    exact (f_equal (@concat _) (take_drop_middle _ 0 _ Hseg)).
  - destruct j as [|k]; [lia|]. destruct (lookup_lt_is_Some_2 (blocks full last) k) as [b Hb].
    { pose proof (ix_le _ _ _ Hix). lia. }
    destruct (get_num_location items Hitems _ _ _ _ k b Hix Hsd ltac:(lia) Hb) as (i & off & Hloc & ->).
    simpl. destruct Hloc as (s1 & s2 & Hi & -> & Hk). unfold newBlockStream, newBlockfileStream.
    rewrite (reliable_read _ _ _ (Files_seg _ _ _ _ _ HF Hi)). rewrite bool_decide_eq_false_2 by lia. simpl.
    rewrite Hk. apply (index_blocks_spec full last _ m i s1 (b :: s2) (S k) fuel HF Hsd Hi eq_refl Hix); [lia|].
    eapply Nat.le_lt_trans; [|done]. pose proof (f_equal (@concat _) (take_drop_middle _ i _ Hi)) as E.
    rewrite <-E, concat_app. simpl. rewrite <-app_assoc, !length_app. simpl. rewrite ?length_app. lia.
Qed.

(** ** Start-up *)
Lemma sized_prefix full l0 s : sized full (l0 ++ s) → sized full l0.
Proof.
  intros [S1 S2 S3 S4]. rewrite !concat_app in *. simpl in *. rewrite !app_nil_r in *. rewrite app_assoc in *.
  apply Forall_app in S1 as [S1 _]. apply Forall_app in S2 as [S2 S2']. rewrite length_app in S4. split.
  - rewrite concat_app. simpl. by rewrite app_nil_r.
  - apply Forall_app. split; [done|]. rewrite Forall_singleton in S2' |- *.
    rewrite seg_bytes_app, length_app in S2'. lia.
  - done.
  - rewrite concat_app. simpl. rewrite app_nil_r. lia.
Qed.

Lemma seg_bytes_nil s : Forall block_ok s → seg_bytes s = [] → s = [].
Proof.
  intros Hok. destruct s as [|b s]; [done|]. apply Forall_cons in Hok as [Hb _].
  pose proof (len_bytes_bounds b Hb) as Hl. rewrite seg_bytes_cons. unfold frame. intros E.
  apply (f_equal length) in E. rewrite !length_app in E. simpl in E. lia.
Qed.

Lemma syncCPInfo_spec (f : F) full l0 s p fuel :
  Files (files f) full (l0 ++ s) p → cut p → sized full (l0 ++ s) → (length s < fuel)%nat →
  syncCPInfoFromFS fuel (cp_of full l0) f = Ok (cp_of full (l0 ++ s)).
Proof.
  intros HF Hp Hsd Hfuel. unfold syncCPInfoFromFS. cbn [cp_of latestFileChunkSuffixNum latestFileChunksize lastBlockNumber].
  destruct (reliable_stat (len full) f) as [o Ho]. rewrite Ho. apply fs_stat_spec in Ho.
  pose proof (f_last _ _ _ _ HF) as Hc. rewrite Hc in Ho. simpl in Ho. subst o.
  rewrite seg_bytes_app, <-app_assoc in *.
  assert (Forall block_ok s) as Hok.
  { pose proof (sz_ok _ _ Hsd) as Hok. rewrite concat_app, Forall_app in Hok. destruct Hok as [_ Hok].
    simpl in Hok. rewrite app_nil_r, Forall_app in Hok. by destruct Hok. }
  case_bool_decide as E.
  - rewrite !length_app in E. assert (seg_bytes s = []) as Hs by (apply length_zero_iff_nil; lia).
    apply seg_bytes_nil in Hs as ->; [|done]. by rewrite app_nil_r.
  - unfold scanForLastCompleteBlock, newBlockfileStream. rewrite (reliable_read _ _ _ Hc).
    rewrite bool_decide_eq_false_2 by lia. rewrite (scan_blocks_spec _ _ _ _ _ _ _ Hc) by done. simpl.
    pose proof (sz_count _ _ Hsd) as Hcnt. unfold cp_of. rewrite seg_bytes_app.
    assert (len (blocks full (l0 ++ s)) = len (blocks full l0) + len s) as El.
    { rewrite !concat_app. simpl. rewrite !app_nil_r, !length_app. lia. }
    rewrite u64_small by lia. by rewrite El.
Qed.

Lemma truncateFile_spec (f : F) full last p :
  Files (files f) full last p →
  ∃ f', truncateFile (len full) (len (seg_bytes last)) f = (true, f') ∧ Files (files f') full last [].
Proof.
  intros HF. pose proof (f_last _ _ _ _ HF) as Hc. unfold truncateFile.
  destruct (reliable_stat (len full) f) as [o Ho]. rewrite Ho. apply fs_stat_spec in Ho.
  rewrite Hc in Ho. simpl in Ho. subst o. rewrite length_app. case_bool_decide as E.
  - eexists. split; [done|]. rewrite (reliable_truncate _ _ _ _ Hc), Nat2Z.id, take_app_length.
    rewrite <-(app_nil_r (seg_bytes last)). by eapply Files_insert.
  - exists f. split; [done|]. assert (p = []) as -> by (apply length_zero_iff_nil; lia). done.
Qed.

Lemma open_writer_spec (m : Mgr) full last p :
  Files (files (mgr_fs m)) full last p →
  ∃ f', open_writer (len full) m = (Ok true, set_fs f' m) ∧ Files (files f') full last p.
Proof.
  intros HF. unfold open_writer, newBlockfileWriter. destruct (reliable_open (len full) (mgr_fs m)) as [f' Ho].
  rewrite Ho. exists f'. split; [done|]. apply fs_open_spec in Ho. by rewrite (f_last _ _ _ _ HF) in Ho; rewrite Ho.
Qed.

Lemma start_files_spec (f : F) (d : D) full last p fuel :
  Recoverable (files f) (contents d) full last p → (length (blocks full last) < fuel)%nat →
  ∃ f', start_files fuel (on_disk f d) = (Ok tt, mkMgr f' d (cp_of full last) (len full) (mkBlockchainInfo 0 None None))
    ∧ Files (files f') full last [].
Proof.
  intros [HF Hp (l0 & [s ->] & Hcp) _ Hsd] Hfuel.
  assert (length s < fuel)%nat as Hs.
  { rewrite concat_app in Hfuel. simpl in Hfuel. rewrite app_nil_r, !length_app in Hfuel. lia. }
  unfold start_files. unfold mbind at 1, P_bind at 1, p_gets at 1. simpl mgr_db.
  unfold loadCurrentInfo. rewrite DB_Get_reliable, Hcp.
  rewrite cp_unmarshal_marshal by by eapply sized_prefix.
  unfold mbind at 1, P_bind at 1, mret at 1, P_ret at 1. unfold mbind at 1, P_bind at 1, p_gets at 1. simpl mgr_fs.
  unfold mbind at 1, P_bind at 1, p_lift at 1. rewrite (syncCPInfo_spec f full l0 s p) by done.
  cbn [cp_of latestFileChunkSuffixNum latestFileChunksize].
  destruct (open_writer_spec (on_disk f d) full (l0 ++ s) p HF) as (f1 & Ho & HF1).
  unfold or_panic. unfold mbind at 1, P_bind at 1. unfold mbind at 1, P_bind at 1. rewrite Ho.
  destruct (truncateFile_spec f1 full (l0 ++ s) p HF1) as (f2 & Ht & HF2).
  unfold mbind, P_bind, on_fs. simpl. rewrite Ht. simpl. by exists f2.
Qed.

Lemma start_index_spec (m : Mgr) full last j fuel :
  Files (files (mgr_fs m)) full last [] → sized full last → mgr_cpInfo m = cp_of full last →
  mgr_writer m = len full → cp_saved (contents (mgr_db m)) full last →
  Indexed (contents (mgr_db m)) (full ++ [last]) j → (length (blocks full last) + length full < fuel)%nat →
  ∃ m', start_index items fuel m = (Ok tt, m') ∧ Store m' full last (length (blocks full last)) []
    ∧ mgr_fs m' = mgr_fs m.
Proof.
  intros HF Hsd Hcp Hw Hsv Hix Hfuel.
  destruct (syncIndex_spec m full last j fuel HF Hsd Hcp Hix Hfuel) as (d & Hd & Hix' & Hkey).
  unfold start_index. unfold mbind at 1, P_bind at 1. rewrite Hd.
  unfold mbind at 1, P_bind at 1, p_gets at 1, id.
  replace (mgr_cpInfo (set_db d m)) with (cp_of full last) by done. cbn [cp_of lastBlockNumber].
  assert (∀ i, info_ok i (blocks full last) →
    Store (set_bcInfo i (set_db d m)) full last (length (blocks full last)) []) as Hst.
  { intros i Hi. split; try done; simpl.
    - destruct Hsv as (l0 & Hl & Hc). exists l0. split; [done|]. by rewrite Hkey.
    - intros k b q tx Hk. lia. }
  case_bool_decide as Hlast.
  - destruct (last_is_Some (blocks full last)) as [_ Hx]. destruct Hx as [b Hb]; [intros E; rewrite E in Hlast; simpl in Hlast; lia|].
    pose proof Hb as Hb'. rewrite last_lookup in Hb.
    assert (len (blocks full last) = Z.of_nat (S (pred (length (blocks full last))))) as El by lia.
    destruct (get_num_location items Hitems _ _ _ _ (pred (length (blocks full last))) b Hix' Hsd ltac:(lia) Hb) as (i & off & Hloc & Hg).
    unfold mbind at 1, P_bind at 1, p_lift at 1. unfold retrieveSerBlockByNumber.
    change (mgr_db (set_db d m)) with d. rewrite El, Hg. unfold fetchSerBlock.
    rewrite (fetchBlockBytes_located (set_db d m) full last [] _ i off b HF Hsd Hloc). simpl.
    destruct (located_bounds _ _ _ _ _ _ Hsd Hloc) as [_ Hok].
    unfold GetPreviousBlockHash. simpl. rewrite extractPreviousBlockHash_ser by done.
    eexists. split; [done|]. split; [|done]. apply Hst. unfold info_ok. rewrite Hb'. simpl. by rewrite <-El.
  - eexists. split; [done|]. split; [|done]. apply Hst.
    assert (blocks full last = []) as -> by (apply length_zero_iff_nil; lia). done.
Qed.

(** The store comes back with all complete blocks. *)
Lemma recover (f : F) (d : D) full last p fuel :
  Recoverable (files f) (contents d) full last p → (length (blocks full last) + length full < fuel)%nat →
  ∃ m, newBlockfileMgr items fuel (on_disk f d) = (Ok tt, m) ∧ Store m full last (length (blocks full last)) [].
Proof.
  intros HR Hfuel. destruct (start_files_spec f d full last p fuel HR ltac:(lia)) as (f' & Hs & HF').
  destruct HR as [_ _ Hcp [j Hj] Hsd]. unfold newBlockfileMgr, mbind, P_bind. rewrite Hs.
  destruct (start_index_spec (mkMgr f' d (cp_of full last) (len full) (mkBlockchainInfo 0 None None)) full last j fuel)
    as (m & Hm & HS & _); try done. by exists m.
Qed.
End recovery.
