(* ===== verification/BlockClaims.v ===== *)
(** * What the block store promises

    The theorems on the block store as a whole: what it answers after any
    number of blocks, after a failed addition, after a stop at any point, and
    what its iterators deliver; with runs on concrete disks. *)

From Stdlib Require Import Strings.Byte.
From stdpp Require Import base numbers strings gmap list.
From S2P Require Import Prelude Sha256 Varint RWSet LevelDB PeerTypes SerBlock2 BlockFiles BlockIndex BlockStore BlockStoreProofs BlockRecovery.
Local Open Scope Z_scope.

Section claims.
Context {F D : Type} `{FileSystem F} `{!FileSystemLaws F} `{LevelDB D} `{!LevelDBLaws D} `{CryptoHash}.
Context (maxBlockfileSize : Z) (items : list IndexableAttr) (Hitems : ∀ a, is_indexed items a = true).
Abbreviation Mgr := (blockfileMgr F D).

(** ** Answers *)

(** The store answers as the list of blocks [bs] does; the transactions are
    known from block [t] on. *)
Record Answers (m : Mgr) (bs : list Block2) (t : nat) : Prop := {
  an_number k b : bs !! k = Some b →
    retrieveBlockByNumber items (Z.of_nat (S k)) m = Ok (Some (norm_block b));
  an_unknown k : (length bs ≤ k)%nat → Z.of_nat (S k) < 2 ^ 64 →
    retrieveBlockByNumber items (Z.of_nat (S k)) m = Ok None;
  an_hash b : b ∈ bs → ∃ b', b' ∈ bs ∧ hash_of b' = hash_of b
    ∧ retrieveBlockByHash items (hash_of b) m = Ok (Some (norm_block b'));
  an_tx k b q tx : (t ≤ k)%nat → bs !! k = Some b → b2_Transactions b !! q = Some tx →
    ∃ loc, getTxLoc items (constructTxID (Z.of_nat (S k)) (Z.of_nat q)) (mgr_db m) = inr loc
      ∧ fetchRawBytes loc m = Ok (Some tx);
  an_info : info_ok (mgr_bcInfo m) bs }.

Lemma located_end full last k i off b :
  sized full last → located (full ++ [last]) k i off b → 0 ≤ off ∧ off + len (frame b) < 2 ^ 62.
Proof.
  intros Hsd (s1 & s2 & Hi & -> & _). pose proof (sz_segs _ _ Hsd) as Hs. rewrite Forall_lookup in Hs.
  specialize (Hs _ _ Hi). simpl in Hs. rewrite seg_bytes_app, seg_bytes_cons, !length_app in Hs. lia.
Qed.

Lemma Store_tx `{!ReliableFS F, !Reliable D} (m : Mgr) full last t k b q tx :
  Store m full last t [] → (t ≤ k)%nat → blocks full last !! k = Some b → b2_Transactions b !! q = Some tx →
  ∃ loc, getTxLoc items (constructTxID (Z.of_nat (S k)) (Z.of_nat q)) (mgr_db m) = inr loc
    ∧ fetchRawBytes loc m = Ok (Some tx).
Proof.
  intros HS Ht Hb Hq. pose proof (lookup_lt_Some _ _ _ Hb) as Hlt.
  destruct (st_tx _ _ _ _ _ HS k b q tx ltac:(lia) Hb Hq) as (i & off & o & Hloc & Ho & Hc).
  destruct (located_bounds _ _ _ _ _ _ (st_sized _ _ _ _ _ HS) Hloc) as [(Hi & Hoff & _) Hok].
  destruct (located_end _ _ _ _ _ _ (st_sized _ _ _ _ _ HS) Hloc) as [_ Hfr].
  unfold frame in Hfr. rewrite length_app in Hfr.
  assert (len (ser_body b) ≤ len (ser_bytes b)) as Hle by (rewrite ser_bytes_eq by done; rewrite length_app; lia).
  pose proof (len_bytes_bounds b Hok) as Hl. pose proof (ser_body_small b Hok) as Hbody.
  destruct (tx_at_offset b q tx Hq) as (o' & Ho' & Ho'' & Hge & Htake).
  rewrite lookup_app_l in Ho' by (unfold ser_offsets; rewrite offsets_length; by eapply lookup_lt_Some).
  rewrite Ho in Ho'. injection Ho' as <-.
  assert (o + len tx ≤ len (ser_body b)) as Hend.
  { destruct (decide (S q < length (ser_offsets b))%nat) as [Hlt'|Hge'].
    - rewrite lookup_app_l in Ho'' by done. pose proof (ser_offsets_fit b) as Hfit. rewrite Forall_lookup in Hfit.
      specialize (Hfit _ _ Ho''). simpl in Hfit. lia.
    - rewrite lookup_app_r in Ho'' by lia. apply list_lookup_singleton_Some in Ho'' as [_ ?]. lia. }
  exists (tx_flp i off b o tx). split.
  - unfold getTxLoc. rewrite (get_location_found items Hitems _ _ _ _ Hc), flp_unmarshal_marshal; [done|].
    unfold flp_ok, tx_flp. simpl in *. lia.
  - destruct (Files_located _ _ _ _ _ _ _ _ (st_files _ _ _ _ _ HS) Hloc) as (pre & rest & Hf & ->).
    unfold fetchRawBytes, reader_read, tx_flp. cbn [flp_fileSuffixNum flp_loc lp_offset lp_bytesLength].
    rewrite (reliable_read _ _ _ Hf). rewrite bool_decide_eq_false_2 by lia.
    rewrite (bool_decide_eq_true_2 (0 ≤ _)) by lia. cbn [andb].
    rewrite (bool_decide_eq_true_2 (_ ≤ len (pre ++ _))) by (unfold frame; rewrite !length_app; lia).
    rewrite orb_true_r. do 2 f_equal.
    rewrite Nat2Z.id, !Z2Nat.inj_add, !Nat2Z.id by lia. rewrite <-!drop_drop, drop_app_length.
    unfold frame. rewrite <-app_assoc, drop_app_length, ser_bytes_eq by done. rewrite <-!app_assoc. apply Htake.
Qed.

Lemma Store_Answers `{!ReliableFS F, !Reliable D} (m : Mgr) full last t :
  Store m full last t [] → Answers m (blocks full last) t.
Proof.
  intros HS. split.
  - intros. by eapply Store_by_number.
  - intros. by eapply Store_by_number_none.
  - intros. by eapply Store_by_hash.
  - intros. by eapply Store_tx.
  - apply HS.
Qed.

(** ** A new store *)
Lemma start_empty `{!ReliableFS F, !Reliable D} (f : F) (d : D) fuel :
  files f = ∅ → contents d = ∅ → (0 < fuel)%nat →
  ∃ m, newBlockfileMgr items fuel (on_disk f d) = (Ok tt, m) ∧ Store m [] [] 0 [].
Proof.
  intros Hf Hd Hfuel. unfold newBlockfileMgr. unfold mbind at 1, P_bind at 1.
  destruct (reliable_Put blkMgrInfoKey (cp_marshal (mkCp 0 0 0)) d) as [d' Ed].
  destruct (reliable_open 0 f) as [f' Ef]. destruct (reliable_stat 0 f) as [o Eo]. destruct (reliable_stat 0 f') as [o' Eo'].
  pose proof (ldb_Put_spec _ _ _ _ Ed) as Cd. pose proof (fs_open_spec _ _ _ Ef) as Cf. rewrite Hf, lookup_empty in Cf.
  pose proof (fs_stat_spec _ _ _ Eo) as ->. rewrite Hf, lookup_empty in Eo.
  pose proof (fs_stat_spec _ _ _ Eo') as ->. rewrite Cf, lookup_insert_eq in Eo'. simpl in Eo, Eo'.
  assert (start_files fuel (on_disk f d) = (Ok tt, mkMgr f' d' (mkCp 0 0 0) 0 (mkBlockchainInfo 0 None None))) as ->.
  { unfold start_files, loadCurrentInfo. unfold mbind at 1, P_bind at 1, p_gets at 1. cbn [on_disk mgr_db].
    rewrite DB_Get_reliable, Hd, lookup_empty.
    unfold or_panic, saveCurrentInfo, on_db, DB_Put, mbind, P_bind, p_gets, p_lift, mret, P_ret. cbn [on_disk mgr_db].
    rewrite Ed. cbn [set_db mgr_fs mgr_db mgr_cpInfo mgr_writer mgr_bcInfo]. unfold syncCPInfoFromFS.
    simpl. rewrite Eo. unfold open_writer, newBlockfileWriter.
    simpl. rewrite Ef. unfold on_fs, truncateFile. simpl. by rewrite Eo'. }
  assert (Files (files f') [] [] []) as HF.
  { rewrite Cf. split; [done|done|]. intros i c Hi. rewrite lookup_insert_ne by (simpl in Hi; lia). by rewrite lookup_empty. }
  assert (sized [] []) as Hsd by (split; simpl; [constructor|by repeat constructor|lia|lia]).
  destruct (start_index_spec items Hitems (mkMgr f' d' (mkCp 0 0 0) 0 (mkBlockchainInfo 0 None None)) [] [] 0 fuel)
    as (m & -> & HS & _); try done.
  - exists []. split; [done|]. simpl. by rewrite Cd, lookup_insert_eq.
  - simpl. rewrite Cd, Hd. split; simpl; try done; intros; rewrite ?lookup_insert_ne, ?lookup_empty in * by done; try done; lia.
  - by exists m.
Qed.

(** [addBlock] for one block after the other, until there is an error. *)
Fixpoint add_blocks (bs : list Block2) : P Mgr bool :=
  match bs with
  | [] => mret true
  | b :: bs => ok ← addBlock maxBlockfileSize items b; if (ok : bool) then add_blocks bs else mret false
  end.

Lemma Store_add_blocks `{!ReliableFS F, !Reliable D} bs : ∀ (m : Mgr) full last t,
  Store m full last t [] → Forall block_ok bs → maxBlockfileSize < 2 ^ 61 →
  len full + len bs < 2 ^ 61 → len (blocks full last) + len bs < 2 ^ 61 →
  ∃ m' full' last', add_blocks bs m = (Ok true, m') ∧ Store m' full' last' t []
    ∧ blocks full' last' = blocks full last ++ bs.
Proof.
  induction bs as [|b bs IH]; intros m full last t HS Hok Hmax H2 H3.
  { exists m, full, last. by rewrite app_nil_r. }
  apply Forall_cons in Hok as [Hb Hok]. simpl in H2, H3.
  destruct (Store_addBlock_reliable maxBlockfileSize items Hitems m full last t b HS) as (m1 & full1 & last1 & Ha & HS1 & Hbs & Hl);
    [unfold has_room; lia|done|].
  destruct (IH m1 full1 last1 t HS1 Hok Hmax) as (m' & full' & last' & Hr & HS' & Hbs').
  - destruct Hl as [[-> _]|[-> _]]; rewrite ?length_app; simpl; lia.
  - rewrite Hbs, length_app. simpl. lia.
  - exists m', full', last'. cbn [add_blocks]. unfold mbind, P_bind. rewrite Ha. split_and!; [done|done|].
    rewrite Hbs', Hbs. by rewrite <-app_assoc.
Qed.

(** C9. A block store answers as a list of blocks.  On a disk without faults
    a new store starts, every block is accepted, and afterwards the store
    gives back the n-th block for the number n, nothing for numbers beyond the
    height, for the hash of a block a stored block with that hash, for a
    transaction id the bytes of that transaction, and the height and hashes
    of the chain; whatever the sizes of the blocks and of the files. *)
Theorem block_store_answers `{!ReliableFS F, !Reliable D} (f : F) (d : D) (bs : list Block2) (fuel : nat) :
  files f = ∅ → contents d = ∅ → (0 < fuel)%nat →
  Forall block_ok bs → maxBlockfileSize < 2 ^ 61 → len bs < 2 ^ 60 →
  ∃ m0 m, newBlockfileMgr items fuel (on_disk f d) = (Ok tt, m0)
    ∧ add_blocks bs m0 = (Ok true, m) ∧ Answers m bs 0.
Proof.
  intros Hf Hd Hfuel Hok Hmax Hlen. destruct (start_empty f d fuel Hf Hd Hfuel) as (m0 & Hm0 & HS0).
  destruct (Store_add_blocks bs m0 [] [] 0%nat HS0 Hok Hmax) as (m & full & last & Ha & HS & Hbs); [simpl; lia..|].
  exists m0, m. split_and!; [done|done|]. simpl in Hbs. rewrite <-Hbs. by apply Store_Answers.
Qed.

(** C23. A refused block changes nothing: when [addBlock] returns an error and
    files can be cut, the store holds the blocks it held before, its
    checkpoint, writer and index agree with its files, and it is ready for
    the next block. *)
Theorem addBlock_error_atomic (m m' : Mgr) full last t b :
  Store m full last t [] → has_room maxBlockfileSize full last → block_ok b → truncates (F := F) →
  addBlock maxBlockfileSize items b m = (Ok false, m') →
  ∃ full' last', Store m' full' last' t [] ∧ blocks full' last' = blocks full last.
Proof.
  intros HS Hroom Hb Htr Ha. pose proof (Store_addBlock maxBlockfileSize items Hitems m full last t b HS Hroom Hb) as Hout.
  rewrite Ha in Hout. simpl in Hout. inversion Hout as [r m1 full' last' q Hmv _ _ HS' _ Hq _ E1 E2| |]; subst.
  exists full', last'. rewrite (Hq eq_refl Htr) in HS'. split; [done|by eapply moved_blocks].
Qed.

(** The disk after [addBlock], whatever has failed. *)
Lemma addBlock_disk (m : Mgr) full last t b :
  Store m full last t [] → has_room maxBlockfileSize full last → block_ok b →
  let r := (addBlock maxBlockfileSize items b m).1 in let m' := (addBlock maxBlockfileSize items b m).2 in
  ∃ full' last' p,
    (blocks full' last' = blocks full last ∨ blocks full' last' = blocks full last ++ [b])
    ∧ (r = Ok true → blocks full' last' = blocks full last ++ [b])
    ∧ len full' ≤ len full + 1
    ∧ Recoverable (files (mgr_fs m')) (contents (mgr_db m')) full' last' p
    ∧ ∀ c j, cp_saved c full last → Indexed c (full ++ [last]) j →
        latestFileChunkSuffixNum (mgr_cpInfo m') = latestFileChunkSuffixNum (mgr_cpInfo m) →
        Recoverable (files (mgr_fs m')) c full' last' p.
Proof.
  intros HS Hroom Hb. pose proof (Store_addBlock maxBlockfileSize items Hitems m full last t b HS Hroom Hb) as Hout.
  destruct (addBlock maxBlockfileSize items b m) as [r m']. simpl in *.
  assert (∀ full' last', moved m full last full' last' → len full' ≤ len full + 1) as Hlen.
  { intros full' last' []; [lia|]. rewrite length_app. simpl. lia. }
  destruct Hout as [r m' full' last' q Hmv Hr Hq HS' Hsd _ _|m' HF Hdb Hcp _|m1 m' full' last' Hmv HS1 Hsd HA].
  - pose proof (moved_blocks _ _ _ _ _ Hmv) as Hbl. destruct (decide (q = frame b)) as [->|Hne].
    + exists full', (last' ++ [b]), []. rewrite blocks_append, Hbl. split_and!; [by right|done|by eapply Hlen| |].
      * destruct HS' as [HF _ _ Hsv Hix _ _ _]. apply Recoverable_frame; eauto.
      * intros c j Hc Hj Hsuf. rewrite (st_cp _ _ _ _ _ HS), (st_cp _ _ _ _ _ HS') in Hsuf. simpl in Hsuf.
        destruct Hmv; [|rewrite length_app in Hsuf; simpl in Hsuf; lia].
        apply Recoverable_frame; eauto. apply HS'.
    + assert (cut q) as Hcut.
      { right. exists b. split_and!; [done|done|]. destruct Hq as [k Hk]. rewrite Hk, length_app.
        destruct k; [by rewrite app_nil_r in Hk|]. simpl. lia. }
      exists full', last', q. split_and!; [by left|by destruct Hr; subst|by eapply Hlen|by eapply Store_Recoverable|].
      intros c j Hc Hj Hsuf. rewrite (st_cp _ _ _ _ _ HS), (st_cp _ _ _ _ _ HS') in Hsuf. simpl in Hsuf.
      destruct Hmv; [|rewrite length_app in Hsuf; simpl in Hsuf; lia].
      split; [apply HS'|done|done|eauto|apply HS'].
  - exists full, last, []. split_and!; [by left|done|lia| |].
    + rewrite Hdb. destruct HS as [_ _ _ Hsv Hix _ _ Hsd]. split; eauto. by left.
    + intros c j Hc Hj _. split; eauto; [by left|]. apply HS.
  - exists full', (last' ++ [b]), []. rewrite blocks_append, (moved_blocks _ _ _ _ _ Hmv).
    split_and!; [by right|done|by eapply Hlen|by eapply Added_Recoverable|].
    intros c j Hc Hj Hsuf. rewrite (st_cp _ _ _ _ _ HS), (ad_cp _ _ _ _ _ _ HA) in Hsuf. simpl in Hsuf.
    destruct Hmv; [|rewrite length_app in Hsuf; simpl in Hsuf; lia].
    destruct HA as [HF _ _ _ _]. split; [done|by left| | |done].
    + eapply cp_saved_prefix; [done|]. by apply prefix_app_r.
    + exists j. eapply Indexed_extends; [apply extends_append|done].
Qed.
End claims.

(** ** Stopping in the middle *)
Section crash.
Context {F D : Type} `{FileSystem F} `{!FileSystemLaws F} `{LevelDB D} `{!LevelDBLaws D} `{CryptoHash}.
Context {F2 D2 : Type} `{FileSystem F2} `{!FileSystemLaws F2} `{!ReliableFS F2}.
Context `{LevelDB D2} `{!LevelDBLaws D2} `{!Reliable D2}.
Context (maxBlockfileSize : Z) (items : list IndexableAttr) (Hitems : ∀ a, is_indexed items a = true).

(** C6. The block store survives a stop at any point.  Let any file or
    database operation of [addBlock] fail, leave a part of its bytes or make
    the process panic, and let it start again from what is on the disk; the
    database may also have lost everything since the last file was begun
    (writes that were not synchronised).  The start-up succeeds, and the store
    answers as the blocks before, with the new block added completely or not
    at all; completely if [addBlock] had returned without an error.  The
    locations of transactions are not part of this. *)
Theorem block_store_crash_safe (m : blockfileMgr F D) full last t b (f2 : F2) (d2 : D2) (fuel : nat) :
  Store m full last t [] → has_room maxBlockfileSize full last → block_ok b →
  let r := (addBlock maxBlockfileSize items b m).1 in
  let m' := (addBlock maxBlockfileSize items b m).2 in
  files f2 = files (mgr_fs m') →
  contents d2 = contents (mgr_db m')
  ∨ (latestFileChunkSuffixNum (mgr_cpInfo m') = latestFileChunkSuffixNum (mgr_cpInfo m)
     ∧ cp_saved (contents d2) full last ∧ ∃ j, Indexed (contents d2) (full ++ [last]) j) →
  (length (blocks full last) + length full + 2 < fuel)%nat →
  ∃ m2 bs, newBlockfileMgr items fuel (on_disk f2 d2) = (Ok tt, m2)
    ∧ (bs = blocks full last ∨ bs = blocks full last ++ [b])
    ∧ (r = Ok true → bs = blocks full last ++ [b])
    ∧ Answers items m2 bs (length bs).
Proof.
  intros HS Hroom Hb r m' Hf Hd Hfuel.
  destruct (addBlock_disk maxBlockfileSize items Hitems m full last t b HS Hroom Hb)
    as (full' & last' & p & Hbl & Hok & Hlen & HR & HR').
  fold r in Hok. fold m' in HR, HR'.
  assert (Recoverable (files f2) (contents d2) full' last' p) as HR2.
  { rewrite Hf. destruct Hd as [->|(Hs & Hc & j & Hj)]; [done|]. by eapply HR'. }
  destruct (recover items Hitems f2 d2 full' last' p fuel HR2) as (m2 & Hm2 & HS2).
  { destruct Hbl as [Hbl|Hbl]; rewrite Hbl; rewrite ?length_app; simpl; lia. }
  exists m2, (blocks full' last'). split_and!; [done|done|done|]. by apply Store_Answers.
Qed.
End crash.

(** ** Iterators *)
Section iterators.
Context {F D : Type} `{FileSystem F} `{!FileSystemLaws F} `{!ReliableFS F}.
Context `{LevelDB D} `{!LevelDBLaws D} `{!Reliable D} `{CryptoHash}.
Context (maxBlockfileSize : Z) (items : list IndexableAttr) (Hitems : ∀ a, is_indexed items a = true).
Abbreviation Mgr := (blockfileMgr F D).

(** The iterator is to deliver block [k] (from 0) next. *)
Definition itr_at (full : list (list Block2)) (last : list Block2) (itr : BlocksItr) (k : nat) : Prop :=
  blockNumToRetrieve itr = Z.of_nat (S k) ∧ maxBlockNumAvailable itr ≤ len (blocks full last)
  ∧ closeMarker itr = false
  ∧ ∀ s, itr_stream itr = Some s → ∃ i s1 s2, s = at_cursor (-1) i s1
      ∧ (full ++ [last]) !! i = Some (s1 ++ s2) ∧ k = (length (concat (take i (full ++ [last]))) + length s1)%nat.

Lemma cursor_block full last k i (s1 s2 : list Block2) b :
  (full ++ [last]) !! i = Some (s1 ++ s2) → k = (length (concat (take i (full ++ [last]))) + length s1)%nat →
  blocks full last !! k = Some b → ∃ rest, s2 ++ concat (drop (S i) (full ++ [last])) = b :: rest.
Proof.
  intros Hi -> Hb. pose proof (f_equal (@concat _) (take_drop_middle _ i _ Hi)) as E. rewrite <-E in Hb.
  rewrite concat_app in Hb. simpl in Hb. rewrite lookup_app_r in Hb by lia. rewrite <-app_assoc, lookup_app_r in Hb by lia.
  replace (_ + _ - _ - _)%nat with 0%nat in Hb by lia.
  destruct (s2 ++ _) as [|b' rest]; [done|]. simpl in Hb. injection Hb as ->. eauto.
Qed.

Lemma Next_block (m : Mgr) full last t itr k b fuel :
  Store m full last t [] → itr_at full last itr k → blocks full last !! k = Some b → (length full < fuel)%nat →
  ∃ itr', Next items fuel itr m = Ok (ItrBlock (ser_bytes b), itr') ∧ itr_at full last itr' (S k).
Proof.
  intros HS (Hnum & Hmax & Hcl & Hst) Hb Hfuel. pose proof (lookup_lt_Some _ _ _ Hb) as Hlt.
  pose proof (sz_count _ _ (st_sized _ _ _ _ _ HS)) as Hcnt.
  unfold Next. rewrite (st_cp _ _ _ _ _ HS). cbn [cp_of lastBlockNumber]. rewrite Hnum, Hcl.
  rewrite (bool_decide_eq_false_2 (len _ < _)) by lia. rewrite andb_false_r. cbn [andb].
  set (itr1 := if bool_decide _ then _ else itr).
  assert (blockNumToRetrieve itr1 = Z.of_nat (S k) ∧ maxBlockNumAvailable itr1 ≤ len (blocks full last)
    ∧ closeMarker itr1 = false ∧ itr_stream itr1 = itr_stream itr) as (E1 & E2 & E3 & E4).
  { unfold itr1. case_bool_decide; simpl; [|done]. split_and!; [done|lia|done|done]. }
  clearbody itr1. rewrite E3, E4.
  assert (∃ i s1 s2, match itr_stream itr with Some s => Some s | None => initStream items itr1 m end
      = Some (at_cursor (-1) i s1) ∧ (full ++ [last]) !! i = Some (s1 ++ s2)
      ∧ k = (length (concat (take i (full ++ [last]))) + length s1)%nat) as (i & s1 & s2 & -> & Hi & Hk).
  { destruct (itr_stream itr) as [s|] eqn:Es.
    { destruct (Hst s eq_refl) as (i & s1 & s2 & -> & ? & ?). eauto 8. }
    destruct (get_num_location items Hitems _ _ _ _ k b (st_index _ _ _ _ _ HS) (st_sized _ _ _ _ _ HS) Hlt Hb)
      as (i & off & Hloc & Hg). destruct Hloc as (s1 & s2 & Hi & -> & Hk).
    exists i, s1, (b :: s2). split_and!; [|done|done]. unfold initStream. rewrite E1, Hg. simpl.
    unfold newBlockStream, newBlockfileStream.
    rewrite (reliable_read _ _ _ (Files_seg _ _ _ _ _ (st_files _ _ _ _ _ HS) Hi)).
    by rewrite bool_decide_eq_false_2 by lia. }
  destruct (cursor_block full last k i s1 s2 b Hi Hk Hb) as [rest Hrest].
  pose proof (stream_next_spec (mgr_fs m) full last (st_files _ _ _ _ _ HS) (st_sized _ _ _ _ _ HS) (-1) _
    ltac:(by right) i s1 s2 fuel eq_refl Hi ltac:(lia)) as Hn.
  rewrite Hrest in Hn. destruct Hn as (i' & s1' & s2' & Hi' & _ & Hk' & Hn). rewrite Hn. cbn [mbind res_bind fst snd].
  eexists. split; [done|]. unfold itr_at. cbn [blockNumToRetrieve maxBlockNumAvailable closeMarker itr_stream].
  split_and!; [rewrite E1, u64_small; lia|done|done|].
  intros s [= <-]. exists i', (s1' ++ [b]), s2'. rewrite <-app_assoc. split_and!; [done|done|].
  rewrite length_app. simpl. lia.
Qed.

Lemma itr_at_extends full last full' last' itr k :
  extends (full ++ [last]) (full' ++ [last']) →
  (∀ i s, (full ++ [last]) !! i = Some s → ∃ s', (full' ++ [last']) !! i = Some (s ++ s')
     ∧ take i (full' ++ [last']) = take i (full ++ [last])) →
  itr_at full last itr k → itr_at full' last' itr k.
Proof.
  intros [[r Hr] _] Hseg (H3 & H4 & H5 & H6). split_and!; [done| |done|].
  - rewrite Hr, length_app. lia.
  - intros s Hs. destruct (H6 s Hs) as (i & s1 & s2 & -> & Hi & ->).
    destruct (Hseg _ _ Hi) as (s' & Hi' & Ht). exists i, s1, (s2 ++ s'). rewrite app_assoc, Ht. done.
Qed.

Lemma itr_at_add full last full' last' b itr k :
  full' = full ∧ last' = last ++ [b] ∨ full' = full ++ [last] ∧ last' = [b] →
  itr_at full last itr k → itr_at full' last' itr k.
Proof.
  intros [[-> ->]|[-> ->]] Hat.
  - apply (itr_at_extends full last); [apply extends_append| |done]. intros i s Hi.
    apply lookup_app_Some in Hi as [Hi|[Hi Hx]].
    + exists []. rewrite app_nil_r. split; [by apply lookup_app_l_Some|].
      by rewrite !take_app_le by (apply lookup_lt_Some in Hi; lia).
    + apply list_lookup_singleton_Some in Hx as [Hx ->]. exists [b]. replace i with (length full) by lia.
      rewrite !take_app_length, lookup_app_r, Nat.sub_diag by lia. done.
  - assert (extends (full ++ [last]) ((full ++ [last]) ++ [[b]])) as Hx.
    { etransitivity; [apply extends_new_file|]. apply (extends_append (full ++ [last]) [] [b]). }
    apply (itr_at_extends full last); [done| |done]. intros i s Hi. exists []. rewrite app_nil_r.
    split; [by apply lookup_app_l_Some|]. by rewrite take_app_le by (apply lookup_lt_Some in Hi; lia).
Qed.

(** A reader and a writer of one store. *)
Inductive use := UAdd (b : Block2) | UNext.

Fixpoint run (fuel : nat) (us : list use) (m : Mgr) (itr : BlocksItr) : res (list itr_result) :=
  match us with
  | [] => Ok []
  | UAdd b :: us =>
      match addBlock maxBlockfileSize items b m with
      | (Ok true, m') => run fuel us m' itr
      | _ => Panic
      end
  | UNext :: us => r ← Next items fuel itr m; rs ← run fuel us m r.2; Ok (r.1 :: rs)
  end.

(** The same on lists: block [k] is the next one. *)
Fixpoint deliver (bs : list Block2) (k : nat) (us : list use) : list itr_result :=
  match us with
  | [] => []
  | UAdd b :: us => deliver (bs ++ [b]) k us
  | UNext :: us =>
      match bs !! k with
      | Some b => ItrBlock (ser_bytes b) :: deliver bs (S k) us
      | None => Blocked :: deliver bs k us
      end
  end.

Definition use_ok (u : use) : Prop := match u with UAdd b => block_ok b | UNext => True end.

Lemma run_deliver us : ∀ (m : Mgr) full last t itr k fuel,
  Store m full last t [] → itr_at full last itr k → Forall use_ok us → maxBlockfileSize < 2 ^ 61 →
  len full + len us < 2 ^ 61 → len (blocks full last) + len us < 2 ^ 61 → (length full + length us < fuel)%nat →
  run fuel us m itr = Ok (deliver (blocks full last) k us).
Proof.
  induction us as [|u us IH]; intros m full last t itr k fuel HS Hat Hok Hmax H3 H4 Hfuel; [done|].
  apply Forall_cons in Hok as [Hu Hok]. simpl in H3, H4, Hfuel. destruct u as [b|]; cbn [run deliver].
  - destruct (Store_addBlock_reliable maxBlockfileSize items Hitems m full last t b HS) as (m1 & full1 & last1 & -> & HS1 & Hbs & Hl);
      [unfold has_room; lia|done|]. rewrite <-Hbs.
    assert (length full1 ≤ S (length full))%nat as Hlen by (destruct Hl as [[-> _]|[-> _]]; rewrite ?length_app; simpl; lia).
    apply (IH m1 full1 last1 t itr); [done|by eapply itr_at_add|done|done|lia| |lia].
    rewrite Hbs, length_app. simpl. lia.
  - destruct (blocks full last !! k) as [b|] eqn:Hb.
    + destruct (Next_block m full last t itr k b fuel HS Hat Hb) as (itr' & -> & Hat'); [lia|]. simpl.
      by rewrite (IH m full last t itr' (S k)) by (done || lia).
    + apply lookup_ge_None in Hb. destruct Hat as (H5 & H6 & H7 & H8).
      assert (Next items fuel itr m = Ok (Blocked, itr)) as ->.
      { unfold Next. rewrite (st_cp _ _ _ _ _ HS), H5, H7. cbn [cp_of lastBlockNumber].
        by rewrite !bool_decide_eq_true_2 by lia. }
      simpl. by rewrite (IH m full last t itr k) by (done || lia).
Qed.

(** C16. An iterator delivers every block once, in order.  While blocks are
    added, an iterator opened at a number delivers the serialised blocks from
    that number on, one per call; a call waits exactly while the next block
    has not been added yet, and goes on when it has; also across files. *)
Theorem iterator_delivers (m : Mgr) full last t (k : nat) (us : list use) (fuel : nat) :
  Store m full last t [] → Forall use_ok us → maxBlockfileSize < 2 ^ 61 →
  len full + len us < 2 ^ 61 → len (blocks full last) + len us < 2 ^ 61 →
  (length full + length us < fuel)%nat →
  run fuel us m (newBlockItr (Z.of_nat (S k)) m) = Ok (deliver (blocks full last) k us).
Proof.
  intros HS Hok Hmax H3 H4 Hfuel. apply (run_deliver us m full last t); try done.
  unfold itr_at, newBlockItr. simpl. rewrite (st_cp _ _ _ _ _ HS). simpl. split_and!; [done|lia|done|done].
Qed.
End iterators.

Lemma Store_empty {F D : Type} `{FileSystem F} `{!FileSystemLaws F} `{LevelDB D} `{!LevelDBLaws D} `{CryptoHash}
    (f : F) (d : D) :
  files f = {[0 := []]} → contents d = {[blkMgrInfoKey := cp_marshal (mkCp 0 0 0)]} →
  Store (mkMgr f d (mkCp 0 0 0) 0 (mkBlockchainInfo 0 None None)) [] [] 0 [].
Proof.
  intros Hf Hd. split; simpl; try done.
  - rewrite Hf. split; [done|by rewrite lookup_singleton_eq|]. simpl. intros i c Hi.
    by rewrite lookup_singleton_ne by lia.
  - exists []. split; [done|]. by rewrite Hd, lookup_singleton_eq.
  - rewrite Hd. split; simpl; try done; intros; rewrite ?lookup_singleton_ne in * by done; try done; lia.
  - split; simpl; [constructor|by repeat constructor|lia|lia].
Qed.

(** ** Examples *)
Module BlockWitness.
Import MemDB MemFS CapFS.
#[local] Instance hash : CryptoHash := Sha.sha256.

Definition items0 : list IndexableAttr := [IndexableAttrBlockNum; IndexableAttrBlockHash; IndexableAttrTxID].
Lemma items0_all a : is_indexed items0 a = true.
Proof. by destruct a. Qed.

Definition block_of (s : string) : Block2 := mkBlock2 None [bytes_of_string s; bytes_of_string "tx"].
Definition b1 : Block2 := block_of "one".
Definition b2 : Block2 := block_of "second".
Definition b3 : Block2 := block_of "third".

(** Files of at most 30 bytes: two blocks do not fit. *)
Lemma block_store_answers_witness :
  ∃ m0 m, newBlockfileMgr items0 10 (on_disk (∅ : gmap Z bytes) (∅ : gmap bytes bytes)) = (Ok tt, m0)
    ∧ add_blocks 30 items0 [b1; b2; b3] m0 = (Ok true, m) ∧ Answers items0 m [b1; b2; b3] 0.
Proof. apply (block_store_answers 30 items0 items0_all); try done; [lia|by repeat constructor]. Defined.

Definition db0 : gmap bytes bytes := {[blkMgrInfoKey := cp_marshal (mkCp 0 0 0)]}.
Definition empty_on {F} (f : F) : blockfileMgr F (gmap bytes bytes) :=
  mkMgr f db0 (mkCp 0 0 0) 0 (mkBlockchainInfo 0 None None).

Definition disk0 : gmap Z bytes := {[0 := []]}.

(** Room for three bytes. *)
Definition small_disk cuts : capfs cuts := mkCapFS disk0 3.

Lemma addBlock_error_atomic_witness :
  ∃ full last, Store (addBlock 30 items0 b1 (empty_on (small_disk true))).2 full last 0 [] ∧ blocks full last = [].
Proof.
  apply (addBlock_error_atomic 30 items0 items0_all (empty_on (small_disk true)) _ [] [] 0 b1).
  - by apply Store_empty.
  - unfold has_room. simpl. lia.
  - done.
  - intros n size f c Hc. simpl in *. by rewrite Hc.
  - rewrite (surjective_pairing (addBlock _ _ _ _)) at 1. f_equal.
Defined.

(** Three bytes of the block are on the disk when the process stops. *)
Definition stopped : gmap Z bytes := files (mgr_fs (addBlock 30 items0 b1 (empty_on (small_disk false))).2).
Definition stopped_db : gmap bytes bytes := mgr_db (addBlock 30 items0 b1 (empty_on (small_disk false))).2.
Lemma block_store_crash_safe_witness :
  (length <$> stopped !! 0) = Some 3%nat
  ∧ ∃ m2 bs, newBlockfileMgr items0 5 (on_disk stopped stopped_db) = (Ok tt, m2)
    ∧ (bs = [] ∨ bs = [b1])
    ∧ ((addBlock 30 items0 b1 (empty_on (small_disk false))).1 = Ok true → bs = [b1])
    ∧ Answers items0 m2 bs (length bs).
Proof.
  split; [vm_compute; reflexivity|].
  apply (block_store_crash_safe 30 items0 items0_all (empty_on (small_disk false)) [] [] 0 b1 stopped stopped_db 5).
  - by apply Store_empty.
  - unfold has_room. simpl. lia.
  - done.
  - done.
  - left. reflexivity.
  - simpl. lia.
Defined.

Lemma iterator_delivers_witness :
  run 30 items0 20 [UNext; UAdd b1; UNext; UAdd b2; UAdd b3; UNext; UNext; UNext]
    (empty_on disk0) (newBlockItr 1 (empty_on disk0))
  = Ok [Blocked; ItrBlock (ser_bytes b1); ItrBlock (ser_bytes b2); ItrBlock (ser_bytes b3); Blocked].
Proof.
  apply (iterator_delivers 30 items0 items0_all (empty_on disk0) [] [] 0 0); simpl; try lia.
  - by apply Store_empty.
  - by repeat constructor.
Defined.

(** ** Where the code departs from what it means to do *)
Definition started (items : list IndexableAttr) (bs : list Block2) : blockfileMgr (gmap Z bytes) (gmap bytes bytes) :=
  (add_blocks 100 items bs (newBlockfileMgr items 10 (on_disk ∅ ∅)).2).2.
Definition restarted (items : list IndexableAttr) (m : blockfileMgr (gmap Z bytes) (gmap bytes bytes)) :=
  newBlockfileMgr items 10 (on_disk (mgr_fs m) (mgr_db m)).
Definition tx_bytes (m : blockfileMgr (gmap Z bytes) (gmap bytes bytes)) (blockNum txNum : Z) : res (option bytes) :=
  match getTxLoc items0 (constructTxID blockNum txNum) (mgr_db m) with inl _ => Ok None | inr loc => fetchRawBytes loc m end.

(** The start-up indexes the last block again, and adds to the offsets of its
    transactions the offset of the block once more: a transaction that could
    be read before cannot be read after it. *)
Lemma restart_loses_transactions :
  let m := started items0 [b1; b2] in
  tx_bytes m 2 0 = Ok (Some (bytes_of_string "second"))
  ∧ (restarted items0 m).1 = Ok tt ∧ tx_bytes (restarted items0 m).2 2 0 = Ok None.
Proof. vm_compute. done. Qed.

(** A store that does not index block numbers cannot be started again. *)
Lemma restart_needs_block_numbers :
  let m := started [IndexableAttrBlockHash] [b1] in (restarted [IndexableAttrBlockHash] m).1 = Panic.
Proof. vm_compute. reflexivity. Qed.

(** Closing an iterator that was not used panics. *)
Lemma unused_iterator_close_panics (n : Z) (m : blockfileMgr (gmap Z bytes) (gmap bytes bytes)) :
  itr_Close (newBlockItr n m) = Panic.
Proof. done. Qed.
End BlockWitness.
