(* ===== verification/PeerTx.v ===== *)
(** * Proposals, endorsements and transactions

    How a client's proposal becomes an endorsed transaction and what a peer
    checks of it: protos/utils/proputils.go and txutils.go, the message
    validation of core/peer/msgvalidation.go, and the two system chaincodes
    that endorse (escc) and validate endorsements (vscc).  Identities and
    signatures are the interface of package msp. *)

From Stdlib Require Import Strings.Byte.
From stdpp Require Import base numbers strings gmap list.
From S2P Require Import Prelude PeerTypes.
Local Open Scope Z_scope.

(** ** Code that returns an error or panics *)
Definition try_bind {A B} (m : res (option A)) (f : A → res (option B)) : res (option B) :=
  match m with Ok (Some a) => f a | Ok None => Ok None | Panic => Panic | OutOfFuel => OutOfFuel end.
Declare Scope try_scope.
Delimit Scope try_scope with try.
Notation "x ←! m ; k" := (try_bind m (λ x, k))
  (at level 20, m at level 100, k at level 200, right associativity) : try_scope.
Local Open Scope try_scope.

Lemma try_bind_Some {A B} (m : res (option A)) (f : A → res (option B)) b :
  try_bind m f = Ok (Some b) ↔ ∃ a, m = Ok (Some a) ∧ f a = Ok (Some b).
Proof.
  destruct m as [[a|]| |]; simpl; split; try (intros (? & ? & ?)); try discriminate; try naive_solver.
Qed.

(** An error unless the condition holds. *)
Definition check (b : bool) : res (option unit) := Ok (if b then Some tt else None).

(** ** Identities and signatures (package msp) *)
Record IdentityIdentifier := mkIdentityIdentifier { ii_Mspid : bytes; ii_Value : bytes }.

Class MSP (Identity SigningIdentity : Type) := {
  GetSigningIdentity : IdentityIdentifier → option SigningIdentity;
  DeserializeIdentity : bytes → option Identity;
  id_Validate : Identity → option bool;
  id_Verify : Identity → bytes → bytes → option bool;
  si_Serialize : SigningIdentity → option bytes;
  si_Sign : SigningIdentity → bytes → option bytes }.

(** [primitives.GetDefaultHash], of what has been written to it *)
Class DefaultHash := default_hash : bytes → bytes.

(** ** chaincode.proto *)
Record ChaincodeSpec := mkChaincodeSpec {
  cs_Type : Z; cs_ChaincodeID : option ChaincodeID; cs_CtorMsg : option (list bytes); cs_Timeout : Z;
  cs_SecureContext : bytes; cs_ConfidentialityLevel : Z; cs_Metadata : slice; cs_Attributes : list bytes }.
Record ChaincodeInvocationSpec := mkCIS { cis_ChaincodeSpec : option ChaincodeSpec; cis_IdGenerationAlg : bytes }.

Record ChaincodeDeploymentSpec := mkCDS {
  cds_ChaincodeSpec : option ChaincodeSpec; cds_EffectiveDate : option (Z * Z);
  cds_CodePackage : slice; cds_ExecEnv : Z }.
Definition GOLANG : Z := 1.

#[global] Instance ChaincodeSpec_canonical : Canonical ChaincodeSpec := λ c,
  is_i32 (cs_Type c) ∧ is_i32 (cs_Timeout c) ∧ is_i32 (cs_ConfidentialityLevel c) ∧ field_ok (cs_Metadata c).
#[global] Instance CIS_canonical : Canonical ChaincodeInvocationSpec := λ c, canonical (cis_ChaincodeSpec c).
#[global] Instance Response_canonical : Canonical Response := λ r,
  is_i32 (resp_Status r) ∧ field_ok (resp_Payload r).
#[global] Instance ProposalResponse_canonical : Canonical ProposalResponse := λ p,
  is_i32 (pr_Version p) ∧ timestamp_ok (pr_Timestamp p) ∧ canonical (pr_Response p)
  ∧ field_ok (pr_Payload p) ∧ canonical (pr_Endorsement p).

Section peer.
Context `{!Proto Envelope, !Proto Payload, !Proto Transaction, !Proto ChaincodeActionPayload,
  !Proto ProposalResponsePayload, !Proto ChaincodeAction, !Proto Header, !Proto SignatureHeader,
  !Proto ChaincodeHeaderExtension, !Proto ChaincodeProposalPayload, !Proto Proposal,
  !Proto ProposalResponse, !Proto ChaincodeInvocationSpec, !Proto ChaincodeDeploymentSpec}.
Context {Id Sid : Type} `{!MSP Id Sid, !DefaultHash}.

(** ** proputils.go *)
Definition GetHeader (b : slice) : option Header := Unmarshal (sl b).
Definition GetProposal (b : slice) : option Proposal := Unmarshal (sl b).
Definition GetChaincodeProposalPayload (b : slice) : option ChaincodeProposalPayload := Unmarshal (sl b).
Definition GetSignatureHeader (b : slice) : option SignatureHeader := Unmarshal (sl b).
Definition GetProposalResponse (b : slice) : option ProposalResponse := Unmarshal (sl b).
Definition GetChaincodeDeploymentSpec (b : slice) : option ChaincodeDeploymentSpec := Unmarshal (sl b).

Definition GetBytesChaincodeProposalPayload (cpp : ChaincodeProposalPayload) : option bytes := Marshal cpp.
Definition GetBytesChaincodeActionPayload (cap : ChaincodeActionPayload) : option bytes := Marshal cap.
Definition GetBytesProposalResponse (pr : ProposalResponse) : option bytes := Marshal pr.
Definition GetBytesProposal (prop : Proposal) : option bytes := Marshal prop.
Definition GetBytesHeader (hdr : Header) : option bytes := Marshal hdr.
(** Marshalling a nil message is an error. *)
Definition GetBytesSignatureHeader (hdr : option SignatureHeader) : option bytes := h ← hdr; Marshal h.
Definition GetBytesTransaction (tx : Transaction) : option bytes := Marshal tx.
Definition GetBytesPayload (payl : Payload) : option bytes := Marshal payl.
Definition GetBytesEnvelope (env : Envelope) : option bytes := Marshal env.

Definition GetChaincodeHeaderExtension (hdr : Header) : res (option ChaincodeHeaderExtension) :=
  ch ← deref (hdr_ChainHeader hdr);
  if negb (bool_decide (ch_Type ch = ENDORSER_TRANSACTION)) then Ok None
  else Ok (Unmarshal (sl (ch_Extension ch))).

Definition GetChaincodeInvocationSpec (prop : Proposal) : res (option ChaincodeInvocationSpec) :=
  txhdr ←! Ok (Unmarshal (A := Header) (sl (prop_Header prop)));
  ch ← deref (hdr_ChainHeader txhdr);
  if negb (bool_decide (ch_Type ch = ENDORSER_TRANSACTION)) then Ok None else
  ccPropPayload ←! Ok (Unmarshal (A := ChaincodeProposalPayload) (sl (prop_Payload prop)));
  Ok (Unmarshal (sl (cpp_Input ccPropPayload))).

(** [nonce] is what the random number generator gives. *)
Definition CreateChaincodeProposal (nonce : option bytes) (txid : bytes) (cis : ChaincodeInvocationSpec)
    (creator : slice) : res (option Proposal) :=
  spec ← deref (cis_ChaincodeSpec cis);
  ccHdrExtBytes ←! Ok (Marshal (mkCHE None (cs_ChaincodeID spec)));
  cisBytes ←! Ok (Marshal cis);
  ccPropPayloadBytes ←! Ok (Marshal (mkCPP (Some cisBytes) None));
  nonce ←! Ok nonce;
  let hdr := mkHeader
    (Some (mkChainHeader ENDORSER_TRANSACTION 0 None None txid 0 (Some ccHdrExtBytes)))
    (Some (mkSignatureHeader creator (Some nonce))) in
  hdrBytes ←! Ok (Marshal hdr);
  Ok (Some (mkProposal (Some hdrBytes) (Some ccPropPayloadBytes) None)).

Definition CreateProposalFromCIS (nonce : option bytes) (txid : bytes) (cis : ChaincodeInvocationSpec)
    (creator : slice) : res (option Proposal) :=
  CreateChaincodeProposal nonce txid cis creator.

Definition CreateProposalFromCDS (nonce : option bytes) (txid : bytes) (cds : ChaincodeDeploymentSpec)
    (creator : slice) : res (option Proposal) :=
  b ←! Ok (Marshal cds);
  let lcccSpec := mkCIS (Some (mkChaincodeSpec GOLANG
    (Some (mkChaincodeID [] (bytes_of_string "lccc")))
    (Some [bytes_of_string "deploy"; bytes_of_string "default"; b]) 0 [] 0 None [])) [] in
  CreateProposalFromCIS nonce txid lcccSpec creator.

Definition GetBytesProposalResponsePayload (hash result event : slice) : option bytes :=
  cActBytes ← Marshal (mkChaincodeAction result event);
  Marshal (mkPRP hash (Some cActBytes)).

(** ** txutils.go *)
Definition GetBytesProposalPayloadForTx (payload : option ChaincodeProposalPayload) (visibility : slice)
    : option bytes :=
  payload ← payload;
  cppBytes ← GetBytesChaincodeProposalPayload (mkCPP (cpp_Input payload) None);
  Some (default_hash cppBytes).

Definition GetProposalHash2 (header ccPropPayl : slice) : option bytes :=
  match header, ccPropPayl with
  | Some h, Some p => Some (default_hash (h ++ p))
  | _, _ => None
  end.

Definition GetProposalHash1 (header ccPropPayl visibility : slice) : option bytes :=
  match header, ccPropPayl with
  | Some h, Some p =>
      cpp ← Unmarshal (A := ChaincodeProposalPayload) p;
      ppBytes ← GetBytesProposalPayloadForTx (Some cpp) visibility;
      Some (default_hash (h ++ ppBytes))
  | _, _ => None
  end.

Definition ConstructUnsignedProposalResponse (hdr payl results events visibility : slice) : option ProposalResponse :=
  pHashBytes ← GetProposalHash1 hdr payl visibility;
  prpBytes ← GetBytesProposalResponsePayload (Some pHashBytes) results events;
  Some (mkProposalResponse 1 None (Some (mkResponse 200 (bytes_of_string "OK") None)) (Some prpBytes)
          (Some (mkEndorsement None None))).

Definition CreateProposalResponse (hdr payl results events visibility : slice) (signingEndorser : Sid)
    : option ProposalResponse :=
  resp ← ConstructUnsignedProposalResponse hdr payl results events visibility;
  endorser ← si_Serialize signingEndorser;
  signature ← si_Sign signingEndorser (sl (pr_Payload resp) ++ endorser);
  Some (mkProposalResponse (pr_Version resp) (pr_Timestamp resp) (pr_Response resp) (pr_Payload resp)
          (Some (mkEndorsement (Some endorser) (Some signature)))).

Definition GetSignedProposal (prop : option Proposal) (signer : option Sid) : option SignedProposal :=
  prop ← prop;
  signer ← signer;
  propBytes ← GetBytesProposal prop;
  signature ← si_Sign signer propBytes;
  Some (mkSignedProposal (Some propBytes) (Some signature)).

(** The loop over the responses after the first one. *)
Definition payloads_match (a1 : slice) (resps : list ProposalResponse) : bool :=
  forallb (λ r, bytes_Equal a1 (pr_Payload r)) resps.

Definition ConstructUnsignedTxEnvelope (proposal : Proposal) (resps : list ProposalResponse)
    : res (option Envelope) :=
  match resps with
  | [] => Ok None
  | r0 :: rest =>
      hdr ←! Ok (GetHeader (prop_Header proposal));
      pPayl ←! Ok (GetChaincodeProposalPayload (prop_Payload proposal));
      hdrExt ←! GetChaincodeHeaderExtension hdr;
      response ← deref (pr_Response r0);
      _ ←! check (bool_decide (resp_Status response = 200));
      _ ←! check (payloads_match (pr_Payload r0) rest);
      let cea := mkCEA (pr_Payload r0) (pr_Endorsement <$> resps) in
      propPayloadBytes ←! Ok (GetBytesProposalPayloadForTx (Some pPayl) (che_PayloadVisibility hdrExt));
      sHdrBytes ←! Ok (GetBytesSignatureHeader (hdr_SignatureHeader hdr));
      capBytes ←! Ok (GetBytesChaincodeActionPayload (mkCAP (Some propPayloadBytes) (Some cea)));
      let taa := mkTransactionAction (Some sHdrBytes) (Some capBytes) in
      txBytes ←! Ok (GetBytesTransaction (mkTransaction 0 None [Some taa]));
      paylBytes ←! Ok (GetBytesPayload (mkPayload (Some hdr) (Some txBytes)));
      Ok (Some (mkEnvelope (Some paylBytes) None))
  end.

Definition CreateSignedTx (proposal : Proposal) (signer : Sid) (resps : list ProposalResponse)
    : res (option Envelope) :=
  hdr ←! Ok (GetHeader (prop_Header proposal));
  signerBytes ←! Ok (si_Serialize signer);
  sh ← deref (hdr_SignatureHeader hdr);
  _ ←! check (bool_decide (signerBytes = sl (sh_Creator sh)));
  txEnvelope ←! ConstructUnsignedTxEnvelope proposal resps;
  sig ←! Ok (si_Sign signer (sl (env_Payload txEnvelope)));
  Ok (Some (mkEnvelope (env_Payload txEnvelope) (Some sig))).

Definition GetEnvelopeFromBlock (data : slice) : option Envelope := Unmarshal (sl data).

(** ** msgvalidation.go *)
Definition checkSignatureFromCreator (creatorBytes sig msg : slice) : option unit :=
  match creatorBytes, sig, msg with
  | Some c, Some s, Some m =>
      creator ← DeserializeIdentity c;
      valid ← id_Validate creator;
      if negb valid then None else
      verified ← id_Verify creator m s;
      if (verified : bool) then Some tt else None
  | _, _, _ => None
  end.

Definition validateSignatureHeader (sHdr : option SignatureHeader) : option unit :=
  match sHdr with
  | None => None
  | Some h =>
      if bool_decide (sl (sh_Nonce h) = []) then None
      else if bool_decide (sl (sh_Creator h) = []) then None else Some tt
  end.

Definition validateChainHeader (cHdr : option ChainHeader) : option unit :=
  match cHdr with
  | None => None
  | Some h =>
      if bool_decide (ch_Type h ∈ [ENDORSER_TRANSACTION; CONFIGURATION_ITEM; CONFIGURATION_TRANSACTION])
      then Some tt else None
  end.

Definition validateCommonHeader (hdr : option Header) : option unit :=
  match hdr with
  | None => None
  | Some h => _ ← validateChainHeader (hdr_ChainHeader h); validateSignatureHeader (hdr_SignatureHeader h)
  end.

(** One round of the loop over the actions. *)
Definition validate_action (hdr : Header) (act : option TransactionAction) : res (option unit) :=
  match act with
  | None => Ok None
  | Some act =>
      sHdr ←! Ok (GetSignatureHeader (ta_Header act));
      _ ←! Ok (validateSignatureHeader (Some sHdr));
      cap ←! Ok (GetChaincodeActionPayload (ta_Payload act));
      action ← deref (cap_Action cap);
      prp ←! Ok (GetProposalResponsePayload (cea_ProposalResponsePayload action));
      hdrBytes ←! Ok (GetBytesHeader (mkHeader (hdr_ChainHeader hdr) (Some sHdr)));
      pHash ←! Ok (GetProposalHash2 (Some hdrBytes) (cap_ChaincodeProposalPayload cap));
      check (bytes_Equal (Some pHash) (prp_ProposalHash prp))
  end.

Fixpoint validate_actions (hdr : Header) (acts : list (option TransactionAction)) : res (option unit) :=
  match acts with
  | [] => Ok (Some tt)
  | act :: acts => _ ←! validate_action hdr act; validate_actions hdr acts
  end.

Definition validateEndorserTransaction (data : slice) (hdr : option Header)
    : res (option (list (option TransactionAction))) :=
  match data, hdr with
  | Some _, Some hdr =>
      tx ←! Ok (GetTransaction data);
      if bool_decide (tx_Actions tx = []) then Ok None else
      _ ←! validate_actions hdr (tx_Actions tx);
      Ok (Some (tx_Actions tx))
  | _, _ => Ok None
  end.

Definition ValidateTransaction (e : option Envelope) : res (option (list (option TransactionAction))) :=
  match e with
  | None => Ok None
  | Some e =>
      payload ←! Ok (GetPayload e);
      _ ←! Ok (validateCommonHeader (pl_Header payload));
      hdr ← deref (pl_Header payload);
      sh ← deref (hdr_SignatureHeader hdr);
      _ ←! Ok (checkSignatureFromCreator (sh_Creator sh) (env_Signature e) (env_Payload e));
      ch ← deref (hdr_ChainHeader hdr);
      if bool_decide (ch_Type ch = ENDORSER_TRANSACTION)
      then validateEndorserTransaction (pl_Data payload) (pl_Header payload) else Ok None
  end.

Definition validateChaincodeProposalMessage (prop : Proposal) (hdr : Header) : res (option ChaincodeHeaderExtension) :=
  GetChaincodeHeaderExtension hdr.

Definition ValidateProposalMessage (signedProp : SignedProposal)
    : res (option (Proposal * Header * ChaincodeHeaderExtension)) :=
  prop ←! Ok (GetProposal (sp_ProposalBytes signedProp));
  hdr ←! Ok (GetHeader (prop_Header prop));
  _ ←! Ok (validateCommonHeader (Some hdr));
  sh ← deref (hdr_SignatureHeader hdr);
  _ ←! Ok (checkSignatureFromCreator (sh_Creator sh) (sp_Signature signedProp) (sp_ProposalBytes signedProp));
  ch ← deref (hdr_ChainHeader hdr);
  if bool_decide (ch_Type ch = ENDORSER_TRANSACTION) then
    ext ←! validateChaincodeProposalMessage prop hdr;
    Ok (Some (prop, hdr, ext))
  else Ok None.

(** ** escc/endorser_onevalidsignature.go

    The state is the signer's identifier, nil before [Init]; looking up the
    signing identity of a nil identifier dereferences it. *)
Definition escc_Init (args : list slice) : option IdentityIdentifier :=
  match args with
  | [mspid; value] => Some (mkIdentityIdentifier (sl mspid) (sl value))
  | _ => None
  end.

Definition escc_Invoke (signerId : option IdentityIdentifier) (args : list slice) : res (option bytes) :=
  if bool_decide (length args < 4)%nat then Ok None else
  if bool_decide (6 < length args)%nat then Ok None else
  let arg n := default None (args !! n) in
  hdr ←! Ok (arg 1%nat);
  payl ←! Ok (arg 2%nat);
  results ←! Ok (arg 3%nat);
  let events := match arg 4%nat with Some e => e | None => [] end in
  visibility ←! Ok (if bool_decide (5 < length args)%nat then arg 5%nat else Some []);
  signerId ← deref signerId;
  signingEndorser ←! Ok (GetSigningIdentity signerId);
  presp ←! Ok (CreateProposalResponse (Some hdr) (Some payl) (Some results) (Some events)
                 (Some visibility) signingEndorser);
  Ok (GetBytesProposalResponse presp).

(** ** vscc/validator_onevalidsignature.go *)
Definition verify_endorsement (prespBytes : slice) (endorsement : option Endorsement) : res (option unit) :=
  e ← deref endorsement;
  id ←! Ok (DeserializeIdentity (sl (en_Endorser e)));
  valid ←! Ok (id_Validate id);
  _ ←! check valid;
  valid ←! Ok (id_Verify id (sl prespBytes ++ sl (en_Endorser e)) (sl (en_Signature e)));
  check valid.

Fixpoint verify_endorsements (prespBytes : slice) (es : list (option Endorsement)) : res (option unit) :=
  match es with
  | [] => Ok (Some tt)
  | e :: es => _ ←! verify_endorsement prespBytes e; verify_endorsements prespBytes es
  end.

Fixpoint vscc_actions (acts : list (option TransactionAction)) : res (option unit) :=
  match acts with
  | [] => Ok (Some tt)
  | act :: acts =>
      act ← deref act;
      cap ←! Ok (GetChaincodeActionPayload (ta_Payload act));
      action ← deref (cap_Action cap);
      _ ←! verify_endorsements (cea_ProposalResponsePayload action) (cea_Endorsements action);
      vscc_actions acts
  end.

Definition vscc_Invoke (args : list slice) : res (option unit) :=
  match args with
  | _ :: Some envBytes :: _ =>
      env ←! Ok (GetEnvelope (Some envBytes));
      payl ←! Ok (GetPayload env);
      hdr ← deref (pl_Header payl);
      ch ← deref (hdr_ChainHeader hdr);
      _ ←! check (bool_decide (ch_Type ch = ENDORSER_TRANSACTION));
      tx ←! Ok (GetTransaction (pl_Data payl));
      vscc_actions (tx_Actions tx)
  | _ => Ok None
  end.
End peer.
