(* ===== verification/PeerTxProofs.v ===== *)
(** * From a proposal to a validated transaction: proofs

    The flow of PeerTx.v from the client's proposal to the committer's
    checks, and what an accepted transaction is bound to. *)

From Stdlib Require Import Strings.Byte.
From stdpp Require Import base numbers strings gmap list.
From S2P Require Import Prelude Wire PeerTypes PeerTx.
Local Open Scope Z_scope.
Local Open Scope try_scope.

(** Digests are not empty. *)
Class DigestLaws `{DefaultHash} : Prop := digest_nonempty b : default_hash b ≠ [].

Section flow.
Context `{!Proto Envelope, !Proto Payload, !Proto Transaction, !Proto ChaincodeActionPayload,
  !Proto ProposalResponsePayload, !Proto ChaincodeAction, !Proto Header, !Proto SignatureHeader,
  !Proto ChaincodeHeaderExtension, !Proto ChaincodeProposalPayload, !Proto Proposal,
  !Proto ProposalResponse, !Proto ChaincodeInvocationSpec}.
Context `{!ProtoLaws Envelope, !ProtoLaws Payload, !ProtoLaws Transaction,
  !ProtoLaws ChaincodeActionPayload, !ProtoLaws ProposalResponsePayload, !ProtoLaws ChaincodeAction,
  !ProtoLaws Header, !ProtoLaws SignatureHeader, !ProtoLaws ChaincodeHeaderExtension,
  !ProtoLaws ChaincodeProposalPayload, !ProtoLaws Proposal, !ProtoLaws ProposalResponse,
  !ProtoLaws ChaincodeInvocationSpec}.
Context `{!ProtoZero Payload (mkPayload None None), !ProtoZero Transaction (mkTransaction 0 None []),
  !ProtoZero ChaincodeActionPayload (mkCAP None None), !ProtoZero ProposalResponsePayload (mkPRP None None),
  !ProtoZero ChaincodeAction (mkChaincodeAction None None), !ProtoZero Header (mkHeader None None),
  !ProtoZero SignatureHeader (mkSignatureHeader None None),
  !ProtoZero ChaincodeHeaderExtension (mkCHE None None),
  !ProtoZero ChaincodeProposalPayload (mkCPP None None), !ProtoZero Proposal (mkProposal None None None),
  !ProtoZero ChaincodeInvocationSpec (mkCIS None [])}.
Context {Id Sid : Type} `{!MSP Id Sid, !DefaultHash, !DigestLaws}.

(** Protobuf writes nothing for an empty byte field. *)
Hypothesis Marshal_no_events : ∀ r, Marshal (mkChaincodeAction r (Some [])) = Marshal (mkChaincodeAction r None).

(** A signing identity with the bytes it serialises to, which the peers accept. *)
Definition good_signer (signer : Sid) (c : bytes) : Prop :=
  si_Serialize signer = Some c ∧ c ≠ []
  ∧ ∃ id : Id, DeserializeIdentity c = Some id ∧ id_Validate id = Some true
    ∧ ∀ m, ∃ s, si_Sign signer m = Some s ∧ s ≠ [] ∧ id_Verify id m s = Some true.

(** A canonical message that is not empty, marshalled. *)
Lemma marshalled {A} `{ProtoLaws A} (zero : A) `{!ProtoZero A zero} (a : A) :
  canonical a → a ≠ zero → ∃ b, Marshal a = Some b ∧ Unmarshal b = Some a ∧ b ≠ [].
Proof.
  intros Hc Hz. destruct (Unmarshal_Marshal a Hc) as (b & Hb & Hu). exists b. split_and!; [done|done|].
  intros ->. by apply Hz, Marshal_nil.
Qed.

Lemma field_ok_Some (b : bytes) : b ≠ [] → field_ok (Some b).
Proof. intros Hb. unfold field_ok. congruence. Qed.
Lemma field_ok_None : field_ok None.
Proof. unfold field_ok. discriminate. Qed.

(** ** The proposal *)
Definition proposal_header (txid extB nonce creator : bytes) : Header :=
  mkHeader (Some (mkChainHeader ENDORSER_TRANSACTION 0 None None txid 0 (Some extB)))
           (Some (mkSignatureHeader (Some creator) (Some nonce))).

(** What the bytes of a proposal made by [CreateChaincodeProposal] are. *)
Record Made (txid nonce creator : bytes) (cis : ChaincodeInvocationSpec) (cid : ChaincodeID)
    (hdrB cppB extB cisB : bytes) : Prop := {
  made_creator : creator ≠ [];
  made_nonce : nonce ≠ [];
  made_hdr : Marshal (proposal_header txid extB nonce creator) = Some hdrB;
  made_hdr' : Unmarshal hdrB = Some (proposal_header txid extB nonce creator);
  made_hdr_ne : hdrB ≠ [];
  made_cpp : Marshal (mkCPP (Some cisB) None) = Some cppB;
  made_cpp' : Unmarshal cppB = Some (mkCPP (Some cisB) None);
  made_cpp_ne : cppB ≠ [];
  made_ext' : Unmarshal extB = Some (mkCHE None (Some cid));
  made_ext_ne : extB ≠ [];
  made_cis' : Unmarshal cisB = Some cis }.

Definition made_proposal (hdrB cppB : bytes) : Proposal := mkProposal (Some hdrB) (Some cppB) None.

Lemma header_canonical txid extB nonce creator :
  extB ≠ [] → nonce ≠ [] → creator ≠ [] → canonical (proposal_header txid extB nonce creator).
Proof.
  intros. split; intros ? [= <-].
  - split_and!; simpl; try (by unfold is_i32, is_uint64, ENDORSER_TRANSACTION; lia);
      auto using field_ok_Some, field_ok_None. by intros ? ? ?.
  - split; by apply field_ok_Some.
Qed.

Lemma CreateChaincodeProposal_made txid nonce creator cis spec cid :
  nonce ≠ [] → creator ≠ [] → canonical cis →
  cis_ChaincodeSpec cis = Some spec → cs_ChaincodeID spec = Some cid →
  ∃ hdrB cppB extB cisB,
    CreateChaincodeProposal (Some nonce) txid cis (Some creator) = Ok (Some (made_proposal hdrB cppB))
    ∧ Made txid nonce creator cis cid hdrB cppB extB cisB.
Proof.
  intros Hn Hc Hcis Hspec Hcid.
  destruct (marshalled (mkCHE None None) (mkCHE None (Some cid))) as (extB & He & He' & Hen);
    [apply field_ok_None|done|].
  destruct (marshalled (mkCIS None []) cis) as (cisB & Hi & Hi' & Hin); [done|intros ->; by simpl in Hspec|].
  destruct (marshalled (mkCPP None None) (mkCPP (Some cisB) None)) as (cppB & Hp & Hp' & Hpn);
    [split; [by apply field_ok_Some|apply field_ok_None]|done|].
  destruct (marshalled (mkHeader None None) (proposal_header txid extB nonce creator))
    as (hdrB & Hh & Hh' & Hhn); [by apply header_canonical|done|].
  exists hdrB, cppB, extB, cisB. split; [|by constructor].
  unfold CreateChaincodeProposal. rewrite Hspec. simpl. rewrite Hcid, He. simpl. rewrite Hi. simpl.
  rewrite Hp. simpl. unfold proposal_header in Hh. by rewrite Hh.
Qed.

Lemma good_signer_check signer c m :
  good_signer signer c →
  ∃ s, si_Sign signer m = Some s ∧ s ≠ [] ∧ checkSignatureFromCreator (Some c) (Some s) (Some m) = Some tt.
Proof.
  intros (_ & _ & id & Hd & Hv & Hs). destruct (Hs m) as (s & Hs1 & Hne & Hver). exists s.
  split_and!; [done|done|]. simpl. rewrite Hd. simpl. rewrite Hv. simpl. by rewrite Hver.
Qed.

Lemma header_valid txid extB nonce creator :
  nonce ≠ [] → creator ≠ [] →
  validateCommonHeader (Some (proposal_header txid extB nonce creator)) = Some tt.
Proof. intros. simpl. by rewrite !bool_decide_eq_false_2. Qed.

Section made.
Context (txid nonce creator : bytes) (cis : ChaincodeInvocationSpec) (cid : ChaincodeID)
  (hdrB cppB extB cisB : bytes) (HM : Made txid nonce creator cis cid hdrB cppB extB cisB).
Let hdr := proposal_header txid extB nonce creator.

(** A peer accepts the signed proposal and reads what the client asked for. *)
Lemma proposal_validates client :
  good_signer client creator →
  ∃ sp, GetSignedProposal (Some (made_proposal hdrB cppB)) (Some client) = Some sp
    ∧ ValidateProposalMessage sp = Ok (Some (made_proposal hdrB cppB, hdr, mkCHE None (Some cid)))
    ∧ GetChaincodeInvocationSpec (made_proposal hdrB cppB) = Ok (Some cis).
Proof using All.
  intros Hg. destruct HM.
  destruct (marshalled (mkProposal None None None) (made_proposal hdrB cppB)) as (pB & Hp & Hp' & Hpn);
    [split_and!; simpl; auto using field_ok_Some, field_ok_None|done|].
  destruct (good_signer_check client creator pB Hg) as (s & Hs & _ & Hchk).
  exists (mkSignedProposal (Some pB) (Some s)). split_and!.
  - simpl. unfold GetBytesProposal. rewrite Hp. simpl. by rewrite Hs.
  - unfold ValidateProposalMessage, GetProposal, GetHeader, made_proposal.
    cbn [sl default from_option id sp_ProposalBytes sp_Signature prop_Header]. rewrite Hp'. cbn [try_bind prop_Header].
    unfold made_proposal. cbn [prop_Header sl default from_option id]. rewrite made_hdr'0. cbn [try_bind].
    rewrite header_valid by done. cbn -[checkSignatureFromCreator GetChaincodeHeaderExtension].
    rewrite Hchk. simpl. by rewrite made_ext'0.
  - unfold GetChaincodeInvocationSpec. simpl. rewrite made_hdr'0. simpl. rewrite made_cpp'0. simpl.
    by rewrite made_cis'0.
Qed.

(** ** Endorsement *)
Definition proposal_hash : bytes := default_hash (hdrB ++ default_hash cppB).

(** The response payload every endorser computes for the same results. *)
Record Simulated (results events caB prpB : bytes) : Prop := {
  sim_ca : Marshal (mkChaincodeAction (Some results) (Some events)) = Some caB;
  sim_ca' : Unmarshal caB = Some (mkChaincodeAction (Some results) (nilable events));
  sim_prp : Marshal (mkPRP (Some proposal_hash) (Some caB)) = Some prpB;
  sim_prp' : Unmarshal prpB = Some (mkPRP (Some proposal_hash) (Some caB));
  sim_prp_ne : prpB ≠ [] }.

Lemma simulated results events : results ≠ [] → ∃ caB prpB, Simulated results events caB prpB.
Proof using All.
  intros Hr.
  destruct (marshalled (mkChaincodeAction None None) (mkChaincodeAction (Some results) (nilable events)))
    as (caB & Ha & Ha' & Han); [split; [by apply field_ok_Some|by destruct events]|done|].
  destruct (marshalled (mkPRP None None) (mkPRP (Some proposal_hash) (Some caB))) as (prpB & Hp & Hp' & Hpn).
  { split; apply field_ok_Some; [apply digest_nonempty|done]. }
  { done. }
  exists caB, prpB. constructor; try done. rewrite <-Ha. destruct events; [apply Marshal_no_events|done].
Qed.

Definition endorsed_response (result : slice) (prpB c sig : bytes) : ProposalResponse :=
  mkProposalResponse 1 None (Some (mkResponse 200 (bytes_of_string "OK") result)) (Some prpB)
    (Some (mkEndorsement (Some c) (Some sig))).

(** A response whose signature the validators accept. *)
Definition endorsed_by (prpB c sig : bytes) : Prop :=
  c ≠ [] ∧ sig ≠ [] ∧ verify_endorsement (Some prpB) (Some (mkEndorsement (Some c) (Some sig))) = Ok (Some tt).

(** The arguments the endorser service calls the chaincode with. *)
Definition escc_args (prop : Proposal) (results events visibility : bytes) : list slice :=
  [Some []; prop_Header prop; prop_Payload prop; Some results; Some events; Some visibility].

Lemma endorse eid (e : Sid) c results events visibility caB prpB :
  GetSigningIdentity eid = Some e → good_signer e c → Simulated results events caB prpB →
  ∃ b sig, escc_Invoke (Some eid) (escc_args (made_proposal hdrB cppB) results events visibility) = Ok (Some b)
    ∧ GetProposalResponse (Some b) = Some (endorsed_response None prpB c sig) ∧ endorsed_by prpB c sig.
Proof using All.
  intros Heid Hg [Hca _ Hprp _ Hne]. pose proof Hg as (Hser & Hcn & id & Hd & Hv & Hs).
  destruct (Hs (prpB ++ c)) as (sig & Hsig & Hsn & Hver).
  destruct (Unmarshal_Marshal (endorsed_response None prpB c sig)) as (b & Hb & Hb').
  { split_and!; try (by unfold is_i32; simpl; lia); [by intros ???| |by apply field_ok_Some|].
    - intros ? [= <-]. split; [unfold is_i32; simpl; lia|apply field_ok_None].
    - intros ? [= <-]. split; by apply field_ok_Some. }
  exists b, sig. split_and!; [|done|split_and!; [done|done|]].
  - unfold escc_Invoke, escc_args, made_proposal, CreateProposalResponse, ConstructUnsignedProposalResponse,
      GetProposalHash1, GetBytesProposalPayloadForTx, GetBytesProposalResponsePayload. simpl.
    destruct HM. rewrite Heid, made_cpp'0. simpl. unfold GetBytesChaincodeProposalPayload. simpl.
    rewrite made_cpp0. simpl. rewrite Hca. simpl. unfold proposal_hash in Hprp. rewrite Hprp. simpl.
    rewrite Hser. simpl. rewrite Hsig. simpl. unfold GetBytesProposalResponse. exact (f_equal Ok Hb).
  - unfold verify_endorsement. simpl. rewrite Hd. simpl. rewrite Hv. simpl. by rewrite Hver.
Qed.

(** ** The transaction *)
Section assembled.
Context (results events caB prpB : bytes) (HS : Simulated results events caB prpB).
Context (result : slice) (cs : list (bytes * bytes)) (Hcs : Forall (λ x, endorsed_by prpB x.1 x.2) cs).
Let resps := (λ x, endorsed_response result prpB x.1 x.2) <$> cs.
Let cap := mkCAP (Some (default_hash cppB)) (Some (mkCEA (Some prpB) (pr_Endorsement <$> resps))).
Let action shB capB := mkTransactionAction (Some shB) (Some capB).
Let tx shB capB := mkTransaction 0 None [Some (action shB capB)].

Record Assembled (shB capB txB plB : bytes) : Prop := {
  as_sh : Marshal (mkSignatureHeader (Some creator) (Some nonce)) = Some shB;
  as_sh' : Unmarshal shB = Some (mkSignatureHeader (Some creator) (Some nonce));
  as_cap : Marshal cap = Some capB;
  as_cap' : Unmarshal capB = Some cap;
  as_tx : Marshal (tx shB capB) = Some txB;
  as_tx' : Unmarshal txB = Some (tx shB capB);
  as_pl : Marshal (mkPayload (Some hdr) (Some txB)) = Some plB;
  as_pl' : Unmarshal plB = Some (mkPayload (Some hdr) (Some txB));
  as_pl_ne : plB ≠ [] }.

Lemma cap_canonical : canonical cap.
Proof using All.
  split; [apply field_ok_Some, digest_nonempty|]. intros ? [= <-].
  split; [by apply field_ok_Some; destruct HS|]. simpl. unfold resps. rewrite <-list_fmap_compose.
  apply Forall_fmap. eapply Forall_impl; [exact Hcs|]. intros [c sig] (Hc & Hs & _).
  eexists. split; [done|]. split; by apply field_ok_Some.
Qed.

Lemma assembled : ∃ shB capB txB plB, Assembled shB capB txB plB.
Proof using All.
  pose proof HM as [Hc Hn _ _ _ _ _ _ _ He _].
  destruct (marshalled (mkSignatureHeader None None) (mkSignatureHeader (Some creator) (Some nonce)))
    as (shB & ? & ? & ?); [split; by apply field_ok_Some|done|].
  destruct (marshalled (mkCAP None None) cap cap_canonical) as (capB & ? & ? & ?); [done|].
  destruct (marshalled (mkTransaction 0 None []) (tx shB capB)) as (txB & ? & ? & ?).
  { split_and!; [unfold is_i32; simpl; lia|by intros ???|]. repeat constructor.
    eexists. split; [done|]. split; by apply field_ok_Some. }
  { done. }
  destruct (marshalled (mkPayload None None) (mkPayload (Some hdr) (Some txB))) as (plB & ? & ? & ?).
  { split; [|by apply field_ok_Some]. intros ? [= <-]. by apply header_canonical. }
  { done. }
  by exists shB, capB, txB, plB.
Qed.

Lemma payloads_match_endorsed (l : list (bytes * bytes)) :
  payloads_match (Some prpB) ((λ x, endorsed_response result prpB x.1 x.2) <$> l) = true.
Proof using.
  induction l as [|x l IH]; [done|]. rewrite fmap_cons. unfold payloads_match, bytes_Equal in *.
  cbn [forallb pr_Payload endorsed_response]. by rewrite bool_decide_eq_true_2, IH.
Qed.

Lemma CreateSignedTx_assembled client shB capB txB plB :
  cs ≠ [] → good_signer client creator → Assembled shB capB txB plB →
  ∃ sig, CreateSignedTx (made_proposal hdrB cppB) client resps = Ok (Some (mkEnvelope (Some plB) (Some sig)))
    ∧ sig ≠ [] ∧ checkSignatureFromCreator (Some creator) (Some sig) (Some plB) = Some tt.
Proof using All.
  intros Hne Hg [Hsh _ Hcap _ Htx _ Hpl _ _].
  destruct (good_signer_check client creator plB Hg) as (sig & Hsig & Hsn & Hchk).
  exists sig. split_and!; [|done|done]. destruct HM, Hg as (Hser & _).
  unfold CreateSignedTx, GetHeader. simpl. rewrite made_hdr'0. simpl. rewrite Hser. simpl.
  rewrite bool_decide_eq_true_2 by done. simpl.
  assert (ConstructUnsignedTxEnvelope (made_proposal hdrB cppB) resps = Ok (Some (mkEnvelope (Some plB) None))) as ->.
  { unfold resps, cap, tx, action, resps, hdr in *. destruct cs as [|x l]; [done|].
    rewrite fmap_cons in *. unfold ConstructUnsignedTxEnvelope, GetHeader, GetChaincodeProposalPayload.
    cbn -[fmap payloads_match]. rewrite made_hdr'0. cbn -[fmap payloads_match]. rewrite made_cpp'0.
    cbn -[fmap payloads_match]. rewrite made_ext'0. cbn -[fmap payloads_match].
    rewrite payloads_match_endorsed. cbn -[fmap]. unfold GetBytesChaincodeProposalPayload. rewrite made_cpp0.
    cbn -[fmap]. rewrite Hsh. cbn -[fmap]. unfold GetBytesChaincodeActionPayload. rewrite Hcap. cbn -[fmap].
    unfold GetBytesTransaction. rewrite Htx. cbn -[fmap]. unfold GetBytesPayload. by rewrite Hpl. }
  simpl. by rewrite Hsig.
Qed.

(** The committer accepts the transaction, ... *)
Lemma ValidateTransaction_assembled shB capB txB plB sig :
  Assembled shB capB txB plB →
  checkSignatureFromCreator (Some creator) (Some sig) (Some plB) = Some tt →
  ValidateTransaction (Some (mkEnvelope (Some plB) (Some sig))) = Ok (Some [Some (action shB capB)]).
Proof using All.
  intros [_ Hsh' _ Hcap' _ Htx' _ Hpl' _] Hchk. destruct HM, HS.
  assert (validate_action hdr (Some (action shB capB)) = Ok (Some tt)) as Hact.
  { unfold validate_action, GetSignatureHeader, GetChaincodeActionPayload, GetProposalResponsePayload, action.
    cbn [ta_Header ta_Payload sl default from_option id]. rewrite Hsh'. cbn [try_bind].
    replace (validateSignatureHeader _) with (Some tt) by (simpl; by rewrite !bool_decide_eq_false_2).
    cbn [try_bind]. rewrite Hcap'. cbn. rewrite sim_prp'0. cbn.
    unfold GetBytesHeader, hdr, proposal_header in *. cbn. rewrite made_hdr0. cbn.
    unfold check, bytes_Equal. by rewrite bool_decide_eq_true_2. }
  unfold ValidateTransaction, GetPayload. cbn [env_Payload env_Signature sl default from_option id].
  rewrite Hpl'. cbn [try_bind pl_Header]. unfold hdr. rewrite header_valid by done.
  cbn -[checkSignatureFromCreator validateEndorserTransaction]. rewrite Hchk.
  cbn -[validateEndorserTransaction]. unfold validateEndorserTransaction, GetTransaction.
  cbn [sl default from_option id]. rewrite Htx'. cbn [try_bind tx tx_Actions].
  rewrite bool_decide_eq_true_2 by done. rewrite bool_decide_eq_false_2 by done. cbn [validate_actions].
  unfold hdr in Hact. by rewrite Hact.
Qed.

Lemma verify_endorsed l :
  Forall (λ x, endorsed_by prpB x.1 x.2) l →
  verify_endorsements (Some prpB) (pr_Endorsement <$> ((λ x, endorsed_response result prpB x.1 x.2) <$> l)) = Ok (Some tt).
Proof using. induction 1 as [|x l (_ & _ & Hx) _ IH]; [done|]. rewrite !fmap_cons. cbn -[verify_endorsement fmap]. by rewrite Hx. Qed.

(** ... so does the validation chaincode, ... *)
Lemma vscc_assembled shB capB txB plB sig envB fn :
  Assembled shB capB txB plB → Unmarshal envB = Some (mkEnvelope (Some plB) (Some sig)) →
  vscc_Invoke [fn; Some envB] = Ok (Some tt).
Proof using All.
  intros [_ _ _ Hcap' _ Htx' _ Hpl' _] Henv. unfold vscc_Invoke, GetEnvelope, GetPayload, GetTransaction.
  cbn [sl default from_option id]. rewrite Henv. cbn. rewrite Hpl'. cbn. rewrite Htx'. cbn.
  unfold GetChaincodeActionPayload. cbn. rewrite Hcap'. cbn -[fmap]. unfold resps.
  by rewrite verify_endorsed.
Qed.

(** ... and the ledger reads the results that were endorsed. *)
Lemma action_assembled shB capB txB plB sig envB :
  Assembled shB capB txB plB → Unmarshal envB = Some (mkEnvelope (Some plB) (Some sig)) →
  GetActionFromEnvelope envB = Ok (Some (Some (mkChaincodeAction (Some results) (nilable events)))).
Proof using All.
  intros [_ _ _ Hcap' _ Htx' _ Hpl' _] Henv. destruct HS.
  unfold GetActionFromEnvelope, GetEnvelope, GetPayload, GetTransaction, GetPayloads.
  cbn [sl default from_option id]. rewrite Henv. cbn. rewrite Hpl'. cbn. rewrite Htx'. cbn.
  rewrite Hcap'. cbn. rewrite sim_prp'0. cbn. by rewrite sim_ca'0.
Qed.
End assembled.
End made.

(** The endorsers' answers, one after the other. *)
Lemma endorse_all txid nonce creator cis cid hdrB cppB extB cisB results events visibility caB prpB eids :
  Made txid nonce creator cis cid hdrB cppB extB cisB → Simulated hdrB cppB results events caB prpB →
  Forall (λ eid, ∃ e c, GetSigningIdentity eid = Some e ∧ good_signer e c) eids →
  ∃ cs, Forall (λ x, endorsed_by prpB x.1 x.2) cs
    ∧ Forall2 (λ eid r, ∃ b,
        escc_Invoke (Some eid) (escc_args (made_proposal hdrB cppB) results events visibility) = Ok (Some b)
        ∧ GetProposalResponse (Some b) = Some r) eids ((λ x, endorsed_response None prpB x.1 x.2) <$> cs).
Proof.
  intros HM HS. induction 1 as [|eid eids (e & c & Heid & Hg) _ (cs & Hcs & Hall)]; [by exists []|].
  destruct (endorse _ _ _ _ _ _ _ _ _ HM eid e c results events visibility caB prpB Heid Hg HS)
    as (b & sig & Hb & Hr & He).
  exists ((c, sig) :: cs). split; [by constructor|]. rewrite fmap_cons. constructor; [by exists b|done].
Qed.

(** An endorsed proposal becomes a transaction every peer accepts.  A
    client with a good identity proposes to call a chaincode; peers accept the
    signed proposal and read the invocation from it.  When any number of
    endorsers, at least one, answer with the same results, the client's
    transaction is built, passes [ValidateTransaction] and the validation
    chaincode, and the ledger reads from it the results that were endorsed. *)
Theorem endorsed_transaction_accepted (txid nonce creator results events visibility : bytes)
    (cis : ChaincodeInvocationSpec) (spec : ChaincodeSpec) (cid : ChaincodeID)
    (client : Sid) (eids : list IdentityIdentifier) (fn : slice) :
  nonce ≠ [] → results ≠ [] → canonical cis →
  cis_ChaincodeSpec cis = Some spec → cs_ChaincodeID spec = Some cid →
  good_signer client creator →
  eids ≠ [] → Forall (λ eid, ∃ e c, GetSigningIdentity eid = Some e ∧ good_signer e c) eids →
  ∃ prop sp hdr resps env envB acts,
    CreateChaincodeProposal (Some nonce) txid cis (Some creator) = Ok (Some prop)
    ∧ GetSignedProposal (Some prop) (Some client) = Some sp
    ∧ ValidateProposalMessage sp = Ok (Some (prop, hdr, mkCHE None (Some cid)))
    ∧ GetChaincodeInvocationSpec prop = Ok (Some cis)
    ∧ Forall2 (λ eid r, ∃ b, escc_Invoke (Some eid) (escc_args prop results events visibility) = Ok (Some b)
        ∧ GetProposalResponse (Some b) = Some r) eids resps
    ∧ CreateSignedTx prop client resps = Ok (Some env)
    ∧ GetBytesEnvelope env = Some envB
    ∧ ValidateTransaction (Some env) = Ok (Some acts)
    ∧ vscc_Invoke [fn; Some envB] = Ok (Some tt)
    ∧ GetActionFromEnvelope envB = Ok (Some (Some (mkChaincodeAction (Some results) (nilable events)))).
Proof.
  intros Hn Hr Hcis Hspec Hcid Hg Hne Hes. pose proof Hg as (_ & Hc & _).
  destruct (CreateChaincodeProposal_made txid nonce creator cis spec cid) as (hdrB & cppB & extB & cisB & Hmk & HM);
    [done..|].
  destruct (proposal_validates _ _ _ _ _ _ _ _ _ HM client Hg) as (sp & Hsp & Hval & Hinv).
  destruct (simulated _ _ _ _ _ _ _ _ _ HM results events Hr) as (caB & prpB & HS).
  destruct (endorse_all _ _ _ _ _ _ _ _ _ _ _ visibility _ _ eids HM HS Hes) as (cs & Hcs & Hall).
  assert (cs ≠ []) as Hcsn by (intros ->; by apply Forall2_nil_inv_r in Hall).
  destruct (assembled _ _ _ _ _ _ _ _ _ HM _ _ _ _ HS None cs Hcs) as (shB & capB & txB & plB & HA).
  destruct (CreateSignedTx_assembled _ _ _ _ _ _ _ _ _ HM _ _ _ _ HS None cs Hcs client _ _ _ _ Hcsn Hg HA)
    as (sig & Htx & Hsn & Hchk).
  destruct (Unmarshal_Marshal (mkEnvelope (Some plB) (Some sig))) as (envB & HeB & HeB').
  { split; apply field_ok_Some; [by destruct HA|done]. }
  eexists _, sp, _, _, _, envB, _. split_and!; try done.
  - by eapply ValidateTransaction_assembled.
  - by eapply vscc_assembled.
  - by eapply action_assembled.
Qed.

(** ** What acceptance means *)
Lemma validate_actions_Forall hdr acts :
  validate_actions hdr acts = Ok (Some tt) ↔ Forall (λ a, validate_action hdr a = Ok (Some tt)) acts.
Proof.
  induction acts as [|a acts IH]; [done|]. cbn [validate_actions]. rewrite Forall_cons, try_bind_Some. split.
  - intros ([] & ? & ?). by rewrite <-IH.
  - intros [? ?%IH]. by exists tt.
Qed.

Record Accepted (env : Envelope) (acts : list (option TransactionAction)) (hdr : Header) : Prop := {
  acc_type : ∃ ch, hdr_ChainHeader hdr = Some ch ∧ ch_Type ch = ENDORSER_TRANSACTION;
  acc_signed : ∃ sh, hdr_SignatureHeader hdr = Some sh
    ∧ checkSignatureFromCreator (sh_Creator sh) (env_Signature env) (env_Payload env) = Some tt;
  acc_tx : ∃ data tx, GetPayload env = Some (mkPayload (Some hdr) data)
    ∧ GetTransaction data = Some tx ∧ tx_Actions tx = acts;
  acc_some : acts ≠ [];
  acc_actions : Forall (λ a, validate_action hdr a = Ok (Some tt)) acts }.

Lemma ValidateTransaction_inv env acts :
  ValidateTransaction (Some env) = Ok (Some acts) → ∃ hdr, Accepted env acts hdr.
Proof.
  unfold ValidateTransaction. intros ([h data] & [= Hp] & Hrun)%try_bind_Some.
  apply try_bind_Some in Hrun as ([] & _ & Hrun). cbn [pl_Header pl_Data] in Hrun.
  destruct h as [hdr|]; [|done]. cbn [deref mbind res_bind] in Hrun.
  destruct (hdr_SignatureHeader hdr) as [sh|] eqn:Hsh; [|done]. cbn [deref mbind res_bind] in Hrun.
  apply try_bind_Some in Hrun as ([] & [= Hchk] & Hrun).
  destruct (hdr_ChainHeader hdr) as [ch|] eqn:Hch; [|done]. cbn [deref mbind res_bind] in Hrun.
  case_bool_decide as Ht; [|done]. unfold validateEndorserTransaction in Hrun. destruct data as [d|]; [|done].
  apply try_bind_Some in Hrun as (tx & [= Htx] & Hrun). case_bool_decide as Hne; [done|].
  apply try_bind_Some in Hrun as ([] & Ha & [= <-]). exists hdr.
  constructor; eauto 6. by apply validate_actions_Forall.
Qed.

(** The hash a validated action has matched: over the common chain header, the
    action's signature header, and the payload the action carries. *)
Lemma validate_action_inv hdr act :
  validate_action hdr (Some act) = Ok (Some tt) →
  ∃ sHdr cap action prp hdrB p,
    GetSignatureHeader (ta_Header act) = Some sHdr ∧ GetChaincodeActionPayload (ta_Payload act) = Some cap
    ∧ cap_Action cap = Some action
    ∧ GetProposalResponsePayload (cea_ProposalResponsePayload action) = Some prp
    ∧ Marshal (mkHeader (hdr_ChainHeader hdr) (Some sHdr)) = Some hdrB
    ∧ cap_ChaincodeProposalPayload cap = Some p
    ∧ default_hash (hdrB ++ p) = sl (prp_ProposalHash prp).
Proof.
  unfold validate_action. intros (sHdr & [= Hsh] & Hrun)%try_bind_Some.
  apply try_bind_Some in Hrun as ([] & _ & Hrun). apply try_bind_Some in Hrun as (cap & [= Hcap] & Hrun).
  destruct (cap_Action cap) as [action|] eqn:Ha; [|done]. cbn [deref mbind res_bind] in Hrun.
  apply try_bind_Some in Hrun as (prp & [= Hprp] & Hrun).
  apply try_bind_Some in Hrun as (hdrB & [= Hh] & Hrun).
  apply try_bind_Some in Hrun as (pHash & [= Hph] & Hrun).
  unfold check in Hrun. destruct (bytes_Equal _ _) eqn:He; [|done]. apply bytes_Equal_true in He.
  unfold GetProposalHash2 in Hph. destruct (cap_ChaincodeProposalPayload cap) as [p|] eqn:Hp; [|done].
  injection Hph as <-. exists sHdr, cap, action, prp, hdrB, p. by split_and!.
Qed.

(** The payload an endorser signs carries the hash of the proposal it saw. *)
Lemma CreateProposalResponse_hash hdrB payB results events visibility (e : Sid) resp :
  results ≠ [] →
  CreateProposalResponse (Some hdrB) (Some payB) (Some results) (Some events) visibility e = Some resp →
  ∃ cpp d caB, Unmarshal payB = Some cpp ∧ GetBytesProposalPayloadForTx (Some cpp) visibility = Some d
    ∧ GetProposalResponsePayload (pr_Payload resp) = Some (mkPRP (Some (default_hash (hdrB ++ d))) (Some caB)).
Proof.
  intros Hr. unfold CreateProposalResponse, ConstructUnsignedProposalResponse.
  intros (resp0 & (hash & Hhash & (prpB & Hprp & [= <-])%bind_Some)%bind_Some & (c & _ & (sg & _ & [= <-])%bind_Some)%bind_Some)%bind_Some.
  unfold GetProposalHash1 in Hhash. apply bind_Some in Hhash as (cpp & Hcpp & (d & Hd & [= <-])%bind_Some).
  unfold GetBytesProposalResponsePayload in Hprp. apply bind_Some in Hprp as (caB & Hca & Hprp).
  exists cpp, d, caB. split_and!; [done|done|]. unfold GetProposalResponsePayload. simpl.
  destruct (marshalled (mkChaincodeAction None None) (mkChaincodeAction (Some results) (nilable events)))
    as (caB' & Hca' & _ & Hne); [split; [by apply field_ok_Some|by destruct events]|done|].
  assert (caB' = caB) as ->.
  { destruct events; simpl in Hca'; [rewrite Marshal_no_events in Hca|]; congruence. }
  destruct (Unmarshal_Marshal (mkPRP (Some (default_hash (hdrB ++ d))) (Some caB))) as (b & Hb & Hb').
  { split; apply field_ok_Some; [apply digest_nonempty|done]. }
  congruence.
Qed.

(** C5. An accepted transaction is the one that was endorsed.  Let a peer
    accept an envelope, and let one of its actions carry the response payload
    an endorser made for a proposal.  Then the envelope's creator signed it,
    and, when the action's payload is as long as a digest, the chain header of
    the envelope with the action's signature header are the proposal's header,
    and the action's payload is the digest of the proposal's payload without
    its transient part; unless the two strings that were hashed collide. *)
Theorem accepted_transaction_binds (n : nat) (env : Envelope) acts act cap action
    (hdrB payB results events : bytes) (visibility : slice) (e : Sid) (resp : ProposalResponse) :
  (∀ b, length (default_hash b) = n) →
  ValidateTransaction (Some env) = Ok (Some acts) → Some act ∈ acts →
  GetChaincodeActionPayload (ta_Payload act) = Some cap → cap_Action cap = Some action →
  results ≠ [] →
  CreateProposalResponse (Some hdrB) (Some payB) (Some results) (Some events) visibility e = Some resp →
  cea_ProposalResponsePayload action = pr_Payload resp →
  length (sl (cap_ChaincodeProposalPayload cap)) = n →
  ∃ hdr sh sHdr hdrB' p cpp d,
    pl_Header <$> GetPayload env = Some (Some hdr)
    ∧ hdr_SignatureHeader hdr = Some sh
    ∧ checkSignatureFromCreator (sh_Creator sh) (env_Signature env) (env_Payload env) = Some tt
    ∧ GetSignatureHeader (ta_Header act) = Some sHdr
    ∧ Marshal (mkHeader (hdr_ChainHeader hdr) (Some sHdr)) = Some hdrB'
    ∧ cap_ChaincodeProposalPayload cap = Some p
    ∧ Unmarshal payB = Some cpp ∧ GetBytesProposalPayloadForTx (Some cpp) visibility = Some d
    ∧ ((hdrB' = hdrB ∧ p = d)
       ∨ (hdrB' ++ p ≠ hdrB ++ d ∧ default_hash (hdrB' ++ p) = default_hash (hdrB ++ d))).
Proof.
  intros Hn Hval Hact Hcap Hac Hr Hresp Hsame Hlen.
  destruct (ValidateTransaction_inv _ _ Hval) as (hdr & [_ (sh & Hsh & Hchk) (data & tx & Hpl & _) _ Hall]).
  rewrite Forall_forall in Hall.
  destruct (validate_action_inv hdr act (Hall _ Hact))
    as (sHdr & cap' & action' & prp & hdrB' & p & Hs & Hcap' & Hac' & Hprp & Hm & Hp & Hhash).
  simplify_eq. rewrite Hsame in Hprp.
  destruct (CreateProposalResponse_hash _ _ _ _ _ _ _ Hr Hresp) as (cpp & d & caB & Hcpp & Hd & Hprp').
  simplify_eq. simpl in Hhash. rewrite Hp in Hn. simpl in Hn.
  exists hdr, sh, sHdr, hdrB', p, cpp, d. rewrite Hpl. split_and!; try done.
  destruct (decide (hdrB' ++ p = hdrB ++ d)) as [Heq|Hneq]; [left|by right].
  apply app_inj_2 in Heq; [done|]. pose proof Hd as Hd'. simpl in Hd'.
  apply bind_Some in Hd' as (? & _ & [= <-]). by rewrite Hn.
Qed.
End flow.
