(* ===== verification/PeerTxSim.v ===== *)
(** * Proposals and transactions: examples

    Concrete encodings, identities and a checksum that meet the hypotheses of
    PeerTxProofs.v, and the theorems there applied to a run. *)

From Stdlib Require Import Strings.Byte.
From stdpp Require Import base numbers strings gmap list.
From S2P Require Import Prelude Wire PeerTypes PeerSim PeerTx PeerTxProofs.
Local Open Scope Z_scope.
Import PeerCodec.

(** ** The remaining encodings *)
Module PeerTxCodec.

Definition put_input (l : list bytes) : bytes := put_list put_bytes l.
Definition get_input : parser (list bytes) := λ l, get_list get_bytes (length l) l.

Definition put_ccspec (c : ChaincodeSpec) : bytes :=
  put_Z (cs_Type c) ++ put_option put_ccid (cs_ChaincodeID c) ++ put_option put_input (cs_CtorMsg c)
  ++ put_Z (cs_Timeout c) ++ put_bytes (cs_SecureContext c) ++ put_Z (cs_ConfidentialityLevel c)
  ++ put_slice (cs_Metadata c) ++ put_input (cs_Attributes c).
Definition get_ccspec : parser ChaincodeSpec := λ l,
  '(t, l) ← get_Z l; '(i, l) ← get_option get_ccid l; '(m, l) ← get_option get_input l;
  '(o, l) ← get_Z l; '(s, l) ← get_bytes l; '(v, l) ← get_Z l; '(d, l) ← get_slice l;
  '(a, l) ← get_input l; Some (mkChaincodeSpec t i m o s v d a, l).

Definition put_response (r : Response) : bytes :=
  put_Z (resp_Status r) ++ put_bytes (resp_Message r) ++ put_slice (resp_Payload r).
Definition get_response : parser Response := λ l,
  '(s, l) ← get_Z l; '(m, l) ← get_bytes l; '(p, l) ← get_slice l; Some (mkResponse s m p, l).

#[export] Instance CIS_proto : Proto ChaincodeInvocationSpec := {
  Marshal c := Some (put_option put_ccspec (cis_ChaincodeSpec c) ++ put_bytes (cis_IdGenerationAlg c));
  Unmarshal l := '(s, l) ← get_option get_ccspec l; '(a, l) ← get_bytes l; Some (mkCIS s a) }.
#[export] Instance ProposalResponse_proto : Proto ProposalResponse := {
  Marshal p := Some (put_Z (pr_Version p) ++ put_option put_time (pr_Timestamp p)
    ++ put_option put_response (pr_Response p) ++ put_slice (pr_Payload p)
    ++ put_option put_endorsement (pr_Endorsement p));
  Unmarshal l :=
    '(v, l) ← get_Z l; '(t, l) ← get_option get_time l; '(r, l) ← get_option get_response l;
    '(p, l) ← get_slice l; '(e, l) ← get_option get_endorsement l; Some (mkProposalResponse v t r p e) }.
#[export] Instance CDS_proto : Proto ChaincodeDeploymentSpec := {
  Marshal c := Some (put_option put_ccspec (cds_ChaincodeSpec c) ++ put_option put_time (cds_EffectiveDate c)
    ++ put_slice (cds_CodePackage c) ++ put_Z (cds_ExecEnv c));
  Unmarshal l :=
    '(s, l) ← get_option get_ccspec l; '(t, l) ← get_option get_time l; '(p, l) ← get_slice l; '(e, l) ← get_Z l;
    Some (mkCDS s t p e) }.

Lemma get_put_input x l : get_input (put_input x ++ l) = Some (x, l).
Proof.
  unfold get_input, put_input. apply get_put_list; [apply get_put_bytes|].
  rewrite length_app. pose proof (length_put_list put_bytes x). lia.
Qed.
Lemma get_put_ccspec c l : canonical c → get_ccspec (put_ccspec c ++ l) = Some (c, l).
Proof.
  destruct c. unfold get_ccspec, put_ccspec. intros (_ & _ & _ & ?). simpl in *.
  rewrite <-!app_assoc, get_put_Z. cbn. rewrite get_put_option by apply get_put_ccid. cbn.
  rewrite get_put_option by apply get_put_input. cbn. rewrite get_put_Z. cbn. rewrite get_put_bytes. cbn.
  rewrite get_put_Z. cbn. rewrite get_put_slice by done. cbn. by rewrite get_put_input.
Qed.
Lemma get_put_response r l : canonical r → get_response (put_response r ++ l) = Some (r, l).
Proof.
  destruct r. unfold get_response, put_response. intros [_ ?]. simpl in *.
  rewrite <-!app_assoc, get_put_Z. cbn. rewrite get_put_bytes. cbn. by rewrite get_put_slice.
Qed.

#[export] Instance CIS_laws : ProtoLaws ChaincodeInvocationSpec.
Proof.
  intros [s a] Hs. eexists. split; [done|]. simpl.
  rewrite get_put_option' by (intros c ? ->; apply get_put_ccspec; by apply Hs). cbn.
  rewrite <-(app_nil_r (put_bytes a)). by rewrite get_put_bytes.
Qed.
#[export] Instance ProposalResponse_laws : ProtoLaws ProposalResponse.
Proof.
  intros [v t r p e] (_ & _ & Hr & Hp & He). eexists. split; [done|]. simpl in *.
  rewrite get_put_Z. cbn. rewrite get_put_option by apply get_put_time. cbn.
  rewrite get_put_option' by (intros c ? ->; apply get_put_response; by apply Hr). cbn.
  rewrite get_put_slice by done. cbn. rewrite <-(app_nil_r (put_option put_endorsement e)).
  by rewrite get_put_option' by (intros c ? ->; apply get_put_endorsement; by apply He).
Qed.

End PeerTxCodec.

(** ** A run *)
Module PeerTxWitness.
Import PeerTxCodec.

(** No message of this encoding is empty. *)
Lemma never_empty {A} `{ProtoLaws A} (zero : A) : Unmarshal (A := A) [] = None → ProtoZero A zero.
Proof. intros Hn a Ha Hm. destruct (Unmarshal_Marshal a Ha) as (b & Hb & Hu). congruence. Qed.
#[local] Hint Extern 1 (ProtoZero _ _) => apply never_empty; reflexivity : typeclass_instances.

(** Identities are names; a signature is the signer's name and the message. *)
#[export] Instance names : MSP bytes bytes := {
  GetSigningIdentity i := Some (ii_Value i);
  DeserializeIdentity c := Some c;
  id_Validate _ := Some true;
  id_Verify i m s := Some (bool_decide (s = x01 :: i ++ m));
  si_Serialize i := Some i;
  si_Sign i m := Some (x01 :: i ++ m) }.

(** The digest is one byte. *)
#[export] Instance checksum : DefaultHash := λ b,
  [byte_of_Z (fold_left (λ a x, (31 * a + Z_of_byte x) `mod` 256) b 7)].
#[local] Instance checksum_laws : DigestLaws.
Proof. intros b. discriminate. Qed.

Lemma names_good (i : bytes) : i ≠ [] → good_signer (Id := bytes) (Sid := bytes) i i.
Proof.
  intros Hi. split_and!; [done|done|]. exists i. split_and!; [done|done|]. intros m.
  exists (x01 :: i ++ m). split_and!; [done|done|]. simpl. by rewrite bool_decide_eq_true_2.
Qed.

Lemma no_events (r : slice) : Marshal (mkChaincodeAction r (Some [])) = Marshal (mkChaincodeAction r None).
Proof. done. Qed.

Definition alice : bytes := bytes_of_string "alice".
Definition peer0 : bytes := bytes_of_string "peer0".
Definition peer1 : bytes := bytes_of_string "peer1".
Definition cid : ChaincodeID := mkChaincodeID [] (bytes_of_string "cc").
Definition spec : ChaincodeSpec :=
  mkChaincodeSpec GOLANG (Some cid) (Some [bytes_of_string "invoke"]) 0 [] 0 None [].
Definition cis : ChaincodeInvocationSpec := mkCIS (Some spec) [].
Definition nonce : bytes := [x2a].
Definition txid : bytes := bytes_of_string "tx".
Definition results : bytes := bytes_of_string "r".

Lemma cis_canonical : canonical cis.
Proof.
  intros ? [= <-]. split_and!; try (unfold is_i32; simpl; unfold GOLANG; lia). apply field_ok_None.
Qed.

(** The flow with two endorsers. *)
Lemma endorsed_transaction_accepted_witness :
  ∃ prop sp hdr resps env envB acts,
    CreateChaincodeProposal (Some nonce) txid cis (Some alice) = Ok (Some prop)
    ∧ GetSignedProposal (Some prop) (Some alice) = Some sp
    ∧ ValidateProposalMessage sp = Ok (Some (prop, hdr, mkCHE None (Some cid)))
    ∧ GetChaincodeInvocationSpec prop = Ok (Some cis)
    ∧ Forall2 (λ eid r, ∃ b, escc_Invoke (Some eid) (escc_args prop results [] []) = Ok (Some b)
        ∧ GetProposalResponse (Some b) = Some r) [mkIdentityIdentifier [] peer0; mkIdentityIdentifier [] peer1] resps
    ∧ CreateSignedTx prop alice resps = Ok (Some env)
    ∧ GetBytesEnvelope env = Some envB
    ∧ ValidateTransaction (Some env) = Ok (Some acts)
    ∧ vscc_Invoke [None; Some envB] = Ok (Some tt)
    ∧ GetActionFromEnvelope envB = Ok (Some (Some (mkChaincodeAction (Some results) None))).
Proof.
  apply (endorsed_transaction_accepted no_events txid nonce alice results [] [] cis spec cid alice
           [mkIdentityIdentifier [] peer0; mkIdentityIdentifier [] peer1] None);
    [done|done|exact cis_canonical|done|done|by apply names_good|done|].
  repeat constructor; [exists peer0, peer0|exists peer1, peer1]; split; try done; by apply names_good.
Defined.

(** The same transaction, computed. *)
Definition from {A} (d : A) (m : res (option A)) : A := match m with Ok (Some a) => a | _ => d end.
Definition run_prop : Proposal :=
  from (mkProposal None None None) (CreateChaincodeProposal (Some nonce) txid cis (Some alice)).
Definition run_resp : ProposalResponse :=
  from (mkProposalResponse 0 None None None None)
    (Ok (CreateProposalResponse (prop_Header run_prop) (prop_Payload run_prop) (Some results) (Some []) None peer0)).
Definition run_env : Envelope := from (mkEnvelope None None) (CreateSignedTx run_prop alice [run_resp]).
Definition run_acts : list (option TransactionAction) := from [] (ValidateTransaction (Some run_env)).
Definition run_act : TransactionAction := default (mkTransactionAction None None) (default None (head run_acts)).
Definition run_cap : ChaincodeActionPayload :=
  default (mkCAP None None) (GetChaincodeActionPayload (ta_Payload run_act)).
Definition run_action : ChaincodeEndorsedAction := default (mkCEA None []) (cap_Action run_cap).

Lemma accepted_transaction_binds_witness :
  ∃ hdr sh sHdr hdrB' p cpp d,
    pl_Header <$> GetPayload run_env = Some (Some hdr)
    ∧ hdr_SignatureHeader hdr = Some sh
    ∧ checkSignatureFromCreator (sh_Creator sh) (env_Signature run_env) (env_Payload run_env) = Some tt
    ∧ GetSignatureHeader (ta_Header run_act) = Some sHdr
    ∧ Marshal (mkHeader (hdr_ChainHeader hdr) (Some sHdr)) = Some hdrB'
    ∧ cap_ChaincodeProposalPayload run_cap = Some p
    ∧ Unmarshal (sl (prop_Payload run_prop)) = Some cpp
    ∧ GetBytesProposalPayloadForTx (Some cpp) None = Some d
    ∧ ((hdrB' = sl (prop_Header run_prop) ∧ p = d)
       ∨ (hdrB' ++ p ≠ sl (prop_Header run_prop) ++ d
          ∧ default_hash (hdrB' ++ p) = default_hash (sl (prop_Header run_prop) ++ d))).
Proof.
  apply (accepted_transaction_binds no_events 1 run_env run_acts run_act run_cap run_action
           (sl (prop_Header run_prop)) (sl (prop_Payload run_prop)) results [] None peer0 run_resp).
  - done.
  - vm_compute. reflexivity.
  - assert (run_acts = [Some run_act]) as -> by (vm_compute; reflexivity). by apply list_elem_of_singleton.
  - vm_compute. reflexivity.
  - vm_compute. reflexivity.
  - done.
  - vm_compute. reflexivity.
  - vm_compute. reflexivity.
  - vm_compute. reflexivity.
Defined.

(** Moving bytes from the payload to the header, or back, keeps the hash. *)
Lemma proposal_hash_boundary (h p x : bytes) :
  GetProposalHash2 (Some (h ++ x)) (Some p) = GetProposalHash2 (Some h) (Some (x ++ p)).
Proof. simpl. by rewrite <-app_assoc. Qed.

(** A transaction with no endorsement passes the validation chaincode. *)
Definition bare_env : Envelope :=
  let cap := sl (Marshal (mkCAP (Some [x01]) (Some (mkCEA (Some [x01]) [])))) in
  let tx := sl (Marshal (mkTransaction 0 None [Some (mkTransactionAction (Some [x01]) (Some cap))])) in
  mkEnvelope (Marshal (mkPayload (Some (proposal_header txid [x01] nonce alice)) (Some tx))) None.
Lemma vscc_accepts_no_endorsement : vscc_Invoke [None; GetBytesEnvelope bare_env] = Ok (Some tt).
Proof. vm_compute. reflexivity. Qed.

(** A failed response after the first one does not stop the transaction. *)
Definition failed_resp : ProposalResponse :=
  mkProposalResponse 1 None (Some (mkResponse 500 [] None)) (pr_Payload run_resp) (pr_Endorsement run_resp).
Lemma later_failures_ignored :
  match CreateSignedTx run_prop alice [run_resp; failed_resp] with Ok (Some _) => True | _ => False end.
Proof. vm_compute. exact I. Qed.

End PeerTxWitness.
