(* ===== verification/KVLedger.v ===== *)
(** * The ledger of a peer and its committer

    [core/ledger/kvledger/kv_ledger.go] puts the block store and the
    transaction manager together; [core/committer/committer_impl.go] commits a
    block to it; [core/committer/noopssinglechain/client.go] reads blocks from
    the orderer.  The ledger is written against the interface of a block store
    ([blkstorage.BlockStore]), which the file-system store implements. *)

From Stdlib Require Import Strings.Byte.
From stdpp Require Import base numbers strings gmap list.
From S2P Require Import Prelude Varint RWSet LevelDB PeerTypes TxMgr SerBlock2 BlockFiles BlockIndex BlockStore PeerTx.
Local Open Scope Z_scope.

(** ** The interface of a block store *)
Class BlockStore (B : Type) := {
  AddBlock : Block2 → P B bool;
  GetBlockchainInfo : B → BlockchainInfo;
  RetrieveBlockByHash : bytes → B → res (option Block2);
  RetrieveBlockByNumber : Z → B → res (option Block2);
  RetrieveTxByID : bytes → B → res (option Transaction) }.

(** ** KVLedger *)
Record KVLedger (B D : Type) := mkLedger {
  l_blockStore : B; l_txtmgmt : LockBasedTxMgr D; l_pendingBlockToCommit : option Block2 }.
Arguments mkLedger {B D}.
Arguments l_blockStore {B D}.
Arguments l_txtmgmt {B D}.
Arguments l_pendingBlockToCommit {B D}.

Section ledger.
Context {B D : Type} `{BlockStore B, LevelDB D}.
Context `{!Proto Envelope, !Proto Payload, !Proto Transaction, !Proto ChaincodeActionPayload,
  !Proto ProposalResponsePayload, !Proto ChaincodeAction}.
Abbreviation Ledger := (KVLedger B D).

Definition set_pending (b : option Block2) (l : Ledger) : Ledger := mkLedger (l_blockStore l) (l_txtmgmt l) b.

Definition on_store {A} (m : P B A) : P Ledger A := λ l,
  let '(r, b) := m (l_blockStore l) in (r, mkLedger b (l_txtmgmt l) (l_pendingBlockToCommit l)).
(** The transaction manager changes its database only at the end of a commit,
    so a panic leaves the disk as it was. *)
Definition on_txmgr {A} (m : M (LockBasedTxMgr D) A) : P Ledger A := λ l,
  match m (l_txtmgmt l) with
  | Ok (a, tm) => (Ok a, mkLedger (l_blockStore l) tm (l_pendingBlockToCommit l))
  | Panic => (Panic, l)
  | OutOfFuel => (OutOfFuel, l)
  end.

Definition NewKVLedger (b : B) (d : D) : Ledger := mkLedger b (NewLockBasedTxMgr d) None.

Definition GetTransactionByID (txID : bytes) (l : Ledger) : res (option Transaction) :=
  RetrieveTxByID txID (l_blockStore l).
Definition ledger_GetBlockchainInfo (l : Ledger) : BlockchainInfo := GetBlockchainInfo (l_blockStore l).
Definition GetBlockByNumber (blockNumber : Z) (l : Ledger) : res (option Block2) :=
  RetrieveBlockByNumber blockNumber (l_blockStore l).
Definition GetBlockByHash (blockHash : bytes) (l : Ledger) : res (option Block2) :=
  RetrieveBlockByHash blockHash (l_blockStore l).

Definition RemoveInvalidTransactionsAndPrepare (block : Block2)
    : P Ledger (option (Block2 * list InvalidTransaction)) :=
  r ← on_txmgr (ValidateAndPrepare block);
  match r with
  | Some (validBlock, invalidTxs) => _ ← p_modify (set_pending (Some validBlock)); mret r
  | None => mret None
  end.

(** The result is whether there was no error. *)
Definition ledger_Commit : P Ledger bool :=
  pending ← p_gets l_pendingBlockToCommit;
  match pending with
  | None => p_panic
  | Some block =>
      ok ← on_store (AddBlock block);
      if negb ok then mret false else
      ok ← on_txmgr Commit;
      if negb ok then p_panic else
      _ ← p_modify (set_pending None);
      mret true
  end.

Definition ledger_Rollback : P Ledger unit :=
  _ ← on_txmgr Rollback; p_modify (set_pending None).

(** ** LedgerCommitter *)
Definition CommitBlock (block : Block2) : P Ledger bool :=
  r ← RemoveInvalidTransactionsAndPrepare block;
  match r with None => mret false | Some _ => ledger_Commit end.

Definition LedgerHeight (l : Ledger) : Z := bi_Height (ledger_GetBlockchainInfo l).

Fixpoint GetBlocks (blockSeqs : list Z) (l : Ledger) : res (list Block2) :=
  match blockSeqs with
  | [] => Ok []
  | seqNum :: rest =>
      blck ← GetBlockByNumber seqNum l;
      blocks ← GetBlocks rest l;
      Ok (match blck with Some blck => blck :: blocks | None => blocks end)
  end.

(** ** DeliverService *)

(** A message of the orderer: a block has a header and data, both pointers. *)
Record delivered := mkDelivered { dl_Number : option Z; dl_Data : option (list slice) }.
Inductive deliver_msg := MsgError (success : bool) | MsgBlock (b : option delivered) | MsgUnknown.

(** [sent]: the block numbers acknowledged so far, oldest first. *)
Record DeliverService := mkDeliverService {
  ds_ledger : Ledger; ds_windowSize : Z; ds_unAcknowledged : Z; ds_sent : list Z }.

Context `{!Proto Header, !Proto SignatureHeader}.
Context {Id Sid : Type} `{!MSP Id Sid, !DefaultHash}.

(** One element of the block's data: the bytes that go into the ledger's
    block, if any. *)
Definition accept_tx (d : slice) : res (option bytes) :=
  match d with
  | None => Ok None
  | Some _ =>
      match GetEnvelopeFromBlock d with
      | None => Ok None
      | Some env =>
          r ← ValidateTransaction (Some env);
          Ok (match r with None => None | Some _ => Marshal env end)
      end
  end.
Fixpoint accept_txs (data : list slice) : res (list bytes) :=
  match data with
  | [] => Ok []
  | d :: data =>
      t ← accept_tx d;
      ts ← accept_txs data;
      Ok (match t with Some t => t :: ts | None => ts end)
  end.

Definition on_ledger {A} (m : P Ledger A) : P DeliverService A := λ s,
  let '(r, l) := m (ds_ledger s) in (r, mkDeliverService l (ds_windowSize s) (ds_unAcknowledged s) (ds_sent s)).
Definition set_unAcknowledged (n : Z) (s : DeliverService) : DeliverService :=
  mkDeliverService (ds_ledger s) (ds_windowSize s) n (ds_sent s).
Definition acknowledge (n : Z) (s : DeliverService) : DeliverService :=
  mkDeliverService (ds_ledger s) (ds_windowSize s) (ds_unAcknowledged s) (ds_sent s ++ [n]).

(** One message in [readUntilClose]; [send_ok] is whether an acknowledgement
    can be sent.  The result is whether the loop goes on. *)
Definition read_msg (msg : deliver_msg) (send_ok : bool) : P DeliverService bool :=
  match msg with
  | MsgUnknown => mret false
  | MsgError success => mret (negb success)
  | MsgBlock b =>
      b ← p_lift (deref b);
      data ← p_lift (deref (dl_Data b));
      txs ← p_lift (accept_txs data);
      _ ← on_ledger (CommitBlock (mkBlock2 None txs));
      n ← p_gets ds_unAcknowledged;
      _ ← p_modify (set_unAcknowledged (u64 (n + 1)));
      w ← p_gets ds_windowSize;
      if bool_decide (w / 2 ≤ u64 (n + 1)) then
        number ← p_lift (deref (dl_Number b));
        if negb send_ok then mret false else
        _ ← p_modify (acknowledge number);
        _ ← p_modify (set_unAcknowledged 0);
        mret true
      else mret true
  end.

(** The loop, over the messages of the orderer; it ends with them. *)
Fixpoint readUntilClose (msgs : list (deliver_msg * bool)) : P DeliverService unit :=
  match msgs with
  | [] => mret tt
  | (msg, send_ok) :: msgs =>
      go ← read_msg msg send_ok;
      if (go : bool) then readUntilClose msgs else mret tt
  end.
End ledger.

(** ** The file-system block store (fs_blockstore.go) *)
Section fs.
Context {F D : Type} `{FileSystem F, LevelDB D, CryptoHash}.
Context `{!Proto Envelope, !Proto Payload, !Proto Transaction}.
Context (maxBlockfileSize : Z) (items : list IndexableAttr).

Definition FsBlockStore : BlockStore (blockfileMgr F D) := {|
  AddBlock := addBlock maxBlockfileSize items;
  GetBlockchainInfo := mgr_bcInfo;
  RetrieveBlockByHash := retrieveBlockByHash items;
  RetrieveBlockByNumber := retrieveBlockByNumber items;
  RetrieveTxByID := retrieveTransactionByID items |}.
End fs.

(** The attributes [NewKVLedger] asks the store to index. *)
Definition attrsToIndex : list IndexableAttr :=
  [IndexableAttrBlockHash; IndexableAttrBlockNum; IndexableAttrTxID].
