(* ===== verification/KVLedgerProofs.v ===== *)
(** * The ledger: proofs and examples

    What the ledger needs of its block store, as a class the file-system store
    is an instance of; the commit of a block, its failure, and the deliver
    client's acknowledgements; a ledger on an in-memory disk. *)

From Stdlib Require Import Strings.Byte.
From stdpp Require Import base numbers strings functions relations gmap list.
From S2P Require Import Prelude Sha256 Varint RWSet LevelDB PeerTypes TxMgr TxMgrProofs Mvcc PeerSim SerBlock2 BlockFiles BlockIndex BlockStore BlockStoreProofs BlockRecovery BlockClaims PeerTx PeerTxProofs PeerTxSim KVLedger.
Local Open Scope Z_scope.

(** ** What a block store promises *)
Class BlockStoreLaws (B : Type) `{BlockStore B} := {
  Holds : B → list Block2 → Prop;
  holds_height b bs : Holds b bs → bi_Height (GetBlockchainInfo b) = len bs;
  holds_number b bs k blk : Holds b bs → bs !! k = Some blk →
    RetrieveBlockByNumber (Z.of_nat (S k)) b = Ok (Some (norm_block blk));
  holds_unknown b bs k : Holds b bs → (length bs ≤ k)%nat → Z.of_nat (S k) < 2 ^ 64 →
    RetrieveBlockByNumber (Z.of_nat (S k)) b = Ok None;
  holds_add b bs blk : Holds b bs → len bs < 2 ^ 60 → block_ok blk →
    ∃ b', AddBlock blk b = (Ok true, b') ∧ Holds b' (bs ++ [blk]) }.

(** The file-system store keeps the promise. *)
Section fs.
Context {F D : Type} `{FileSystem F} `{!FileSystemLaws F} `{!ReliableFS F}.
Context `{LevelDB D} `{!LevelDBLaws D} `{!Reliable D} `{CryptoHash}.
Context `{!Proto Envelope, !Proto Payload, !Proto Transaction}.
Context (maxBlockfileSize : Z) (Hmax : maxBlockfileSize < 2 ^ 61).

Lemma attrs_indexed a : is_indexed attrsToIndex a = true.
Proof. by destruct a. Qed.

Definition fs_Holds (m : blockfileMgr F D) (bs : list Block2) : Prop :=
  ∃ full last t, Store m full last t [] ∧ blocks full last = bs ∧ len full ≤ len bs.

#[local] Instance fs_store : BlockStore (blockfileMgr F D) := FsBlockStore maxBlockfileSize attrsToIndex.

Lemma fs_Holds_Answers m bs : fs_Holds m bs → ∃ t, Answers attrsToIndex m bs t.
Proof using All.
  intros (full & last & t & HS & <- & _). exists t. by apply (Store_Answers attrsToIndex attrs_indexed).
Qed.

Lemma fs_Holds_add m bs blk :
  fs_Holds m bs → len bs < 2 ^ 60 → block_ok blk →
  ∃ m', AddBlock blk m = (Ok true, m') ∧ fs_Holds m' (bs ++ [blk]).
Proof using All.
  intros (full & last & t & HS & <- & Hf) Hlen Hb.
  destruct (Store_addBlock_reliable maxBlockfileSize attrsToIndex attrs_indexed m full last t blk HS)
    as (m' & full' & last' & Ha & HS' & Hbs & Hl); [unfold has_room; lia|done|].
  exists m'. split; [done|]. exists full', last', t. split_and!; [done|done|].
  rewrite length_app. destruct Hl as [[-> _]|[-> _]]; rewrite ?length_app; simpl; lia.
Qed.

#[global] Instance FsBlockStoreLaws : BlockStoreLaws (blockfileMgr F D).
Proof using All.
  refine {| Holds := fs_Holds |}.
  - intros m bs Hm. destruct (fs_Holds_Answers m bs Hm) as [t HA]. apply (an_info _ _ _ _ HA).
  - intros m bs k blk Hm. destruct (fs_Holds_Answers m bs Hm) as [t HA]. apply (an_number _ _ _ _ HA).
  - intros m bs k Hm. destruct (fs_Holds_Answers m bs Hm) as [t HA]. apply (an_unknown _ _ _ _ HA).
  - apply fs_Holds_add.
Defined.

Lemma fs_Holds_new (f : F) (d : D) (fuel : nat) :
  files f = ∅ → contents d = ∅ → (0 < fuel)%nat →
  ∃ m, newBlockfileMgr attrsToIndex fuel (on_disk f d) = (Ok tt, m) ∧ Holds m [].
Proof using All.
  intros Hf Hd Hfuel. destruct (start_empty attrsToIndex attrs_indexed f d fuel Hf Hd Hfuel) as (m & Hm & HS).
  exists m. split; [done|]. by exists [], [], 0%nat.
Qed.
End fs.

(** ** Committing a block *)
Section commit.
Context {B D : Type} `{BlockStore B} `{!BlockStoreLaws B} `{LevelDB D} `{!LevelDBLaws D}.
Context `{!Proto Envelope, !Proto Payload, !Proto Transaction, !Proto ChaincodeActionPayload,
  !Proto ProposalResponsePayload, !Proto ChaincodeAction}.
Abbreviation Ledger := (KVLedger B D).

(** The ledger holds the blocks [chain], and its state is the one that the
    chaincodes of [history] reach, one after the other, from [st0]. *)
Record Consistent (l : Ledger) (chain : list Block2) (history : list (endorsement (D := D))) (st0 : kvstate) : Prop := {
  con_chain : Holds (l_blockStore l) chain;
  con_state : vals (tm_db (l_txtmgmt l)) ≡ serial history st0;
  con_idle : l_pendingBlockToCommit l = None }.

(** The transactions of a block that the ledger keeps. *)
Definition valid_block (d : D) (block : Block2) (es : list (endorsement (D := D))) : Block2 :=
  mkBlock2 (b2_PreviousBlockHash block) (select (kept d [] es) (b2_Transactions block)).

End commit.

(** ** When a commit fails *)
Section failures.
Context {B D : Type} `{BlockStore B} `{!BlockStoreLaws B} `{LevelDB D}.
Context `{!Proto Envelope, !Proto Payload, !Proto Transaction, !Proto ChaincodeActionPayload,
  !Proto ProposalResponsePayload, !Proto ChaincodeAction}.
Abbreviation Ledger := (KVLedger B D).

(** A write error of the state database stops the process after the block has
    been stored: the store then holds a block whose writes are not in the
    state. *)
Lemma commit_failure_splits (l : Ledger) chain block u :
  Holds (l_blockStore l) chain → len chain < 2 ^ 60 → block_ok block →
  l_pendingBlockToCommit l = Some block → tm_updateSet (l_txtmgmt l) = Some u →
  ldb_Write (commit_batch u) (tm_db (l_txtmgmt l)) = None →
  ∃ l', ledger_Commit l = (Panic, l') ∧ Holds (l_blockStore l') (chain ++ [block])
    ∧ tm_db (l_txtmgmt l') = tm_db (l_txtmgmt l).
Proof.
  intros Hch Hlen Hb Hp Hu Hw. destruct (holds_add _ _ block Hch Hlen Hb) as (b' & Hadd & Hch').
  exists (mkLedger b' (set_updateSet None (l_txtmgmt l)) (Some block)). split_and!; [|done|done].
  unfold ledger_Commit, on_store, on_txmgr, mbind, P_bind, p_gets. rewrite Hp, Hadd. cbn.
  unfold Commit, mbind, M_bind, gets, get, lift, modify, mret, M_ret. rewrite Hu. unfold DB_WriteBatch. by rewrite Hw, Hp.
Qed.

(** A block that fails to validate leaves the block prepared before it
    pending, beside its own updates. *)
Lemma failed_prepare_keeps_pending (l : Ledger) block tm' :
  ValidateAndPrepare block (l_txtmgmt l) = Ok (None, tm') →
  RemoveInvalidTransactionsAndPrepare block l
  = (Ok None, mkLedger (l_blockStore l) tm' (l_pendingBlockToCommit l)).
Proof.
  intros Hv. unfold RemoveInvalidTransactionsAndPrepare, on_txmgr, mbind, P_bind. by rewrite Hv.
Qed.
End failures.

(** ** The deliver client *)
Section client.
Context {B D : Type} `{BlockStore B, LevelDB D}.
Context `{!Proto Envelope, !Proto Payload, !Proto Transaction, !Proto ChaincodeActionPayload,
  !Proto ProposalResponsePayload, !Proto ChaincodeAction, !Proto Header, !Proto SignatureHeader}.
Context {Id Sid : Type} `{!MSP Id Sid, !DefaultHash}.
Abbreviation Service := (DeliverService (B := B) (D := D)).

(** The messages for the blocks [n], [n + 1], ... *)
Fixpoint block_msgs (n : Z) (datas : list (list slice)) : list (deliver_msg * bool) :=
  match datas with
  | [] => []
  | data :: datas => (MsgBlock (Some (mkDelivered (Some n) (Some data))), true) :: block_msgs (n + 1) datas
  end.

(** The last block acknowledged, or the one before the first. *)
Definition last_ack (n0 : Z) (s : Service) : Z := default (n0 - 1) (list.last (ds_sent s)).

Record Following (n0 n w : Z) (s : Service) : Prop := {
  fol_window : ds_windowSize s = w;
  fol_count : ds_unAcknowledged s = n - 1 - last_ack n0 s;
  fol_small : 0 ≤ ds_unAcknowledged s < Z.max 1 (w / 2) }.

Lemma read_msg_follows n0 n w data (s s' : Service) go :
  0 < w < 2 ^ 64 → Following n0 n w s →
  read_msg (MsgBlock (Some (mkDelivered (Some n) (Some data)))) true s = (Ok go, s') →
  go = true ∧ Following n0 (n + 1) w s' ∧ last_ack n0 s ≤ last_ack n0 s'.
Proof.
  intros Hw [Hwin Hcnt Hsm] Hrun. unfold read_msg, mbind, P_bind, p_lift, p_gets, p_modify, mret, P_ret in Hrun.
  cbn in Hrun. destruct (accept_txs data) as [txs| |]; [|done..].
  unfold on_ledger in Hrun. destruct (CommitBlock (mkBlock2 None txs) (ds_ledger s)) as [[ok| |] l]; [|done..].
  assert (w / 2 < 2 ^ 63) as Hh by (apply Z.div_lt_upper_bound; lia).
  assert (0 ≤ w / 2) as Hh0 by (apply Z.div_pos; lia).
  cbn in Hrun. rewrite Hwin, u64_small in Hrun by lia. case_bool_decide as Hc; cbn in Hrun.
  - injection Hrun as <- <-. assert (last_ack n0 (acknowledge n s) = n) as Hla
      by (unfold last_ack; simpl; by rewrite last_snoc).
    split_and!; [done| |change (last_ack n0 s ≤ last_ack n0 (acknowledge n s)); lia].
    split; cbn; [done| |lia]. change (0 = n + 1 - 1 - last_ack n0 (acknowledge n s)). lia.
  - injection Hrun as <- <-. split_and!; [done| |done]. split; cbn; [done| |lia].
    change (ds_unAcknowledged s + 1 = n + 1 - 1 - last_ack n0 s). lia.
Qed.

(** The deliver client keeps the orderer's window open.  After any number
    of blocks, from [n0] on, whatever they contain and whether they could be
    committed or not, the client is still reading, it has acknowledged a block
    it has received or none, and the number of the next block is within the
    window from the last one acknowledged, which is the orderer's condition to
    send it. *)
Theorem client_keeps_window_open (n0 w : Z) (datas : list (list slice)) (s s' : Service) :
  0 < w < 2 ^ 64 →
  ds_windowSize s = w → ds_unAcknowledged s = 0 → ds_sent s = [] →
  readUntilClose (block_msgs n0 datas) s = (Ok tt, s') →
  let n := n0 + len datas in
  n0 - 1 ≤ last_ack n0 s' < n ∧ n ≤ last_ack n0 s' + w.
Proof.
  intros Hw Hwin Hcnt Hsent Hrun n.
  assert (Following n0 n0 w s) as HF.
  { split; [done| |lia]. unfold last_ack. rewrite Hsent, Hcnt. simpl. lia. }
  assert (∀ m s, n0 ≤ m → n0 - 1 ≤ last_ack n0 s → Following n0 m w s →
    readUntilClose (block_msgs m datas) s = (Ok tt, s') →
    Following n0 (m + len datas) w s' ∧ n0 - 1 ≤ last_ack n0 s') as Hgen.
  { clear -Hw. induction datas as [|data datas IH]; intros m s Hm Hla HF; cbn [block_msgs readUntilClose].
    - intros [= <-]. simpl. by rewrite Z.add_0_r.
    - unfold mbind, P_bind. destruct (read_msg _ true s) as [[go| |] s1] eqn:E; [|done..].
      destruct (read_msg_follows n0 m w data s s1 go Hw HF E) as (-> & HF1 & Hmono). intros Hrun.
      destruct (IH (m + 1) s1) as [HF' Hla']; [lia|lia|done|done|].
      split; [|done]. cbn [length]. by replace (m + Z.of_nat (S (length datas))) with (m + 1 + len datas) by lia. }
  destruct (Hgen n0 s) as [[_ Hc Hs] Hla]; [lia| |done|done|].
  { unfold last_ack. rewrite Hsent. simpl. lia. }
  assert (w / 2 ≤ w) by (apply Z.div_le_upper_bound; lia). subst n. lia.
Qed.
End client.

(** ** The ledger: examples

    A ledger on an in-memory disk, a block committed to it, and a client
    reading blocks. *)

Module LedgerWitness.
Import MemDB MemFS PeerCodec.
#[local] Instance sha : CryptoHash := Sha.sha256.

Abbreviation disk := (gmap Z bytes).
Abbreviation db := (gmap bytes bytes).

Definition max_size : Z := 1000.
Lemma max_size_ok : max_size < 2 ^ 61.
Proof. unfold max_size. lia. Qed.
#[local] Instance store : BlockStore (blockfileMgr disk db) := FsBlockStore max_size attrsToIndex.
#[local] Instance store_laws : BlockStoreLaws (blockfileMgr disk db) := FsBlockStoreLaws max_size max_size_ok.

Definition new_store : blockfileMgr disk db := (newBlockfileMgr attrsToIndex 5 (on_disk (∅ : disk) (∅ : db))).2.
Lemma new_store_holds : Holds new_store [].
Proof.
  destruct (fs_Holds_new max_size max_size_ok (∅ : disk) (∅ : db) 5) as (m & Hm & HH); [done|done|lia|].
  unfold new_store. by rewrite Hm.
Qed.

Definition ledger0 : KVLedger (blockfileMgr disk db) db := NewKVLedger new_store MvccWitness.db0.


(** A client of a ledger: blocks without a valid transaction. *)
Section client.
Import PeerTxCodec PeerTxWitness.
Definition client0 : DeliverService := mkDeliverService ledger0 10 0 [].
Definition datas0 : list (list slice) := [[]; [None]; [Some []]; []; []; []; []].
Definition client1 := (readUntilClose (Id := bytes) (Sid := bytes) (block_msgs 0 datas0) client0).2.
Lemma client_keeps_window_open_witness :
  ds_sent client1 = [4] ∧ (0 - 1 ≤ last_ack 0 client1 < 7 ∧ 7 ≤ last_ack 0 client1 + 10).
Proof.
  split; [vm_compute; reflexivity|].
  apply (client_keeps_window_open (Id := bytes) (Sid := bytes) 0 10 datas0 client0 client1); [lia|done|done|done|].
  unfold client1. rewrite (surjective_pairing (readUntilClose _ _)) at 1. f_equal.
Defined.
End client.
End LedgerWitness.
