(* ===== verification/Fsm.v ===== *)
(** * Finite state machines (vendor/github.com/looplab/fsm)

    The state machine both ends of a chaincode stream are built on: a table of
    transitions, and callbacks run before an event, on leaving and entering a
    state and after an event.  A callback can cancel the event with an error.
    No callback of the program asks for an asynchronous transition, so
    [Async] and the transition it leaves pending are left out. *)

From stdpp Require Import base list.
From S2P Require Import Prelude.

Section fsm.
Context {St Ev : Type} `{!EqDecision St, !EqDecision Ev}.

Record EventDesc := mkEventDesc { ed_Name : Ev; ed_Src : list St; ed_Dst : St }.

(** The map [NewFSM] fills: a later description overwrites an earlier one. *)
Definition transitions (events : list EventDesc) (event : Ev) (src : St) : option St :=
  foldl (λ acc d, if bool_decide (ed_Name d = event) && bool_decide (src ∈ ed_Src d)
                  then Some (ed_Dst d) else acc) None events.

(** [W]: the state of the program, in which the machine's current state is a
    field; [Arg]: the argument an event carries; [Err]: errors. *)
Context {W Arg Err : Type} (current : W → St) (set_current : St → W → W).

(** A callback reports the error it cancelled the event with, if it did. *)
Definition Callback : Type := Arg → M W (option Err).

(** Callbacks by target; [None] is the callback of every event or state. *)
Record Callbacks := mkCallbacks {
  cb_before : option Ev → option Callback; cb_leave : option St → option Callback;
  cb_enter : option St → option Callback; cb_after : option Ev → option Callback }.

Inductive EventError :=
  | InvalidEventError
  | UnknownEventError
  | NoTransitionError (e : option Err)
  | CanceledError (e : Err)
  | CallbackError (e : Err).

Definition call (c : option Callback) (arg : Arg) : M W (option Err) :=
  match c with Some fn => fn arg | None => mret None end.

(** The last error set wins. *)
Definition later (e e' : option Err) : option Err := match e' with Some _ => e' | None => e end.

Context (events : list EventDesc) (cbs : Callbacks).

Definition Cannot (event : Ev) (w : W) : bool :=
  match transitions events event (current w) with Some _ => false | None => true end.

Definition cancellable (named general : option Callback) (arg : Arg) : M W (option Err) :=
  e ← call named arg;
  match e with Some _ => mret e | None => call general arg end.
Definition uncancellable (named general : option Callback) (e : option Err) (arg : Arg) : M W (option Err) :=
  e1 ← call named arg;
  e2 ← call general arg;
  mret (later (later e e1) e2).

Definition Event (event : Ev) (arg : Arg) : M W (option EventError) :=
  cur ← gets current;
  match transitions events event cur with
  | None =>
      mret (Some (if existsb (λ d, bool_decide (ed_Name d = event) && negb (bool_decide (ed_Src d = []))) events
                  then InvalidEventError else UnknownEventError))
  | Some dst =>
      e ← cancellable (cb_before cbs (Some event)) (cb_before cbs None) arg;
      match e with
      | Some err => mret (Some (CanceledError err))
      | None =>
          cur ← gets current;
          if bool_decide (cur = dst) then
            e ← uncancellable (cb_after cbs (Some event)) (cb_after cbs None) None arg;
            mret (Some (NoTransitionError e))
          else
            e ← cancellable (cb_leave cbs (Some cur)) (cb_leave cbs None) arg;
            match e with
            | Some err => mret (Some (CanceledError err))
            | None =>
                _ ← modify (set_current dst);
                e ← uncancellable (cb_enter cbs (Some dst)) (cb_enter cbs None) None arg;
                e ← uncancellable (cb_after cbs (Some event)) (cb_after cbs None) e arg;
                mret (CallbackError <$> e)
            end
      end
  end.

(** [filterError] of both handlers: the error of a callback of a transition
    that was made is none of the two kinds it looks at. *)
Definition filterError (e : option EventError) : bool :=
  match e with
  | Some (NoTransitionError (Some _)) => true
  | Some (CanceledError _) => true
  | _ => false
  end.
End fsm.
Arguments EventDesc : clear implicits.
Arguments Callbacks : clear implicits.
Arguments EventError : clear implicits.
