(* ===== verification/CcTypes.v ===== *)
(** * Messages of the chaincode stream (protos/peer/chaincode.proto) and the
      simulator a chaincode works on (core/ledger/ledger_interface.go)

    The peer and a chaincode exchange [ChaincodeMessage]s over a stream.  The
    peer's handler reads and writes through [ledger.TxSimulator], an interface:
    the handler is verified against the class below, and the lock based
    simulator of [TxMgr.v] is an instance of it. *)

From Stdlib Require Import Strings.Byte.
From stdpp Require Import base numbers strings gmap list.
From S2P Require Import Prelude Fsm PeerTypes PeerTx.
Local Open Scope Z_scope.

(** ** Messages *)
Inductive MsgType :=
  | UNDEFINED | REGISTER | REGISTERED | INIT | READY | TRANSACTION | COMPLETED | ERROR
  | GET_STATE | PUT_STATE | DEL_STATE | INVOKE_CHAINCODE | RESPONSE
  | RANGE_QUERY_STATE | RANGE_QUERY_STATE_NEXT | RANGE_QUERY_STATE_CLOSE | KEEPALIVE
  | UNKNOWN_TYPE (n : Z).
#[global] Instance MsgType_eq_dec : EqDecision MsgType.
Proof. solve_decision. Defined.

(** [msg.Type.String()] *)
Definition MsgType_String (t : MsgType) : bytes :=
  match t with
  | UNDEFINED => bytes_of_string "UNDEFINED" | REGISTER => bytes_of_string "REGISTER"
  | REGISTERED => bytes_of_string "REGISTERED" | INIT => bytes_of_string "INIT"
  | READY => bytes_of_string "READY" | TRANSACTION => bytes_of_string "TRANSACTION"
  | COMPLETED => bytes_of_string "COMPLETED" | ERROR => bytes_of_string "ERROR"
  | GET_STATE => bytes_of_string "GET_STATE" | PUT_STATE => bytes_of_string "PUT_STATE"
  | DEL_STATE => bytes_of_string "DEL_STATE" | INVOKE_CHAINCODE => bytes_of_string "INVOKE_CHAINCODE"
  | RESPONSE => bytes_of_string "RESPONSE" | RANGE_QUERY_STATE => bytes_of_string "RANGE_QUERY_STATE"
  | RANGE_QUERY_STATE_NEXT => bytes_of_string "RANGE_QUERY_STATE_NEXT"
  | RANGE_QUERY_STATE_CLOSE => bytes_of_string "RANGE_QUERY_STATE_CLOSE"
  | KEEPALIVE => bytes_of_string "KEEPALIVE"
  | UNKNOWN_TYPE n => FormatInt n
  end.

Definition shorttxid (txid : bytes) : bytes := if bool_decide (length txid < 8)%nat then txid else take 8 txid.

Record ChaincodeEvent := mkChaincodeEvent {
  ce_ChaincodeID : bytes; ce_TxID : bytes; ce_EventName : bytes; ce_Payload : slice }.
Record ChaincodeMessage := mkMsg {
  cm_Type : MsgType; cm_Timestamp : option (Z * Z); cm_Payload : slice; cm_Txid : bytes;
  cm_ChaincodeEvent : option ChaincodeEvent }.

(** The composite literals of the code set a type, a payload and a txid. *)
Definition newMsg (t : MsgType) (payload : slice) (txid : bytes) : ChaincodeMessage :=
  mkMsg t None payload txid None.

Record PutStateInfo := mkPutStateInfo { psi_Key : bytes; psi_Value : slice }.
Record RangeQueryState := mkRangeQueryState { rqs_StartKey : bytes; rqs_EndKey : bytes }.
Record RangeQueryStateNext := mkRangeQueryStateNext { rqn_ID : bytes }.
Record RangeQueryStateClose := mkRangeQueryStateClose { rqc_ID : bytes }.
Record RangeQueryStateKeyValue := mkRQKeyValue { rqkv_Key : bytes; rqkv_Value : slice }.
Record RangeQueryStateResponse := mkRQResponse {
  rqr_KeysAndValues : list RangeQueryStateKeyValue; rqr_HasMore : bool; rqr_ID : bytes }.
Record ChaincodeInput := mkChaincodeInput { ci_Args : list bytes }.

#[global] Instance PutStateInfo_canonical : Canonical PutStateInfo := λ p, field_ok (psi_Value p).
#[global] Instance RangeQueryState_canonical : Canonical RangeQueryState := λ _, True.
#[global] Instance RangeQueryStateNext_canonical : Canonical RangeQueryStateNext := λ _, True.
#[global] Instance RangeQueryStateClose_canonical : Canonical RangeQueryStateClose := λ _, True.
#[global] Instance RangeQueryStateResponse_canonical : Canonical RangeQueryStateResponse := λ r,
  Forall (λ kv, field_ok (rqkv_Value kv)) (rqr_KeysAndValues r).
#[global] Instance ChaincodeInput_canonical : Canonical ChaincodeInput := λ _, True.
#[global] Instance ChaincodeID_canonical : Canonical ChaincodeID := λ _, True.
#[global] Instance ChaincodeMessage_canonical : Canonical ChaincodeMessage := λ m,
  field_ok (cm_Payload m) ∧ timestamp_ok (cm_Timestamp m)
  ∧ ∀ e, cm_ChaincodeEvent m = Some e → field_ok (ce_Payload e).

(** What a byte field that has been marshalled reads back as. *)
Definition norm (v : slice) : slice := match v with Some [] => None | _ => v end.
Lemma norm_ok v : field_ok (norm v).
Proof. by destruct v as [[|]|]. Qed.
Lemma norm_id v : field_ok v → norm v = v.
Proof. by destruct v as [[|]|]. Qed.
Lemma sl_norm v : sl (norm v) = sl v.
Proof. by destruct v as [[|]|]. Qed.

(** ** [ledger.TxSimulator] and [ledger.ResultsIterator]

    Reads and writes may panic; an error is its text ([inl]).  Advancing an
    iterator records what was read in the simulator it came from. *)
Class TxSimulator (S It : Type) := {
  ts_GetState : bytes → bytes → M S (bytes + slice);
  ts_SetState : bytes → bytes → slice → M S (option bytes);
  ts_DeleteState : bytes → bytes → M S (option bytes);
  ts_GetStateRangeScanIterator : bytes → bytes → bytes → M S (bytes + It);
  it_Next : It → M S ((bytes + option (bytes * slice)) * It);
  it_Close : It → It }.

(** The texts of protobuf's errors and of the stream's. *)
Class ErrorText := { unmarshal_text : bytes → bytes; marshal_text : bytes; send_text : bytes }.

(** ** States of the two ends of the stream *)
Inductive ccstate :=
  | createdstate | establishedstate | initstate | readystate | transactionstate
  | busyinitstate | busyxactstate | endstate.
#[global] Instance ccstate_eq_dec : EqDecision ccstate.
Proof. solve_decision. Defined.
