(* ===== verification/CcHandler.v ===== *)
(** * The peer's side of a chaincode stream (core/chaincode/handler.go, and the
      registration of handlers in chaincode_support.go)

    A handler owns one stream.  Its loop takes, one at a time, the messages of
    the chaincode and the state changes its own goroutines ask for, and feeds
    them to a state machine; requests of the chaincode are worked on by
    goroutines.  The model is a set of atomic steps: one turn of the loop, and
    for a goroutine the claim of its transaction id, its work, and its answer.
    Any order of steps is an execution. *)

From Stdlib Require Import Strings.Byte.
From stdpp Require Import base numbers strings gmap list.
From S2P Require Import Prelude Fsm PeerTypes PeerTx CcTypes.
Local Open Scope Z_scope.

(** ** Goroutines working on requests

    [TSpawned]: before the transaction id is claimed; [TRunning]: holding it;
    [TCalling]: holding it while another chaincode runs; [TSending]: about to
    send its answer. *)
Inductive request_kind := KGet | KRange | KNext | KClose | KBusy.
Inductive task :=
  | TSpawned (k : request_kind) (msg : ChaincodeMessage)
  | TRunning (k : request_kind) (msg : ChaincodeMessage)
  | TCalling (msg : ChaincodeMessage) (sim : positive) (spec : ChaincodeSpec)
  | TSending (msg : ChaincodeMessage).

Record transactionContext (It : Type) := mkTxContext {
  tc_responseNotifier : list ChaincodeMessage; tc_rangeQueryIteratorMap : gmap bytes It;
  tc_txsimulator : positive }.
Arguments mkTxContext {It}.
Arguments tc_responseNotifier {It}.
Arguments tc_rangeQueryIteratorMap {It}.
Arguments tc_txsimulator {It}.

(** [h_out]: the messages sent and not yet received; [h_up]: whether a send
    succeeds; [h_nextState]: the senders blocked on that unbuffered channel;
    [h_ended]: the loop has returned.  The maps are nil until the handler is
    registered; [txidMap] only holds [true]. *)
Record Handler (It : Type) := mkHandler {
  h_FSM : ccstate; h_ChaincodeID : option ChaincodeID; h_registered : bool;
  h_readyNotify : option (list bool);
  h_txCtxs : option (gmap bytes (transactionContext It));
  h_txidMap : option (gset bytes); h_isTransaction : option (gmap bytes bool);
  h_nextState : list (ChaincodeMessage * bool); h_tasks : list task;
  h_out : list ChaincodeMessage; h_up : bool; h_ended : bool }.
Arguments mkHandler {It}.
Arguments h_FSM {It}.
Arguments h_ChaincodeID {It}.
Arguments h_registered {It}.
Arguments h_readyNotify {It}.
Arguments h_txCtxs {It}.
Arguments h_txidMap {It}.
Arguments h_isTransaction {It}.
Arguments h_nextState {It}.
Arguments h_tasks {It}.
Arguments h_out {It}.
Arguments h_up {It}.
Arguments h_ended {It}.

(** An entry of [runningChaincodes]: the placeholder of a launch in progress,
    with the channel its launcher waits on, or a registered handler. *)
Inductive chaincodeRTEnv := RTPlaceholder (readyNotify : list bool) | RTHandler (id : positive).

(** What a handler sees: itself, its identity, the chaincodes of the peer, and
    the simulators, which callers share with their transaction contexts. *)
Record HW (S It : Type) := mkHW {
  w_id : positive; w_h : Handler It; w_running : gmap bytes chaincodeRTEnv; w_sims : gmap positive S }.
Arguments mkHW {S It}.
Arguments w_id {S It}.
Arguments w_h {S It}.
Arguments w_running {S It}.
Arguments w_sims {S It}.

Section handler.
Context {S It : Type} `{!TxSimulator S It, !ErrorText}.
Context `{!Proto ChaincodeID, !Proto PutStateInfo, !Proto RangeQueryState, !Proto RangeQueryStateNext,
  !Proto RangeQueryStateClose, !Proto RangeQueryStateResponse, !Proto ChaincodeSpec, !Proto ChaincodeInput,
  !Proto ChaincodeMessage}.
Abbreviation HState := (Handler It).
Abbreviation World := (HW S It).

(** ** Field updates *)
Definition set_h (f : HState → HState) (w : World) : World :=
  mkHW (w_id w) (f (w_h w)) (w_running w) (w_sims w).
Definition set_running (f : gmap bytes chaincodeRTEnv → gmap bytes chaincodeRTEnv) (w : World) : World :=
  mkHW (w_id w) (w_h w) (f (w_running w)) (w_sims w).
Definition set_sims (f : gmap positive S → gmap positive S) (w : World) : World :=
  mkHW (w_id w) (w_h w) (w_running w) (f (w_sims w)).

Definition set_FSM (x : ccstate) (h : HState) : HState :=
  mkHandler x (h_ChaincodeID h) (h_registered h) (h_readyNotify h) (h_txCtxs h) (h_txidMap h)
    (h_isTransaction h) (h_nextState h) (h_tasks h) (h_out h) (h_up h) (h_ended h).
Definition set_ChaincodeID (x : option ChaincodeID) (h : HState) : HState :=
  mkHandler (h_FSM h) x (h_registered h) (h_readyNotify h) (h_txCtxs h) (h_txidMap h)
    (h_isTransaction h) (h_nextState h) (h_tasks h) (h_out h) (h_up h) (h_ended h).
Definition set_readyNotify (x : option (list bool)) (h : HState) : HState :=
  mkHandler (h_FSM h) (h_ChaincodeID h) (h_registered h) x (h_txCtxs h) (h_txidMap h)
    (h_isTransaction h) (h_nextState h) (h_tasks h) (h_out h) (h_up h) (h_ended h).
(** [registerHandler]: registered, with new maps. *)
Definition set_registered (h : HState) : HState :=
  mkHandler (h_FSM h) (h_ChaincodeID h) true (h_readyNotify h) (Some ∅) (Some ∅)
    (Some ∅) (h_nextState h) (h_tasks h) (h_out h) (h_up h) (h_ended h).
Definition set_txCtxs (x : option (gmap bytes (transactionContext It))) (h : HState) : HState :=
  mkHandler (h_FSM h) (h_ChaincodeID h) (h_registered h) (h_readyNotify h) x (h_txidMap h)
    (h_isTransaction h) (h_nextState h) (h_tasks h) (h_out h) (h_up h) (h_ended h).
Definition set_txidMap (x : option (gset bytes)) (h : HState) : HState :=
  mkHandler (h_FSM h) (h_ChaincodeID h) (h_registered h) (h_readyNotify h) (h_txCtxs h) x
    (h_isTransaction h) (h_nextState h) (h_tasks h) (h_out h) (h_up h) (h_ended h).
Definition set_isTransaction (x : option (gmap bytes bool)) (h : HState) : HState :=
  mkHandler (h_FSM h) (h_ChaincodeID h) (h_registered h) (h_readyNotify h) (h_txCtxs h) (h_txidMap h)
    x (h_nextState h) (h_tasks h) (h_out h) (h_up h) (h_ended h).
Definition set_nextState (x : list (ChaincodeMessage * bool)) (h : HState) : HState :=
  mkHandler (h_FSM h) (h_ChaincodeID h) (h_registered h) (h_readyNotify h) (h_txCtxs h) (h_txidMap h)
    (h_isTransaction h) x (h_tasks h) (h_out h) (h_up h) (h_ended h).
Definition set_tasks (x : list task) (h : HState) : HState :=
  mkHandler (h_FSM h) (h_ChaincodeID h) (h_registered h) (h_readyNotify h) (h_txCtxs h) (h_txidMap h)
    (h_isTransaction h) (h_nextState h) x (h_out h) (h_up h) (h_ended h).
Definition set_out (x : list ChaincodeMessage) (h : HState) : HState :=
  mkHandler (h_FSM h) (h_ChaincodeID h) (h_registered h) (h_readyNotify h) (h_txCtxs h) (h_txidMap h)
    (h_isTransaction h) (h_nextState h) (h_tasks h) x (h_up h) (h_ended h).
Definition set_up (x : bool) (h : HState) : HState :=
  mkHandler (h_FSM h) (h_ChaincodeID h) (h_registered h) (h_readyNotify h) (h_txCtxs h) (h_txidMap h)
    (h_isTransaction h) (h_nextState h) (h_tasks h) (h_out h) x (h_ended h).
Definition set_ended (h : HState) : HState :=
  mkHandler (h_FSM h) (h_ChaincodeID h) (h_registered h) (h_readyNotify h) (h_txCtxs h) (h_txidMap h)
    (h_isTransaction h) (h_nextState h) (h_tasks h) (h_out h) (h_up h) true.

Definition of_h {A} (f : HState → A) : M World A := gets (λ w, f (w_h w)).
Definition upd (f : HState → HState) : M World unit := modify (set_h f).

(** Whether the message was sent. *)
Definition serialSend (msg : ChaincodeMessage) : M World bool :=
  up ← of_h h_up;
  if (up : bool) then _ ← upd (λ h, set_out (h_out h ++ [msg]) h); mret true else mret false.

(** ** Transaction contexts *)

(** [None]: an error.  [sim] is the simulator of the caller's context. *)
Definition createTxContext (sim : positive) (txid : bytes) : M World (option unit) :=
  ctxs ← of_h h_txCtxs;
  match ctxs with
  | None => mret None
  | Some m =>
      match m !! txid with
      | Some _ => mret None
      | None => _ ← upd (set_txCtxs (Some (<[txid := mkTxContext [] ∅ sim]> m))); mret (Some tt)
      end
  end.

(** Reading a nil map finds nothing. *)
Definition getTxContext (txid : bytes) : M World (option (transactionContext It)) :=
  ctxs ← of_h h_txCtxs; mret (ctxs ≫= λ m, m !! txid).

Definition deleteTxContext (txid : bytes) : M World unit := upd (λ h, set_txCtxs (delete txid <$> h_txCtxs h) h).

(** Update of a context, which contexts' holders reach by a pointer. *)
Definition upd_ctx (txid : bytes) (f : transactionContext It → transactionContext It) : M World unit :=
  upd (λ h, set_txCtxs (alter f txid <$> h_txCtxs h) h).
Definition set_iters (f : gmap bytes It → gmap bytes It) (c : transactionContext It) : transactionContext It :=
  mkTxContext (tc_responseNotifier c) (f (tc_rangeQueryIteratorMap c)) (tc_txsimulator c).
Definition putRangeQueryIterator (txid id : bytes) (it : It) : M World unit :=
  upd_ctx txid (set_iters (insert id it)).
Definition getRangeQueryIterator (c : transactionContext It) (id : bytes) : option It :=
  tc_rangeQueryIteratorMap c !! id.
Definition deleteRangeQueryIterator (txid id : bytes) : M World unit := upd_ctx txid (set_iters (delete id)).

Definition canCallChaincode (txid : bytes) : M World (option ChaincodeMessage) :=
  txctx ← getTxContext txid;
  mret (match txctx with
        | None => Some (newMsg ERROR (Some (bytes_of_string "[" ++ shorttxid txid ++ bytes_of_string
            "]Error no context while checking for confidentiality. Sending ERROR")) txid)
        | Some _ => None
        end).

(** ** Transaction ids in use and marks *)
Definition createTXIDEntry (txid : bytes) : M World bool :=
  m ← of_h h_txidMap;
  match m with
  | None => mret false
  | Some s =>
      if bool_decide (txid ∈ s) then mret false
      else _ ← upd (set_txidMap (Some ({[txid]} ∪ s))); mret true
  end.
Definition deleteTXIDEntry (txid : bytes) : M World unit :=
  upd (λ h, set_txidMap ((λ s, s ∖ {[txid]}) <$> h_txidMap h) h).
Definition markIsTransaction (txid : bytes) (isTrans : bool) : M World bool :=
  m ← of_h h_isTransaction;
  match m with
  | None => mret false
  | Some s => _ ← upd (set_isTransaction (Some (<[txid := isTrans]> s))); mret true
  end.
Definition getIsTransaction (txid : bytes) : M World bool :=
  m ← of_h h_isTransaction; mret (default false (m ≫= λ s, s !! txid)).
Definition deleteIsTransaction (txid : bytes) : M World unit :=
  upd (λ h, set_isTransaction (delete txid <$> h_isTransaction h) h).

(** ** Notifications

    The channels have room for one value: a second send blocks, here
    [out_of_fuel]. *)
Definition notifyDuringStartup (val : bool) : M World unit :=
  r ← of_h h_readyNotify;
  match r with
  | None => mret tt
  | Some [] => upd (set_readyNotify (Some [val]))
  | Some _ => out_of_fuel
  end.

(** The iterators are closed and stay in the map. *)
Definition notify (msg : ChaincodeMessage) : M World unit :=
  tctx ← getTxContext (cm_Txid msg);
  match tctx with
  | None => mret tt
  | Some c =>
      match tc_responseNotifier c with
      | [] => upd_ctx (cm_Txid msg) (λ c, mkTxContext [msg] (it_Close <$> tc_rangeQueryIteratorMap c) (tc_txsimulator c))
      | _ => out_of_fuel
      end
  end.

(** A goroutine that sends on [nextState] waits for the loop. *)
Definition triggerNextState (msg : ChaincodeMessage) (send : bool) : M World unit :=
  upd (λ h, set_nextState (h_nextState h ++ [(msg, send)]) h).

Definition spawn (t : task) : M World unit := upd (λ h, set_tasks (h_tasks h ++ [t]) h).

(** ** Registration (chaincode_support.go)

    Whether there was no error.  A placeholder hands over the channel its
    launcher waits on. *)
Definition registerHandler : M World bool :=
  cid ← of_h h_ChaincodeID;
  cid ← lift (deref cid);
  let key := cid_Name cid in
  running ← gets w_running;
  id ← gets w_id;
  match running !! key with
  | Some (RTHandler _) => mret false
  | chrte2 =>
      _ ← match chrte2 with
          | Some (RTPlaceholder notfy) => upd (set_readyNotify (Some notfy))
          | _ => mret tt
          end;
      _ ← modify (set_running (insert key (RTHandler id)));
      _ ← upd set_registered;
      mret true
  end.

Definition close_iterators (c : transactionContext It) : transactionContext It := set_iters (fmap it_Close) c.

(** The entry of the chaincode's name is deleted, whichever handler it names. *)
Definition deregisterHandler : M World bool :=
  _ ← upd (λ h, set_txCtxs ((λ m : gmap bytes (transactionContext It), close_iterators <$> m) <$> h_txCtxs h) h);
  cid ← of_h h_ChaincodeID;
  cid ← lift (deref cid);
  running ← gets w_running;
  match running !! cid_Name cid with
  | None => mret false
  | Some _ => _ ← modify (set_running (delete (cid_Name cid))); mret true
  end.

Definition deregister : M World unit :=
  registered ← of_h h_registered;
  if (registered : bool) then _ ← deregisterHandler; mret tt else mret tt.

(** ** The state machine *)
Definition peer_events : list (EventDesc ccstate MsgType) := [
  mkEventDesc REGISTER [createdstate] establishedstate;
  mkEventDesc INIT [establishedstate] initstate;
  mkEventDesc READY [establishedstate] readystate;
  mkEventDesc TRANSACTION [readystate] transactionstate;
  mkEventDesc PUT_STATE [transactionstate] busyxactstate;
  mkEventDesc DEL_STATE [transactionstate] busyxactstate;
  mkEventDesc INVOKE_CHAINCODE [transactionstate] busyxactstate;
  mkEventDesc PUT_STATE [initstate] busyinitstate;
  mkEventDesc DEL_STATE [initstate] busyinitstate;
  mkEventDesc INVOKE_CHAINCODE [initstate] busyinitstate;
  mkEventDesc COMPLETED [initstate; readystate; transactionstate] readystate;
  mkEventDesc GET_STATE [readystate] readystate;
  mkEventDesc GET_STATE [initstate] initstate;
  mkEventDesc GET_STATE [busyinitstate] busyinitstate;
  mkEventDesc GET_STATE [transactionstate] transactionstate;
  mkEventDesc GET_STATE [busyxactstate] busyxactstate;
  mkEventDesc RANGE_QUERY_STATE [readystate] readystate;
  mkEventDesc RANGE_QUERY_STATE [initstate] initstate;
  mkEventDesc RANGE_QUERY_STATE [busyinitstate] busyinitstate;
  mkEventDesc RANGE_QUERY_STATE [transactionstate] transactionstate;
  mkEventDesc RANGE_QUERY_STATE [busyxactstate] busyxactstate;
  mkEventDesc RANGE_QUERY_STATE_NEXT [readystate] readystate;
  mkEventDesc RANGE_QUERY_STATE_NEXT [initstate] initstate;
  mkEventDesc RANGE_QUERY_STATE_NEXT [busyinitstate] busyinitstate;
  mkEventDesc RANGE_QUERY_STATE_NEXT [transactionstate] transactionstate;
  mkEventDesc RANGE_QUERY_STATE_NEXT [busyxactstate] busyxactstate;
  mkEventDesc RANGE_QUERY_STATE_CLOSE [readystate] readystate;
  mkEventDesc RANGE_QUERY_STATE_CLOSE [initstate] initstate;
  mkEventDesc RANGE_QUERY_STATE_CLOSE [busyinitstate] busyinitstate;
  mkEventDesc RANGE_QUERY_STATE_CLOSE [transactionstate] transactionstate;
  mkEventDesc RANGE_QUERY_STATE_CLOSE [busyxactstate] busyxactstate;
  mkEventDesc ERROR [initstate] endstate;
  mkEventDesc ERROR [transactionstate] readystate;
  mkEventDesc ERROR [busyinitstate] initstate;
  mkEventDesc ERROR [busyxactstate] transactionstate;
  mkEventDesc RESPONSE [busyinitstate] initstate;
  mkEventDesc RESPONSE [busyxactstate] transactionstate ].

(** Callbacks: [Some tt] when the event is cancelled with an error. *)
Definition beforeRegisterEvent (msg : ChaincodeMessage) : M World (option unit) :=
  match Unmarshal (A := ChaincodeID) (sl (cm_Payload msg)) with
  | None => mret (Some tt)
  | Some chaincodeID =>
      _ ← upd (set_ChaincodeID (Some chaincodeID));
      ok ← registerHandler;
      if (ok : bool) then
        sent ← serialSend (newMsg REGISTERED None []);
        if (sent : bool) then mret None else _ ← notifyDuringStartup false; mret (Some tt)
      else _ ← notifyDuringStartup false; mret (Some tt)
  end.
Definition beforeCompletedEvent (msg : ChaincodeMessage) : M World (option unit) := mret None.
Definition beforeInitState (msg : ChaincodeMessage) : M World (option unit) :=
  _ ← notifyDuringStartup true; mret None.
Definition after_request (k : request_kind) (msg : ChaincodeMessage) : M World (option unit) :=
  _ ← spawn (TSpawned k msg); mret None.
Definition afterPutState (msg : ChaincodeMessage) : M World (option unit) := mret None.
Definition enterBusyState (msg : ChaincodeMessage) : M World (option unit) :=
  _ ← spawn (TSpawned KBusy msg); mret None.
Definition enterEstablishedState (msg : ChaincodeMessage) : M World (option unit) :=
  _ ← notifyDuringStartup true; mret None.
Definition enterInitState (ccMsg : ChaincodeMessage) : M World (option unit) :=
  if bool_decide (cm_Type ccMsg = INIT) then
    _ ← markIsTransaction (cm_Txid ccMsg) true;
    sent ← serialSend ccMsg;
    if (sent : bool) then mret None
    else
      _ ← notify (newMsg ERROR (Some (bytes_of_string "Error sending INIT: Error sending INIT: " ++ send_text)) (cm_Txid ccMsg));
      mret None
  else mret None.
Definition enterReadyState (msg : ChaincodeMessage) : M World (option unit) :=
  _ ← deleteIsTransaction (cm_Txid msg);
  _ ← notify msg;
  mret None.
Definition enterEndState (msg : ChaincodeMessage) : M World (option unit) :=
  _ ← deleteIsTransaction (cm_Txid msg);
  _ ← notify msg;
  _ ← deregister;
  mret (Some tt).

Definition peer_callbacks : Callbacks ccstate MsgType World ChaincodeMessage unit := mkCallbacks
  (λ e, match e with
        | Some REGISTER => Some beforeRegisterEvent
        | Some COMPLETED => Some beforeCompletedEvent
        | Some INIT => Some beforeInitState
        | _ => None
        end)
  (λ _, None)
  (λ s, match s with
        | Some establishedstate => Some enterEstablishedState
        | Some initstate => Some enterInitState
        | Some readystate => Some enterReadyState
        | Some busyinitstate | Some busyxactstate => Some enterBusyState
        | Some endstate => Some enterEndState
        | _ => None
        end)
  (λ e, match e with
        | Some GET_STATE => Some (after_request KGet)
        | Some RANGE_QUERY_STATE => Some (after_request KRange)
        | Some RANGE_QUERY_STATE_NEXT => Some (after_request KNext)
        | Some RANGE_QUERY_STATE_CLOSE => Some (after_request KClose)
        | Some PUT_STATE | Some DEL_STATE | Some INVOKE_CHAINCODE => Some afterPutState
        | _ => None
        end).

Definition fsm_current (w : World) : ccstate := h_FSM (w_h w).
Definition fsm_set (s : ccstate) (w : World) : World := set_h (set_FSM s) w.

Definition query_context (msg : ChaincodeMessage) : bytes :=
  bytes_of_string "Cannot handle " ++ MsgType_String (cm_Type msg) ++ bytes_of_string " in query context".
Definition is_update (t : MsgType) : bool :=
  match t with PUT_STATE | DEL_STATE | INVOKE_CHAINCODE => true | _ => false end.

(** Whether an error is returned, which ends the stream. *)
Definition HandleMessage (msg : ChaincodeMessage) : M World bool :=
  cannot ← gets (Cannot fsm_current peer_events (cm_Type msg));
  if (cannot : bool) then
    marked ← getIsTransaction (cm_Txid msg);
    _ ← (if is_update (cm_Type msg) && negb marked then
           serialSend (newMsg ERROR
             (Some (bytes_of_string "[" ++ cm_Txid msg ++ bytes_of_string "]" ++ query_context msg)) (cm_Txid msg))
         else mret true);
    mret true
  else
    e ← Event fsm_current fsm_set peer_events peer_callbacks (cm_Type msg) msg;
    mret (filterError e).

(** ** The loop: one turn of [processStream] for each of its events *)
Definition end_stream : M World unit := _ ← deregister; upd set_ended.

(** [None]: the end of the stream, an error, or a nil message. *)
Definition recv_turn (in_ : option ChaincodeMessage) : M World unit :=
  match in_ with
  | None => end_stream
  | Some msg =>
      if bool_decide (cm_Type msg = KEEPALIVE) then mret tt
      else
        err ← HandleMessage msg;
        if (err : bool) then end_stream else mret tt
  end.

(** The [i]-th of the senders waiting on [nextState] is served. *)
Definition next_turn (i : nat) : M World unit :=
  waiting ← of_h h_nextState;
  match waiting !! i with
  | None => mret tt
  | Some (msg, send) =>
      _ ← upd (set_nextState (list_delete i waiting));
      err ← HandleMessage msg;
      if (err : bool) then end_stream
      else if (send : bool) then
        sent ← serialSend msg;
        if (sent : bool) then mret tt else end_stream
      else mret tt
  end.

Definition keepalive_turn : M World unit := _ ← serialSend (newMsg KEEPALIVE None []); mret tt.

(** ** The work of the goroutines

    The message to answer with; a nil one ([None]) is dereferenced by the
    deferred function.  Only [nil] maps and contexts that are gone make the
    handlers panic; a context's simulator is the one its creator passed. *)
Definition chaincode_name : M World bytes :=
  cid ← of_h h_ChaincodeID; cid ← lift (deref cid); mret (cid_Name cid).

Definition on_sim {A} (r : positive) (m : M S A) : M World A := λ w,
  match w_sims w !! r with
  | None => Panic
  | Some s =>
      match m s with
      | Ok (a, s') => Ok (a, set_sims (insert r s') w)
      | Panic => Panic
      | OutOfFuel => OutOfFuel
      end
  end.

Definition reply (t : MsgType) (payload : slice) (msg : ChaincodeMessage) : option ChaincodeMessage :=
  Some (newMsg t payload (cm_Txid msg)).

Definition handleGetState (msg : ChaincodeMessage) : M World (option ChaincodeMessage) :=
  let key := sl (cm_Payload msg) in
  chaincodeID ← chaincode_name;
  txContext ← getTxContext (cm_Txid msg);
  c ← lift (deref txContext);
  r ← on_sim (tc_txsimulator c) (ts_GetState chaincodeID key);
  mret (match r with
        | inl err => reply ERROR (Some err) msg
        | inr res => reply RESPONSE res msg
        end).

Definition maxRangeQueryStateLimit : nat := 100.

(** The loop of the range query: [None] on an error of the iterator, else the
    pairs read.  The inner [qresult] shadows the outer one, which stays nil. *)
Fixpoint range_loop (n : nat) (r : positive) (it : It)
    : M World (option (list RangeQueryStateKeyValue) * It) :=
  match n with
  | O => mret (Some [], it)
  | Datatypes.S n =>
      q ← on_sim r (it_Next it);
      let '(qresult, it) := q in
      match qresult with
      | inl _ => mret (None, it)
      | inr None => mret (Some [], it)
      | inr (Some (k, v)) =>
          rest ← range_loop n r it;
          mret ((λ l, mkRQKeyValue k v :: l) <$> rest.1, rest.2)
      end
  end.

(** [iterID] is the generated UUID. *)
Definition handleRangeQueryState (iterID : bytes) (msg : ChaincodeMessage) : M World (option ChaincodeMessage) :=
  match Unmarshal (A := RangeQueryState) (sl (cm_Payload msg)) with
  | None => mret (reply ERROR (Some (unmarshal_text (sl (cm_Payload msg)))) msg)
  | Some rangeQueryState =>
      txContext ← getTxContext (cm_Txid msg);
      chaincodeID ← chaincode_name;
      c ← lift (deref txContext);
      rangeIter ← on_sim (tc_txsimulator c) (ts_GetStateRangeScanIterator chaincodeID
        (rqs_StartKey rangeQueryState) (rqs_EndKey rangeQueryState));
      match rangeIter with
      | inl err => mret (reply ERROR (Some err) msg)
      | inr rangeIter =>
          q ← range_loop maxRangeQueryStateLimit (tc_txsimulator c) rangeIter;
          _ ← putRangeQueryIterator (cm_Txid msg) iterID q.2;
          match q.1 with
          | None => mret None
          | Some keysAndValues =>
              match Marshal (mkRQResponse keysAndValues false iterID) with
              | None =>
                  _ ← deleteRangeQueryIterator (cm_Txid msg) iterID;
                  mret (reply ERROR (Some marshal_text) msg)
              | Some payloadBytes => mret (reply RESPONSE (Some payloadBytes) msg)
              end
          end
      end
  end.

(** The test of [RANGE_QUERY_STATE_NEXT] is the other way round: a result ends
    the loop, and the type assertion on a nil result panics. *)
Definition next_loop (n : nat) (r : positive) (it : It) : M World (option bool * It) :=
  match n with
  | O => mret (Some false, it)
  | Datatypes.S _ =>
      q ← on_sim r (it_Next it);
      let '(qresult, it) := q in
      match qresult with
      | inl _ => mret (None, it)
      | inr (Some _) => mret (Some true, it)
      | inr None => go_panic
      end
  end.

Definition handleRangeQueryStateNext (msg : ChaincodeMessage) : M World (option ChaincodeMessage) :=
  match Unmarshal (A := RangeQueryStateNext) (sl (cm_Payload msg)) with
  | None => mret (reply ERROR (Some (unmarshal_text (sl (cm_Payload msg)))) msg)
  | Some rangeQueryStateNext =>
      let id := rqn_ID rangeQueryStateNext in
      txContext ← getTxContext (cm_Txid msg);
      c ← lift (deref txContext);
      match getRangeQueryIterator c id with
      | None => mret (reply ERROR (Some (bytes_of_string "Range query iterator not found")) msg)
      | Some rangeIter =>
          q ← next_loop maxRangeQueryStateLimit (tc_txsimulator c) rangeIter;
          _ ← putRangeQueryIterator (cm_Txid msg) id q.2;
          match q.1 with
          | None => mret None
          | Some qresult =>
              _ ← (if (qresult : bool) then deleteRangeQueryIterator (cm_Txid msg) id else mret tt);
              match Marshal (mkRQResponse [] qresult id) with
              | None =>
                  _ ← deleteRangeQueryIterator (cm_Txid msg) id;
                  mret (reply ERROR (Some marshal_text) msg)
              | Some payloadBytes => mret (reply RESPONSE (Some payloadBytes) msg)
              end
          end
      end
  end.

Definition handleRangeQueryStateClose (msg : ChaincodeMessage) : M World (option ChaincodeMessage) :=
  match Unmarshal (A := RangeQueryStateClose) (sl (cm_Payload msg)) with
  | None => mret (reply ERROR (Some (unmarshal_text (sl (cm_Payload msg)))) msg)
  | Some rangeQueryStateClose =>
      let id := rqc_ID rangeQueryStateClose in
      txContext ← getTxContext (cm_Txid msg);
      c ← lift (deref txContext);
      _ ← match getRangeQueryIterator c id with
          | Some _ => deleteRangeQueryIterator (cm_Txid msg) id
          | None => mret tt
          end;
      mret (match Marshal (mkRQResponse [] false id) with
            | None => reply ERROR (Some marshal_text) msg
            | Some payloadBytes => reply RESPONSE (Some payloadBytes) msg
            end)
  end.

(** The answer to a write, given the simulator's error. *)
Definition write_reply (err : option bytes) (msg : ChaincodeMessage) : option ChaincodeMessage :=
  match err with Some e => reply ERROR (Some e) msg | None => reply RESPONSE None msg end.

(** [enterBusyState]'s goroutine, once the transaction id is claimed: an
    answer, or the chaincode to call with the simulator it is to use. *)
Definition busy_work (msg : ChaincodeMessage) : M World (option ChaincodeMessage + positive * ChaincodeSpec) :=
  chaincodeID ← chaincode_name;
  match cm_Type msg with
  | PUT_STATE =>
      match Unmarshal (A := PutStateInfo) (sl (cm_Payload msg)) with
      | None => mret (inl (reply ERROR (Some (unmarshal_text (sl (cm_Payload msg)))) msg))
      | Some putStateInfo =>
          txContext ← getTxContext (cm_Txid msg);
          c ← lift (deref txContext);
          err ← on_sim (tc_txsimulator c) (ts_SetState chaincodeID (psi_Key putStateInfo) (psi_Value putStateInfo));
          mret (inl (write_reply err msg))
      end
  | DEL_STATE =>
      txContext ← getTxContext (cm_Txid msg);
      c ← lift (deref txContext);
      err ← on_sim (tc_txsimulator c) (ts_DeleteState chaincodeID (sl (cm_Payload msg)));
      mret (inl (write_reply err msg))
  | INVOKE_CHAINCODE =>
      refused ← canCallChaincode (cm_Txid msg);
      match refused with
      | Some m => mret (inl (Some m))
      | None =>
          match Unmarshal (A := ChaincodeSpec) (sl (cm_Payload msg)) with
          | None => mret (inl (reply ERROR (Some (unmarshal_text (sl (cm_Payload msg)))) msg))
          | Some chaincodeSpec =>
              _ ← lift (deref (cs_ChaincodeID chaincodeSpec));
              txContext ← getTxContext (cm_Txid msg);
              c ← lift (deref txContext);
              mret (inr (tc_txsimulator c, chaincodeSpec))
          end
      end
  | _ => mret (inl (write_reply None msg))
  end.

(** The end of a call: the error of [Launch] or of [Execute], or the response.
    Without an input there is no message to execute, and [Execute] dereferences
    the nil one. *)
Definition call_reply (spec : ChaincodeSpec) (outcome : bytes + ChaincodeMessage) (msg : ChaincodeMessage)
    : res (option ChaincodeMessage) :=
  match outcome with
  | inl err => Ok (reply ERROR (Some err) msg)
  | inr response =>
      _ ← deref (cs_CtorMsg spec);
      Ok (match Marshal response with
          | None => reply ERROR (Some marshal_text) msg
          | Some res => reply RESPONSE (Some res) msg
          end)
  end.

(** ** Steps of a goroutine *)
Definition task_set (i : nat) (t : task) : M World unit := upd (λ h, set_tasks (<[i := t]> (h_tasks h)) h).
Definition task_end (i : nat) : M World unit := upd (λ h, set_tasks (list_delete i (h_tasks h)) h).

(** The deferred function of the goroutine that works on [msg]: its
    transaction id is free again, and the answer, which must not be nil, is
    sent or, for an update, handed to the loop. *)
Definition task_done (i : nat) (k : request_kind) (msg : ChaincodeMessage) (answer : option ChaincodeMessage)
    : M World unit :=
  _ ← deleteTXIDEntry (cm_Txid msg);
  m ← lift (deref answer);
  match k with
  | KBusy => _ ← task_end i; triggerNextState m true
  | _ => task_set i (TSending m)
  end.

(** What the environment supplies: a fresh UUID, the outcome of a call. *)
Definition task_step (i : nat) (uuid : bytes) (outcome : bytes + ChaincodeMessage) : M World unit :=
  tasks ← of_h h_tasks;
  match tasks !! i with
  | None => mret tt
  | Some (TSpawned k msg) =>
      marked ← getIsTransaction (cm_Txid msg);
      match k, (marked : bool) with
      | KBusy, false =>
          _ ← task_end i;
          triggerNextState (newMsg ERROR (Some (query_context msg)) (cm_Txid msg)) true
      | _, _ =>
          uniqueReq ← createTXIDEntry (cm_Txid msg);
          if (uniqueReq : bool) then task_set i (TRunning k msg) else task_end i
      end
  | Some (TRunning k msg) =>
      match k with
      | KGet => a ← handleGetState msg; task_done i k msg a
      | KRange => a ← handleRangeQueryState uuid msg; task_done i k msg a
      | KNext => a ← handleRangeQueryStateNext msg; task_done i k msg a
      | KClose => a ← handleRangeQueryStateClose msg; task_done i k msg a
      | KBusy =>
          a ← busy_work msg;
          match a with
          | inl a => task_done i k msg a
          | inr (sim, spec) => task_set i (TCalling msg sim spec)
          end
      end
  | Some (TCalling msg _ spec) => a ← lift (call_reply spec outcome msg); task_done i KBusy msg a
  | Some (TSending msg) => _ ← task_end i; _ ← serialSend msg; mret tt
  end.

(** ** Requests of the peer

    [None]: an error.  The caller waits on the context's channel. *)
Definition initOrReady (sim : positive) (txid : bytes) (initArgs : option (list bytes)) : M World (option unit) :=
  created ← createTxContext sim txid;
  match created with
  | None => mret None
  | Some _ =>
      match initArgs with
      | Some args =>
          match Marshal (mkChaincodeInput args) with
          | None => _ ← deleteTxContext txid; go_panic
          | Some payload => _ ← triggerNextState (newMsg INIT (Some payload) txid) false; mret (Some tt)
          end
      | None => _ ← triggerNextState (newMsg READY None txid) true; mret (Some tt)
      end
  end.

Definition sendExecuteMessage (sim : positive) (msg : ChaincodeMessage) : M World (option unit) :=
  created ← createTxContext sim (cm_Txid msg);
  match created with
  | None => mret None
  | Some _ =>
      _ ← markIsTransaction (cm_Txid msg) true;
      if bool_decide (cm_Type msg = TRANSACTION) then _ ← triggerNextState msg true; mret (Some tt)
      else
        sent ← serialSend msg;
        if (sent : bool) then mret (Some tt) else _ ← deleteTxContext (cm_Txid msg); mret None
  end.

(** The waiter's receive from the channel of a context; [None] while there is
    nothing to receive. *)
Definition receive_response (txid : bytes) : M World (option ChaincodeMessage) :=
  c ← getTxContext txid;
  match c ≫= λ c, head (tc_responseNotifier c) with
  | None => mret None
  | Some m =>
      _ ← upd_ctx txid (λ c, mkTxContext (tail (tc_responseNotifier c)) (tc_rangeQueryIteratorMap c) (tc_txsimulator c));
      mret (Some m)
  end.

Definition isRunning (h : HState) : bool :=
  match h_FSM h with createdstate | establishedstate | initstate => false | _ => true end.

(** ** Executions

    Whatever the chaincode sends, in whatever order the goroutines run. *)
Inductive action :=
  | ARecv (msg : option ChaincodeMessage)
  | ANext (i : nat)
  | AKeepalive
  | ATask (i : nat) (uuid : bytes) (outcome : bytes + ChaincodeMessage)
  | AStreamDown
  | AInit (sim : positive) (txid : bytes) (initArgs : option (list bytes))
  | AExecute (sim : positive) (msg : ChaincodeMessage)
  | AReceive (txid : bytes)
  | AForget (txid : bytes).

(** The loop takes turns until it has returned. *)
Definition turn (m : M World unit) : M World unit :=
  ended ← of_h h_ended; if (ended : bool) then mret tt else m.

Definition peer_step (a : action) : M World unit :=
  match a with
  | ARecv msg => turn (recv_turn msg)
  | ANext i => turn (next_turn i)
  | AKeepalive => turn keepalive_turn
  | ATask i uuid outcome => task_step i uuid outcome
  | AStreamDown => upd (set_up false)
  | AInit sim txid initArgs => _ ← initOrReady sim txid initArgs; mret tt
  | AExecute sim msg => _ ← sendExecuteMessage sim msg; mret tt
  | AReceive txid => _ ← receive_response txid; mret tt
  | AForget txid => deleteTxContext txid
  end.

Fixpoint peer_run (l : list action) : M World unit :=
  match l with [] => mret tt | a :: l => _ ← peer_step a; peer_run l end.

(** [newChaincodeSupportHandler] *)
Definition newHandler : HState := mkHandler createdstate None false None None None None [] [] [] true false.
End handler.
