(* ===== verification/CcConfined.v ===== *)
(** * What a chaincode can do to the simulators of its peer

    The chaincode's end of the stream is not trusted: it may send any message
    at any time.  Whatever it sends and in whatever order the peer's goroutines
    run, a simulator changes only if the peer handed it to this handler, and
    then only by operations on the namespace the chaincode registered with. *)

From Stdlib Require Import Strings.Byte.
From stdpp Require Import base numbers strings relations gmap list.
From S2P Require Import Prelude Fsm PeerTypes PeerTx CcTypes CcHandler.
Local Open Scope Z_scope.

(** ** The state machine *)
Section event.
Context {St Ev : Type} `{!EqDecision St, !EqDecision Ev} {W Arg Err : Type}.
Context (current : W → St) (set_current : St → W → W).
Context (events : list (EventDesc St Ev)) (cbs : Callbacks St Ev W Arg Err).

Context (I : W → Prop) (arg : Arg).

(** The callback, if there is one, preserves [I]. *)
Definition keeps (c : option (Callback (W := W) (Arg := Arg) (Err := Err))) : Prop :=
  ∀ f, c = Some f → ∀ w, I w → pc (f arg) (λ _, I) w.

Lemma pc_call c w : keeps c → I w → pc (call c arg) (λ _, I) w.
Proof. intros Hc Hw. destruct c as [f|]; simpl; [by apply Hc|by apply pc_ret]. Qed.
Lemma pc_cancellable c d w : keeps c → keeps d → I w → pc (cancellable c d arg) (λ _, I) w.
Proof.
  intros Hc Hd Hw. apply pc_bind. eapply pc_mono; [by apply pc_call|].
  intros [e|] w2 Hw2; [by apply pc_ret|by apply pc_call].
Qed.
Lemma pc_uncancellable c d e w : keeps c → keeps d → I w → pc (uncancellable c d e arg) (λ _, I) w.
Proof.
  intros Hc Hd Hw. apply pc_bind. eapply pc_mono; [by apply pc_call|]. intros e1 w2 Hw2.
  apply pc_bind. eapply pc_mono; [by apply pc_call|]. intros e2 w3 Hw3. by apply pc_ret.
Qed.

(** What every callback and every change of state preserves, an event does. *)
Lemma pc_Event event w :
  keeps (cb_before cbs (Some event)) → keeps (cb_before cbs None) → (∀ s, keeps (cb_leave cbs s)) →
  (∀ s, keeps (cb_enter cbs s)) → (∀ e, keeps (cb_after cbs e)) →
  (∀ src dst w, transitions events event src = Some dst → I w → I (set_current dst w)) →
  I w → pc (Event current set_current events cbs event arg) (λ _, I) w.
Proof.
  intros Hb Hb' Hl He Ha Hs Hw.
  apply pc_bind, pc_gets. destruct (transitions events event (current w)) as [dst|] eqn:Ht; [|by apply pc_ret].
  apply pc_bind. eapply pc_mono; [by apply pc_cancellable|]. intros [e|] w1 Hw1; [by apply pc_ret|].
  apply pc_bind, pc_gets. case_bool_decide.
  { apply pc_bind. eapply pc_mono; [by apply pc_uncancellable|]. intros e2 w2 Hw2. by apply pc_ret. }
  apply pc_bind. eapply pc_mono; [by apply pc_cancellable|]. intros [e|] w2 Hw2; [by apply pc_ret|].
  apply pc_bind, pc_modify, pc_bind. eapply pc_mono; [apply pc_uncancellable; eauto|]. intros e3 w3 Hw3.
  apply pc_bind. eapply pc_mono; [by apply pc_uncancellable|]. intros e4 w4 Hw4. by apply pc_ret.
Qed.
End event.

Lemma no_way_back e s : transitions peer_events e s ≠ Some createdstate.
Proof. destruct e, s; vm_compute; congruence. Qed.
Lemma created_only_registers e d : transitions peer_events e createdstate = Some d → e = REGISTER.
Proof. destruct e; vm_compute; congruence. Qed.
Lemma register_only_created s d : transitions peer_events REGISTER s = Some d → s = createdstate ∧ d = establishedstate.
Proof. destruct s; vm_compute; intros [= <-]; done. Qed.

Section confined.
Context {S It : Type} `{!TxSimulator S It, !ErrorText}.
Context `{!Proto ChaincodeID, !Proto PutStateInfo, !Proto RangeQueryState, !Proto RangeQueryStateNext,
  !Proto RangeQueryStateClose, !Proto RangeQueryStateResponse, !Proto ChaincodeSpec, !Proto ChaincodeInput,
  !Proto ChaincodeMessage}.
Abbreviation World := (HW S It).

(** ** Operations on one namespace *)
Inductive iter_of (ns : bytes) : It → Prop :=
  | iter_open a b s it s' : ts_GetStateRangeScanIterator ns a b s = Ok (inr it, s') → iter_of ns it
  | iter_next it s r it' s' : iter_of ns it → it_Next it s = Ok ((r, it'), s') → iter_of ns it'
  | iter_close it : iter_of ns it → iter_of ns (it_Close it).

Inductive sim_step (ns : bytes) : S → S → Prop :=
  | sim_get key s r s' : ts_GetState ns key s = Ok (r, s') → sim_step ns s s'
  | sim_set key v s r s' : ts_SetState ns key v s = Ok (r, s') → sim_step ns s s'
  | sim_delete key s r s' : ts_DeleteState ns key s = Ok (r, s') → sim_step ns s s'
  | sim_range a b s r s' : ts_GetStateRangeScanIterator ns a b s = Ok (r, s') → sim_step ns s s'
  | sim_next it s r s' : iter_of ns it → it_Next it s = Ok (r, s') → sim_step ns s s'.

(** ** The invariant

    [granted]: the simulators the peer has handed to the handler; [sims0]: the
    simulators at the start. *)
Context (granted : positive → Prop) (sims0 : gmap positive S).

Definition named (h : Handler It) (P : bytes → Prop) : Prop :=
  ∃ cid, h_ChaincodeID h = Some cid ∧ P (cid_Name cid).
Definition ctx_ok (h : Handler It) (c : transactionContext It) : Prop :=
  granted (tc_txsimulator c)
  ∧ ∀ id it, tc_rangeQueryIteratorMap c !! id = Some it → named h (λ ns, iter_of ns it).
Definition ctxs_ok (h : Handler It) : Prop :=
  ∀ m txid c, h_txCtxs h = Some m → m !! txid = Some c → ctx_ok h c.
Definition sim_ok (h : Handler It) (r : positive) (s0 s : S) : Prop :=
  s = s0 ∨ granted r ∧ named h (λ ns, rtc (sim_step ns) s0 s).
Definition sims_ok (h : Handler It) (sims : gmap positive S) : Prop :=
  ∀ r s0, sims0 !! r = Some s0 → ∃ s, sims !! r = Some s ∧ sim_ok h r s0 s.

Record Inv (w : World) : Prop := {
  inv_ctxs : ctxs_ok (w_h w);
  inv_sims : sims_ok (w_h w) (w_sims w);
  inv_none : h_txCtxs (w_h w) = None → ∀ r s0, sims0 !! r = Some s0 → w_sims w !! r = Some s0 }.
(** Before it is registered, a handler has no context. *)
Definition fresh (w : World) : Prop :=
  h_FSM (w_h w) = createdstate → h_ended (w_h w) = false → h_txCtxs (w_h w) = None.

(** Only these fields matter. *)
Lemma Inv_ext (w w' : World) :
  h_ChaincodeID (w_h w') = h_ChaincodeID (w_h w) → h_txCtxs (w_h w') = h_txCtxs (w_h w) →
  w_sims w' = w_sims w → Inv w → Inv w'.
Proof.
  intros E1 E2 E3 [I1 I2 I3]. split; unfold ctxs_ok, ctx_ok, sims_ok, sim_ok, named in *; rewrite ?E1, ?E2, ?E3; done.
Qed.

Lemma Inv_ctxs (w w' : World) (m : gmap bytes (transactionContext It)) :
  h_ChaincodeID (w_h w') = h_ChaincodeID (w_h w) → w_sims w' = w_sims w →
  h_txCtxs (w_h w') = Some m → h_txCtxs (w_h w) ≠ None →
  (∀ txid c, m !! txid = Some c → ctx_ok (w_h w) c) → Inv w → Inv w'.
Proof.
  intros E1 E3 E2 Hn Hm [I1 I2 I3]. split.
  - intros m' txid c Hm' Hc. rewrite E2 in Hm'. simplify_eq. specialize (Hm _ _ Hc).
    unfold ctx_ok, named in *. by rewrite E1.
  - unfold sims_ok, sim_ok, named in *. by rewrite E1, E3.
  - by rewrite E2.
Qed.

(** The fields whose changes are followed, and the invariant with them fixed. *)
Definition key (w : World) : ccstate * bool * bool :=
  (h_FSM (w_h w), h_ended (w_h w), bool_decide (h_txCtxs (w_h w) = None)).
Definition InvK (k : ccstate * bool * bool) (w : World) : Prop := Inv w ∧ key w = k.
Definition safe {A} (m : M World A) : Prop := ∀ k w, InvK k w → pc m (λ _, InvK k) w.

Lemma safe_ret {A} (a : A) : safe (mret a).
Proof. intros k w Hw. by apply pc_ret. Qed.
Lemma safe_bind {A B} (m : M World A) (f : A → M World B) : safe m → (∀ a, safe (f a)) → safe (m ≫= f).
Proof. intros Hm Hf k w Hw. apply pc_bind. eapply pc_mono; [by apply Hm|]. intros a w' Hw'. by apply Hf. Qed.
Lemma safe_of_h {A} (f : Handler It → A) : safe (of_h f).
Proof. intros k w Hw. by apply pc_gets. Qed.
Lemma safe_gets {A} (f : World → A) : safe (gets f).
Proof. intros k w Hw. by apply pc_gets. Qed.
Lemma safe_lift {A} (r : res A) : safe (lift r).
Proof. intros k w Hw. by apply pc_lift. Qed.
Lemma safe_panic {A} : safe (@go_panic World A).
Proof. intros k w Hw. done. Qed.
Lemma safe_block {A} : safe (@out_of_fuel World A).
Proof. intros k w Hw. done. Qed.
Lemma safe_running f : safe (modify (set_running f)).
Proof. intros k w [Hw Hk]. apply pc_modify. split; [by eapply Inv_ext; [..|exact Hw]|done]. Qed.

(** Updates of the other fields. *)
Lemma safe_upd f :
  (∀ h, h_ChaincodeID (f h) = h_ChaincodeID h) → (∀ h, h_txCtxs (f h) = h_txCtxs h) →
  (∀ h, h_FSM (f h) = h_FSM h) → (∀ h, h_ended (f h) = h_ended h) → safe (upd f).
Proof.
  intros H1 H2 H3 H4 k w [Hw Hk]. apply pc_modify. split.
  - eapply Inv_ext; [..|exact Hw]; simpl; auto.
  - rewrite <-Hk. unfold key. simpl. by rewrite H2, H3, H4.
Qed.
Lemma safe_upd' (f : Handler It → Handler It → Handler It) :
  (∀ x h, h_ChaincodeID (f x h) = h_ChaincodeID h) → (∀ x h, h_txCtxs (f x h) = h_txCtxs h) →
  (∀ x h, h_FSM (f x h) = h_FSM h) → (∀ x h, h_ended (f x h) = h_ended h) → safe (upd (λ h, f h h)).
Proof. intros H1 H2 H3 H4. apply safe_upd; intros; auto. Qed.

(** Updates of a context. *)
Lemma safe_ctxs (g : gmap bytes (transactionContext It) → gmap bytes (transactionContext It)) :
  (∀ h m, (∀ txid c, m !! txid = Some c → ctx_ok h c) → ∀ txid c, g m !! txid = Some c → ctx_ok h c) →
  safe (upd (λ h, set_txCtxs (g <$> h_txCtxs h) h)).
Proof.
  intros Hg k w [Hw Hk]. apply pc_modify. destruct (h_txCtxs (w_h w)) as [m|] eqn:Hm.
  - split; [|by rewrite <-Hk; unfold key; simpl; rewrite Hm].
    eapply (Inv_ctxs w _ (g m)); simpl; [done|done|by rewrite Hm|by rewrite Hm| |done].
    apply Hg. intros txid c Hc. by eapply inv_ctxs.
  - split; [eapply Inv_ext; [..|exact Hw]; simpl; by rewrite ?Hm|by rewrite <-Hk; unfold key; simpl; rewrite Hm].
Qed.
Lemma safe_upd_ctx txid f : (∀ h c, ctx_ok h c → ctx_ok h (f c)) → safe (upd_ctx txid f).
Proof.
  intros Hf. apply safe_ctxs. intros h m Hm txid' c.
  rewrite lookup_alter_Some. intros [(-> & c0 & Hc & ->)|[_ Hc]]; [apply Hf|]; by eapply Hm.
Qed.
Lemma safe_deleteTxContext txid : safe (deleteTxContext txid).
Proof. apply safe_ctxs. intros h m Hm txid' c. rewrite lookup_delete_Some. intros [_ Hc]. by eapply Hm. Qed.

Lemma ctx_ok_iters h c f :
  ctx_ok h c → (∀ id it, f (tc_rangeQueryIteratorMap c) !! id = Some it →
    tc_rangeQueryIteratorMap c !! id = Some it ∨ named h (λ ns, iter_of ns it)) → ctx_ok h (set_iters f c).
Proof. intros [H1 H2] Hf. split; [done|]. intros id it Hid. destruct (Hf _ _ Hid); eauto. Qed.
Lemma ctx_ok_closed h c : ctx_ok h c → ctx_ok h (close_iterators c).
Proof.
  intros Hc. apply ctx_ok_iters; [done|]. intros id it. rewrite lookup_fmap_Some. intros (it' & <- & Hid).
  right. destruct Hc as [_ Hc]. destruct (Hc _ _ Hid) as (cid & ? & ?). exists cid. split; [done|]. by constructor.
Qed.

Lemma safe_serialSend m : safe (serialSend m).
Proof.
  apply safe_bind; [apply safe_of_h|]. intros []; [|apply safe_ret].
  apply safe_bind; [by apply safe_upd|]. intros ?. apply safe_ret.
Qed.
Lemma safe_spawn t : safe (spawn t).
Proof. by apply safe_upd. Qed.
Lemma safe_trigger m b : safe (triggerNextState m b).
Proof. by apply safe_upd. Qed.
Lemma safe_getTxContext txid : safe (getTxContext txid).
Proof. apply safe_bind; [apply safe_of_h|]. intros ?. apply safe_ret. Qed.
Lemma safe_getIsTransaction txid : safe (getIsTransaction txid).
Proof. apply safe_bind; [apply safe_of_h|]. intros ?. apply safe_ret. Qed.
Lemma safe_deleteIsTransaction txid : safe (deleteIsTransaction txid).
Proof. by apply safe_upd. Qed.
Lemma safe_deleteTXIDEntry txid : safe (deleteTXIDEntry txid).
Proof. by apply safe_upd. Qed.

Create HintDb ccsafe.
#[local] Hint Resolve safe_ret safe_of_h safe_gets safe_lift safe_panic safe_block safe_running safe_serialSend
  safe_spawn safe_trigger safe_getTxContext safe_getIsTransaction safe_deleteIsTransaction
  safe_deleteTXIDEntry safe_deleteTxContext : ccsafe.
Ltac safe_tac :=
  repeat first
    [ progress intros
    | solve [eauto with ccsafe]
    | apply safe_bind
    | solve [apply safe_upd; done]
    | progress cbv zeta
    | case_match ].

Lemma safe_createTXIDEntry txid : safe (createTXIDEntry txid).
Proof. unfold createTXIDEntry. safe_tac. Qed.
Lemma safe_markIsTransaction txid b : safe (markIsTransaction txid b).
Proof. unfold markIsTransaction. safe_tac. Qed.
Lemma safe_notifyDuringStartup b : safe (notifyDuringStartup b).
Proof. unfold notifyDuringStartup. safe_tac. Qed.
Lemma safe_notify m : safe (notify m).
Proof.
  unfold notify. safe_tac. apply safe_upd_ctx. intros h c Hc. by apply ctx_ok_closed in Hc.
Qed.
Lemma safe_deregister : safe deregister.
Proof.
  unfold deregister, deregisterHandler. safe_tac. apply safe_ctxs. intros h m Hm txid c.
  rewrite lookup_fmap_Some. intros (c0 & <- & Hc). apply ctx_ok_closed. by eapply Hm.
Qed.
#[local] Hint Resolve safe_createTXIDEntry safe_markIsTransaction safe_notifyDuringStartup safe_notify
  safe_deregister : ccsafe.

(** ** Work on a simulator *)
Lemma pc_on_sim {A} k w r (m : M S A) (Q : A → Prop) :
  InvK k w → granted r → h_txCtxs (w_h w) ≠ None →
  (∀ s a s', m s = Ok (a, s') → Q a ∧ named (w_h w) (λ ns, sim_step ns s s')) →
  pc (on_sim r m) (λ a w', InvK k w' ∧ w_h w' = w_h w ∧ Q a) w.
Proof.
  intros [Hw Hk] Hr Hc Hm. unfold pc, on_sim. destruct (w_sims w !! r) as [s|] eqn:Hs; [|done].
  destruct (m s) as [[a s']| |] eqn:E; [|done..]. apply Hm in E as [HQ (cid & Hcid & Hstep)].
  split_and!; [split|done..]; [|done]. destruct Hw as [I1 I2 I3]. split; [done| |done].
  intros r' s0 H0. destruct (I2 _ _ H0) as (s1 & H1 & Hok). simpl.
  destruct (decide (r = r')) as [<-|Hne].
  - simplify_eq. exists s'. rewrite lookup_insert_eq. split; [done|]. right. split; [done|].
    exists cid. split; [done|]. destruct Hok as [->|(_ & cid' & Hcid' & Hsteps)].
    + by apply rtc_once.
    + simplify_eq. by eapply rtc_r.
  - exists s1. by rewrite lookup_insert_ne.
Qed.

(** A context found by the goroutine of a request. *)
Lemma ctx_found k w txid c :
  InvK k w → h_txCtxs (w_h w) ≫= (λ m, m !! txid) = Some c →
  ctx_ok (w_h w) c ∧ h_txCtxs (w_h w) ≠ None.
Proof.
  intros [Hw _] Hc. destruct (h_txCtxs (w_h w)) as [m|] eqn:E; [|done]. split; [|done]. by eapply inv_ctxs.
Qed.

(** The name, the context and the simulator a request works with. *)
Lemma pc_request {A} k w txid (f : bytes → transactionContext It → M World A) Q :
  InvK k w →
  (∀ cid c, h_ChaincodeID (w_h w) = Some cid → ctx_ok (w_h w) c → h_txCtxs (w_h w) ≠ None →
    pc (f (cid_Name cid) c) Q w) →
  pc (ns ← chaincode_name; txContext ← getTxContext txid; c ← lift (deref txContext); f ns c) Q w.
Proof.
  intros Hw Hf. unfold chaincode_name, getTxContext, of_h. repeat pc_step.
  destruct (ctx_found _ _ _ _ Hw E0). by apply Hf.
Qed.

Lemma safe_handleGetState msg : safe (handleGetState msg).
Proof.
  intros k w Hw. unfold handleGetState. cbv zeta. apply (pc_request k); [done|]. intros cid c Hcid [Hg _] Hn.
  apply pc_bind. eapply pc_mono; [apply (pc_on_sim k _ _ _ (λ _, True)); [done..|]|].
  { intros s a s' E. split; [done|]. exists cid. split; [done|]. by eapply sim_get. }
  intros r w' (Hw' & _ & _). by apply pc_ret.
Qed.

Lemma pc_range_loop n k w r it cid :
  InvK k w → granted r → h_txCtxs (w_h w) ≠ None → h_ChaincodeID (w_h w) = Some cid → iter_of (cid_Name cid) it →
  pc (range_loop n r it) (λ a w', InvK k w' ∧ w_h w' = w_h w ∧ iter_of (cid_Name cid) a.2) w.
Proof.
  intros Hw Hg Hn Hcid. revert w it Hw Hn Hcid. induction n as [|n IH]; intros w it Hw Hn Hcid Hit; cbn [range_loop].
  { by apply pc_ret. }
  apply pc_bind. eapply pc_mono; [apply (pc_on_sim k _ _ _ (λ a, iter_of (cid_Name cid) a.2)); [done..|]|].
  { intros s [q it'] s' E. split; [by eapply iter_next|]. exists cid. split; [done|]. by eapply sim_next. }
  intros [q it'] w' (Hw' & Eh & Hit'). simpl in Hit'. destruct q as [e|[[key v]|]]; [by apply pc_ret| |by apply pc_ret].
  apply pc_bind. eapply pc_mono; [apply IH; [done|by rewrite Eh..|done]|].
  intros [l it2] w2 (Hw2 & Eh2 & Hit2). apply pc_ret. rewrite <-Eh. done.
Qed.

Lemma safe_putIterator_at k w txid id it :
  InvK k w → named (w_h w) (λ ns, iter_of ns it) → pc (putRangeQueryIterator txid id it) (λ _, InvK k) w.
Proof.
  intros [Hw Hk] Hit. apply pc_modify. destruct (h_txCtxs (w_h w)) as [m|] eqn:Hm.
  - split; [|by rewrite <-Hk; unfold key; simpl; rewrite Hm].
    eapply (Inv_ctxs w _ (alter (set_iters (insert id it)) txid m)); simpl; [done|done|by rewrite Hm|by rewrite Hm| |done].
    intros txid' c. rewrite lookup_alter_Some. intros [(-> & c0 & Hc & ->)|[_ Hc]]; [|by eapply inv_ctxs].
    apply ctx_ok_iters; [by eapply inv_ctxs|]. intros id' it'. rewrite lookup_insert_Some. naive_solver.
  - split; [eapply Inv_ext; [..|exact Hw]; simpl; by rewrite ?Hm|by rewrite <-Hk; unfold key; simpl; rewrite Hm].
Qed.
Lemma safe_deleteIterator txid id : safe (deleteRangeQueryIterator txid id).
Proof.
  apply safe_upd_ctx. intros h c Hc. apply ctx_ok_iters; [done|]. intros id' it. rewrite lookup_delete_Some. naive_solver.
Qed.
#[local] Hint Resolve safe_deleteIterator safe_handleGetState : ccsafe.

Lemma safe_handleRangeQueryState uuid msg : safe (handleRangeQueryState uuid msg).
Proof.
  intros k w Hw. unfold handleRangeQueryState. case_match; [|by apply pc_ret].
  unfold getTxContext, chaincode_name, of_h. repeat (pc_step; cbv beta).
  destruct (ctx_found _ _ _ _ Hw E0) as [[Hg _] Hn].
  eapply pc_mono; [apply (pc_on_sim k _ _ _ (λ r, ∀ it, r = inr it → iter_of (cid_Name a) it)); [done..|]|].
  { intros s q s' Eq. split; [intros it ->; by eapply iter_open|]. exists a. split; [done|]. by eapply sim_range. }
  intros q w1 (Hw1 & Eh & Hit). destruct q as [e|it]; [by apply pc_ret|]. specialize (Hit it eq_refl).
  apply pc_bind. eapply pc_mono; [apply (pc_range_loop _ k _ _ _ a); [done|done|by rewrite Eh..|done]|].
  intros [l it2] w2 (Hw2 & Eh2 & Hit2). apply pc_bind.
  eapply pc_mono; [apply (safe_putIterator_at k); [done|]|].
  { exists a. split; [|done]. by rewrite Eh2, Eh. }
  intros ? w3 Hw3. cbn [fst]. destruct l as [l|]; [|by apply pc_ret]. destruct (Marshal _); [by apply pc_ret|].
  apply pc_bind. eapply pc_mono; [by apply (safe_deleteIterator _ _ k)|]. intros ? w4 Hw4. by apply pc_ret.
Qed.

Lemma pc_next_loop n k w r it cid :
  InvK k w → granted r → h_txCtxs (w_h w) ≠ None → h_ChaincodeID (w_h w) = Some cid → iter_of (cid_Name cid) it →
  pc (next_loop n r it) (λ a w', InvK k w' ∧ w_h w' = w_h w ∧ iter_of (cid_Name cid) a.2) w.
Proof.
  intros Hw Hg Hn Hcid Hit. destruct n as [|n]; cbn [next_loop]; [by apply pc_ret|].
  apply pc_bind. eapply pc_mono; [apply (pc_on_sim k _ _ _ (λ a, iter_of (cid_Name cid) a.2)); [done..|]|].
  { intros s [q it'] s' E. split; [by eapply iter_next|]. exists cid. split; [done|]. by eapply sim_next. }
  intros [q it'] w' (Hw' & Eh & Hit'). destruct q as [e|[v|]]; [by apply pc_ret..|by apply pc_panic].
Qed.

Lemma safe_handleRangeQueryStateNext msg : safe (handleRangeQueryStateNext msg).
Proof.
  intros k w Hw. unfold handleRangeQueryStateNext. case_match; [|by apply pc_ret].
  unfold getTxContext, of_h. repeat (pc_step; cbv beta); [|done].
  destruct (ctx_found _ _ _ _ Hw E) as [[Hg Hits] Hn]. destruct (Hits _ _ E0) as (cid & Hcid & Hit).
  eapply pc_mono; [by apply (pc_next_loop _ k _ _ _ cid)|].
  intros [l it2] w2 (Hw2 & Eh2 & Hit2). apply pc_bind.
  eapply pc_mono; [apply (safe_putIterator_at k); [done|]|].
  { exists cid. split; [|done]. by rewrite Eh2. }
  intros ? w3 Hw3. cbn [fst]. destruct l as [l|]; [|by apply pc_ret].
  eapply (safe_bind _ _); [..|exact Hw3]; safe_tac.
Qed.

Lemma safe_handleRangeQueryStateClose msg : safe (handleRangeQueryStateClose msg).
Proof. unfold handleRangeQueryStateClose. safe_tac. Qed.

Lemma safe_canCall txid : safe (canCallChaincode txid).
Proof. unfold canCallChaincode. safe_tac. Qed.

Lemma safe_busy_work msg : safe (busy_work msg).
Proof.
  intros k w Hw. unfold busy_work. destruct (cm_Type msg) eqn:Ht;
    try (revert k w Hw; fold (safe (A := option ChaincodeMessage + positive * ChaincodeSpec)); unfold chaincode_name; safe_tac; fail).
  - destruct (Unmarshal (sl (cm_Payload msg))) as [psi|].
    + apply (pc_request k); [done|]. intros cid c Hcid [Hg _] Hn.
      apply pc_bind. eapply pc_mono; [apply (pc_on_sim k _ _ _ (λ _, True)); [done..|]|].
      { intros s a s' E. split; [done|]. exists cid. split; [done|]. by eapply sim_set. }
      intros r w' (Hw' & _ & _). by apply pc_ret.
    + revert k w Hw. unfold chaincode_name. safe_tac.
  - apply (pc_request k); [done|]. intros cid c Hcid [Hg _] Hn.
    apply pc_bind. eapply pc_mono; [apply (pc_on_sim k _ _ _ (λ _, True)); [done..|]|].
    { intros s a s' E. split; [done|]. exists cid. split; [done|]. by eapply sim_delete. }
    intros r w' (Hw' & _ & _). by apply pc_ret.
Qed.
#[local] Hint Resolve safe_handleRangeQueryState safe_handleRangeQueryStateNext safe_handleRangeQueryStateClose
  safe_canCall safe_busy_work : ccsafe.

Lemma safe_task_done i k msg a : safe (task_done i k msg a).
Proof. unfold task_done, task_end, task_set. safe_tac. Qed.
#[local] Hint Resolve safe_task_done : ccsafe.
Lemma safe_task_step i uuid outcome : safe (task_step i uuid outcome).
Proof. unfold task_step, task_end, task_set. safe_tac. Qed.

(** ** The loop *)
Lemma safe_keeps {A} (m : M World A) (w : World) :
  safe m → Inv w → pc m (λ _ w', Inv w' ∧ key w' = key w) w.
Proof. intros Hm Hw. by apply Hm. Qed.
Lemma key_fresh (w w' : World) : key w' = key w → fresh w → fresh w'.
Proof.
  unfold key, fresh. intros [= E1 E2 E3] Hf H1 H2. rewrite (bool_decide_eq_true_2 (h_txCtxs (w_h w) = None)) in E3.
  - by apply bool_decide_eq_true in E3.
  - apply Hf; congruence.
Qed.

Definition past (w : World) : Prop := Inv w ∧ h_FSM (w_h w) ≠ createdstate.
Lemma safe_past {A} (m : M World A) w : safe m → past w → pc m (λ _, past) w.
Proof.
  intros Hm [Hw Hp]. eapply pc_mono; [by apply safe_keeps|]. intros a w' [Hw' Hk]. split; [done|].
  by injection Hk as -> _ _.
Qed.
Lemma past_set d (w : World) : d ≠ createdstate → Inv w → past (fsm_set d w).
Proof. intros Hd Hw. split; [by eapply Inv_ext; [..|exact Hw]|done]. Qed.

Lemma safe_enter s c msg : cb_enter peer_callbacks s = Some c → safe (c msg).
Proof.
  intros Hc. destruct s as [[]|]; simplify_eq/=;
    unfold enterEstablishedState, enterInitState, enterReadyState, enterBusyState, enterEndState; safe_tac.
Qed.
Lemma safe_after e c msg : cb_after peer_callbacks e = Some c → safe (c msg).
Proof. intros Hc. destruct e as [[]|]; simplify_eq/=; unfold after_request, afterPutState; safe_tac. Qed.

Lemma pc_Event_past msg (w : World) :
  cm_Type msg ≠ REGISTER → past w →
  pc (Event fsm_current fsm_set peer_events peer_callbacks (cm_Type msg) msg) (λ _, past) w.
Proof.
  intros Ht Hw. apply pc_Event; [..|done].
  - intros f Hf w' Hw'. apply safe_past; [|done]. destruct (cm_Type msg); simplify_eq/=;
      unfold beforeCompletedEvent, beforeInitState; safe_tac.
  - done.
  - done.
  - intros s f Hf w' Hw'. apply safe_past; [|done]. by eapply safe_enter.
  - intros e f Hf w' Hw'. apply safe_past; [|done]. by eapply safe_after.
  - intros src dst w' Hd [Hw' _]. apply past_set; [|done]. intros ->. by apply no_way_back in Hd.
Qed.

(** Registration: the first thing a handler does. *)
Lemma pc_beforeRegister msg (w : World) :
  Inv w → h_txCtxs (w_h w) = None → pc (beforeRegisterEvent msg) (λ _, Inv) w.
Proof.
  intros Hw Hn. unfold beforeRegisterEvent. case_match; [|by apply pc_ret].
  assert (∀ w', Inv w' → pc (notifyDuringStartup false)
    (λ _ w2, pc (mret (Some tt)) (λ _ : option (), Inv) w2) w') as Hfail.
  { intros w' Hw'. eapply pc_mono; [apply safe_keeps; [safe_tac|done]|]. by intros ? ? []. }
  assert (∀ (w' : World) cid, w_sims w' = w_sims w → h_txCtxs (w_h w') = None ∨ h_txCtxs (w_h w') = Some ∅ →
    h_ChaincodeID (w_h w') = Some cid → Inv w') as Hnew.
  { intros w' cid E1 E2 E3. split.
    - intros m txid c1 Hm Hc. destruct E2 as [E2|E2]; [congruence|]. rewrite E2 in Hm. by simplify_eq.
    - intros r0 s0 Hr0. exists s0. rewrite E1. split; [by eapply inv_none|by left].
    - intros _ r0 s0 Hr0. rewrite E1. by eapply inv_none. }
  unfold registerHandler, serialSend, upd, of_h.
  repeat (pc_step; cbv beta); try (apply Hfail); eapply Hnew; simpl; eauto.
Qed.

Lemma pc_register msg (w : World) :
  Inv w → h_FSM (w_h w) = createdstate → h_txCtxs (w_h w) = None →
  pc (Event fsm_current fsm_set peer_events peer_callbacks REGISTER msg)
    (λ e w', Inv w' ∧ ((∃ x, e = Some (CanceledError x)) ∨ h_FSM (w_h w') ≠ createdstate)) w.
Proof.
  intros Hw Hc Hn. unfold Event. apply pc_bind, pc_gets. unfold fsm_current at 1. rewrite Hc.
  change (transitions peer_events REGISTER createdstate) with (Some establishedstate). cbv iota.
  apply pc_bind. eapply pc_mono; [apply pc_bind, (pc_mono _ (λ _, Inv)); [by apply pc_beforeRegister|]|].
  { intros [e|] w1 Hw1; [by apply (pc_ret _ (λ _, Inv))|by apply (pc_ret _ (λ _, Inv))]. }
  intros [e|] w1 Hw1; [apply pc_ret; eauto|]. apply pc_bind, pc_gets. case_bool_decide as Hcur.
  { apply pc_ret. split; [done|right]. unfold fsm_current in Hcur. by rewrite Hcur. }
  apply pc_bind, pc_ret, pc_bind, pc_modify, pc_bind, pc_bind.
  eapply pc_mono; [apply safe_past; [by eapply (safe_enter (Some establishedstate))|by apply past_set]|].
  intros e2 w2 [Hw2 Hp2]. repeat (apply pc_bind || apply pc_ret). by split; [|right].
Qed.

Lemma pc_HandleMessage msg (w : World) :
  Inv w → fresh w → h_ended (w_h w) = false →
  pc (HandleMessage msg) (λ err w', Inv w' ∧ (err = true ∨ fresh w')) w.
Proof.
  intros Hw Hf He. unfold HandleMessage. apply pc_bind, pc_gets. unfold Cannot.
  destruct (transitions peer_events (cm_Type msg) (fsm_current w)) as [dst|] eqn:Ht.
  - apply pc_bind. destruct (decide (cm_Type msg = REGISTER)) as [Er|Hr].
    + rewrite Er in *. destruct (register_only_created _ _ Ht) as [Ec ->]. unfold fsm_current in Ec.
      eapply pc_mono; [by apply pc_register; [..|by apply Hf]|].
      intros e w' [Hw' Hp]. apply pc_ret. split; [done|]. destruct Hp as [[x ->]|Hp]; [by left|right]. intros ?. done.
    + eapply pc_mono; [apply pc_Event_past; [done|split; [done|]]|].
      { intros Ec. unfold fsm_current in Ht. rewrite Ec in Ht. by apply created_only_registers in Ht. }
      intros e w' [Hw' Hp]. apply pc_ret. split; [done|]. right. intros ?. done.
  - eapply pc_mono; [apply safe_keeps; [safe_tac|done]|]. intros e w' [Hw' Hk]. split; [done|].
    right. by eapply key_fresh.
Qed.

Definition Good (w : World) : Prop := Inv w ∧ fresh w.
Lemma safe_good {A} (m : M World A) w : safe m → Good w → pc m (λ _, Good) w.
Proof.
  intros Hm [Hw Hf]. eapply pc_mono; [by apply safe_keeps|]. intros a w' [Hw' Hk]. split; [done|by eapply key_fresh].
Qed.

Lemma pc_end_stream (w : World) : Inv w → pc end_stream (λ _, Good) w.
Proof.
  intros Hw. apply pc_bind. eapply pc_mono; [apply safe_keeps; [apply safe_deregister|done]|].
  intros ? w' [Hw' _]. apply pc_modify. split; [by eapply Inv_ext; [..|exact Hw']|done].
Qed.

Lemma pc_handle {A} msg (f : bool → M World A) (w : World) :
  Good w → h_ended (w_h w) = false →
  (∀ w', Inv w' → pc (f true) (λ _, Good) w') → (∀ w', Good w' → pc (f false) (λ _, Good) w') →
  pc (HandleMessage msg ≫= f) (λ _, Good) w.
Proof.
  intros [Hw Hf] He Ht Hf'. apply pc_bind. eapply pc_mono; [by apply pc_HandleMessage|].
  intros [] w' [Hw' Hor]; [by apply Ht|]. destruct Hor as [?|?]; [done|]. by apply Hf'.
Qed.

Lemma pc_recv_turn o (w : World) : Good w → h_ended (w_h w) = false → pc (recv_turn o) (λ _, Good) w.
Proof.
  intros Hw He. unfold recv_turn. destruct o as [msg|]; [|by apply pc_end_stream, Hw].
  case_bool_decide; [by apply pc_ret|]. apply pc_handle; [done..|intros w' Hw'; by apply pc_end_stream|].
  intros w' Hw'. by apply pc_ret.
Qed.

Lemma pc_next_turn i (w : World) : Good w → h_ended (w_h w) = false → pc (next_turn i) (λ _, Good) w.
Proof.
  intros Hw He. unfold next_turn. apply pc_bind, pc_gets. destruct (h_nextState (w_h w) !! i) as [[msg send]|]; [|by apply pc_ret].
  apply pc_bind, pc_modify. apply pc_handle; [|done|intros w' Hw'; by apply pc_end_stream|].
  - destruct Hw as [Hw Hf]. split; [by eapply Inv_ext; [..|exact Hw]|by eapply key_fresh].
  - intros w' Hw'. destruct send; [|by apply pc_ret]. apply pc_bind.
    eapply pc_mono; [by apply safe_good; [apply safe_serialSend|]|]. intros [] w2 Hw2; [by apply pc_ret|].
    by apply pc_end_stream, Hw2.
Qed.

Lemma pc_turn m (w : World) :
  Good w → (h_ended (w_h w) = false → pc m (λ _, Good) w) → pc (turn m) (λ _, Good) w.
Proof.
  intros Hw Hm. apply pc_bind, pc_gets. destruct (h_ended (w_h w)); [by apply pc_ret|by apply Hm].
Qed.

Lemma safe_createTxContext sim txid : granted sim → safe (createTxContext sim txid).
Proof.
  intros Hg k w [Hw Hk]. unfold createTxContext. apply pc_bind, pc_gets.
  destruct (h_txCtxs (w_h w)) as [m|] eqn:Hm; [|by apply pc_ret]. case_match; [by apply pc_ret|].
  apply pc_bind, pc_modify, pc_ret. split; [|by rewrite <-Hk; unfold key; simpl; rewrite Hm].
  eapply (Inv_ctxs w); simpl; [done|done|done|by rewrite Hm| |done].
  intros txid' c. rewrite lookup_insert_Some. intros [[-> <-]|[_ Hc]]; [|by eapply inv_ctxs].
  split; [done|]. intros id it Hit. simpl in Hit. by rewrite lookup_empty in Hit.
Qed.

(** The simulators an action hands to the handler. *)
Definition grants (a : action) (r : positive) : Prop :=
  match a with AInit sim _ _ | AExecute sim _ => r = sim | _ => False end.

Lemma pc_peer_step a (w : World) : (∀ r, grants a r → granted r) → Good w → pc (peer_step a) (λ _, Good) w.
Proof.
  intros Ha Hw. destruct a; simpl in *.
  - apply pc_turn; [done|]. by apply pc_recv_turn.
  - apply pc_turn; [done|]. by apply pc_next_turn.
  - apply pc_turn; [done|]. intros _. apply safe_good; [|done]. unfold keepalive_turn. safe_tac.
  - apply safe_good; [apply safe_task_step|done].
  - apply safe_good; [by apply safe_upd|done].
  - apply safe_good; [|done]. unfold initOrReady. apply safe_bind; [|safe_tac].
    apply safe_bind; [by apply safe_createTxContext, Ha|safe_tac].
  - apply safe_good; [|done]. unfold sendExecuteMessage. apply safe_bind; [|safe_tac].
    apply safe_bind; [by apply safe_createTxContext, Ha|safe_tac].
  - apply safe_good; [|done]. unfold receive_response. safe_tac. by apply safe_upd_ctx.
  - apply safe_good; [apply safe_deleteTxContext|done].
Qed.

Lemma pc_peer_run l (w : World) : (∀ a r, a ∈ l → grants a r → granted r) → Good w → pc (peer_run l) (λ _, Good) w.
Proof.
  revert w. induction l as [|a l IH]; intros w Hl Hw; cbn [peer_run]; [by apply pc_ret|].
  apply pc_bind. eapply pc_mono; [apply pc_peer_step; [|done]|].
  - intros r. apply Hl. by left.
  - intros ? w' Hw'. apply IH; [|done]. intros b r Hb. apply Hl. by right.
Qed.
End confined.

Section run.
Context {S It : Type} `{!TxSimulator S It, !ErrorText}.
Context `{!Proto ChaincodeID, !Proto PutStateInfo, !Proto RangeQueryState, !Proto RangeQueryStateNext,
  !Proto RangeQueryStateClose, !Proto RangeQueryStateResponse, !Proto ChaincodeSpec, !Proto ChaincodeInput,
  !Proto ChaincodeMessage}.

(** Every simulator at the end of an execution of a new handler. *)
Lemma run_confined (l : list action) (w w' : HW S It) r s0 :
  w_h w = newHandler → peer_run l w = Ok (tt, w') → w_sims w !! r = Some s0 →
  ∃ s, w_sims w' !! r = Some s
    ∧ (s = s0 ∨ (∃ a, a ∈ l ∧ grants a r)
                ∧ ∃ cid, h_ChaincodeID (w_h w') = Some cid ∧ rtc (sim_step (cid_Name cid)) s0 s).
Proof.
  intros Hn Hrun Hr. set (granted r := ∃ a, a ∈ l ∧ grants a r).
  assert (pc (peer_run l) (λ _, Good granted (w_sims w)) w) as Hpc.
  { apply pc_peer_run; [by intros a r' ? ?; exists a|]. split; [|by intros _ _; rewrite Hn].
    split; rewrite ?Hn; [done| |done]. intros r' s' Hs'. exists s'. split; [done|by left]. }
  eapply pc_intro in Hpc as [Hw' _]; [|done]. destruct (inv_sims _ _ _ Hw' r s0 Hr) as (s & Hs & Hok). eauto.
Qed.
End run.
