(* ===== verification/CcLockSim.v ===== *)
(** * Chaincodes on the lock based simulator

    [LockBasedTxSimulator] as the [ledger.TxSimulator] of a chaincode's
    handler, and what confinement means for it: whatever a chaincode sends, the
    read-write sets of the other namespaces stay as they are. *)

From Stdlib Require Import Strings.Byte.
From stdpp Require Import base numbers strings relations gmap list.
From S2P Require Import Prelude Fsm RWSet LevelDB PeerTypes TxMgr PeerTx CcTypes CcHandler CcConfined.
Local Open Scope Z_scope.

Section locksim.
Context {D : Type} `{LevelDB D}.

(** While a simulator is open no block is committed, so that the database is
    the same for all operations of a simulator.  An iterator is its namespace
    and the entries left; closing releases the entries.  [db_text] is the
    database's error. *)
Context (tm : LockBasedTxMgr D) (db_text : bytes).

Definition LockSim : TxSimulator LockBasedTxSimulator (bytes * list (bytes * bytes)) := {|
  ts_GetState ns key :=
    v ← GetState ns key tm; mret (match v with None => inl db_text | Some v => inr v end);
  ts_SetState ns key value := _ ← SetState ns key value; mret None;
  ts_DeleteState ns key := _ ← DeleteState ns key; mret None;
  ts_GetStateRangeScanIterator ns startKey endKey :=
    entries ← GetStateRangeScanIterator ns startKey endKey tm; mret (inr (ns, entries));
  it_Next it :=
    r ← sKVItr_Next it.1 it.2;
    mret (inr ((λ kv : bytes * bytes, (kv.1, Some kv.2)) <$> r.1), (it.1, r.2));
  it_Close it := (it.1, []) |}.

(** ** Other namespaces are not touched *)
Definition other_ns (ns : bytes) (s s' : LockBasedTxSimulator) : Prop :=
  ∀ ns', ns' ≠ ns → sim_rwMap s' !! ns' = sim_rwMap s !! ns'.
#[local] Instance other_ns_refl ns : Reflexive (other_ns ns).
Proof. by intros s ns'. Qed.
Lemma other_ns_trans ns s1 s2 s3 : other_ns ns s1 s2 → other_ns ns s2 s3 → other_ns ns s1 s3.
Proof. intros E1 E2 ns' Hne. by rewrite E2, E1. Qed.

Lemma holder_other ns s : pc (getOrCreateNsRWHolder ns) (λ _, other_ns ns s) s.
Proof.
  unfold getOrCreateNsRWHolder. repeat pc_step; [done|]. intros ns' Hne. simpl. by rewrite lookup_insert_ne.
Qed.
Lemma put_read_other ns key c s0 s : other_ns ns s0 s → pc (put_read ns key c) (λ _, other_ns ns s0) s.
Proof.
  intros E. apply pc_modify. eapply other_ns_trans; [done|]. intros ns' Hne. simpl. by rewrite lookup_alter_ne.
Qed.
Lemma put_write_other ns key x s0 s : other_ns ns s0 s → pc (put_write ns key x) (λ _, other_ns ns s0) s.
Proof.
  intros E. apply pc_modify. eapply other_ns_trans; [done|]. intros ns' Hne. simpl. by rewrite lookup_alter_ne.
Qed.

Lemma GetState_other ns key s : pc (GetState ns key tm) (λ _, other_ns ns s) s.
Proof.
  unfold GetState. apply pc_bind, pc_gets, pc_bind, pc_lift. intros ? _.
  apply pc_bind. eapply pc_mono; [apply holder_other|]. intros n s1 E1.
  repeat (pc_step; cbv beta); try done. eapply pc_mono; [by apply (put_read_other _ _ _ s)|]. intros ? s2 ?. by apply pc_ret.
Qed.
Lemma SetState_other ns key v s : pc (SetState ns key v) (λ _, other_ns ns s) s.
Proof.
  unfold SetState. apply pc_bind, pc_gets, pc_bind, pc_lift. intros ? _.
  apply pc_bind. eapply pc_mono; [apply holder_other|]. intros n s1 E1. case_match; by apply (put_write_other _ _ _ s).
Qed.
Lemma sKVItr_Next_other ns entries s0 s : other_ns ns s0 s → pc (sKVItr_Next ns entries) (λ _, other_ns ns s0) s.
Proof.
  revert s. induction entries as [|e rest IH]; intros s E; cbn [sKVItr_Next]; [by apply pc_ret|].
  apply pc_bind, pc_lift. intros [[[[key version] [value|]]|] l] _; cbn [fst]; [|by apply IH..].
  apply pc_bind. eapply pc_mono; [apply holder_other|]. intros n s1 E1. apply pc_bind.
  eapply pc_mono; [apply (put_read_other _ _ _ s0); by eapply other_ns_trans|]. intros ? s2 E2. by apply pc_ret.
Qed.

Lemma iter_of_ns ns it : iter_of (TxSimulator0 := LockSim) ns it → it.1 = ns.
Proof.
  induction 1 as [a b s it s' E|it s r it' s' _ IH E|it _ IH]; [| |done]; revert E; cbn [ts_GetStateRangeScanIterator it_Next LockSim].
  - unfold GetStateRangeScanIterator, checkDone. cbv [mbind M_bind gets lift mret M_ret]. by destruct (sim_done s); intros [= <- <-].
  - cbv [mbind M_bind mret M_ret]. destruct (sKVItr_Next it.1 it.2 s) as [[a s1]| |]; [|done..]. by intros [= <- <- <-].
Qed.

Lemma sim_step_other ns s s' : sim_step (TxSimulator0 := LockSim) ns s s' → other_ns ns s s'.
Proof.
  assert (∀ A B (m : M LockBasedTxSimulator A) (f : A → B) r s',
    pc m (λ _, other_ns ns s) s → (a ← m; mret (f a)) s = Ok (r, s') → other_ns ns s s') as Hpc.
  { intros A B m f r s2 Hm E. eapply (pc_intro _ (λ _, other_ns ns s)); [|exact E].
    apply pc_bind. eapply pc_mono; [exact Hm|]. intros a s3 E3. by apply pc_ret. }
  intros Hs. destruct Hs as [key s r s' E|key v s r s' E|key s r s' E|a b s r s' E|it s r s' Hit E].
  - eapply Hpc; [apply GetState_other|exact E].
  - eapply Hpc; [apply SetState_other|exact E].
  - eapply Hpc; [apply SetState_other|exact E].
  - eapply Hpc; [|exact E]. unfold GetStateRangeScanIterator. by repeat (pc_step; cbv beta).
  - apply iter_of_ns in Hit. destruct it as [ns' entries]. simpl in Hit. subst ns'.
    eapply Hpc; [by apply sKVItr_Next_other|exact E].
Qed.
End locksim.

Section claim.
Context {D : Type} `{LevelDB D} `{!ErrorText}.
Context `{!Proto ChaincodeID, !Proto PutStateInfo, !Proto RangeQueryState, !Proto RangeQueryStateNext,
  !Proto RangeQueryStateClose, !Proto RangeQueryStateResponse, !Proto ChaincodeSpec, !Proto ChaincodeInput,
  !Proto ChaincodeMessage}.

End claim.
