(* ===== verification/CcShim.v ===== *)
(** * The chaincode's side of the stream (core/chaincode/shim: handler.go and
      the state functions of chaincode.go)

    A chaincode is a program over the stub's functions.  It runs on a goroutine
    of its own; each call of the stub sends a request to the peer and waits on
    a channel of its transaction id for the answer, which the loop of
    [chatWithPeer] delivers. *)

From Stdlib Require Import Strings.Byte.
From stdpp Require Import base numbers strings gmap list.
From S2P Require Import Prelude Fsm PeerTypes PeerTx CcTypes.
Local Open Scope Z_scope.

(** ** Chaincodes

    What a chaincode does with its stub until it returns a payload or an
    error, with the event it has set.  Errors are texts ([inl]); a nil error is
    [None]. *)
Inductive ccprog :=
  | PReturn (r : bytes + slice) (ev : option ChaincodeEvent)
  | PGetState (key : bytes) (k : bytes + slice → ccprog)
  | PPutState (key : bytes) (value : slice) (k : option bytes → ccprog)
  | PDelState (key : bytes) (k : option bytes → ccprog)
  | PRangeQueryState (startKey endKey : bytes) (k : bytes + RangeQueryStateResponse → ccprog)
  | PRangeQueryStateNext (id : bytes) (k : bytes + RangeQueryStateResponse → ccprog)
  | PRangeQueryStateClose (id : bytes) (k : bytes + RangeQueryStateResponse → ccprog)
  | PInvokeChaincode (name : bytes) (args : list bytes) (k : bytes + slice → ccprog).

(** [shim.Chaincode]: a program for each list of arguments. *)
Record Chaincode := mkChaincode { cc_Init : list bytes → ccprog; cc_Invoke : list bytes → ccprog }.

(** ** The goroutine of an invocation

    [CSpawned]: not started; [CRunning]: about to run a program; [CWaiting]:
    receiving from its channel; [CReceived]: with the answer, before its
    channel is deleted. *)
Inductive cctask :=
  | CSpawned (init : bool) (msg : ChaincodeMessage)
  | CRunning (txid : bytes) (p : ccprog)
  | CWaiting (txid : bytes) (k : ChaincodeMessage → ccprog)
  | CReceived (txid : bytes) (p : ccprog).

(** [s_responseChannel]: the transaction ids with a channel. *)
Record Shim := mkShim {
  s_FSM : ccstate; s_responseChannel : gset bytes; s_isTransaction : gmap bytes bool;
  s_nextState : list (ChaincodeMessage * bool); s_tasks : list cctask;
  s_out : list ChaincodeMessage; s_up : bool; s_ended : bool }.

Definition newChaincodeHandler : Shim := mkShim createdstate ∅ ∅ [] [] [] true false.

Section shim.
Context `{!ErrorText, !Proto ChaincodeID, !Proto PutStateInfo, !Proto RangeQueryState, !Proto RangeQueryStateNext,
  !Proto RangeQueryStateClose, !Proto RangeQueryStateResponse, !Proto ChaincodeSpec, !Proto ChaincodeInput,
  !Proto ChaincodeMessage}.
Context (cc : Chaincode).

Definition sset_FSM (x : ccstate) (h : Shim) : Shim :=
  mkShim x (s_responseChannel h) (s_isTransaction h) (s_nextState h) (s_tasks h) (s_out h) (s_up h) (s_ended h).
Definition sset_channels (x : gset bytes) (h : Shim) : Shim :=
  mkShim (s_FSM h) x (s_isTransaction h) (s_nextState h) (s_tasks h) (s_out h) (s_up h) (s_ended h).
Definition sset_isTransaction (x : gmap bytes bool) (h : Shim) : Shim :=
  mkShim (s_FSM h) (s_responseChannel h) x (s_nextState h) (s_tasks h) (s_out h) (s_up h) (s_ended h).
Definition sset_nextState (x : list (ChaincodeMessage * bool)) (h : Shim) : Shim :=
  mkShim (s_FSM h) (s_responseChannel h) (s_isTransaction h) x (s_tasks h) (s_out h) (s_up h) (s_ended h).
Definition sset_tasks (x : list cctask) (h : Shim) : Shim :=
  mkShim (s_FSM h) (s_responseChannel h) (s_isTransaction h) (s_nextState h) x (s_out h) (s_up h) (s_ended h).
Definition sset_out (x : list ChaincodeMessage) (h : Shim) : Shim :=
  mkShim (s_FSM h) (s_responseChannel h) (s_isTransaction h) (s_nextState h) (s_tasks h) x (s_up h) (s_ended h).
Definition sset_ended (h : Shim) : Shim :=
  mkShim (s_FSM h) (s_responseChannel h) (s_isTransaction h) (s_nextState h) (s_tasks h) (s_out h) (s_up h) true.

Definition shim_serialSend (msg : ChaincodeMessage) : M Shim bool :=
  up ← gets s_up;
  if (up : bool) then _ ← modify (λ h, sset_out (s_out h ++ [msg]) h); mret true else mret false.

(** ** Channels *)
Definition createChannel (txid : bytes) : M Shim (option bytes) :=
  chans ← gets s_responseChannel;
  if bool_decide (txid ∈ chans)
  then mret (Some (bytes_of_string "[" ++ shorttxid txid ++ bytes_of_string "]Channel exists"))
  else _ ← modify (sset_channels ({[txid]} ∪ chans)); mret None.
Definition deleteChannel (txid : bytes) : M Shim unit :=
  modify (λ h, sset_channels (s_responseChannel h ∖ {[txid]}) h).

Definition waits_for (txid : bytes) (t : cctask) : bool :=
  match t with CWaiting txid' _ => bool_decide (txid' = txid) | _ => false end.

(** The send on the unbuffered channel, with the handler's lock held: it
    blocks unless a goroutine is receiving. *)
Definition sendChannel (msg : ChaincodeMessage) : M Shim bool :=
  chans ← gets s_responseChannel;
  if bool_decide (cm_Txid msg ∈ chans) then
    tasks ← gets s_tasks;
    match list_find (waits_for (cm_Txid msg)) tasks with
    | Some (i, CWaiting txid k) => _ ← modify (sset_tasks (<[i := CReceived txid (k msg)]> tasks)); mret true
    | _ => out_of_fuel
    end
  else mret false.

Definition shim_markIsTransaction (txid : bytes) (isTrans : bool) : M Shim unit :=
  modify (λ h, sset_isTransaction (<[txid := isTrans]> (s_isTransaction h)) h).
Definition shim_deleteIsTransaction (txid : bytes) : M Shim unit :=
  modify (λ h, sset_isTransaction (delete txid (s_isTransaction h)) h).
Definition shim_triggerNextState (msg : ChaincodeMessage) (send : bool) : M Shim unit :=
  modify (λ h, sset_nextState (s_nextState h ++ [(msg, send)]) h).

(** ** The state machine *)
Definition shim_events : list (EventDesc ccstate MsgType) := [
  mkEventDesc REGISTERED [createdstate] establishedstate;
  mkEventDesc INIT [establishedstate] initstate;
  mkEventDesc READY [establishedstate] readystate;
  mkEventDesc ERROR [initstate] establishedstate;
  mkEventDesc RESPONSE [initstate] initstate;
  mkEventDesc COMPLETED [initstate] readystate;
  mkEventDesc TRANSACTION [readystate] transactionstate;
  mkEventDesc COMPLETED [transactionstate] readystate;
  mkEventDesc ERROR [transactionstate] readystate;
  mkEventDesc RESPONSE [transactionstate] transactionstate;
  mkEventDesc RESPONSE [readystate] readystate ].

Definition beforeRegistered (msg : ChaincodeMessage) : M Shim (option unit) := mret None.
Definition afterResponse (msg : ChaincodeMessage) : M Shim (option unit) := _ ← sendChannel msg; mret None.
Definition afterError (msg : ChaincodeMessage) : M Shim (option unit) := _ ← sendChannel msg; mret None.
Definition shim_enterInitState (msg : ChaincodeMessage) : M Shim (option unit) :=
  if bool_decide (cm_Type msg = INIT)
  then _ ← modify (λ h, sset_tasks (s_tasks h ++ [CSpawned true msg]) h); mret None else mret None.
Definition enterTransactionState (msg : ChaincodeMessage) : M Shim (option unit) :=
  if bool_decide (cm_Type msg = TRANSACTION)
  then _ ← modify (λ h, sset_tasks (s_tasks h ++ [CSpawned false msg]) h); mret None else mret None.

Definition shim_callbacks : Callbacks ccstate MsgType Shim ChaincodeMessage unit := mkCallbacks
  (λ e, match e with Some REGISTERED => Some beforeRegistered | _ => None end)
  (λ _, None)
  (λ s, match s with
        | Some initstate => Some shim_enterInitState
        | Some transactionstate => Some enterTransactionState
        | _ => None
        end)
  (λ e, match e with Some RESPONSE => Some afterResponse | Some ERROR => Some afterError | _ => None end).

(** The names of the states, for the error below. *)
Definition state_name (s : ccstate) : bytes :=
  match s with
  | createdstate => bytes_of_string "created" | establishedstate => bytes_of_string "established"
  | initstate => bytes_of_string "init" | readystate => bytes_of_string "ready"
  | transactionstate => bytes_of_string "transaction" | busyinitstate => bytes_of_string "busyinit"
  | busyxactstate => bytes_of_string "busyxact" | endstate => bytes_of_string "end"
  end.

Definition cannot_text (msg : ChaincodeMessage) (s : ccstate) : bytes :=
  bytes_of_string "[" ++ cm_Txid msg ++ bytes_of_string "]Chaincode handler FSM cannot handle message ("
  ++ MsgType_String (cm_Type msg) ++ bytes_of_string ") with payload size ("
  ++ FormatInt (Z.of_nat (length (sl (cm_Payload msg)))) ++ bytes_of_string ") while in state: " ++ state_name s.

(** Whether an error is returned, which ends the loop. *)
Definition handleMessage (msg : ChaincodeMessage) : M Shim bool :=
  if bool_decide (cm_Type msg = KEEPALIVE) then mret false
  else
    s ← gets s_FSM;
    cannot ← gets (Cannot s_FSM shim_events (cm_Type msg));
    if (cannot : bool) then
      _ ← shim_serialSend (newMsg ERROR (Some (cannot_text msg s)) (cm_Txid msg));
      mret true
    else
      e ← Event s_FSM sset_FSM shim_events shim_callbacks (cm_Type msg) msg;
      mret (filterError e).

(** ** Answers *)
Definition incorrect_text : bytes := bytes_of_string "Incorrect chaincode message received".

(** [handleGetState], after the answer *)
Definition get_result (m : ChaincodeMessage) : bytes + slice :=
  match cm_Type m with
  | RESPONSE => inr (cm_Payload m)
  | ERROR => inl (sl (cm_Payload m))
  | _ => inl incorrect_text
  end.
(** [handlePutState] and [handleDelState] *)
Definition put_result (m : ChaincodeMessage) : option bytes :=
  match cm_Type m with
  | RESPONSE => None
  | ERROR => Some (sl (cm_Payload m))
  | _ => Some incorrect_text
  end.
(** [handleRangeQueryState], [handleRangeQueryStateNext] and
    [handleRangeQueryStateClose] *)
Definition range_result (m : ChaincodeMessage) : bytes + RangeQueryStateResponse :=
  match cm_Type m with
  | RESPONSE =>
      match Unmarshal (sl (cm_Payload m)) with
      | Some r => inr r
      | None => inl (bytes_of_string "Error unmarshalling RangeQueryStateResponse.")
      end
  | ERROR => inl (sl (cm_Payload m))
  | _ => inl incorrect_text
  end.
(** [handleInvokeChaincode]: the payload is the message of the called
    chaincode. *)
Definition invoke_result (m : ChaincodeMessage) : bytes + slice :=
  match cm_Type m with
  | RESPONSE =>
      match Unmarshal (A := ChaincodeMessage) (sl (cm_Payload m)) with
      | Some respMsg =>
          if bool_decide (cm_Type respMsg = COMPLETED) then inr (cm_Payload respMsg) else inl (sl (cm_Payload respMsg))
      | None => inl (unmarshal_text (sl (cm_Payload m)))
      end
  | ERROR => inl (sl (cm_Payload m))
  | _ => inl incorrect_text
  end.

(** ** Requests *)
Definition cctask_set (i : nat) (t : cctask) : M Shim unit := modify (λ h, sset_tasks (<[i := t]> (s_tasks h)) h).
Definition cctask_end (i : nat) : M Shim unit := modify (λ h, sset_tasks (list_delete i (s_tasks h)) h).

(** The common part of the stub's functions: create the channel, send the
    request, wait.  [fail] continues with the text of an error, [k] with the
    answer.  [payload] is [None] when the request could not be marshalled,
    which only the functions that marshal after creating the channel get to. *)
Definition request (i : nat) (txid : bytes) (t : MsgType) (payload : option slice) (marshal_failed : bytes)
    (fail : bytes → ccprog) (k : ChaincodeMessage → ccprog) : M Shim unit :=
  busy ← createChannel txid;
  match busy with
  | Some text => cctask_set i (CRunning txid (fail text))
  | None =>
      match payload with
      | None => _ ← deleteChannel txid; cctask_set i (CRunning txid (fail marshal_failed))
      | Some payload =>
          sent ← shim_serialSend (newMsg t payload txid);
          if (sent : bool) then cctask_set i (CWaiting txid k)
          else _ ← deleteChannel txid; cctask_set i (CRunning txid (fail (bytes_of_string "could not send msg")))
      end
  end.

(** Updates are only for transactions. *)
Definition in_transaction (i : nat) (txid : bytes) (refused : ccprog) (m : M Shim unit) : M Shim unit :=
  trans ← gets s_isTransaction;
  if default false (trans !! txid) then m else cctask_set i (CRunning txid refused).

Definition handlePutState (i : nat) (txid key : bytes) (value : slice) (k : option bytes → ccprog) : M Shim unit :=
  in_transaction i txid (k (Some (bytes_of_string "Cannot put state in query context")))
    (match Marshal (mkPutStateInfo key value) with
     | None => cctask_set i (CRunning txid (k (Some (bytes_of_string "Failed to process put state request"))))
     | Some payload =>
         request i txid PUT_STATE (Some (Some payload)) [] (λ e, k (Some e)) (λ m, k (put_result m))
     end).
Definition handleDelState (i : nat) (txid key : bytes) (k : option bytes → ccprog) : M Shim unit :=
  in_transaction i txid (k (Some (bytes_of_string "Cannot del state in query context")))
    (request i txid DEL_STATE (Some (Some key)) [] (λ e, k (Some e)) (λ m, k (put_result m))).
Definition shim_handleGetState (i : nat) (txid key : bytes) (k : bytes + slice → ccprog) : M Shim unit :=
  request i txid GET_STATE (Some (Some key)) [] (λ e, k (inl e)) (λ m, k (get_result m)).
Definition handleRange (i : nat) (txid : bytes) (t : MsgType) (payload : option bytes) (failed : bytes)
    (k : bytes + RangeQueryStateResponse → ccprog) : M Shim unit :=
  request i txid t (Some <$> payload) failed (λ e, k (inl e)) (λ m, k (range_result m)).
Definition handleInvokeChaincode (i : nat) (txid name : bytes) (args : list bytes) (k : bytes + slice → ccprog)
    : M Shim unit :=
  in_transaction i txid (k (inl (bytes_of_string "Cannot invoke chaincode in query context")))
    (match Marshal (mkChaincodeSpec 0 (Some (mkChaincodeID [] name)) (Some args) 0 [] 0 None []) with
     | None => cctask_set i (CRunning txid (k (inl (bytes_of_string "Failed to process invoke chaincode request"))))
     | Some payload =>
         request i txid INVOKE_CHAINCODE (Some (Some payload)) [] (λ e, k (inl e)) (λ m, k (invoke_result m))
     end).

(** [handleInit] and [handleTransaction]: the start of the goroutine. *)
Definition start_chaincode (i : nat) (init : bool) (msg : ChaincodeMessage) : M Shim unit :=
  match Unmarshal (A := ChaincodeInput) (sl (cm_Payload msg)) with
  | None =>
      _ ← cctask_end i;
      shim_triggerNextState (newMsg ERROR (Some (unmarshal_text (sl (cm_Payload msg)))) (cm_Txid msg)) true
  | Some input =>
      _ ← shim_markIsTransaction (cm_Txid msg) true;
      cctask_set i (CRunning (cm_Txid msg) ((if init then cc_Init cc else cc_Invoke cc) (ci_Args input)))
  end.

(** Its end: the chaincode's error or result. *)
Definition end_chaincode (i : nat) (txid : bytes) (r : bytes + slice) (ev : option ChaincodeEvent) : M Shim unit :=
  _ ← shim_deleteIsTransaction txid;
  _ ← cctask_end i;
  shim_triggerNextState
    (match r with
     | inl err => mkMsg ERROR None (Some err) txid ev
     | inr res => mkMsg COMPLETED None res txid ev
     end) true.

Definition cctask_step (i : nat) : M Shim unit :=
  tasks ← gets s_tasks;
  match tasks !! i with
  | None | Some (CWaiting _ _) => mret tt
  | Some (CSpawned init msg) => start_chaincode i init msg
  | Some (CReceived txid p) => _ ← deleteChannel txid; cctask_set i (CRunning txid p)
  | Some (CRunning txid p) =>
      match p with
      | PReturn r ev => end_chaincode i txid r ev
      | PGetState key k => shim_handleGetState i txid key k
      | PPutState key value k => handlePutState i txid key value k
      | PDelState key k => handleDelState i txid key k
      | PRangeQueryState a b k =>
          handleRange i txid RANGE_QUERY_STATE (Marshal (mkRangeQueryState a b))
            (bytes_of_string "Failed to process range query state request") k
      | PRangeQueryStateNext id k =>
          handleRange i txid RANGE_QUERY_STATE_NEXT (Marshal (mkRangeQueryStateNext id))
            (bytes_of_string "Failed to process range query state next request") k
      | PRangeQueryStateClose id k =>
          handleRange i txid RANGE_QUERY_STATE_CLOSE (Marshal (mkRangeQueryStateClose id))
            (bytes_of_string "Failed to process range query state close request") k
      | PInvokeChaincode name args k => handleInvokeChaincode i txid name args k
      end
  end.

(** ** The loop of [chatWithPeer] *)
Definition shim_recv (in_ : option ChaincodeMessage) : M Shim unit :=
  match in_ with
  | None => modify sset_ended
  | Some msg =>
      err ← handleMessage msg;
      if (err : bool) then modify sset_ended
      else if bool_decide (cm_Type msg = KEEPALIVE) then
        sent ← shim_serialSend msg;
        if (sent : bool) then mret tt else modify sset_ended
      else mret tt
  end.
Definition shim_next (i : nat) : M Shim unit :=
  waiting ← gets s_nextState;
  match waiting !! i with
  | None => mret tt
  | Some (msg, send) =>
      _ ← modify (sset_nextState (list_delete i waiting));
      err ← handleMessage msg;
      if (err : bool) then modify sset_ended
      else if send || bool_decide (cm_Type msg = KEEPALIVE) then
        sent ← shim_serialSend msg;
        if (sent : bool) then mret tt else modify sset_ended
      else mret tt
  end.

(** The first message of [chatWithPeer], whose send error is ignored. *)
Definition register (chaincodename : bytes) : M Shim bool :=
  match Marshal (mkChaincodeID [] chaincodename) with
  | None => mret false
  | Some payload => _ ← shim_serialSend (newMsg REGISTER (Some payload) []); mret true
  end.
End shim.
