(* ===== verification/CcStream.v ===== *)
(** * A peer and a chaincode at the two ends of a stream

    The two handlers with the messages in flight between them, and the steps
    the whole can take: either end receives a message or serves one of its own
    goroutines, a goroutine runs, the peer sends a keepalive.  The stream keeps
    messages in order and does not fail; [wire] is what a message is on the
    other side: itself for a chaincode in the peer's process
    (inprocstream.go), decoded from its encoding over gRPC. *)

From Stdlib Require Import Strings.Byte.
From stdpp Require Import base numbers strings gmap list.
From S2P Require Import Prelude Fsm PeerTypes PeerTx CcTypes CcHandler CcShim.
Local Open Scope Z_scope.

Record Sys (S It : Type) := mkSys { y_peer : HW S It; y_shim : Shim }.
Arguments mkSys {S It}.
Arguments y_peer {S It}.
Arguments y_shim {S It}.

Inductive move :=
  | MPeerRecv
  | MPeerNext (i : nat)
  | MPeerTask (i : nat) (uuid : bytes) (outcome : bytes + ChaincodeMessage)
  | MKeepalive
  | MShimRecv
  | MShimNext (i : nat)
  | MShimTask (i : nat).

Section stream.
Context {S It : Type} `{!TxSimulator S It, !ErrorText}.
Context `{!Proto ChaincodeID, !Proto PutStateInfo, !Proto RangeQueryState, !Proto RangeQueryStateNext,
  !Proto RangeQueryStateClose, !Proto RangeQueryStateResponse, !Proto ChaincodeSpec, !Proto ChaincodeInput,
  !Proto ChaincodeMessage}.
Context (cc : Chaincode) (wire : ChaincodeMessage → ChaincodeMessage).
Abbreviation System := (Sys S It).

Definition peer_do (a : action) (y : System) : res System :=
  '(_, w) ← peer_step a (y_peer y); Ok (mkSys w (y_shim y)).
Definition shim_do (m : M Shim unit) (y : System) : res System :=
  if s_ended (y_shim y) then Ok y
  else '(_, h) ← m (y_shim y); Ok (mkSys (y_peer y) h).

Definition pop_shim (y : System) : System := mkSys (y_peer y) (sset_out (tail (s_out (y_shim y))) (y_shim y)).
Definition pop_peer (y : System) : System := mkSys (set_h (λ h, set_out (tail (h_out h)) h) (y_peer y)) (y_shim y).

(** An end whose loop has returned receives nothing; the other end then finds
    the end of the stream. *)
Definition sys_step (mv : move) (y : System) : res System :=
  match mv with
  | MPeerRecv =>
      if h_ended (w_h (y_peer y)) then Ok y
      else match s_out (y_shim y) with
           | m :: _ => peer_do (ARecv (Some (wire m))) (pop_shim y)
           | [] => if s_ended (y_shim y) then peer_do (ARecv None) y else Ok y
           end
  | MPeerNext i => peer_do (ANext i) y
  | MPeerTask i uuid outcome => peer_do (ATask i uuid outcome) y
  | MKeepalive => peer_do AKeepalive y
  | MShimRecv =>
      match h_out (w_h (y_peer y)) with
      | m :: _ => if s_ended (y_shim y) then Ok y else shim_do (shim_recv (Some (wire m))) (pop_peer y)
      | [] => if h_ended (w_h (y_peer y)) then shim_do (shim_recv None) y else Ok y
      end
  | MShimNext i => shim_do (shim_next i) y
  | MShimTask i => shim_do (cctask_step cc i) y
  end.

Fixpoint sys_run (l : list move) (y : System) : res System :=
  match l with [] => Ok y | mv :: l => y ← sys_step mv y; sys_run l y end.

(** ** What a chaincode does to a simulator by itself

    Each call of the stub is an operation of the simulator in the chaincode's
    namespace.  A value written has been marshalled on the way, so that an
    empty one is a deletion; a value read has crossed the stream.  [None]: an
    operation of the simulator failed, or the chaincode queried a range or
    called another chaincode. *)
Fixpoint direct (ns txid : bytes) (p : ccprog) : M S (option ((bytes + slice) * option ChaincodeEvent)) :=
  match p with
  | PReturn r ev => mret (Some (r, ev))
  | PGetState key k =>
      r ← ts_GetState ns key;
      match r with
      | inl _ => mret None
      | inr v => direct ns txid (k (inr (cm_Payload (wire (newMsg RESPONSE v txid)))))
      end
  | PPutState key value k =>
      e ← ts_SetState ns key (norm value);
      match e with Some _ => mret None | None => direct ns txid (k None) end
  | PDelState key k =>
      e ← ts_DeleteState ns key;
      match e with Some _ => mret None | None => direct ns txid (k None) end
  | _ => mret None
  end.
End stream.
