(* ===== verification/CcStreamProofs.v ===== *)
(** * Executing a chaincode over its stream

    The peer asks for an execution; the chaincode runs, its calls travel to the
    peer and their answers back, among keepalives and in any interleaving of
    the goroutines of both ends; at last the peer's waiter finds the chaincode's
    result.  The theorem is that this is the same as running the chaincode
    directly on the simulator.  The proof follows the execution through its
    phases: in each, one step is possible, apart from keepalives. *)

From Stdlib Require Import Strings.Byte.
From stdpp Require Import base numbers strings gmap list.
From S2P Require Import Prelude Fsm PeerTypes PeerTx CcTypes CcHandler CcShim CcStream.
Local Open Scope Z_scope.

(** An event of a machine without general callbacks. *)
Section event_ok.
Context {St Ev : Type} `{!EqDecision St, !EqDecision Ev} {W Arg Err : Type}.
Context (current : W → St) (set_current : St → W → W).
Context (events : list (EventDesc St Ev)) (cbs : Callbacks St Ev W Arg Err).
Context (Hb : cb_before cbs None = None) (Hl : ∀ s, cb_leave cbs s = None)
  (He : cb_enter cbs None = None) (Ha : cb_after cbs None = None).

Abbreviation Cb := (option (Callback (W := W) (Arg := Arg) (Err := Err))).
Lemma cancellable_ok (c : Cb) arg w w' : call c arg w = Ok (None, w') → cancellable c None arg w = Ok (None, w').
Proof. intros E. unfold cancellable. by erewrite bind_ok; [|exact E]. Qed.
Lemma uncancellable_ok (c : Cb) arg e w e' w' :
  call c arg w = Ok (e', w') → uncancellable c None e arg w = Ok (later e e', w').
Proof. intros E. unfold uncancellable. by erewrite bind_ok; [|exact E]. Qed.

Lemma Event_same event arg w w' :
  transitions events event (current w) = Some (current w) →
  cb_before cbs (Some event) = None → call (cb_after cbs (Some event)) arg w = Ok (None, w') →
  Event current set_current events cbs event arg w = Ok (Some (NoTransitionError None), w').
Proof.
  intros Ht H1 H2. unfold Event. erewrite bind_ok; [|done]. rewrite Ht, H1, Hb, Ha.
  erewrite bind_ok; [|by apply cancellable_ok]. cbv iota. erewrite bind_ok; [|done].
  rewrite bool_decide_eq_true_2 by done. by erewrite bind_ok; [|by apply uncancellable_ok].
Qed.

(** Callbacks of a transition that is made cannot cancel it any more. *)
Lemma Event_moves_err event arg dst w e1 w1 e2 w2 :
  transitions events event (current w) = Some dst → current w ≠ dst →
  call (cb_before cbs (Some event)) arg w = Ok (None, w) →
  call (cb_enter cbs (Some dst)) arg (set_current dst w) = Ok (e1, w1) →
  call (cb_after cbs (Some event)) arg w1 = Ok (e2, w2) →
  Event current set_current events cbs event arg w = Ok (CallbackError <$> later (later None e1) e2, w2).
Proof.
  intros Ht Hne H1 H2 H3. unfold Event. erewrite bind_ok; [|done]. rewrite Ht, Hb, He, Ha.
  erewrite bind_ok; [|by apply cancellable_ok]. cbv iota. erewrite bind_ok; [|done].
  rewrite bool_decide_eq_false_2 by done. rewrite !Hl. erewrite bind_ok; [|done]. cbv iota.
  erewrite bind_ok; [|done]. erewrite bind_ok; [|by apply uncancellable_ok].
  by erewrite bind_ok; [|by apply uncancellable_ok].
Qed.
Lemma Event_moves event arg dst w w1 w2 :
  transitions events event (current w) = Some dst → current w ≠ dst →
  call (cb_before cbs (Some event)) arg w = Ok (None, w) →
  call (cb_enter cbs (Some dst)) arg (set_current dst w) = Ok (None, w1) →
  call (cb_after cbs (Some event)) arg w1 = Ok (None, w2) →
  Event current set_current events cbs event arg w = Ok (None, w2).
Proof. intros. by eapply (Event_moves_err _ _ _ _ None w1 None w2). Qed.
End event_ok.

Section phases.
Context {S It : Type} `{!TxSimulator S It, !ErrorText}.
Context `{!Proto ChaincodeID, !Proto PutStateInfo, !Proto RangeQueryState, !Proto RangeQueryStateNext,
  !Proto RangeQueryStateClose, !Proto RangeQueryStateResponse, !Proto ChaincodeSpec, !Proto ChaincodeInput,
  !Proto ChaincodeMessage}.
Context (cc : Chaincode) (wire : ChaincodeMessage → ChaincodeMessage).
Abbreviation System := (Sys S It).

(** ** The stream and protobuf *)
Record wire_laws : Prop := {
  wire_Type m : cm_Type (wire m) = cm_Type m;
  wire_Txid m : cm_Txid (wire m) = cm_Txid m;
  wire_Payload m : sl (cm_Payload (wire m)) = sl (cm_Payload m) }.

(** A marshalled message is decoded to itself, but for empty byte fields. *)
Record codec_laws : Prop := {
  put_codec key v : ∃ b, Marshal (mkPutStateInfo key v) = Some b
    ∧ Unmarshal b = Some (mkPutStateInfo key (norm v));
  input_codec args : ∃ b, Marshal (mkChaincodeInput args) = Some b
    ∧ Unmarshal b = Some (mkChaincodeInput args) }.
Context (WL : wire_laws) (CL : codec_laws).

(** ** One execution

    The handler [hid] of the chaincode [cid], the transaction [txid] with the
    simulator [simr], as an initialisation or an invocation. *)
Context (hid : positive) (cid : ChaincodeID) (running : gmap bytes chaincodeRTEnv) (init : bool)
  (txid : bytes) (simr : positive) (args : list bytes) (rn0 rn : option (list bool))
  (ctxs0 : gmap bytes (transactionContext It)) (trans0 strans0 : gmap bytes bool)
  (sims0 : gmap positive S).
Abbreviation ns := (cid_Name cid).

Definition idle_state : ccstate := if init then establishedstate else readystate.
Definition run_state : ccstate := if init then initstate else transactionstate.
Definition busy_state : ccstate := if init then busyinitstate else busyxactstate.

(** Both ends with nothing to do. *)
Definition quiet (st : ccstate) (r : option (list bool)) (ctxs : gmap bytes (transactionContext It))
    (trans strans : gmap bytes bool) (sims : gmap positive S) : System :=
  mkSys (mkHW hid (mkHandler st (Some cid) true r (Some ctxs) (Some ∅) (Some trans) [] [] [] true false) running sims)
        (mkShim st ∅ strans [] [] [] true false).

Definition input_bytes : bytes := default [] (Marshal (mkChaincodeInput args)).
Definition start_msg : ChaincodeMessage := newMsg (if init then INIT else TRANSACTION) (Some input_bytes) txid.
(** What the peer does to begin. *)
Definition start_action : action :=
  if init then AInit simr txid (Some args) else AExecute simr start_msg.

Inductive phase :=
  | PhTrigger
  | PhStart
  | PhSpawned
  | PhRun (p : ccprog)
  | PhReq (kd : request_kind) (req : ChaincodeMessage) (k : ChaincodeMessage → ccprog)
  | PhClaim (kd : request_kind) (req : ChaincodeMessage) (k : ChaincodeMessage → ccprog)
  | PhWork (kd : request_kind) (req : ChaincodeMessage) (k : ChaincodeMessage → ccprog)
  | PhAnswer (kd : request_kind) (rep : ChaincodeMessage) (k : ChaincodeMessage → ccprog)
  | PhReply (rep : ChaincodeMessage) (k : ChaincodeMessage → ccprog)
  | PhReceived (p : ccprog)
  | PhFinish (m : ChaincodeMessage)
  | PhDone (m : ChaincodeMessage)
  | PhNotified (m : ChaincodeMessage).

Definition is_busy (kd : request_kind) : bool := match kd with KBusy => true | _ => false end.

(** The peer in a phase. *)
Definition ph_FSM (ph : phase) : ccstate :=
  match ph with
  | PhTrigger => idle_state
  | PhClaim KBusy _ _ | PhWork KBusy _ _ | PhAnswer KBusy _ _ => busy_state
  | PhNotified _ => readystate
  | _ => run_state
  end.
Definition ph_next (ph : phase) : list (ChaincodeMessage * bool) :=
  match ph with
  | PhTrigger => [(start_msg, negb init)]
  | PhAnswer KBusy rep _ => [(rep, true)]
  | _ => []
  end.
Definition ph_tasks (ph : phase) : list task :=
  match ph with
  | PhClaim kd req _ => [TSpawned kd (wire req)]
  | PhWork kd req _ => [TRunning kd (wire req)]
  | PhAnswer KBusy _ _ => []
  | PhAnswer _ rep _ => [TSending rep]
  | _ => []
  end.
Definition ph_out (ph : phase) : list ChaincodeMessage :=
  match ph with PhStart => [start_msg] | PhReply rep _ => [rep] | _ => [] end.
Definition ph_used (ph : phase) : gset bytes := match ph with PhWork _ _ _ => {[txid]} | _ => ∅ end.
Definition ph_notified (ph : phase) : list ChaincodeMessage :=
  match ph with PhNotified m => [wire m] | _ => [] end.
Definition marked : gmap bytes bool := <[txid := true]> trans0.
Definition ph_trans (ph : phase) : gmap bytes bool :=
  match ph with
  | PhTrigger => if init then trans0 else marked
  | PhNotified _ => delete txid marked
  | _ => marked
  end.
Definition ph_ready (ph : phase) : option (list bool) := match ph with PhTrigger => rn0 | _ => rn end.

(** The shim in a phase. *)
Definition sh_FSM (ph : phase) : ccstate :=
  match ph with
  | PhTrigger | PhStart => idle_state
  | PhDone _ | PhNotified _ => readystate
  | _ => run_state
  end.
Definition sh_channels (ph : phase) : gset bytes :=
  match ph with
  | PhReq _ _ _ | PhClaim _ _ _ | PhWork _ _ _ | PhAnswer _ _ _ | PhReply _ _ | PhReceived _ => {[txid]}
  | _ => ∅
  end.
Definition smarked : gmap bytes bool := <[txid := true]> strans0.
Definition sh_trans (ph : phase) : gmap bytes bool :=
  match ph with
  | PhTrigger | PhStart | PhSpawned => strans0
  | PhFinish _ | PhDone _ | PhNotified _ => delete txid smarked
  | _ => smarked
  end.
Definition sh_next (ph : phase) : list (ChaincodeMessage * bool) :=
  match ph with PhFinish m => [(m, true)] | _ => [] end.
Definition sh_tasks (ph : phase) : list cctask :=
  match ph with
  | PhSpawned => [CSpawned init (wire start_msg)]
  | PhRun p => [CRunning txid p]
  | PhReq _ _ k | PhClaim _ _ k | PhWork _ _ k | PhAnswer _ _ k | PhReply _ k => [CWaiting txid k]
  | PhReceived p => [CReceived txid p]
  | _ => []
  end.
Definition sh_out (ph : phase) : list ChaincodeMessage :=
  match ph with PhReq _ req _ => [req] | PhDone m => [m] | _ => [] end.

(** The system in a phase; [op] and [os] are the messages in flight. *)
Definition conf (ph : phase) (s : S) (op os : list ChaincodeMessage) : System :=
  mkSys
    (mkHW hid (mkHandler (ph_FSM ph) (Some cid) true (ph_ready ph)
       (Some (<[txid := mkTxContext (ph_notified ph) ∅ simr]> ctxs0)) (Some (ph_used ph)) (Some (ph_trans ph))
       (ph_next ph) (ph_tasks ph) op true false) running (<[simr := s]> sims0))
    (mkShim (sh_FSM ph) (sh_channels ph) (sh_trans ph) (sh_next ph) (sh_tasks ph) os true false).

(** Keepalives aside, the messages in flight are those of the phase. *)
Definition is_ka (m : ChaincodeMessage) : bool := bool_decide (cm_Type m = KEEPALIVE).
Definition no_ka (l : list ChaincodeMessage) : list ChaincodeMessage := filter (λ m, is_ka m = false) l.
Definition at_phase (ph : phase) (s : S) (y : System) : Prop :=
  ∃ op os, y = conf ph s op os ∧ no_ka op = ph_out ph ∧ no_ka os = sh_out ph.

Ltac unfold_phase :=
  cbv [conf ph_FSM ph_next ph_tasks ph_out ph_used ph_notified ph_trans ph_ready sh_FSM sh_channels sh_trans
       sh_next sh_tasks sh_out idle_state run_state busy_state start_msg].
(** A message on the other side: its type, id and payload are known. *)
Ltac cross :=
  match goal with |- context [wire ?m] =>
  let E1 := fresh "E" in let E2 := fresh "E" in let E3 := fresh "E" in
  pose proof (wire_Type WL m) as E1; pose proof (wire_Txid WL m) as E2; pose proof (wire_Payload WL m) as E3;
  let wt := fresh "wt" in let ws := fresh "ws" in let wp := fresh "wp" in let wi := fresh "wi" in let we := fresh "we" in destruct (wire m) as [wt ws wp wi we]; cbn [cm_Type cm_Txid cm_Payload newMsg] in E1, E2, E3; subst
  end.

Lemma step_start s op os :
  sys_step cc wire MShimRecv (conf PhStart s (start_msg :: op) os) = Ok (conf PhSpawned s op os).
Proof. unfold_phase. cbn [sys_step y_peer w_h h_out]. cross. destruct init; reflexivity. Qed.

Lemma input_ok : Unmarshal (A := ChaincodeInput) input_bytes = Some (mkChaincodeInput args).
Proof. unfold input_bytes. destruct (input_codec CL args) as (b & -> & E). done. Qed.

Definition body : ccprog := (if init then cc_Init cc else cc_Invoke cc) args.
Definition final_msg (r : bytes + slice) (ev : option ChaincodeEvent) : ChaincodeMessage :=
  match r with
  | inl err => mkMsg ERROR None (Some err) txid ev
  | inr v => mkMsg COMPLETED None v txid ev
  end.

(** The requests of a program. *)
Inductive issue : ccprog → request_kind → ChaincodeMessage → (ChaincodeMessage → ccprog) → Prop :=
  | issue_get key k :
      issue (PGetState key k) KGet (newMsg GET_STATE (Some key) txid) (λ m, k (get_result m))
  | issue_put key v k b :
      Marshal (mkPutStateInfo key v) = Some b →
      issue (PPutState key v k) KBusy (newMsg PUT_STATE (Some b) txid) (λ m, k (put_result m))
  | issue_del key k :
      issue (PDelState key k) KBusy (newMsg DEL_STATE (Some key) txid) (λ m, k (put_result m)).

Lemma marked_txid : marked !! txid = Some true.
Proof. apply lookup_insert_eq. Qed.
Lemma smarked_txid : smarked !! txid = Some true.
Proof. apply lookup_insert_eq. Qed.
Lemma free_txid {d : Decision (txid ∈ (∅ : gset bytes))} : bool_decide (txid ∈ (∅ : gset bytes)) = false.
Proof. apply bool_decide_eq_false_2, not_elem_of_empty. Qed.
Lemma used_txid {d : Decision (txid ∈ ({[txid]} : gset bytes))} : bool_decide (txid ∈ ({[txid]} : gset bytes)) = true.
Proof. by apply bool_decide_eq_true_2, elem_of_singleton. Qed.
Lemma claim_txid : {[txid]} ∪ (∅ : gset bytes) = {[txid]}.
Proof. apply union_empty_r_L. Qed.
Lemma release_txid : {[txid]} ∖ ({[txid]} : gset bytes) = ∅.
Proof. apply difference_diag_L. Qed.

Lemma shim_do_ok m (y : System) h : s_ended (y_shim y) = false → m (y_shim y) = Ok (tt, h) → shim_do m y = Ok (mkSys (y_peer y) h).
Proof. intros E1 E2. unfold shim_do. by rewrite E1, E2. Qed.
Lemma peer_do_ok a (y : System) w : peer_step a (y_peer y) = Ok (tt, w) → peer_do a y = Ok (mkSys w (y_shim y)).
Proof. intros E. unfold peer_do. by rewrite E. Qed.

Lemma step_spawned s op os :
  sys_step cc wire (MShimTask 0) (conf PhSpawned s op os) = Ok (conf (PhRun body) s op os).
Proof.
  unfold_phase. cross. apply shim_do_ok; [done|]; cbn [y_shim y_peer].
  match goal with |- cctask_step _ _ ?h = _ => match h with context [CSpawned ?i ?m] => change (start_chaincode cc 0 i m h = Ok (tt, sset_isTransaction smarked (sset_tasks [CRunning txid body] h))) end end.
  unfold start_chaincode. cbn [cm_Payload]. rewrite E1. change (sl (Some input_bytes)) with input_bytes. by rewrite input_ok.
Qed.

Lemma step_return r ev s op os :
  sys_step cc wire (MShimTask 0) (conf (PhRun (PReturn r ev)) s op os) = Ok (conf (PhFinish (final_msg r ev)) s op os).
Proof. unfold_phase. destruct init, r; reflexivity. Qed.

(** A request of the chaincode, with no other request of its transaction. *)
Lemma request_ok p t payload text fail k st trans nx :
  ∀ os, request 0 txid t (Some payload) text fail k (mkShim st ∅ trans nx [CRunning txid p] os true false)
  = Ok (tt, mkShim st {[txid]} trans nx [CWaiting txid k] (os ++ [newMsg t payload txid]) true false).
Proof.
  intros os. unfold request, createChannel, mbind, M_bind, gets, mret, M_ret, modify. cbn [s_responseChannel].
  rewrite free_txid, claim_txid. reflexivity.
Qed.

Lemma step_issue p kd req k s op os :
  issue p kd req k →
  sys_step cc wire (MShimTask 0) (conf (PhRun p) s op os) = Ok (conf (PhReq kd req k) s op (os ++ [req])).
Proof.
  intros Hi. unfold_phase. apply shim_do_ok; [done|]; cbn [y_shim y_peer]. destruct Hi as [key k|key v k b Hb|key k].
  - exact (request_ok _ _ _ _ _ _ _ _ _ os).
  - match goal with |- cctask_step _ _ ?h = _ => change (handlePutState 0 txid key v k h =
      Ok (tt, sset_out (os ++ [newMsg PUT_STATE (Some b) txid]) (sset_channels {[txid]} (sset_tasks [CWaiting txid (λ m, k (put_result m))] h)))) end.
    unfold handlePutState, in_transaction, mbind, M_bind, gets. cbn [s_isTransaction]. rewrite smarked_txid, Hb.
    exact (request_ok _ _ _ _ _ _ _ _ _ os).
  - match goal with |- cctask_step _ _ ?h = _ => change (handleDelState 0 txid key k h =
      Ok (tt, sset_out (os ++ [newMsg DEL_STATE (Some key) txid]) (sset_channels {[txid]} (sset_tasks [CWaiting txid (λ m, k (put_result m))] h)))) end.
    unfold handleDelState, in_transaction, mbind, M_bind, gets. cbn [s_isTransaction]. rewrite smarked_txid.
    exact (request_ok _ _ _ _ _ _ _ _ _ os).
Qed.

Lemma step_req p kd req k s op os :
  issue p kd req k →
  sys_step cc wire MPeerRecv (conf (PhReq kd req k) s op (req :: os)) = Ok (conf (PhClaim kd req k) s op os).
Proof.
  intros Hi. unfold_phase. cbn [sys_step y_peer w_h h_ended y_shim s_out].
  cross. destruct Hi; destruct init; reflexivity.
Qed.

(** The work on a request: the simulator's step and the answer. *)
Definition work (kd : request_kind) (req : ChaincodeMessage) (s : S) (v : slice) (s' : S) : Prop :=
  match cm_Type req with
  | GET_STATE => ts_GetState ns (sl (cm_Payload req)) s = Ok (inr v, s')
  | PUT_STATE => ∃ key x, Unmarshal (sl (cm_Payload req)) = Some (mkPutStateInfo key x)
      ∧ ts_SetState ns key x s = Ok (None, s') ∧ v = None
  | DEL_STATE => ts_DeleteState ns (sl (cm_Payload req)) s = Ok (None, s') ∧ v = None
  | _ => False
  end.

Lemma getIsTransaction_ok (w : HW S It) : h_isTransaction (w_h w) = Some marked → getIsTransaction txid w = Ok (true, w).
Proof.
  intros E. unfold getIsTransaction. erewrite bind_ok; [|done]. rewrite E. cbn [mbind option_bind]. by rewrite marked_txid.
Qed.
Lemma createTXIDEntry_ok (w : HW S It) :
  h_txidMap (w_h w) = Some ∅ → createTXIDEntry txid w = Ok (true, set_h (set_txidMap (Some {[txid]})) w).
Proof.
  intros E. unfold createTXIDEntry. erewrite bind_ok; [|done]. rewrite E, free_txid, claim_txid. done.
Qed.
Lemma deleteTXIDEntry_ok (w : HW S It) :
  h_txidMap (w_h w) = Some {[txid]} → deleteTXIDEntry txid w = Ok (tt, set_h (set_txidMap (Some ∅)) w).
Proof. intros E. unfold deleteTXIDEntry, upd, modify, set_h. rewrite E. cbn [fmap option_fmap option_map]. by rewrite release_txid. Qed.
Lemma getTxContext_ok (w : HW S It) c m :
  h_txCtxs (w_h w) = Some (<[txid := c]> m) → getTxContext txid w = Ok (Some c, w).
Proof.
  intros E. unfold getTxContext. erewrite bind_ok; [|done]. rewrite E. cbn [mbind option_bind]. by rewrite lookup_insert_eq.
Qed.
Lemma on_sim_ok {A} (w : HW S It) (m : M S A) s m0 a s' :
  w_sims w = <[simr := s]> m0 → m s = Ok (a, s') → on_sim simr m w = Ok (a, set_sims (λ _, <[simr := s']> m0) w).
Proof.
  intros E1 E2. unfold on_sim. rewrite E1, lookup_insert_eq, E2. unfold set_sims. by rewrite E1, insert_insert_eq.
Qed.

Lemma step_claim p kd req k s op os u o :
  issue p kd req k →
  sys_step cc wire (MPeerTask 0 u o) (conf (PhClaim kd req k) s op os) = Ok (conf (PhWork kd req k) s op os).
Proof.
  intros Hi. unfold_phase. apply peer_do_ok; cbn [y_peer].
  assert (cm_Txid (wire req) = txid) as E by (rewrite (wire_Txid WL); by destruct Hi).
  unfold peer_step, task_step. erewrite bind_ok; [|done]. cbn [w_h h_tasks lookup list_lookup]. rewrite E.
  erewrite bind_ok; [|by apply getIsTransaction_ok]. destruct kd; (erewrite bind_ok; [|by apply createTXIDEntry_ok]); try done; by destruct Hi.
Qed.

Lemma chaincode_name_ok (w : HW S It) : h_ChaincodeID (w_h w) = Some cid → chaincode_name w = Ok (ns, w).
Proof. intros E. unfold chaincode_name. erewrite bind_ok; [|done]. by rewrite E. Qed.

(** The peer's work on a request of the transaction, in isolation. *)
Lemma work_get (w : HW S It) msg s m0 m1 x v s' :
  h_ChaincodeID (w_h w) = Some cid → h_txCtxs (w_h w) = Some (<[txid := mkTxContext x ∅ simr]> m1) →
  w_sims w = <[simr := s]> m0 → cm_Txid msg = txid → ts_GetState ns (sl (cm_Payload msg)) s = Ok (inr v, s') →
  handleGetState msg w = Ok (Some (newMsg RESPONSE v txid), set_sims (λ _, <[simr := s']> m0) w).
Proof.
  intros E1 E2 E3 E4 E5. unfold handleGetState. cbv zeta. erewrite bind_ok; [|by apply chaincode_name_ok].
  rewrite E4. erewrite bind_ok; [|by eapply getTxContext_ok]. erewrite bind_ok; [|done].
  erewrite bind_ok; [|by eapply on_sim_ok]. unfold reply. by rewrite E4.
Qed.
Lemma work_put (w : HW S It) msg s m0 m1 x key y s' :
  h_ChaincodeID (w_h w) = Some cid → h_txCtxs (w_h w) = Some (<[txid := mkTxContext x ∅ simr]> m1) →
  w_sims w = <[simr := s]> m0 → cm_Txid msg = txid → cm_Type msg = PUT_STATE →
  Unmarshal (sl (cm_Payload msg)) = Some (mkPutStateInfo key y) → ts_SetState ns key y s = Ok (None, s') →
  busy_work msg w = Ok (inl (Some (newMsg RESPONSE None txid)), set_sims (λ _, <[simr := s']> m0) w).
Proof.
  intros E1 E2 E3 E4 E5 E6 E7. unfold busy_work. erewrite bind_ok; [|by apply chaincode_name_ok].
  rewrite E5, E6, E4. erewrite bind_ok; [|by eapply getTxContext_ok]. erewrite bind_ok; [|done].
  erewrite bind_ok; [|by eapply on_sim_ok]. unfold write_reply, reply. by rewrite E4.
Qed.
Lemma work_del (w : HW S It) msg s m0 m1 x s' :
  h_ChaincodeID (w_h w) = Some cid → h_txCtxs (w_h w) = Some (<[txid := mkTxContext x ∅ simr]> m1) →
  w_sims w = <[simr := s]> m0 → cm_Txid msg = txid → cm_Type msg = DEL_STATE →
  ts_DeleteState ns (sl (cm_Payload msg)) s = Ok (None, s') →
  busy_work msg w = Ok (inl (Some (newMsg RESPONSE None txid)), set_sims (λ _, <[simr := s']> m0) w).
Proof.
  intros E1 E2 E3 E4 E5 E6. unfold busy_work. erewrite bind_ok; [|by apply chaincode_name_ok].
  rewrite E5, E4. erewrite bind_ok; [|by eapply getTxContext_ok]. erewrite bind_ok; [|done].
  erewrite bind_ok; [|by eapply on_sim_ok]. unfold write_reply, reply. by rewrite E4.
Qed.

Lemma step_work p kd req k s op os u o v s' :
  issue p kd req k → work kd req s v s' →
  sys_step cc wire (MPeerTask 0 u o) (conf (PhWork kd req k) s op os)
  = Ok (conf (PhAnswer kd (newMsg RESPONSE v txid) k) s' op os).
Proof.
  intros Hi Hw. unfold_phase. apply peer_do_ok; cbn [y_peer].
  pose proof (wire_Payload WL req) as Ep. pose proof (wire_Type WL req) as Ey.
  assert (cm_Txid (wire req) = txid) as Et by (rewrite (wire_Txid WL); by destruct Hi).
  unfold peer_step, task_step. erewrite bind_ok; [|done]. cbn [w_h h_tasks lookup list_lookup].
  destruct Hi as [key k|key x k b Hb|key k]; cbn [work cm_Type newMsg] in Hw.
  - erewrite bind_ok; [|eapply work_get; [done..|by rewrite Ep]].
    unfold task_done. rewrite Et. erewrite bind_ok; [|by apply deleteTXIDEntry_ok]. done.
  - destruct Hw as (key' & y & Hu & Hs & ->).
    erewrite bind_ok; [|eapply work_put; [done..|by rewrite Ep|done]].
    unfold task_done. rewrite Et. erewrite bind_ok; [|by apply deleteTXIDEntry_ok]. done.
  - destruct Hw as [Hs ->]. erewrite bind_ok; [|eapply work_del; [done..|by rewrite Ep]].
    unfold task_done. rewrite Et. erewrite bind_ok; [|by apply deleteTXIDEntry_ok]. done.
Qed.

Lemma step_answer kd v k s op os p req u o :
  issue p kd req k →
  sys_step cc wire (if is_busy kd then MPeerNext 0 else MPeerTask 0 u o)
    (conf (PhAnswer kd (newMsg RESPONSE v txid) k) s op os)
  = Ok (conf (PhReply (newMsg RESPONSE v txid) k) s (op ++ [newMsg RESPONSE v txid]) os).
Proof. intros Hi. unfold_phase. destruct Hi; destruct init; reflexivity. Qed.

Lemma sendChannel_ok h m k :
  s_responseChannel h = {[txid]} → s_tasks h = [CWaiting txid k] → cm_Txid m = txid →
  sendChannel m h = Ok (true, sset_tasks [CReceived txid (k m)] h).
Proof.
  intros E1 E2 E3. unfold sendChannel. erewrite bind_ok; [|done]. rewrite E1, E3, used_txid.
  erewrite bind_ok; [|done]. rewrite E2. cbn [list_find waits_for]. rewrite decide_True; [done|].
  by apply bool_decide_pack.
Qed.

(** The shim's loop and a message in the two cases that reach a channel. *)
Lemma shim_handle_ok h m e w' :
  cm_Type m ≠ KEEPALIVE → transitions shim_events (cm_Type m) (s_FSM h) ≠ None →
  Event s_FSM sset_FSM shim_events shim_callbacks (cm_Type m) m h = Ok (e, w') →
  handleMessage m h = Ok (filterError e, w').
Proof.
  intros H1 H2 H3. unfold handleMessage. rewrite bool_decide_eq_false_2 by done. erewrite bind_ok; [|done].
  erewrite bind_ok with (a := false) (w' := h); [by erewrite bind_ok; [|exact H3]|].
  unfold gets, Cannot. by destruct (transitions _ _ _).
Qed.
Lemma response_ok h m k :
  s_FSM h = run_state → s_responseChannel h = {[txid]} → s_tasks h = [CWaiting txid k] →
  cm_Txid m = txid → cm_Type m = RESPONSE →
  handleMessage m h = Ok (false, sset_tasks [CReceived txid (k m)] h).
Proof.
  intros E0 E1 E2 E3 E4.
  assert (transitions shim_events (cm_Type m) (s_FSM h) = Some (s_FSM h)) as Ht.
  { rewrite E0, E4. unfold run_state. by destruct init. }
  apply (shim_handle_ok h m (Some (NoTransitionError None))); [by rewrite E4|by rewrite Ht|]. apply Event_same; [done..|by rewrite Ht|by rewrite E4|].
  rewrite E4. cbn [call cb_after shim_callbacks]. unfold afterResponse. by erewrite bind_ok; [|by apply sendChannel_ok].
Qed.
Lemma shim_error_ok h m :
  s_FSM h = transactionstate → s_responseChannel h = ∅ → cm_Txid m = txid → cm_Type m = ERROR →
  handleMessage m h = Ok (false, sset_FSM readystate h).
Proof.
  intros E0 E1 E2 E3.
  apply (shim_handle_ok h m None); [by rewrite E3|by rewrite E0, E3|].
  rewrite E3. eapply Event_moves; [done..|by rewrite E0|by rewrite E0|done|done|].
  cbn [call cb_after shim_callbacks]. unfold afterError. erewrite bind_ok; [done|].
  unfold sendChannel. erewrite bind_ok; [|done]. cbn [s_responseChannel sset_FSM]. by rewrite E1, E2, free_txid.
Qed.

Lemma step_reply v k s op os :
  sys_step cc wire MShimRecv (conf (PhReply (newMsg RESPONSE v txid) k) s (newMsg RESPONSE v txid :: op) os)
  = Ok (conf (PhReceived (k (wire (newMsg RESPONSE v txid)))) s op os).
Proof.
  unfold_phase. cbn [sys_step y_peer w_h h_out y_shim s_ended]. apply shim_do_ok; [done|]; cbn [y_shim y_peer pop_peer].
  unfold shim_recv. erewrite bind_ok; [|apply response_ok; [done..| |]; [by rewrite (wire_Txid WL)|by rewrite (wire_Type WL)]].
  by rewrite (wire_Type WL).
Qed.

Lemma step_received p s op os :
  sys_step cc wire (MShimTask 0) (conf (PhReceived p) s op os) = Ok (conf (PhRun p) s op os).
Proof.
  unfold_phase. apply shim_do_ok; [done|]; cbn [y_shim y_peer].
  unfold cctask_step. erewrite bind_ok; [|done]. cbn [s_tasks lookup list_lookup].
  unfold deleteChannel. erewrite bind_ok; [|done]. cbn [s_responseChannel]. by rewrite release_txid.
Qed.

(** A result, or the error of an invocation. *)
Definition result_ok (r : bytes + slice) : Prop := init = true → ∃ v, r = inr v.

Lemma step_finish r ev s op os :
  result_ok r →
  sys_step cc wire (MShimNext 0) (conf (PhFinish (final_msg r ev)) s op os)
  = Ok (conf (PhDone (final_msg r ev)) s op (os ++ [final_msg r ev])).
Proof.
  unfold result_ok. intros Hr. unfold_phase. apply shim_do_ok; [done|]; cbn [y_shim y_peer].
  destruct r as [err|v]; [|by destruct init]. destruct init; [by destruct (Hr eq_refl)|].
  unfold shim_next. erewrite bind_ok; [|done]. cbn [s_nextState lookup list_lookup]. erewrite bind_ok; [|done].
  by erewrite bind_ok; [|by apply shim_error_ok].
Qed.

Lemma notify_ok (w : HW S It) m m1 :
  h_txCtxs (w_h w) = Some (<[txid := mkTxContext [] ∅ simr]> m1) → cm_Txid m = txid →
  notify m w = Ok (tt, set_h (set_txCtxs (Some (<[txid := mkTxContext [m] ∅ simr]> m1))) w).
Proof.
  intros E1 E2. unfold notify. rewrite E2. erewrite bind_ok; [|by eapply getTxContext_ok].
  cbn [tc_responseNotifier]. unfold upd_ctx, upd, modify, set_h. rewrite E1. cbn [fmap option_fmap option_map].
  rewrite alter_insert_eq. cbn [tc_rangeQueryIteratorMap tc_txsimulator]. by rewrite fmap_empty.
Qed.

Lemma peer_handle_ok (w : HW S It) m e w' :
  transitions peer_events (cm_Type m) (h_FSM (w_h w)) ≠ None →
  Event fsm_current fsm_set peer_events peer_callbacks (cm_Type m) m w = Ok (e, w') →
  HandleMessage m w = Ok (filterError e, w').
Proof.
  intros H1 H2. unfold HandleMessage.
  erewrite bind_ok with (a := false) (w' := w); [by erewrite bind_ok; [|exact H2]|].
  unfold gets, Cannot, fsm_current. by destruct (transitions _ _ _).
Qed.

Lemma step_done r ev s op os :
  result_ok r →
  sys_step cc wire MPeerRecv (conf (PhDone (final_msg r ev)) s op (final_msg r ev :: os))
  = Ok (conf (PhNotified (final_msg r ev)) s op os).
Proof.
  unfold result_ok. intros Hr. unfold_phase. cbn [sys_step y_peer w_h h_ended y_shim s_out]. apply peer_do_ok; cbn [y_peer pop_shim].
  unfold peer_step, turn. erewrite bind_ok; [|done]. cbn [w_h h_ended recv_turn].
  pose proof (wire_Txid WL (final_msg r ev)) as E1. pose proof (wire_Type WL (final_msg r ev)) as E2.
  revert E1 E2. generalize (wire (final_msg r ev)). intros m E1 E2.
  assert (cm_Txid m = txid) as E3 by (rewrite E1; by destruct r).
  assert (cm_Type m ≠ KEEPALIVE) as Hk by (rewrite E2; by destruct r).
  rewrite bool_decide_eq_false_2 by done.
  match goal with |- (HandleMessage m ≫= _) ?w = _ => set (w0 := w) end.
  assert (transitions peer_events (cm_Type m) (fsm_current w0) = Some readystate) as Ht.
  { rewrite E2. unfold fsm_current, w0. cbn [w_h h_FSM]. destruct r, init; try done. by destruct (Hr eq_refl). }
  assert (fsm_current w0 ≠ readystate) as Hne by (unfold fsm_current, w0; cbn [w_h h_FSM]; by destruct init).
  assert (enterReadyState m (fsm_set readystate w0) = Ok (None, set_h (set_txCtxs (Some
    (<[txid := mkTxContext [m] ∅ simr]> ctxs0))) (set_h (set_isTransaction (Some (delete txid marked))) (fsm_set readystate w0))))
    as Hn.
  { unfold enterReadyState. rewrite E3. erewrite bind_ok; [|done]. by erewrite bind_ok; [|by apply notify_ok]. }
  erewrite bind_ok; [|eapply (peer_handle_ok w0 m None); [by unfold fsm_current in Ht; rewrite Ht|
    eapply Event_moves; [done..|exact Ht|done| |exact Hn|]]].
  - done.
  - rewrite E2. by destruct r.
  - rewrite E2. by destruct r.
Qed.

Context (Hready : if init then rn0 = None ∧ rn = None ∨ rn0 = Some [] ∧ rn = Some [true] else rn = rn0).

Lemma step_trigger s op os :
  sys_step cc wire (MPeerNext 0) (conf PhTrigger s op os) = Ok (conf PhStart s (op ++ [start_msg]) os).
Proof.
  unfold_phase. revert Hready. destruct init; [intros [[-> ->]|[-> ->]]|intros ->]; reflexivity.
Qed.

(** ** Any step *)
Context (fin : (bytes + slice) * option ChaincodeEvent) (sfin : S).
Context (Hfin : result_ok fin.1).

Definition runs (p : ccprog) (s : S) : Prop := direct wire ns txid p s = Ok (Some fin, sfin).
(** From this phase on, the chaincode's direct run leads to the result. *)
Definition todo (ph : phase) (s : S) : Prop :=
  match ph with
  | PhTrigger | PhStart | PhSpawned => runs body s
  | PhRun p | PhReceived p => runs p s
  | PhReq kd req k | PhClaim kd req k | PhWork kd req k => ∃ p, issue p kd req k ∧ runs p s
  | PhAnswer kd rep k => ∃ p req v, issue p kd req k ∧ rep = newMsg RESPONSE v txid ∧ runs (k (wire rep)) s
  | PhReply rep k => ∃ v, rep = newMsg RESPONSE v txid ∧ runs (k (wire rep)) s
  | PhFinish m | PhDone m | PhNotified m => m = final_msg fin.1 fin.2 ∧ s = sfin
  end.

Lemma M_bind_Ok {St A B} (m : M St A) (f : A → M St B) w b w' :
  (m ≫= f) w = Ok (b, w') → ∃ a w1, m w = Ok (a, w1) ∧ f a w1 = Ok (b, w').
Proof. unfold mbind, M_bind. destruct (m w) as [[a w1]| |]; naive_solver. Qed.

Lemma runs_work p kd req k s :
  issue p kd req k → runs p s → ∃ v s', work kd req s v s' ∧ runs (k (wire (newMsg RESPONSE v txid))) s'.
Proof.
  unfold runs. intros Hi Hr. destruct Hi as [key k|key v k b Hb|key k]; cbn [direct] in Hr;
    apply M_bind_Ok in Hr as (r & s1 & E1 & E2).
  - destruct r as [e|v]; [done|]. exists v, s1. split; [done|]. unfold get_result. by rewrite (wire_Type WL).
  - destruct r as [e|]; [done|]. exists None, s1. split.
    + destruct (put_codec CL key v) as (b' & Hb' & Hu). simplify_eq. cbn [work cm_Type cm_Payload newMsg]. eauto.
    + unfold put_result. by rewrite (wire_Type WL).
  - destruct r as [e|]; [done|]. exists None, s1. split; [done|]. unfold put_result. by rewrite (wire_Type WL).
Qed.

Lemma runs_next p s :
  runs p s → (p = PReturn fin.1 fin.2 ∧ s = sfin) ∨ ∃ kd req k, issue p kd req k.
Proof.
  unfold runs. intros Hr. destruct p; cbn [direct] in Hr; try discriminate.
  - left. injection Hr as <- <-. done.
  - right. do 3 eexists. constructor.
  - right. destruct (put_codec CL key value) as (b & Hb & _). do 3 eexists. by constructor.
  - right. do 3 eexists. constructor.
Qed.

(** Keepalives. *)
Lemma peer_keepalive ph s m op os :
  is_ka m = true → sys_step cc wire MPeerRecv (conf ph s op (m :: os)) = Ok (conf ph s op os).
Proof.
  intros E%bool_decide_eq_true. unfold conf. cbn [sys_step y_peer w_h h_ended y_shim s_out]. apply peer_do_ok; cbn [y_peer pop_shim].
  unfold peer_step, turn. erewrite bind_ok; [|done]. cbn [w_h h_ended recv_turn].
  by rewrite bool_decide_eq_true_2 by (by rewrite (wire_Type WL)).
Qed.
Lemma shim_keepalive ph s m op os :
  is_ka m = true → sys_step cc wire MShimRecv (conf ph s (m :: op) os) = Ok (conf ph s op (os ++ [wire m])).
Proof.
  intros E%bool_decide_eq_true. unfold conf. cbn [sys_step y_peer w_h h_out y_shim s_ended]. apply shim_do_ok; [done|]; cbn [y_shim y_peer pop_peer].
  unfold shim_recv, handleMessage. rewrite !(wire_Type WL), E. by rewrite bool_decide_eq_true_2 by done.
Qed.
Lemma send_keepalive ph s op os :
  sys_step cc wire MKeepalive (conf ph s op os) = Ok (conf ph s (op ++ [newMsg KEEPALIVE None []]) os).
Proof. reflexivity. Qed.

(** The system is in a phase from which the result is reached. *)
Definition on_track (y : System) : Prop := ∃ ph s, at_phase ph s y ∧ todo ph s.
Definition stays (mv : move) (y : System) : Prop := ∃ y', sys_step cc wire mv y = Ok y' ∧ on_track y'.

Lemma no_ka_app l l' : no_ka (l ++ l') = no_ka l ++ no_ka l'.
Proof. apply filter_app. Qed.
Lemma no_ka_ka m l : is_ka m = true → no_ka (m :: l) = no_ka l.
Proof. intros E. unfold no_ka. rewrite filter_cons_False; [done|]. by rewrite E. Qed.
Lemma no_ka_msg m l : is_ka m = false → no_ka (m :: l) = m :: no_ka l.
Proof. intros E. unfold no_ka. by rewrite filter_cons_True. Qed.
Lemma is_ka_wire m : is_ka (wire m) = is_ka m.
Proof. unfold is_ka. by rewrite (wire_Type WL). Qed.

Lemma stays_at ph s op os mv ph' s' op' os' :
  sys_step cc wire mv (conf ph s op os) = Ok (conf ph' s' op' os') →
  no_ka op' = ph_out ph' → no_ka os' = sh_out ph' → todo ph' s' → stays mv (conf ph s op os).
Proof. intros E H1 H2 Ht. eexists. split; [exact E|]. exists ph', s'. split; [|done]. by exists op', os'. Qed.

Section any.
Context (ph : phase) (s : S) (op os : list ChaincodeMessage).
Context (Hop : no_ka op = ph_out ph) (Hos : no_ka os = sh_out ph) (Htodo : todo ph s).

Lemma stays_peer_recv : stays MPeerRecv (conf ph s op os).
Proof.
  destruct os as [|m l] eqn:Eos; [by eapply stays_at|]. destruct (is_ka m) eqn:Em.
  { eapply stays_at; [by apply peer_keepalive|done| |done]. by rewrite no_ka_ka in Hos. }
  rewrite no_ka_msg in Hos by done. destruct ph; try discriminate Hos; cbn [sh_out] in Hos; injection Hos as -> El.
  - destruct Htodo as (p & Hi & Hr). eapply stays_at; [by eapply step_req|done|done|by exists p].
  - destruct Htodo as [-> ->]. eapply stays_at; [by apply step_done|done|done|done].
Qed.

Lemma stays_shim_recv : stays MShimRecv (conf ph s op os).
Proof.
  destruct op as [|m l] eqn:Eop; [by eapply stays_at|]. destruct (is_ka m) eqn:Em.
  { eapply stays_at; [by apply shim_keepalive| | |done].
    - by rewrite no_ka_ka in Hop.
    - rewrite no_ka_app, no_ka_ka by (by rewrite is_ka_wire). by rewrite app_nil_r. }
  rewrite no_ka_msg in Hop by done. destruct ph; try discriminate Hop; cbn [ph_out] in Hop; injection Hop as -> El.
  - eapply stays_at; [apply step_start|done|done|done].
  - destruct Htodo as (v & -> & Hr). eapply stays_at; [apply step_reply|done|done|done].
Qed.

Lemma stays_keepalive : stays MKeepalive (conf ph s op os).
Proof.
  eapply stays_at; [apply send_keepalive| |done|done]. rewrite no_ka_app, no_ka_ka by done. by rewrite app_nil_r.
Qed.

Lemma ka_free kd req p k : issue p kd req k → is_ka req = false.
Proof. by intros []. Qed.

Lemma stays_peer_next i : stays (MPeerNext i) (conf ph s op os).
Proof.
  destruct (ph_next ph !! i) as [x|] eqn:En.
  - destruct ph as [| | | | | | |kd rep k| | | | |]; try done.
    + destruct i as [|i]; [|done]. eapply stays_at; [apply step_trigger| |done|done].
      rewrite no_ka_app, Hop, no_ka_msg; [done|]. unfold start_msg, is_ka. by destruct init.
    + destruct Htodo as (p & req & v & Hi & -> & Hr). destruct kd; try done. destruct i as [|i]; [|done].
      eapply stays_at; [by apply (step_answer KBusy v k s op os p req [] (inl []))| |done|by exists v].
      by rewrite no_ka_app, Hop.
  - eapply (stays_at _ _ _ _ _ ph s op os); [|done..]. unfold conf. apply peer_do_ok; cbn [y_peer].
    unfold peer_step, turn. erewrite bind_ok; [|done]. cbn [w_h h_ended]. unfold next_turn. erewrite bind_ok; [|done].
    cbn [w_h h_nextState]. by rewrite En.
Qed.

Lemma stays_peer_task i u o : stays (MPeerTask i u o) (conf ph s op os).
Proof.
  destruct (ph_tasks ph !! i) as [x|] eqn:En.
  - destruct ph as [| | | | |kd req k|kd req k|kd rep k| | | | |]; try done.
    + destruct i as [|i]; [|done]. destruct Htodo as (p & Hi & Hr).
      eapply stays_at; [by eapply step_claim|done|done|by exists p].
    + destruct i as [|i]; [|done]. destruct Htodo as (p & Hi & Hr). destruct (runs_work _ _ _ _ _ Hi Hr) as (v & s' & Hw & Hr').
      eapply stays_at; [by eapply step_work|done|done|by exists p, req, v].
    + destruct Htodo as (p & req & v & Hi & -> & Hr).
      assert (i = 0%nat) as -> by (destruct kd, i; done). assert (is_busy kd = false) as Hb by (by destruct kd).
      pose proof (step_answer kd v k s op os p req u o Hi) as E. rewrite Hb in E.
      eapply stays_at; [exact E| |done|by exists v]. by rewrite no_ka_app, Hop.
  - eapply (stays_at _ _ _ _ _ ph s op os); [|done..]. unfold conf. apply peer_do_ok; cbn [y_peer].
    unfold peer_step, task_step. erewrite bind_ok; [|done]. cbn [w_h h_tasks]. by rewrite En.
Qed.

Lemma stays_shim_next i : stays (MShimNext i) (conf ph s op os).
Proof.
  destruct (sh_next ph !! i) as [x|] eqn:En.
  - destruct ph; try done. destruct i as [|i]; [|done]. destruct Htodo as [-> ->].
    eapply stays_at; [by apply step_finish|done| |done].
    rewrite no_ka_app, Hos, no_ka_msg; [done|]. by destruct (fin.1).
  - eapply (stays_at _ _ _ _ _ ph s op os); [|done..]. unfold conf. apply shim_do_ok; [done|]; cbn [y_shim y_peer].
    unfold shim_next. erewrite bind_ok; [|done]. cbn [s_nextState]. by rewrite En.
Qed.

Lemma stays_shim_task i : stays (MShimTask i) (conf ph s op os).
Proof.
  destruct (sh_tasks ph !! i) as [x|] eqn:En.
  - assert (i = 0%nat) as -> by (destruct ph, i; done).
    destruct ph; try done; try (by eapply (stays_at _ _ _ _ _ _ s op os)).
    + eapply stays_at; [apply step_spawned|done|done|done].
    + destruct (runs_next _ _ Htodo) as [[-> ->]|(kd & req & k & Hi)].
      * eapply stays_at; [apply step_return|done|done|done].
      * eapply stays_at; [by apply step_issue|done| |by exists p].
        rewrite no_ka_app, Hos, no_ka_msg; [done|]. by eapply ka_free.
    + eapply stays_at; [apply step_received|done|done|done].
  - eapply (stays_at _ _ _ _ _ ph s op os); [|done..]. unfold conf. apply shim_do_ok; [done|]; cbn [y_shim y_peer].
    unfold cctask_step. erewrite bind_ok; [|done]. cbn [s_tasks]. by rewrite En.
Qed.
End any.

Lemma on_track_step mv y : on_track y → stays mv y.
Proof.
  intros (ph & s & (op & os & -> & Hop & Hos) & Ht). destruct mv.
  - by apply stays_peer_recv.
  - by apply stays_peer_next.
  - by apply stays_peer_task.
  - by apply stays_keepalive.
  - by apply stays_shim_recv.
  - by apply stays_shim_next.
  - by apply stays_shim_task.
Qed.

Lemma on_track_run l y : on_track y → ∃ y', sys_run cc wire l y = Ok y' ∧ on_track y'.
Proof.
  revert y. induction l as [|mv l IH]; intros y Hy; [by exists y|]. cbn [sys_run].
  destruct (on_track_step mv y Hy) as (y1 & E1 & Hy1). destruct (IH y1 Hy1) as (y2 & E2 & Hy2).
  exists y2. split; [|done]. cbn [mbind res_bind]. by rewrite E1.
Qed.

(** ** The result is reached *)
Definition finished (y : System) : Prop := ∃ op os, y = conf (PhNotified (final_msg fin.1 fin.2)) sfin op os.
Definition leads (y : System) : Prop := ∃ l y', sys_run cc wire l y = Ok y' ∧ finished y'.

Lemma leads_step mv y y' : sys_step cc wire mv y = Ok y' → leads y' → leads y.
Proof. intros E (l & y2 & El & Hf). exists (mv :: l), y2. cbn [sys_run mbind res_bind]. by rewrite E. Qed.

(** In the phase with the messages [ph_out] and [sh_out], whatever keepalives
    there are, the result is reached. *)
Definition wins (ph : phase) (s : S) : Prop :=
  ∀ op os, no_ka op = ph_out ph → no_ka os = sh_out ph → leads (conf ph s op os).

(** The keepalives in front of a message are received first. *)
Lemma drain_peer ph s m op os :
  no_ka os = [m] → (∀ l, no_ka l = [] → leads (conf ph s op (m :: l))) → leads (conf ph s op os).
Proof.
  intros Hos Hm. induction os as [|m' os IH]; [done|]. destruct (is_ka m') eqn:Em.
  - rewrite no_ka_ka in Hos by done. eapply leads_step; [by apply peer_keepalive|by apply IH].
  - rewrite no_ka_msg in Hos by done. injection Hos as -> Hl. by apply Hm.
Qed.
Lemma drain_shim ph s m op os :
  no_ka op = [m] → no_ka os = sh_out ph →
  (∀ l l', no_ka l = [] → no_ka l' = sh_out ph → leads (conf ph s (m :: l) l')) → leads (conf ph s op os).
Proof.
  intros Hop Hos Hm. revert os Hos. induction op as [|m' op IH]; intros os Hos; [done|]. destruct (is_ka m') eqn:Em.
  - rewrite no_ka_ka in Hop by done. eapply leads_step; [by apply shim_keepalive|]. apply IH; [done|].
    rewrite no_ka_app, no_ka_ka by (by rewrite is_ka_wire). by rewrite app_nil_r.
  - rewrite no_ka_msg in Hop by done. injection Hop as -> Hl. by apply Hm.
Qed.

Lemma wins_done : wins (PhDone (final_msg fin.1 fin.2)) sfin.
Proof.
  intros op os Hop Hos. eapply drain_peer; [exact Hos|]. intros l Hl.
  eapply leads_step; [by apply step_done|]. exists [], (conf (PhNotified (final_msg fin.1 fin.2)) sfin op l).
  split; [done|]. by eexists _, _.
Qed.
Lemma wins_finish : wins (PhFinish (final_msg fin.1 fin.2)) sfin.
Proof.
  intros op os Hop Hos. eapply leads_step; [by apply step_finish|]. apply wins_done; [done|].
  rewrite no_ka_app, Hos, no_ka_msg; [done|]. by destruct (fin.1).
Qed.

Lemma wins_reply v k s : wins (PhRun (k (wire (newMsg RESPONSE v txid)))) s → wins (PhReply (newMsg RESPONSE v txid) k) s.
Proof.
  intros Hw op os Hop Hos. eapply drain_shim; [exact Hop|done|]. intros l l' Hl Hl'.
  eapply leads_step; [apply step_reply|]. eapply leads_step; [apply step_received|]. by apply Hw.
Qed.

Lemma wins_answer p kd req k v s :
  issue p kd req k → wins (PhRun (k (wire (newMsg RESPONSE v txid)))) s → wins (PhAnswer kd (newMsg RESPONSE v txid) k) s.
Proof.
  intros Hi Hw op os Hop Hos. eapply leads_step; [by apply (step_answer kd v k s op os p req [] (inl []))|].
  apply wins_reply; [done| |done]. by rewrite no_ka_app, Hop.
Qed.
Lemma wins_work p kd req k v s s' :
  issue p kd req k → work kd req s v s' →
  wins (PhRun (k (wire (newMsg RESPONSE v txid)))) s' → wins (PhWork kd req k) s.
Proof.
  intros Hi Hwork Hw op os Hop Hos.
  eapply leads_step; [by apply (step_work p kd req k s op os [] (inl []) v s')|]. by eapply wins_answer.
Qed.
Lemma wins_claim p kd req k s : issue p kd req k → wins (PhWork kd req k) s → wins (PhClaim kd req k) s.
Proof.
  intros Hi Hw op os Hop Hos.
  eapply leads_step; [by apply (step_claim p kd req k s op os [] (inl []))|]. by apply Hw.
Qed.
Lemma wins_req p kd req k s : issue p kd req k → wins (PhClaim kd req k) s → wins (PhReq kd req k) s.
Proof.
  intros Hi Hw op os Hop Hos. eapply drain_peer; [exact Hos|]. intros l Hl.
  eapply leads_step; [by eapply step_req|]. by apply Hw.
Qed.

(** A request, when what comes after its answer leads to the result. *)
Lemma wins_issue p kd req k s :
  issue p kd req k → runs p s → (∀ m s', runs (k m) s' → wins (PhRun (k m)) s') → wins (PhRun p) s.
Proof.
  intros Hi Hr IH op os Hop Hos. destruct (runs_work _ _ _ _ _ Hi Hr) as (v & s' & Hw & Hr').
  eapply leads_step; [by apply step_issue|].
  eapply wins_req; [exact Hi| |done|by rewrite no_ka_app, Hos, no_ka_msg by (by eapply ka_free)].
  eapply wins_claim, wins_work; [exact Hi|exact Hi|exact Hw|]. by apply IH.
Qed.

Lemma wins_run p s : runs p s → wins (PhRun p) s.
Proof.
  revert s. induction p as [r ev|key k IH|key value k IH|key k IH| | | |]; intros s Hr;
    (destruct (runs_next _ _ Hr) as [[E ->]|(kd & req & k' & Hi)];
     [try done|eapply wins_issue; [exact Hi|done|]; inversion Hi; subst; auto]).
  injection E as -> ->. intros op os Hop Hos. eapply leads_step; [apply step_return|]. by apply wins_finish.
Qed.

Lemma wins_any ph s : todo ph s → wins ph s.
Proof.
  assert (∀ s, runs body s → wins PhSpawned s) as H1.
  { intros s0 Hr op os Hop Hos. eapply leads_step; [apply step_spawned|]. by apply wins_run. }
  assert (∀ s, runs body s → wins PhStart s) as H2.
  { intros s0 Hr op os Hop Hos. eapply drain_shim; [exact Hop|done|]. intros l l' Hl Hl'.
    eapply leads_step; [apply step_start|]. by apply H1. }
  assert (∀ p kd req k s, issue p kd req k → runs p s → wins (PhWork kd req k) s) as H3.
  { intros p kd req k s0 Hi Hr. destruct (runs_work _ _ _ _ _ Hi Hr) as (v & s' & Hw & Hr').
    eapply wins_work; [exact Hi|exact Hw|]. by apply wins_run. }
  destruct ph as [| | |p|kd req k|kd req k|kd req k|kd rep k|rep k|p|m|m|m]; cbn [todo]; intros Ht.
  - intros op os Hop Hos. eapply leads_step; [apply step_trigger|]. apply H2; [done| |done].
    rewrite no_ka_app, Hop, no_ka_msg; [done|]. unfold start_msg, is_ka. by destruct init.
  - by apply H2.
  - by apply H1.
  - by apply wins_run.
  - destruct Ht as (p & Hi & Hr). eapply wins_req, wins_claim; eauto.
  - destruct Ht as (p & Hi & Hr). eapply wins_claim; eauto.
  - destruct Ht as (p & Hi & Hr). eauto.
  - destruct Ht as (p & req & v & Hi & -> & Hr). eapply wins_answer; [exact Hi|]. by apply wins_run.
  - destruct Ht as (v & -> & Hr). apply wins_reply. by apply wins_run.
  - intros op os Hop Hos. eapply leads_step; [apply step_received|]. by apply wins_run.
  - destruct Ht as [-> ->]. apply wins_finish.
  - destruct Ht as [-> ->]. apply wins_done.
  - destruct Ht as [-> ->]. intros op os Hop Hos. exists [], (conf (PhNotified (final_msg fin.1 fin.2)) sfin op os).
    split; [done|]. by eexists _, _.
Qed.
End phases.

Section claim.
Context {S It : Type} `{!TxSimulator S It, !ErrorText}.
Context `{!Proto ChaincodeID, !Proto PutStateInfo, !Proto RangeQueryState, !Proto RangeQueryStateNext,
  !Proto RangeQueryStateClose, !Proto RangeQueryStateResponse, !Proto ChaincodeSpec, !Proto ChaincodeInput,
  !Proto ChaincodeMessage}.

(** What the waiter of a transaction finds. *)
Definition response (txid : bytes) (y : Sys S It) : option ChaincodeMessage :=
  h_txCtxs (w_h (y_peer y)) ≫= λ m, m !! txid ≫= λ c, head (tc_responseNotifier c).
(** Nothing is left to do at either end, but for keepalives. *)
Definition at_rest (y : Sys S It) : Prop :=
  h_FSM (w_h (y_peer y)) = readystate ∧ h_tasks (w_h (y_peer y)) = [] ∧ h_nextState (w_h (y_peer y)) = []
  ∧ s_FSM (y_shim y) = readystate ∧ s_tasks (y_shim y) = [] ∧ s_nextState (y_shim y) = [].

(** The peer's request puts the system in the first phase. *)
Lemma start_conf (cc : Chaincode) (wire : ChaincodeMessage → ChaincodeMessage) hid cid running (init : bool) txid simr args
    rn0 rn ctxs0 trans0 strans0 (sims0 : gmap positive S) s :
  codec_laws → ctxs0 !! txid = None → sims0 !! simr = Some s →
  ∃ w, peer_step (start_action init txid simr args)
    (y_peer (quiet hid cid running (idle_state init) rn0 ctxs0 trans0 strans0 sims0)) = Ok (tt, w)
  ∧ mkSys w (y_shim (quiet (It := It) hid cid running (idle_state init) rn0 ctxs0 trans0 strans0 sims0))
    = conf wire hid cid running init txid simr args rn0 rn ctxs0 trans0 strans0 sims0 PhTrigger s [] [].
Proof.
  intros CL Hc Hs. unfold start_action, quiet, start_msg. cbn [y_peer y_shim].
  assert (∀ w : HW S It, h_txCtxs (w_h w) = Some ctxs0 → createTxContext simr txid w
    = Ok (Some tt, set_h (set_txCtxs (Some (<[txid := mkTxContext [] ∅ simr]> ctxs0))) w)) as Hcreate.
  { intros w E. unfold createTxContext. erewrite bind_ok; [|done]. by rewrite E, Hc. }
  destruct (input_codec CL args) as (b & Hb & _).
  destruct init; cbn [peer_step]; (eexists; split;
    [erewrite bind_ok; [done|]; (unfold initOrReady || unfold sendExecuteMessage);
     (erewrite bind_ok; [|by apply Hcreate]); rewrite ?Hb; reflexivity|]);
    unfold conf, input_bytes; rewrite ?Hb; cbn -[insert];
    rewrite (insert_id sims0) by done; unfold start_msg, input_bytes; rewrite ?Hb; reflexivity.
Qed.

(** Whatever the interleaving, the execution goes on to the chaincode's result;
    the other transaction contexts stay as they are. *)
Lemma stream_executes (cc : Chaincode) (wire : ChaincodeMessage → ChaincodeMessage)
    (hid : positive) (cid : ChaincodeID) (running : gmap bytes chaincodeRTEnv) (init : bool) (txid : bytes)
    (simr : positive) (args : list bytes) (rn0 : option (list bool))
    (ctxs0 : gmap bytes (transactionContext It)) (trans0 strans0 : gmap bytes bool) (sims0 : gmap positive S)
    (s s' : S) (r : bytes + slice) (ev : option ChaincodeEvent) :
  wire_laws wire → codec_laws → ctxs0 !! txid = None → sims0 !! simr = Some s →
  (init = true → (rn0 = None ∨ rn0 = Some []) ∧ ∃ v, r = inr v) →
  direct wire (cid_Name cid) txid (body cc init args) s = Ok (Some (r, ev), s') →
  let y0 := quiet hid cid running (idle_state init) rn0 ctxs0 trans0 strans0 sims0 in
  ∃ w, peer_step (start_action init txid simr args) (y_peer y0) = Ok (tt, w)
    ∧ ∀ l, ∃ y, sys_run cc wire l (mkSys w (y_shim y0)) = Ok y
      ∧ w_id (y_peer y) = hid ∧ (∃ c, h_txCtxs (w_h (y_peer y)) = Some (<[txid := c]> ctxs0))
      ∧ (∀ m, response txid y = Some m →
           m = wire (final_msg txid r ev) ∧ w_sims (y_peer y) = <[simr := s']> sims0 ∧ at_rest y)
      ∧ ∃ l' y', sys_run cc wire l' y = Ok y' ∧ response txid y' = Some (wire (final_msg txid r ev)).
Proof.
  intros WL CL Hc Hs Hinit Hdirect y0.
  set (rn := if init then match rn0 with Some _ => Some [true] | None => None end else rn0).
  assert (if init then rn0 = None ∧ rn = None ∨ rn0 = Some [] ∧ rn = Some [true] else rn = rn0) as Hready.
  { unfold rn. destruct init; [|done]. destruct (Hinit eq_refl) as [[->| ->] _]; auto. }
  destruct (start_conf cc wire hid cid running init txid simr args rn0 rn ctxs0 trans0 strans0 sims0 s CL Hc Hs) as (w & Ew & Ey).
  exists w. split; [exact Ew|]. intros l. unfold y0. rewrite Ey.
  set (at_ := conf wire hid cid running init txid simr args rn0 rn ctxs0 trans0 strans0 sims0).
  assert (result_ok init r) as Hr by (intros E; by destruct (Hinit E)).
  destruct (on_track_run cc wire WL CL hid cid running init txid simr args rn0 rn ctxs0 trans0 strans0 sims0 Hready
    (r, ev) s' Hr l (at_ PhTrigger s [] [])) as (y & El & ph & s1 & (op & os & -> & Hop & Hos) & Ht).
  { exists PhTrigger, s. split; [|exact Hdirect]. by exists [], []. }
  assert (∀ ph' s2 op' os', response txid (at_ ph' s2 op' os') = head (ph_notified wire ph')) as Hresp.
  { intros. unfold response, at_, conf. cbn [y_peer w_h h_txCtxs mbind option_bind]. by rewrite lookup_insert_eq. }
  eexists. split; [exact El|]. split_and!; [done|by eexists| |].
  - intros m. rewrite Hresp. destruct ph; try done. destruct Ht as [-> ->]. by intros [= <-].
  - destruct (wins_any cc wire WL CL hid cid running init txid simr args rn0 rn ctxs0 trans0 strans0 sims0 Hready
      (r, ev) s' Hr ph s1 Ht op os Hop Hos) as (l' & y' & El' & op' & os' & ->).
    exists l', (at_ (PhNotified (final_msg txid r ev)) s' op' os').
    split; [exact El'|]. by rewrite Hresp.
Qed.
End claim.
