(* ===== verification/CcBehaviour.v ===== *)
(** * Behaviours of the chaincode stream outside normal executions

    What the two handlers do with error replies, range queries, requests for
    unknown transactions and the end of a stream. *)

From Stdlib Require Import Strings.Byte.
From stdpp Require Import base numbers strings gmap list.
From S2P Require Import Prelude Fsm PeerTypes PeerTx CcTypes CcHandler CcShim CcStream CcStreamProofs.
Local Open Scope Z_scope.

(** ** The shim *)
Section shim.
Context `{!ErrorText, !Proto ChaincodeID, !Proto PutStateInfo, !Proto RangeQueryState, !Proto RangeQueryStateNext,
  !Proto RangeQueryStateClose, !Proto RangeQueryStateResponse, !Proto ChaincodeSpec, !Proto ChaincodeInput,
  !Proto ChaincodeMessage}.
Context (cc : Chaincode).

(** The shim in an invocation that waits for an answer. *)
Definition waiting (txid : bytes) (trans : gmap bytes bool) (k : ChaincodeMessage → ccprog) (out : list ChaincodeMessage)
    : Shim := mkShim transactionstate {[txid]} trans [] [CWaiting txid k] out true false.

(** An error reply reaches the chaincode, but takes the machine to ready. *)
Lemma error_reply_leaves_transaction txid trans k out m :
  cm_Type m = ERROR → cm_Txid m = txid →
  handleMessage m (waiting txid trans k out)
  = Ok (false, mkShim readystate {[txid]} trans [] [CReceived txid (k m)] out true false).
Proof.
  intros E1 E2. apply (shim_handle_ok _ m None); [by rewrite E1|by rewrite E1|]. rewrite E1.
  eapply Event_moves; [done..|]. cbn [call cb_after shim_callbacks]. unfold afterError.
  by erewrite bind_ok; [|by apply (sendChannel_ok txid)].
Qed.

(** An error reply to a request of an invocation ends the chaincode.  The
    reply is given to the chaincode, and then whatever the chaincode returns,
    a result or an error, is not sent: the shim's state machine, which the
    reply has taken to ready, cannot handle it; the shim sends the peer an
    error of its own and its loop returns. *)
Theorem error_reply_ends_shim (txid : bytes) (trans : gmap bytes bool) (k : ChaincodeMessage → ccprog)
    (out : list ChaincodeMessage) (m : ChaincodeMessage) (r : bytes + slice) (ev : option ChaincodeEvent) :
  cm_Type m = ERROR → cm_Txid m = txid → k m = PReturn r ev →
  (_ ← shim_recv (Some m); _ ← cctask_step cc 0; _ ← cctask_step cc 0; shim_next 0) (waiting txid trans k out)
  = Ok (tt, mkShim readystate ∅ (delete txid trans) [] []
      (out ++ [newMsg ERROR (Some (cannot_text (final_msg txid r ev) readystate)) txid]) true true).
Proof.
  intros E1 E2 Hk.
  erewrite bind_ok.
  2:{ unfold shim_recv. erewrite bind_ok; [|by apply error_reply_leaves_transaction]. by rewrite E1. }
  rewrite Hk. erewrite bind_ok.
  2:{ unfold cctask_step. erewrite bind_ok; [|done]. cbn [s_tasks lookup list_lookup].
      unfold deleteChannel. erewrite bind_ok; [|done]. cbn [s_responseChannel]. rewrite release_txid. reflexivity. }
  destruct r; reflexivity.
Qed.
End shim.

(** ** The peer *)
Section peer.
Context {S It : Type} `{!TxSimulator S It, !ErrorText}.
Context `{!Proto ChaincodeID, !Proto PutStateInfo, !Proto RangeQueryState, !Proto RangeQueryStateNext,
  !Proto RangeQueryStateClose, !Proto RangeQueryStateResponse, !Proto ChaincodeSpec, !Proto ChaincodeInput,
  !Proto ChaincodeMessage}.
Abbreviation World := (HW S It).

Lemma getTxContext_eq (w : World) txid : getTxContext txid w = Ok (h_txCtxs (w_h w) ≫= λ m, m !! txid, w).
Proof. done. Qed.

(** A request for a transaction the peer does not know panics. *)
Lemma unknown_transaction_panics (w : World) (msg : ChaincodeMessage) cid :
  h_ChaincodeID (w_h w) = Some cid → h_txCtxs (w_h w) ≫= (λ m, m !! cm_Txid msg) = None →
  handleGetState msg w = Panic.
Proof.
  intros E1 E2. unfold handleGetState. cbv zeta. erewrite bind_ok; [|by apply (chaincode_name_ok cid)].
  erewrite bind_ok; [|apply getTxContext_eq]. by rewrite E2.
Qed.

Lemma range_loop_length n r (it : It) (w w' : World) l it' :
  range_loop n r it w = Ok ((Some l, it'), w') → (length l ≤ n)%nat.
Proof.
  revert it w w' l it'. induction n as [|n IH]; intros it w w' l it'; cbn [range_loop].
  { intros [= <- _ _]. done. }
  unfold mbind at 1, M_bind at 1. destruct (on_sim r (it_Next it) w) as [[[q it1] w1]| |]; [|done..].
  destruct q as [e|[[k v]|]]; [done| |by intros [= <- _ _]; simpl; lia].
  unfold mbind, M_bind. destruct (range_loop n r it1 w1) as [[[o it2] w2]| |] eqn:E; [|done..].
  destruct o as [l'|]; [|done]. intros [= <- _ _]. simpl. specialize (IH _ _ _ _ _ E). lia.
Qed.

(** The answer to a range query holds at most a hundred pairs and always says
    that there are no more. *)
Lemma range_query_truncated uuid msg (w w' : World) m :
  handleRangeQueryState uuid msg w = Ok (Some m, w') → cm_Type m = RESPONSE →
  ∃ l b, cm_Payload m = Some b ∧ Marshal (mkRQResponse l false uuid) = Some b
    ∧ (length l ≤ maxRangeQueryStateLimit)%nat.
Proof.
  intros E Hm. refine (pc_intro _ (λ o _, ∀ m, o = Some m → cm_Type m = RESPONSE → ∃ l b, cm_Payload m = Some b
    ∧ Marshal (mkRQResponse l false uuid) = Some b ∧ (length l ≤ maxRangeQueryStateLimit)%nat) _ _ _ _ E m eq_refl Hm).
  clear E Hm m w'. unfold handleRangeQueryState. case_match; [|by apply pc_ret; intros m [= <-]].
  unfold getTxContext, chaincode_name, of_h. repeat (pc_step; cbv beta).
  unfold pc. destruct (on_sim _ _ w) as [[q w1]| |]; [|done..]. destruct q as [e|it]; [by intros m [= <-]|].
  unfold mbind at 1, M_bind at 1. destruct (range_loop _ _ it w1) as [[[o it2] w2]| |] eqn:El; [|done..].
  unfold mbind, M_bind, putRangeQueryIterator, upd_ctx, upd, modify. cbn [fst]. destruct o as [l|]; [|by intros m].
  destruct (Marshal (mkRQResponse l false uuid)) as [b|] eqn:Eb; [|by intros m [= <-]].
  intros m [= <-] _. exists l, b. split_and!; [done|done|by eapply range_loop_length].
Qed.

(** Asking for more drops a result, and panics at the end. *)
Lemma range_next_drops n r (it it' : It) (w w' : World) q :
  on_sim r (it_Next it) w = Ok ((inr q, it'), w') →
  next_loop (Datatypes.S n) r it w = match q with Some _ => Ok ((Some true, it'), w') | None => Panic end.
Proof. intros E. cbn [next_loop]. unfold mbind, M_bind. rewrite E. by destruct q. Qed.

(** A chaincode whose initialisation fails: the cancellation of the event that
    enters the end state is not an error of [HandleMessage], so that the loop
    goes on, with the chaincode's name deregistered. *)
Lemma end_state_goes_on (w : World) (msg : ChaincodeMessage) cid rn ctxs used trans out :
  cm_Type msg = ERROR → ctxs !! cm_Txid msg = None →
  w_h w = mkHandler initstate (Some cid) true rn (Some ctxs) used trans [] [] out true false →
  is_Some (w_running w !! cid_Name cid) →
  ∃ w', recv_turn (Some msg) w = Ok (tt, w') ∧ h_FSM (w_h w') = endstate ∧ h_ended (w_h w') = false
    ∧ w_running w' = delete (cid_Name cid) (w_running w).
Proof.
  destruct msg as [t ts pl id evt], w as [hid h running sims]. cbn [cm_Type cm_Txid w_h w_running].
  intros -> Hc -> [x Hx]. set (m := mkMsg ERROR ts pl id evt).
  eexists. split.
  - unfold recv_turn. rewrite bool_decide_eq_false_2 by done. erewrite bind_ok with (a := false); [done|].
    eapply (peer_handle_ok _ m (Some (CallbackError tt))); [done|].
    eapply (Event_moves_err fsm_current fsm_set peer_events peer_callbacks eq_refl (λ _, eq_refl) eq_refl eq_refl _ _ endstate _ (Some tt) _ None); [done|done|done| |done].
    cbn [call cb_enter peer_callbacks]. unfold enterEndState. erewrite bind_ok; [|done].
    erewrite bind_ok; [|unfold notify; erewrite bind_ok; [|apply getTxContext_eq]; cbn -[lookup]; rewrite Hc; done].
    erewrite bind_ok; [done|]. unfold deregister. erewrite bind_ok; [|done].
    cbn [w_h h_registered set_isTransaction set_h fsm_set set_FSM]. erewrite bind_ok; [done|].
    unfold deregisterHandler. do 4 (erewrite bind_ok; [|done]). cbn [w_running set_h fsm_set]. rewrite Hx. done.
  - done.
Qed.

(** The end of a handler's stream removes the entry of its chaincode's name,
    even when another handler has registered under it since. *)
Lemma old_stream_evicts_new (w : World) cid other :
  h_registered (w_h w) = true → h_ChaincodeID (w_h w) = Some cid → other ≠ w_id w →
  w_running w !! cid_Name cid = Some (RTHandler other) →
  ∃ w', recv_turn None w = Ok (tt, w') ∧ w_running w' !! cid_Name cid = None.
Proof.
  intros E1 E2 _ E3. eexists. split.
  - unfold recv_turn, end_stream. erewrite bind_ok; [done|]. unfold deregister. erewrite bind_ok; [|done]. rewrite E1.
    erewrite bind_ok; [done|]. unfold deregisterHandler. erewrite bind_ok; [|done]. erewrite bind_ok; [|done].
    cbn [w_h h_ChaincodeID set_h set_txCtxs]. rewrite E2. erewrite bind_ok; [|done]. erewrite bind_ok; [|done].
    cbn [w_running set_h]. rewrite E3. done.
  - cbn [w_running set_running set_h]. apply lookup_delete_eq.
Qed.

(** A second invocation while one is running ends the stream: the state machine
    does not handle it, and nothing keeps [Execute] from asking for it. *)
Lemma second_invocation_ends_stream (w : World) (msg : ChaincodeMessage) :
  cm_Type msg = TRANSACTION → h_FSM (w_h w) = transactionstate ∨ h_FSM (w_h w) = busyxactstate →
  HandleMessage msg w = Ok (true, w).
Proof.
  intros E1 E2. unfold HandleMessage. erewrite bind_ok with (a := true) (w' := w).
  - cbv iota. erewrite bind_ok; [|unfold getIsTransaction; by erewrite bind_ok; [|done]]. by rewrite E1.
  - unfold gets, Cannot, fsm_current. rewrite E1. by destruct E2 as [-> | ->].
Qed.
End peer.
