(* ===== verification/ShimTable.v ===== *)
(** * Tables (core/chaincode/shim/chaincode.go)

    Chaincodes can keep tables: a table is a definition of columns, some of
    them keys, stored under a key made of the table's name; a row is stored
    under a key made of the table's name and the values of its key columns.
    All of it goes through the state functions of the stub, an interface. *)

From Stdlib Require Import Strings.Byte.
From stdpp Require Import base numbers strings gmap list.
From S2P Require Import Prelude PeerTypes.
Local Open Scope Z_scope.

(** ** table.proto *)
Definition ColumnDefinition_STRING : Z := 0.
Definition ColumnDefinition_INT32 : Z := 1.
Definition ColumnDefinition_INT64 : Z := 2.
Definition ColumnDefinition_UINT32 : Z := 3.
Definition ColumnDefinition_UINT64 : Z := 4.
Definition ColumnDefinition_BYTES : Z := 5.
Definition ColumnDefinition_BOOL : Z := 6.

Record ColumnDefinition := mkColumnDefinition { cd_Name : bytes; cd_Type : Z; cd_Key : bool }.
Record Table := mkTable { tbl_Name : bytes; tbl_ColumnDefinitions : list (option ColumnDefinition) }.

(** The value of a column is a [oneof]; [None] is a column without one. *)
Inductive ColumnValue :=
  | Column_String_ (s : bytes)
  | Column_Int32 (z : Z)
  | Column_Int64 (z : Z)
  | Column_Uint32 (z : Z)
  | Column_Uint64 (z : Z)
  | Column_Bytes (b : bytes)
  | Column_Bool (b : bool).
Abbreviation Column := (option ColumnValue).
Record Row := mkRow { row_Columns : option (list (option Column)) }.

#[global] Instance ColumnValue_eq_dec : EqDecision ColumnValue.
Proof. solve_decision. Defined.

(** ** The stub

    Reads and writes of the chaincode's state; [inl] and [Some] are errors.  An
    iterator of a range query has the pairs received so far. *)
Class ChaincodeStubInterface (St It : Type) := {
  stub_GetState : bytes → M St (bytes + slice);
  stub_PutState : bytes → slice → M St (option bytes);
  stub_DelState : bytes → M St (option bytes);
  stub_RangeQueryState : bytes → bytes → M St (bytes + It);
  stub_HasNext : It → bool;
  stub_Next : It → M St ((bytes + bytes * slice) * It);
  stub_Close : It → M St unit }.

Inductive table_error := ErrTableNotFound | TableError.

(** ** Keys *)
Definition validateTableName (name : bytes) : bool := negb (bool_decide (name = [])).

Definition Itoa (n : nat) : bytes := decimal 20 (Z.of_nat n).

Definition getTableNameKey (name : bytes) : option bytes :=
  if validateTableName name then Some (Itoa (length name) ++ name) else None.

Definition key_text (c : Column) : bytes :=
  match c with
  | Some (Column_String_ s) => s
  | Some (Column_Int32 z) | Some (Column_Int64 z) | Some (Column_Uint32 z) | Some (Column_Uint64 z) => FormatInt z
  | Some (Column_Bytes b) => b
  | Some (Column_Bool b) => if b then bytes_of_string "true" else bytes_of_string "false"
  | None => []
  end.

Fixpoint key_texts (keys : list Column) : bytes :=
  match keys with
  | [] => []
  | key :: rest => Itoa (length (key_text key)) ++ key_text key ++ key_texts rest
  end.

Definition buildKeyString (tableName : bytes) (keys : list Column) : option bytes :=
  tableNameKey ← getTableNameKey tableName; Some (tableNameKey ++ key_texts keys).

(** ** Rows and definitions *)
Definition expectedType (c : ColumnValue) : Z :=
  match c with
  | Column_String_ _ => ColumnDefinition_STRING
  | Column_Int32 _ => ColumnDefinition_INT32
  | Column_Int64 _ => ColumnDefinition_INT64
  | Column_Uint32 _ => ColumnDefinition_UINT32
  | Column_Uint64 _ => ColumnDefinition_UINT64
  | Column_Bytes _ => ColumnDefinition_BYTES
  | Column_Bool _ => ColumnDefinition_BOOL
  end.

(** The loop over the columns; a nil column or definition is dereferenced. *)
Fixpoint verify_columns (columns : list (option Column)) (defs : list (option ColumnDefinition))
    : res (option (list Column)) :=
  match columns, defs with
  | [], _ => Ok (Some [])
  | _ :: _, [] => Panic
  | column :: columns, def :: defs =>
      column ← deref column;
      def ← deref def;
      match column with
      | Some v =>
          if bool_decide (cd_Type def = expectedType v) then
            keys ← verify_columns columns defs;
            Ok (match keys with
                | Some keys => Some (if cd_Key def then Some v :: keys else keys)
                | None => None
                end)
          else Ok None
      | None => Ok None
      end
  end.

Definition getKeyAndVerifyRow (table : Table) (row : Row) : res (option (list Column)) :=
  match row_Columns row with
  | None => Ok None
  | Some columns =>
      if bool_decide (length columns = length (tbl_ColumnDefinitions table))
      then verify_columns columns (tbl_ColumnDefinitions table) else Ok None
  end.

(** [createTableInternal]'s checks of the definitions. *)
Definition valid_type (t : Z) : bool :=
  match t with 0 | 1 | 2 | 3 | 4 | 5 | 6 => true | _ => false end.
Fixpoint check_definitions (defs : list (option ColumnDefinition)) (names : list bytes) (hasKey : bool) : bool :=
  match defs with
  | [] => hasKey
  | None :: _ => false
  | Some d :: rest =>
      negb (bool_decide (cd_Name d = [])) && negb (bool_decide (cd_Name d ∈ names)) && valid_type (cd_Type d)
      && check_definitions rest (cd_Name d :: names) (hasKey || cd_Key d)
  end.

Section table.
Context {St It : Type} `{!ChaincodeStubInterface St It, !Proto Table, !Proto Row}.

(** ** Tables *)

(** A nil value is taken for a missing table before the error is looked at. *)
Definition getTable (tableName : bytes) : M St (table_error + Table) :=
  match getTableNameKey tableName with
  | None => mret (inl TableError)
  | Some key =>
      r ← stub_GetState key;
      match r with
      | inl _ | inr None => mret (inl ErrTableNotFound)
      | inr (Some tableBytes) =>
          mret (match Unmarshal tableBytes with Some table => inr table | None => inl TableError end)
      end
  end.

(** Whether there was no error. *)
Definition createTableInternal (name : bytes) (columnDefinitions : list (option ColumnDefinition)) : M St bool :=
  t ← getTable name;
  match t with
  | inr _ | inl TableError => mret false
  | inl ErrTableNotFound =>
      if bool_decide (columnDefinitions = []) then mret false
      else if check_definitions columnDefinitions [] false then
        match Marshal (mkTable name columnDefinitions), getTableNameKey name with
        | Some tableBytes, Some tableNameKey =>
            err ← stub_PutState tableNameKey (Some tableBytes);
            mret (bool_decide (err = None))
        | _, _ => mret false
        end
      else mret false
  end.

(** The loop over the rows; [fuel] bounds the number of rows. *)
Fixpoint delete_rows (fuel : nat) (it : It) : M St (bool * It) :=
  if stub_HasNext it then
    match fuel with
    | O => out_of_fuel
    | S fuel =>
        r ← stub_Next it;
        match r.1 with
        | inl _ => mret (false, r.2)
        | inr (key, _) =>
            err ← stub_DelState key;
            match err with Some _ => mret (false, r.2) | None => delete_rows fuel r.2 end
        end
    end
  else mret (true, it).

Definition deleteTableInternal (fuel : nat) (tableName : bytes) : M St bool :=
  match getTableNameKey tableName with
  | None => mret false
  | Some tableNameKey =>
      it ← stub_RangeQueryState (tableNameKey ++ bytes_of_string "1") (tableNameKey ++ bytes_of_string ":");
      match it with
      | inl _ => mret false
      | inr it =>
          r ← delete_rows fuel it;
          ok ← (if (r.1 : bool) then err ← stub_DelState tableNameKey; mret (bool_decide (err = None)) else mret false);
          _ ← stub_Close r.2;
          mret ok
      end
  end.

(** ** Rows *)

(** [None]: an error.  The row of a key that is not there is the empty one. *)
Definition getRowInternal (tableName : bytes) (key : list Column) : M St (option Row) :=
  match buildKeyString tableName key with
  | None => mret None
  | Some keyString =>
      r ← stub_GetState keyString;
      mret (match r with inl _ => None | inr rowBytes => Unmarshal (sl rowBytes) end)
  end.

Definition deleteRowInternal (tableName : bytes) (key : list Column) : M St bool :=
  match buildKeyString tableName key with
  | None => mret false
  | Some keyString => err ← stub_DelState keyString; mret (bool_decide (err = None))
  end.

Definition isRowPresent (tableName : bytes) (key : list Column) : M St (option bool) :=
  match buildKeyString tableName key with
  | None => mret None
  | Some keyString =>
      r ← stub_GetState keyString;
      mret (match r with inl _ => None | inr rowBytes => Some (bool_decide (rowBytes ≠ None)) end)
  end.

Definition insertRowInternal (tableName : bytes) (row : Row) (update : bool) : M St (table_error + bool) :=
  t ← getTable tableName;
  match t with
  | inl e => mret (inl e)
  | inr table =>
      k ← lift (getKeyAndVerifyRow table row);
      match k with
      | None => mret (inl TableError)
      | Some key =>
          p ← isRowPresent tableName key;
          match p with
          | None => mret (inl TableError)
          | Some present =>
              if (present && negb update) || (negb present && update) then mret (inr false)
              else
                match Marshal row, buildKeyString tableName key with
                | Some rowBytes, Some keyString =>
                    err ← stub_PutState keyString (Some rowBytes);
                    mret (match err with Some _ => inl TableError | None => inr true end)
                | _, _ => mret (inl TableError)
                end
          end
      end
  end.
Definition InsertRow (tableName : bytes) (row : Row) : M St (table_error + bool) := insertRowInternal tableName row false.
Definition ReplaceRow (tableName : bytes) (row : Row) : M St (table_error + bool) := insertRowInternal tableName row true.

(** The goroutine of [getRowsInternal]: after an error the channel is closed
    and then sent on, which panics. *)
Fixpoint send_rows (fuel : nat) (it : It) : M St (list Row) :=
  if stub_HasNext it then
    match fuel with
    | O => out_of_fuel
    | S fuel =>
        r ← stub_Next it;
        match r.1 with
        | inl _ => go_panic
        | inr (_, rowBytes) =>
            match Unmarshal (sl rowBytes) with
            | None => go_panic
            | Some row => rows ← send_rows fuel r.2; mret (row :: rows)
            end
        end
    end
  else mret [].

(** The rows the reader of the channel gets; the iterator is closed before the
    rows are read from it. *)
Definition getRowsInternal (fuel : nat) (tableName : bytes) (key : list Column) : M St (table_error + list Row) :=
  match buildKeyString tableName key with
  | None => mret (inl TableError)
  | Some keyString =>
      t ← getTable tableName;
      match t with
      | inl e => mret (inl e)
      | inr table =>
          if bool_decide (length (tbl_ColumnDefinitions table) < 2)%nat && bool_decide (key ≠ []) then
            row ← getRowInternal tableName key;
            mret (match row with Some row => inr [row] | None => inl TableError end)
          else
            it ← stub_RangeQueryState (keyString ++ bytes_of_string "1") (keyString ++ bytes_of_string ":");
            match it with
            | inl _ => mret (inl TableError)
            | inr it => _ ← stub_Close it; rows ← send_rows fuel it; mret (inr rows)
            end
      end
  end.
End table.
