(* ===== verification/ShimTableProofs.v ===== *)
(** * Tables: keys, types and rows

    Rows of different keys are stored apart where the key encoding can be read
    back; a row is accepted when its columns have the types of the table's
    definitions; an inserted row is the one read. *)

From Stdlib Require Import Strings.Byte.
From stdpp Require Import base numbers strings gmap list.
From S2P Require Import Prelude PeerTypes ShimTable.
Local Open Scope Z_scope.

(** ** Numerals *)
Definition is_digit (b : byte) : Prop := 48 ≤ Z_of_byte b < 58.
#[global] Instance is_digit_dec b : Decision (is_digit b) := _.

Lemma decimal_all_digits d n : 0 ≤ n → Forall is_digit (decimal d n).
Proof.
  assert (∀ k, 0 ≤ k < 10 → is_digit (byte_of_Z (48 + k))) as Hk.
  { intros k Hk. unfold is_digit. rewrite Z_of_byte_of_Z, ?Z.mod_small; lia. }
  revert n. induction d as [|d IH]; intros n Hn; simpl; [done|]. case_bool_decide.
  - apply Forall_singleton, Hk. lia.
  - apply Forall_app. split; [apply IH, Z.div_pos; lia|]. apply Forall_singleton, Hk, Z.mod_pos_bound. lia.
Qed.

Lemma decimal_inj d n m : 0 ≤ n < 10 ^ Z.of_nat d → 0 ≤ m < 10 ^ Z.of_nat d → decimal d n = decimal d m → n = m.
Proof. intros Hn Hm E. apply (f_equal decimal_value) in E. by rewrite !decimal_value_decimal in E. Qed.

(** The numeral of a positive number does not start with a zero. *)
Lemma decimal_head d n : 0 < n < 10 ^ Z.of_nat d → ∃ b l, decimal d n = b :: l ∧ 49 ≤ Z_of_byte b < 58.
Proof.
  revert n. induction d as [|d IH]; intros n Hn; [simpl in Hn; lia|].
  rewrite Nat2Z.inj_succ, Z.pow_succ_r in Hn by lia. cbn [decimal]. case_bool_decide.
  - eexists _, _. split; [done|]. rewrite Z_of_byte_of_Z, ?Z.mod_small; lia.
  - destruct (IH (n / 10)) as (b & l & -> & Hb).
    { split; [apply Z.div_str_pos; lia|apply Z.div_lt_upper_bound; lia]. }
    by eexists _, _.
Qed.

(** The length of a numeral grows with the number. *)
Lemma decimal_length_mono d n m : 0 ≤ n ≤ m → (length (decimal d n) ≤ length (decimal d m))%nat.
Proof.
  revert n m. induction d as [|d IH]; intros n m Hn; [done|]. cbn [decimal].
  assert (length (decimal d (n / 10)) ≤ length (decimal d (m / 10)))%nat as Hl.
  { apply IH. split; [apply Z.div_pos; lia|apply Z.div_le_mono; lia]. }
  do 2 case_bool_decide; rewrite ?length_app; simpl; lia.
Qed.

(** ** One text of a key

    [size_ok]: the length of a string in memory. *)
Definition size_ok (t : bytes) : Prop := Z.of_nat (length t) < 2 ^ 63.
(** A text that is empty or does not start with a digit. *)
Definition plain (t : bytes) : Prop := match t with [] => True | b :: _ => ¬ is_digit b end.

Definition chunk (t : bytes) : bytes := Itoa (length t) ++ t.

Lemma size_digits t : size_ok t → 0 ≤ Z.of_nat (length t) < 10 ^ Z.of_nat 20.
Proof. unfold size_ok. intros Hs. change (10 ^ Z.of_nat 20) with 100000000000000000000. lia. Qed.

Lemma digits_then a b x y (c d : byte) :
  Forall is_digit a → Forall is_digit b → ¬ is_digit c → ¬ is_digit d →
  a ++ c :: x = b ++ d :: y → a = b ∧ c :: x = d :: y.
Proof.
  intros Ha. revert b. induction Ha as [|e a He Ha IH]; intros b Hb Hc Hd E.
  - destruct b as [|e b]; [done|]. simpl in E. injection E as -> _. by inversion Hb.
  - destruct b as [|e' b]; simpl in E; injection E as -> E; [done|]. inversion Hb; subst.
    destruct (IH b) as [-> ->]; auto.
Qed.

Lemma chunk_nonempty t r r' : size_ok t → t ≠ [] → chunk [] ++ r = chunk t ++ r' → False.
Proof.
  intros Hs Hne E. apply size_digits in Hs.
  destruct (decimal_head 20 (Z.of_nat (length t))) as (d & l & Ed & Hd).
  { destruct t; [done|]. cbn [length] in *. lia. }
  unfold chunk, Itoa in E. rewrite Ed in E. change (decimal 20 (Z.of_nat (length []))) with [x30] in E.
  injection E as <- _. change (Z_of_byte x30) with 48 in Hd. lia.
Qed.

Lemma chunk_plain t t' r r' :
  plain t → plain t' → size_ok t → size_ok t' → chunk t ++ r = chunk t' ++ r' → t = t' ∧ r = r'.
Proof.
  intros Hp Hp' Hs Hs' E. apply size_digits in Hs as Hn. apply size_digits in Hs' as Hn'.
  destruct t as [|b t], t' as [|b' t'].
  - by apply app_inv_head in E.
  - by apply chunk_nonempty in E.
  - by symmetry in E; apply chunk_nonempty in E.
  - unfold chunk, Itoa in E. rewrite <-!app_assoc in E. rewrite <-!app_comm_cons in E.
    apply digits_then in E as [E1 E2]; [|by apply decimal_all_digits; lia..|done|done].
    apply decimal_inj in E1; [|done|done]. assert (length (b :: t) = length (b' :: t')) as El by lia.
    rewrite !app_comm_cons in E2. by apply app_inj_1 in E2.
Qed.

(** With nothing behind it, any text can be read back. *)
Lemma chunk_inj t t' : size_ok t → size_ok t' → chunk t = chunk t' → t = t'.
Proof.
  intros Hs Hs' E. unfold chunk, Itoa in E.
  assert (length t = length t') as El.
  { apply (f_equal length) in E. rewrite !length_app in E.
    pose proof (decimal_length_mono 20 (Z.of_nat (length t)) (Z.of_nat (length t'))).
    pose proof (decimal_length_mono 20 (Z.of_nat (length t')) (Z.of_nat (length t))). lia. }
  rewrite El in E. by apply app_inv_head in E.
Qed.

(** ** Keys

    A key can be read back when the table's name is plain and its texts are,
    or when there is one text only. *)
Definition readable (tableName : bytes) (keys : list Column) : Prop :=
  plain tableName ∧ size_ok tableName ∧ Forall size_ok (key_text <$> keys) ∧
  (length keys = 1%nat ∨ Forall plain (key_text <$> keys)).

Lemma decimal_cons d n : decimal (S d) n ≠ [].
Proof. cbn [decimal]. case_bool_decide; [done|]. intros E. by apply app_eq_nil in E as [_ ?]. Qed.

Lemma chunk_cons t r : chunk t ++ r ≠ [].
Proof. intros E. apply app_eq_nil in E as [E _]. apply app_eq_nil in E as [E _]. by apply decimal_cons in E. Qed.

Lemma key_texts_cons k ks : key_texts (k :: ks) = chunk (key_text k) ++ key_texts ks.
Proof. unfold chunk. by rewrite <-app_assoc. Qed.

Lemma key_texts_plain ks ks' :
  Forall plain (key_text <$> ks) → Forall plain (key_text <$> ks') →
  Forall size_ok (key_text <$> ks) → Forall size_ok (key_text <$> ks') →
  key_texts ks = key_texts ks' → key_text <$> ks = key_text <$> ks'.
Proof.
  revert ks'. induction ks as [|k ks IH]; intros [|k' ks'] Hp Hp' Hs Hs' E; rewrite ?key_texts_cons in E; [done|..].
  - by symmetry in E; apply chunk_cons in E.
  - by apply chunk_cons in E.
  - rewrite !fmap_cons in *. apply Forall_cons in Hp as [??], Hp' as [??], Hs as [??], Hs' as [??].
    apply chunk_plain in E as [-> E]; [|done..]. f_equal. by apply IH.
Qed.

Lemma key_texts_one k k' :
  size_ok (key_text k) → size_ok (key_text k') → key_texts [k] = key_texts [k'] → key_text k = key_text k'.
Proof. rewrite !key_texts_cons, !app_nil_r. apply chunk_inj. Qed.

Lemma buildKeyString_table n n' ks ks' k :
  plain n → plain n' → size_ok n → size_ok n' →
  buildKeyString n ks = Some k → buildKeyString n' ks' = Some k → n = n' ∧ key_texts ks = key_texts ks'.
Proof.
  unfold buildKeyString, getTableNameKey. intros Hp Hp' Hs Hs' E E'.
  destruct (validateTableName n), (validateTableName n'); [|done..]. injection E as <-. injection E' as E'.
  apply (chunk_plain n' n) in E' as [-> ->]; done.
Qed.

(** Different rows of a table, and rows of different tables, have different keys. *)
Lemma buildKeyString_row n n' ks ks' k :
  readable n ks → readable n' ks' → buildKeyString n ks = Some k → buildKeyString n' ks' = Some k →
  n = n' ∧ (length ks = length ks' → key_text <$> ks = key_text <$> ks').
Proof.
  intros (Hn & Hs & Hss & Hks) (Hn' & Hs' & Hss' & Hks') E E'.
  destruct (buildKeyString_table n n' ks ks' k) as [-> Et]; [done..|]. split; [done|]. intros El.
  assert (length ks = 1%nat → key_text <$> ks = key_text <$> ks') as H1.
  { intros Hl. destruct ks as [|c [|]]; [done| |done]. destruct ks' as [|c' [|]]; [done| |done].
    cbn in Hss, Hss' |- *. f_equal. apply key_texts_one; [by inversion Hss|by inversion Hss'|done]. }
  destruct Hks as [?|?]; [by auto|]. destruct Hks' as [?|?]; [apply H1; lia|]. by apply key_texts_plain.
Qed.

(** The text of a value of a known type is the value. *)
Definition value_ok (v : ColumnValue) : Prop :=
  match v with
  | Column_Int32 z => - 2 ^ 31 ≤ z < 2 ^ 31
  | Column_Int64 z => - 2 ^ 63 ≤ z < 2 ^ 63
  | Column_Uint32 z => 0 ≤ z < 2 ^ 32
  | Column_Uint64 z => 0 ≤ z < 2 ^ 64
  | _ => True
  end.

(** A row that reads back as it is. *)
#[global] Instance Column_canonical : Canonical Column := λ c, match c with Some v => value_ok v | None => True end.
#[global] Instance Row_canonical : Canonical Row := λ r,
  match row_Columns r with
  | None => True
  | Some cs => cs ≠ [] ∧ Forall (λ o, ∃ c, o = Some c ∧ canonical c) cs
  end.

#[global] Instance Table_canonical : Canonical Table := λ t,
  Forall (λ o, ∃ d, o = Some d ∧ is_i32 (cd_Type d)) (tbl_ColumnDefinitions t).

Lemma FormatInt_inj z z' : - 2 ^ 63 ≤ z < 2 ^ 64 → - 2 ^ 63 ≤ z' < 2 ^ 64 → FormatInt z = FormatInt z' → z = z'.
Proof.
  intros Hz Hz' E.
  assert (∀ n, 0 ≤ n < 2 ^ 64 → 0 ≤ n < 10 ^ Z.of_nat 20) as Hd.
  { intros n. change (10 ^ Z.of_nat 20) with 100000000000000000000. lia. }
  assert (∀ n l, 0 ≤ n → decimal 20 n ≠ x2d :: l) as Hm.
  { intros n l Hn En. pose proof (decimal_all_digits 20 n Hn) as Ha. rewrite En in Ha.
    apply Forall_cons in Ha as [Ha _]. vm_compute in Ha. by destruct Ha. }
  unfold FormatInt in E. do 2 case_bool_decide.
  - apply (f_equal tail) in E. cbn [tail] in E. apply decimal_inj in E; [lia|apply Hd; lia..].
  - by symmetry in E; apply Hm in E; [|lia].
  - by apply Hm in E; [|lia].
  - apply decimal_inj in E; [done|apply Hd; lia..].
Qed.

Lemma key_text_inj v v' :
  expectedType v = expectedType v' → value_ok v → value_ok v' → key_text (Some v) = key_text (Some v') → v = v'.
Proof.
  destruct v, v'; intros Et Hv Hv' E; try discriminate Et; cbn [key_text value_ok] in *; f_equal; try done.
  1-4: apply FormatInt_inj; [lia..|done].
  by destruct b, b0.
Qed.

(** ** Types *)

(** The values of the key columns, in the order of the definitions. *)
Fixpoint key_values (vs : list ColumnValue) (defs : list ColumnDefinition) : list ColumnValue :=
  match vs, defs with
  | v :: vs, d :: defs => if cd_Key d then v :: key_values vs defs else key_values vs defs
  | _, _ => []
  end.
Definition typed (vs : list ColumnValue) (defs : list ColumnDefinition) : Prop :=
  Forall2 (λ v d, cd_Type d = expectedType v) vs defs.

Lemma verify_columns_typed (columns : list Column) (defs : list ColumnDefinition) :
  length columns = length defs →
  (∃ vs, columns = Some <$> vs ∧ typed vs defs ∧
         verify_columns (Some <$> columns) (Some <$> defs) = Ok (Some (Some <$> key_values vs defs)))
  ∨ ((∀ vs, columns = Some <$> vs → ¬ typed vs defs) ∧
     verify_columns (Some <$> columns) (Some <$> defs) = Ok None).
Proof.
  revert defs. induction columns as [|c columns IH]; intros [|d defs] El; [|done..|].
  { left. exists []. repeat split. constructor. }
  csimpl. destruct c as [v|].
  2: { right. split; [|done]. by intros [|]. }
  case_bool_decide as Ht.
  2: { right. split; [|done]. intros [|v' vs] E Hty; [done|]. csimpl in E. injection E as <- ->. by inversion Hty. }
  destruct (IH defs) as [(vs & -> & Hty & Ev)|[Hno Ev]]; [by injection El|..]; rewrite Ev; csimpl.
  - left. exists (v :: vs). split_and!; [done|by constructor|]. csimpl. by destruct (cd_Key d).
  - right. split; [|done]. intros [|v' vs] E Hty; [done|]. csimpl in E. injection E as <- E. inversion Hty; subst. by eapply Hno.
Qed.

(** C39. The row check is a type check: a row of a table without nil
    definitions is accepted exactly when it has a value for each definition,
    of the definition's type; the key is then the values of the key columns in
    order.  A row of columns that are not nil never makes it panic. *)
Theorem getKeyAndVerifyRow_types name defs (columns : list Column) :
  let r := getKeyAndVerifyRow (mkTable name (Some <$> defs)) (mkRow (Some (Some <$> columns))) in
  (∀ ks, r = Ok (Some ks) ↔ ∃ vs, columns = Some <$> vs ∧ typed vs defs ∧ ks = Some <$> key_values vs defs)
  ∧ (r = Ok None ↔ ¬ ∃ vs, columns = Some <$> vs ∧ typed vs defs).
Proof.
  cbv zeta. unfold getKeyAndVerifyRow. cbn [row_Columns tbl_ColumnDefinitions]. case_bool_decide as El; rewrite !length_fmap in El.
  - destruct (verify_columns_typed columns defs El) as [(vs & -> & Hty & ->)|[Hno ->]]; split.
    + intros ks. split; [intros [= <-]; eauto|]. intros (vs' & E & _ & ->). by apply (inj _) in E as ->.
    + split; [done|]. intros Hn. exfalso. eauto.
    + intros ks. split; [done|]. intros (vs & E & Hty & _). by apply Hno in E.
    + split; [|done]. intros _ (vs & E & Hty). by apply Hno in E.
  - assert (¬ ∃ vs, columns = Some <$> vs ∧ typed vs defs) as Hno.
    { intros (vs & -> & Hty). apply El. rewrite length_fmap. by eapply Forall2_length. }
    split; [|done]. intros ks. split; [done|]. intros (vs & ? & ? & _). exfalso. eauto.
Qed.

(** Two rows of a table with the same texts have the same key. *)
Lemma typed_key_texts vs vs' defs :
  typed vs defs → typed vs' defs → Forall value_ok vs → Forall value_ok vs' →
  key_text <$> (Some <$> key_values vs defs) = key_text <$> (Some <$> key_values vs' defs) →
  key_values vs defs = key_values vs' defs.
Proof.
  intros Ht. revert vs'. induction Ht as [|v d vs defs Hv Ht IH]; intros vs' Ht' Ho Ho' E; inversion Ht'; subst; [done|].
  apply Forall_cons in Ho as [??], Ho' as [??]. csimpl in *. destruct (cd_Key d); csimpl in *; [|by apply IH].
  injection E as E1 E2. f_equal; [apply key_text_inj; [congruence|done..]|by apply IH].
Qed.

(** ** Rows *)

(** What the stub promises: reads see the writes before them, a written value
    that is not empty is read, a deleted one is not there. *)
Class StubLaws (St It : Type) `{!ChaincodeStubInterface St It} := {
  stub_val : St → bytes → slice;
  GetState_law k s : stub_GetState k s = Ok (inr (stub_val s k), s);
  PutState_law k v s : v ≠ [] → ∃ s', stub_PutState k (Some v) s = Ok (None, s') ∧
    ∀ k', stub_val s' k' = if decide (k' = k) then Some v else stub_val s k';
  DelState_law k s : ∃ s', stub_DelState k s = Ok (None, s') ∧
    ∀ k', stub_val s' k' = if decide (k' = k) then None else stub_val s k' }.

Section rows.
Context {St It : Type} `{!ChaincodeStubInterface St It, SL : !StubLaws St It, !Proto Table, !Proto Row,
  PL : !ProtoLaws Row, PZ : !ProtoZero Row (mkRow None),
  PLT : !ProtoLaws Table, PZT : !ProtoZero Table (mkTable [] [])}.
Implicit Types s : St.

Lemma getTable_run n s : getTable n s = Ok (match getTableNameKey n with
  | None => inl TableError
  | Some key => match stub_val s key with
      | None => inl ErrTableNotFound
      | Some b => match Unmarshal b with Some table => inr table | None => inl TableError end
      end
  end, s).
Proof.
  unfold getTable. destruct (getTableNameKey n); [|done]. erewrite bind_ok; [|apply GetState_law].
  by destruct (stub_val s _).
Qed.
Lemma getRowInternal_run n ks s : getRowInternal n ks s = Ok (match buildKeyString n ks with
  | None => None
  | Some k => Unmarshal (sl (stub_val s k))
  end, s).
Proof. unfold getRowInternal. destruct (buildKeyString n ks); [|done]. by erewrite bind_ok; [|apply GetState_law]. Qed.
Lemma isRowPresent_run n ks s k :
  buildKeyString n ks = Some k → isRowPresent n ks s = Ok (Some (bool_decide (stub_val s k ≠ None)), s).
Proof. unfold isRowPresent. intros ->. by erewrite bind_ok; [|apply GetState_law]. Qed.

Lemma buildKeyString_nil n : buildKeyString n [] = getTableNameKey n.
Proof. unfold buildKeyString, getTableNameKey. destruct (validateTableName n); [|done]. csimpl. by rewrite app_nil_r. Qed.

Lemma getTable_key n s table ks : getTable n s = Ok (inr table, s) → is_Some (buildKeyString n ks).
Proof.
  rewrite getTable_run. unfold buildKeyString, getTableNameKey. destruct (validateTableName n); [|done]. eauto.
Qed.

(** A verified row of a key that is not empty marshals to something. *)
Lemma row_bytes table row ks :
  canonical row → getKeyAndVerifyRow table row = Ok (Some ks) → ks ≠ [] →
  ∃ b, Marshal row = Some b ∧ Unmarshal b = Some row ∧ b ≠ [].
Proof.
  intros Hc Hv Hks. destruct (Unmarshal_Marshal row Hc) as (b & Em & Eu). exists b. split_and!; [done..|]. intros ->.
  apply Marshal_nil in Em as ->; [|done]. done.
Qed.

(** [insertRowInternal] is one write, or nothing. *)
Lemma insertRowInternal_run n table row ks k update s :
  getTable n s = Ok (inr table, s) → getKeyAndVerifyRow table row = Ok (Some ks) → canonical row → ks ≠ [] →
  buildKeyString n ks = Some k →
  if eqb (bool_decide (stub_val s k ≠ None)) update then
    ∃ b s', Unmarshal b = Some row ∧ insertRowInternal n row update s = Ok (inr true, s')
            ∧ ∀ k', stub_val s' k' = if decide (k' = k) then Some b else stub_val s k'
  else insertRowInternal n row update s = Ok (inr false, s).
Proof.
  intros Et Hv Hc Hne Ek. destruct (row_bytes table row ks Hc Hv Hne) as (b & Em & Eu & Hb).
  destruct (PutState_law k b s Hb) as (s' & Ep & Hs').
  assert (insertRowInternal n row update s =
    if eqb (bool_decide (stub_val s k ≠ None)) update then Ok (inr true, s') else Ok (inr false, s)) as ->.
  { unfold insertRowInternal. erewrite bind_ok; [|exact Et]. cbv iota.
    rewrite Hv. erewrite (bind_ok (lift _)); [|done]. cbv iota.
    erewrite bind_ok; [|by apply isRowPresent_run]. cbv iota.
    destruct (bool_decide _), update; cbn [eqb andb orb negb]; try done;
      rewrite Em, Ek; cbv iota; by erewrite bind_ok; [|exact Ep]. }
  destruct (eqb _ _); [|done]. by exists b, s'.
Qed.


(** A table is created by one write, after which it is found. *)
Lemma createTableInternal_run n defs s k :
  getTableNameKey n = Some k → getTable n s = Ok (inl ErrTableNotFound, s) →
  defs ≠ [] → check_definitions defs [] false = true → canonical (mkTable n defs) →
  ∃ b s', Unmarshal b = Some (mkTable n defs) ∧ createTableInternal n defs s = Ok (true, s')
          ∧ ∀ k', stub_val s' k' = if decide (k' = k) then Some b else stub_val s k'.
Proof.
  intros Ek Et Hne Hcd Hc. destruct (Unmarshal_Marshal (mkTable n defs) Hc) as (b & Em & Eu).
  assert (b ≠ []) as Hb by (intros ->; apply Marshal_nil in Em; [by injection Em as _ ->|done]).
  destruct (PutState_law k b s Hb) as (s' & Ep & Hs'). exists b, s'. split_and!; [done| |done].
  unfold createTableInternal. erewrite bind_ok; [|exact Et]. cbv iota. rewrite bool_decide_false by done.
  rewrite Hcd, Em, Ek. cbv iota. by erewrite bind_ok; [|exact Ep].
Qed.
End rows.

(** Keys of integers are not always apart: two rows of a table with two integer
    key columns under the same key. *)
Lemma integer_keys_collide n :
  buildKeyString n [Some (Column_Int64 2); Some (Column_Int64 345678901215)]
  = buildKeyString n [Some (Column_Int64 123456789012); Some (Column_Int64 5)].
Proof. done. Qed.
