(* ===== verification/Lccc.v ===== *)
(** * The life cycle system chaincode (core/chaincode/lccc.go)

    Deployed chaincodes are rows of a table of each chain.  [deploy] adds a
    row; [getdepspec] and [getid] read it. *)

From Stdlib Require Import Strings.Byte.
From stdpp Require Import base numbers strings gmap list.
From S2P Require Import Prelude PeerTypes PeerTx ShimTable.
Local Open Scope Z_scope.

Definition CHAINCODETABLE : bytes := bytes_of_string "chaincodes".
Definition DEPLOY : bytes := bytes_of_string "deploy".
Definition GETCCINFO : bytes := bytes_of_string "getid".
Definition GETDEPSPEC : bytes := bytes_of_string "getdepspec".
Definition specialChars : bytes := bytes_of_string "/:[]${}".

(** The errors with a type of their own; [StubErr] is an error of the tables. *)
Inductive lccc_error :=
  | AlreadyRegisteredErr (name : bytes)
  | InvalidFunctionErr (f : bytes)
  | InvalidArgsLenErr (n : nat)
  | TXNotFoundErr (t : bytes)
  | InvalidDeploymentSpecErr
  | ChaincodeExistsErr (t : bytes)
  | InvalidChainNameErr (f : bytes)
  | InvalidChaincodeNameErr (f : bytes)
  | StubErr.

Section lccc.
Context {St It : Type} `{!ChaincodeStubInterface St It, !Proto Table, !Proto Row, !Proto ChaincodeDeploymentSpec}.

Definition colDefs : list ColumnDefinition :=
  [mkColumnDefinition (bytes_of_string "name") ColumnDefinition_STRING true;
   mkColumnDefinition (bytes_of_string "version") ColumnDefinition_INT32 false;
   mkColumnDefinition (bytes_of_string "code") ColumnDefinition_BYTES false].
Definition createChaincodeTable (cctable : bytes) : M St bool := createTableInternal cctable (Some <$> colDefs).

Definition table_of (name : bytes) : bytes := CHAINCODETABLE ++ bytes_of_string "-" ++ name.

Definition lccc_register (name : bytes) : M St (option lccc_error) :=
  row ← getTable (table_of name);
  match row with
  | inr _ => mret (Some (AlreadyRegisteredErr name))
  | inl _ => ok ← createChaincodeTable (table_of name); mret (if (ok : bool) then None else Some StubErr)
  end.

Definition chaincode_row (ccname cccode : bytes) : Row :=
  mkRow (Some [Some (Some (Column_String_ ccname)); Some (Some (Column_Int32 0)); Some (Some (Column_Bytes cccode))]).

(** [None]: no error.  Whether the row was inserted is not looked at. *)
Definition createChaincode (chainname ccname cccode : bytes) : M St (option lccc_error) :=
  r ← InsertRow (table_of chainname) (chaincode_row ccname cccode);
  mret (match r with inl _ => Some StubErr | inr _ => None end).

(** The row, whether it exists, and whether there was no error. *)
Definition getChaincode (chainname ccname : bytes) : M St (Row * bool * bool) :=
  row ← getRowInternal (table_of chainname) [Some (Column_String_ ccname)];
  mret (match row with
        | None => (mkRow None, false, false)
        | Some row => (row, bool_decide (default [] (row_Columns row) ≠ []), true)
        end).

Definition lccc_getChaincodeDeploymentSpec (code : bytes) : option ChaincodeDeploymentSpec := Unmarshal code.

Definition isValidChainName (chainname : bytes) : bool := negb (bool_decide (chainname = [])).
Definition isValidChaincodeName (chaincodename : bytes) : bool :=
  negb (bool_decide (chaincodename = [])) && forallb (λ b, negb (bool_decide (b ∈ specialChars))) chaincodename.

(** [cds.ChaincodeSpec.ChaincodeID.Name] *)
Definition cds_name (cds : ChaincodeDeploymentSpec) : res bytes :=
  spec ← deref (cds_ChaincodeSpec cds);
  cid ← deref (cs_ChaincodeID spec);
  Ok (cid_Name cid).

Definition executeDeploy (chainname code : bytes) : M St (option lccc_error) :=
  err ← lccc_register chainname;
  match err with
  | Some (AlreadyRegisteredErr _) | None =>
      match lccc_getChaincodeDeploymentSpec code with
      | None => mret (Some InvalidDeploymentSpecErr)
      | Some cds =>
          name ← lift (cds_name cds);
          if negb (isValidChaincodeName name) then mret (Some (InvalidChaincodeNameErr name))
          else
            r ← getChaincode chainname name;
            if (r.1.2 : bool) then mret (Some (ChaincodeExistsErr name))
            else createChaincode chainname name code
      end
  | Some err => mret (Some err)
  end.

(** The getters of a column: the value, if it has that type. *)
Definition GetString_ (c : Column) : bytes := match c with Some (Column_String_ s) => s | _ => [] end.
Definition GetBytes (c : Column) : slice := match c with Some (Column_Bytes b) => Some b | _ => None end.
(** [row.Columns[i]]; a getter of a nil column gives the zero value. *)
Definition column_at (row : Row) (i : nat) : res Column :=
  match default [] (row_Columns row) !! i with Some c => Ok (default None c) | None => Panic end.

Definition lccc_Invoke (args : list bytes) : M St (lccc_error + slice) :=
  match args with
  | [] => mret (inl (InvalidArgsLenErr 0))
  | function :: rest =>
      if bool_decide (function = DEPLOY) then
        match rest with
        | [chainname; code] =>
            if negb (isValidChainName chainname) then mret (inl (InvalidChainNameErr chainname))
            else err ← executeDeploy chainname code; mret (match err with Some e => inl e | None => inr None end)
        | _ => mret (inl (InvalidArgsLenErr (length args)))
        end
      else if bool_decide (function = GETCCINFO) || bool_decide (function = GETDEPSPEC) then
        match rest with
        | [chain; ccname] =>
            r ← getChaincode chain ccname;
            if negb r.1.2 then mret (inl (TXNotFoundErr (chain ++ bytes_of_string "/" ++ ccname)))
            else if bool_decide (function = GETCCINFO) then
              c ← lift (column_at r.1.1 1); mret (inr (Some (GetString_ c)))
            else c ← lift (column_at r.1.1 2); mret (inr (GetBytes c))
        | _ => mret (inl (InvalidArgsLenErr (length args)))
        end
      else mret (inl (InvalidFunctionErr function))
  end.
End lccc.
