(* ===== verification/LcccProofs.v ===== *)
(** * The registry of deployed chaincodes

    What the life cycle chaincode keeps is a map from a chain and a name to a
    deployment: [getdepspec] reads it, [deploy] adds to it once for each name. *)

From Stdlib Require Import Strings.Byte.
From stdpp Require Import base numbers strings gmap list.
From S2P Require Import Prelude PeerTypes PeerTx ShimTable ShimTableProofs Lccc.
Local Open Scope Z_scope.

(** The empty input decodes to the message without fields. *)
Class ProtoEmpty (A : Type) `{!Proto A} (zero : A) : Prop := Unmarshal_nil : Unmarshal [] = Some zero.

Section registry.
Context {St It : Type} `{!ChaincodeStubInterface St It, SL : !StubLaws St It, !Proto Table, !Proto Row,
  !Proto ChaincodeDeploymentSpec, PL : !ProtoLaws Row, PZ : !ProtoZero Row (mkRow None), PE : !ProtoEmpty Row (mkRow None),
  PLT : !ProtoLaws Table, PZT : !ProtoZero Table (mkTable [] [])}.
Implicit Types s : St.

Definition name_key (ccname : bytes) : list Column := [Some (Column_String_ ccname)].
Definition row_key (chain ccname : bytes) : bytes := chunk (table_of chain) ++ chunk ccname.
Definition chaincode_table (chain : bytes) : Table := mkTable (table_of chain) (Some <$> colDefs).

(** Strings of a size a Go string can have. *)
Definition names_ok (chain ccname : bytes) : Prop := size_ok (table_of chain) ∧ size_ok ccname.

(** The registry is in tables of deployments. *)
Record registry_ok s : Prop := {
  ro_table chain : size_ok (table_of chain) →
    getTable (table_of chain) s = Ok (inl ErrTableNotFound, s)
    ∨ getTable (table_of chain) s = Ok (inr (chaincode_table chain), s);
  ro_row chain ccname : names_ok chain ccname →
    stub_val s (row_key chain ccname) = None
    ∨ ∃ b code, stub_val s (row_key chain ccname) = Some b ∧ Unmarshal b = Some (chaincode_row ccname code) }.

(** The deployment of a chaincode. *)
Definition deployed s (chain ccname : bytes) : option bytes :=
  match stub_val s (row_key chain ccname) ≫= Unmarshal with
  | Some (mkRow (Some [_; _; Some (Some (Column_Bytes code))])) => Some code
  | _ => None
  end.

Lemma row_key_build chain ccname : buildKeyString (table_of chain) (name_key ccname) = Some (row_key chain ccname).
Proof. unfold buildKeyString, row_key, chunk. cbn. by rewrite app_nil_r. Qed.

Lemma table_readable chain ccname : names_ok chain ccname → readable (table_of chain) (name_key ccname).
Proof.
  intros [Ht Hn]. split_and!; [|done|by constructor|by left]. by apply (bool_decide_unpack (¬ is_digit x63)).
Qed.

Lemma row_key_inj chain ccname chain' ccname' :
  names_ok chain ccname → names_ok chain' ccname' →
  row_key chain ccname = row_key chain' ccname' → (chain, ccname) = (chain', ccname').
Proof.
  intros Hn Hn' E. destruct (buildKeyString_row (table_of chain) (table_of chain') (name_key ccname) (name_key ccname')
    (row_key chain ccname)) as [Et Ek]; [by apply table_readable..|apply row_key_build|by rewrite E, row_key_build|].
  specialize (Ek eq_refl). injection Ek as ->. unfold table_of in Et. simplify_list_eq. done.
Qed.

(** A row's key is not a table's. *)
Lemma row_key_table chain ccname chain' :
  names_ok chain ccname → size_ok (table_of chain') → row_key chain ccname ≠ chunk (table_of chain').
Proof.
  intros Hn Ht E. rewrite <-(app_nil_r (chunk (table_of chain'))) in E.
  assert (∀ c, plain (table_of c)) as Hp by (intros c; by apply (bool_decide_unpack (¬ is_digit x63))).
  destruct Hn as [Hn _]. apply chunk_plain in E as [_ E]; [|done..]. rewrite <-(app_nil_r (chunk ccname)) in E.
  by apply chunk_cons in E.
Qed.

Lemma getChaincode_run chain ccname s :
  registry_ok s → names_ok chain ccname →
  getChaincode chain ccname s = Ok (match deployed s chain ccname with
    | Some code => (chaincode_row ccname code, true, true)
    | None => (mkRow None, false, true)
    end, s).
Proof.
  intros [_ Hrow] Hn. unfold getChaincode. erewrite bind_ok; [|apply getRowInternal_run].
  change [Some (Column_String_ ccname)] with (name_key ccname). rewrite row_key_build. unfold deployed.
  destruct (Hrow chain ccname Hn) as [E|(b & code & E & Eu)]; rewrite E; simpl.
  - by rewrite Unmarshal_nil.
  - by rewrite Eu.
Qed.

Lemma getTable_of chain s : getTable (table_of chain) s = Ok (match stub_val s (chunk (table_of chain)) with
  | None => inl ErrTableNotFound
  | Some b => match Unmarshal b with Some table => inr table | None => inl TableError end
  end, s).
Proof. by rewrite getTable_run. Qed.

(** A write of a table's definition, or of a row, keeps the registry. *)
Lemma registry_table_write s s' chain b :
  registry_ok s → size_ok (table_of chain) → Unmarshal b = Some (chaincode_table chain) →
  (∀ k, stub_val s' k = if decide (k = chunk (table_of chain)) then Some b else stub_val s k) →
  registry_ok s' ∧ (∀ c n, names_ok c n → deployed s' c n = deployed s c n)
  ∧ getTable (table_of chain) s' = Ok (inr (chaincode_table chain), s').
Proof.
  intros [Ht Hr] Hsz Eu Hs'.
  assert (∀ c n, names_ok c n → stub_val s' (row_key c n) = stub_val s (row_key c n)) as Hrows.
  { intros c n Hn. rewrite Hs', decide_False; [done|]. by apply row_key_table. }
  assert (getTable (table_of chain) s' = Ok (inr (chaincode_table chain), s')) as Htab.
  { by rewrite getTable_of, Hs', decide_True, Eu. }
  split_and!; [split|intros c n Hn; unfold deployed; by rewrite Hrows|done].
  - intros c Hc. destruct (decide (c = chain)) as [->|Hne]; [by right|].
    specialize (Ht c Hc). rewrite getTable_of in Ht |- *. rewrite Hs', decide_False.
    + destruct Ht as [Ht|Ht]; injection Ht as Ht; rewrite Ht; auto.
    + intros E. apply chunk_inj in E; [|done..]. unfold table_of in E. by simplify_list_eq.
  - intros c n Hn. rewrite Hrows by done. by apply Hr.
Qed.

Lemma registry_row_write s s' chain ccname b code :
  registry_ok s → names_ok chain ccname → Unmarshal b = Some (chaincode_row ccname code) →
  (∀ k, stub_val s' k = if decide (k = row_key chain ccname) then Some b else stub_val s k) →
  registry_ok s' ∧ (∀ c n, names_ok c n →
    deployed s' c n = if decide ((c, n) = (chain, ccname)) then Some code else deployed s c n).
Proof.
  intros [Ht Hr] Hsz Eu Hs'.
  assert (∀ c n, names_ok c n → stub_val s' (row_key c n)
    = if decide ((c, n) = (chain, ccname)) then Some b else stub_val s (row_key c n)) as Hrows.
  { intros c n Hn. rewrite Hs'. case_decide as E; [apply row_key_inj in E; [by rewrite decide_True|done..]|].
    rewrite decide_False; [done|]. by intros [= -> ->]. }
  split; [split|].
  - intros c Hc. specialize (Ht c Hc). rewrite getTable_of in Ht |- *. rewrite Hs', decide_False.
    + destruct Ht as [Ht|Ht]; injection Ht as Ht; rewrite Ht; auto.
    + intros E. by apply (row_key_table chain ccname c).
  - intros c n Hn. rewrite Hrows by done. case_decide as E; [|by apply Hr]. injection E as -> ->. right. eauto.
  - intros c n Hn. unfold deployed. rewrite Hrows by done. case_decide as E; [|done]. simpl. by rewrite Eu.
Qed.

Lemma register_run chain s :
  registry_ok s → size_ok (table_of chain) →
  ∃ r s', lccc_register chain s = Ok (r, s') ∧ (r = None ∨ r = Some (AlreadyRegisteredErr chain)) ∧ registry_ok s'
    ∧ (∀ c n, names_ok c n → deployed s' c n = deployed s c n)
    ∧ getTable (table_of chain) s' = Ok (inr (chaincode_table chain), s').
Proof.
  intros Hok Hsz. unfold lccc_register. destruct (ro_table _ Hok chain Hsz) as [Et|Et].
  - destruct (createTableInternal_run (table_of chain) (Some <$> colDefs) s (chunk (table_of chain)))
      as (b & s' & Eu & Ec & Hs'); [done|done|done|done| |].
    { apply Forall_fmap, (Forall_impl (λ d, 0 ≤ cd_Type d ≤ 6)); [by apply (bool_decide_unpack _)|].
      intros d Hd. exists d. split; [done|]. unfold is_i32. lia. }
    exists None, s'. erewrite bind_ok; [|exact Et]. cbv iota.
    unfold createChaincodeTable. erewrite bind_ok; [|exact Ec]. split; [done|]. split; [by left|].
    by eapply registry_table_write.
  - eexists _, s. erewrite bind_ok; [|exact Et]. split; [done|]. split; [by right|]. done.
Qed.

Lemma createChaincode_run chain ccname code s :
  registry_ok s → names_ok chain ccname → getTable (table_of chain) s = Ok (inr (chaincode_table chain), s) →
  deployed s chain ccname = None →
  ∃ s', createChaincode chain ccname code s = Ok (None, s') ∧ registry_ok s'
    ∧ ∀ c n, names_ok c n → deployed s' c n = if decide ((c, n) = (chain, ccname)) then Some code else deployed s c n.
Proof.
  intros Hok Hn Et Hd.
  assert (stub_val s (row_key chain ccname) = None) as Hnone.
  { destruct (ro_row _ Hok chain ccname Hn) as [|(b & c & E & Eu)]; [done|]. revert Hd. unfold deployed. rewrite E. simpl. by rewrite Eu. }
  pose proof (insertRowInternal_run (table_of chain) (chaincode_table chain) (chaincode_row ccname code) (name_key ccname)
    (row_key chain ccname) false s Et eq_refl) as Hrun.
  rewrite Hnone in Hrun. destruct Hrun as (b & s' & Eu & Ei & Hs'); [|done|apply row_key_build|].
  { split; [done|]. repeat constructor; eexists; (split; [done|]); cbn; lia. }
  exists s'. unfold createChaincode, InsertRow. erewrite bind_ok; [|exact Ei]. split; [done|].
  by eapply registry_row_write.
Qed.

(** The branches of [Invoke]. *)
Lemma invoke_get (f : bytes) chain ccname : f = GETCCINFO ∨ f = GETDEPSPEC →
  lccc_Invoke [f; chain; ccname] = (r ← getChaincode chain ccname;
    if negb r.1.2 then mret (inl (TXNotFoundErr (chain ++ bytes_of_string "/" ++ ccname)))
    else if bool_decide (f = GETCCINFO) then c ← lift (column_at r.1.1 1); mret (inr (Some (GetString_ c)))
    else c ← lift (column_at r.1.1 2); mret (inr (GetBytes c)) : M St (lccc_error + slice)).
Proof. by intros [-> | ->]. Qed.
Lemma invoke_deploy chain code : chain ≠ [] →
  lccc_Invoke [DEPLOY; chain; code] = (err ← executeDeploy chain code;
    mret (match err with Some e => inl e | None => inr None end) : M St (lccc_error + slice)).
Proof. by destruct chain. Qed.

Lemma getdepspec_run c n s : registry_ok s → names_ok c n →
  lccc_Invoke [GETDEPSPEC; c; n] s = Ok (match deployed s c n with
     | Some code => inr (Some code)
     | None => inl (TXNotFoundErr (c ++ bytes_of_string "/" ++ n))
     end, s).
Proof.
  intros Hok Hn. rewrite invoke_get by auto. erewrite bind_ok; [|by apply getChaincode_run]. by destruct (deployed s c n).
Qed.

(** C11. The life cycle chaincode is a registry.  [getdepspec] returns what was
    deployed under a chain and a name, or that there is nothing.  [deploy] of
    a valid name adds the deployment if there is none and reports that the
    chaincode exists if there is one, and changes no other entry. *)
Theorem lccc_registry chain ccname code cds s :
  registry_ok s → names_ok chain ccname →
  chain ≠ [] → Unmarshal code = Some cds → cds_name cds = Ok ccname → isValidChaincodeName ccname = true →
  (∀ c n, names_ok c n → lccc_Invoke [GETDEPSPEC; c; n] s = Ok (match deployed s c n with
     | Some code => inr (Some code)
     | None => inl (TXNotFoundErr (c ++ bytes_of_string "/" ++ n))
     end, s))
  ∧ ∃ s', lccc_Invoke [DEPLOY; chain; code] s = Ok (match deployed s chain ccname with
      | Some _ => inl (ChaincodeExistsErr ccname)
      | None => inr None
      end, s')
    ∧ registry_ok s'
    ∧ ∀ c n, names_ok c n → deployed s' c n =
        if decide ((c, n) = (chain, ccname)) then Some (default code (deployed s chain ccname)) else deployed s c n.
Proof.
  intros Hok Hn Hchain Eu Ename Hvalid. split; [intros c n; by apply getdepspec_run|].
  destruct (register_run chain s Hok (proj1 Hn)) as (r & s1 & Er & Hr & Hok1 & Hd1 & Et1).
  assert (executeDeploy chain code s = (x ← getChaincode chain ccname;
    if (x.1.2 : bool) then mret (Some (ChaincodeExistsErr ccname)) else createChaincode chain ccname code) s1) as Hexec.
  { unfold executeDeploy. erewrite bind_ok; [|exact Er]. unfold lccc_getChaincodeDeploymentSpec. rewrite Eu, Ename.
    destruct Hr as [-> | ->]; by rewrite (bind_ok (lift (Ok ccname)) _ s1 ccname s1), Hvalid by done. }
  erewrite bind_ok in Hexec; [|by apply getChaincode_run]. rewrite Hd1 in Hexec by done.
  rewrite invoke_deploy by done.
  destruct (deployed s chain ccname) as [old|] eqn:Ed.
  - exists s1. erewrite bind_ok; [|exact Hexec]. split_and!; [done..|]. intros c n Hcn. rewrite Hd1 by done.
    case_decide as E; [by injection E as -> ->|done].
  - destruct (createChaincode_run chain ccname code s1) as (s' & Ec & Hok' & Hd'); [done..|by rewrite Hd1|].
    cbn [fst snd] in Hexec. rewrite Ec in Hexec. exists s'. erewrite bind_ok; [|exact Hexec]. split_and!; [done..|].
    intros c n Hcn. rewrite Hd' by done. case_decide; [done|]. by apply Hd1.
Qed.

(** [getid] reads the version column as a string: it is empty for every chaincode. *)
Lemma getid_empty chain ccname s code :
  registry_ok s → names_ok chain ccname → deployed s chain ccname = Some code →
  lccc_Invoke [GETCCINFO; chain; ccname] s = Ok (inr (Some []), s).
Proof. intros Hok Hn Hd. rewrite invoke_get by auto. erewrite bind_ok; [|by apply getChaincode_run]. by rewrite Hd. Qed.
End registry.
