(* ===== verification/ShimTableSim.v ===== *)
(** * A table and a registry in memory

    A lawful stub and message encoding, a table on them, and the life cycle
    chaincode with two deployments of one name. *)

From Stdlib Require Import Strings.Byte.
From stdpp Require Import base numbers strings gmap list.
From S2P Require Import Prelude Wire PeerTypes PeerSim PeerTx PeerTxSim ShimTable ShimTableProofs Lccc LcccProofs.
Local Open Scope Z_scope.

Module TableWitness.
Import PeerCodec.

(** ** Encodings *)
Definition put_value (v : ColumnValue) : bytes :=
  match v with
  | Column_String_ s => x00 :: put_bytes s
  | Column_Int32 z => x01 :: put_Z z
  | Column_Int64 z => x02 :: put_Z z
  | Column_Uint32 z => x03 :: put_Z z
  | Column_Uint64 z => x04 :: put_Z z
  | Column_Bytes b => x05 :: put_bytes b
  | Column_Bool b => x06 :: put_Z (if b then 1 else 0)
  end.
Definition get_value : parser ColumnValue := λ l,
  match l with
  | x00 :: l => '(s, l) ← get_bytes l; Some (Column_String_ s, l)
  | x01 :: l => '(z, l) ← get_Z l; Some (Column_Int32 z, l)
  | x02 :: l => '(z, l) ← get_Z l; Some (Column_Int64 z, l)
  | x03 :: l => '(z, l) ← get_Z l; Some (Column_Uint32 z, l)
  | x04 :: l => '(z, l) ← get_Z l; Some (Column_Uint64 z, l)
  | x05 :: l => '(b, l) ← get_bytes l; Some (Column_Bytes b, l)
  | x06 :: l => '(z, l) ← get_Z l; Some (Column_Bool (bool_decide (z = 1)), l)
  | _ => None
  end.
Lemma get_put_value v l : get_value (put_value v ++ l) = Some (v, l).
Proof. destruct v; cbn; rewrite ?get_put_bytes, ?get_put_Z; try done. by destruct b. Qed.

#[export] Instance Row_proto : Proto Row := {
  Marshal r := match row_Columns r with None => Some [] | Some cs => put_repeated (put_option put_value) cs end;
  Unmarshal l := match l with
    | [] => Some (mkRow None)
    | _ => '(cs, _) ← get_repeated (get_option get_value) l; Some (mkRow (Some cs))
    end }.

Lemma put_repeated_cons {A} (put : A → bytes) xs b : put_repeated put xs = Some b → b ≠ [].
Proof. unfold put_repeated. destruct (mapM id xs) as [[]|]; intros [= <-]; done. Qed.

#[export] Instance Row_laws : ProtoLaws Row.
Proof.
  intros [[cs|]] Hc; [|by exists []]. destruct Hc as [_ Hc].
  destruct (get_put_repeated (put_option put_value) (get_option get_value) cs []) as (b & Eb & Eg); [|done|].
  { intros a l _. apply get_put_option, get_put_value. }
  exists b. split; [done|]. rewrite app_nil_r in Eg. pose proof (put_repeated_cons _ _ _ Eb).
  destruct b; [done|]. cbn [Unmarshal Row_proto]. by rewrite Eg.
Qed.
#[export] Instance Row_zero : ProtoZero Row (mkRow None).
Proof. intros [[cs|]] _ E; [|done]. by apply put_repeated_cons in E. Qed.

Definition put_def (d : ColumnDefinition) : bytes :=
  put_bytes (cd_Name d) ++ put_Z (cd_Type d) ++ put_Z (if cd_Key d then 1 else 0).
Definition get_def : parser ColumnDefinition := λ l,
  '(n, l) ← get_bytes l; '(t, l) ← get_Z l; '(k, l) ← get_Z l; Some (mkColumnDefinition n t (bool_decide (k = 1)), l).
#[export] Instance Table_proto : Proto Table := {
  Marshal t := b ← put_repeated put_def (tbl_ColumnDefinitions t); Some (put_bytes (tbl_Name t) ++ b);
  Unmarshal l := '(n, l) ← get_bytes l; '(ds, _) ← get_repeated get_def l; Some (mkTable n ds) }.

Lemma get_put_def d l : get_def (put_def d ++ l) = Some (d, l).
Proof.
  destruct d as [n t k]. unfold get_def, put_def. cbn [cd_Name cd_Type cd_Key].
  rewrite <-!app_assoc, get_put_bytes. cbn. rewrite get_put_Z. cbn. rewrite get_put_Z. cbn. by destruct k.
Qed.
#[export] Instance def_canonical : Canonical ColumnDefinition := λ d, is_i32 (cd_Type d).
#[export] Instance Table_laws : ProtoLaws Table.
Proof.
  intros [n ds] Hc. destruct (get_put_repeated put_def get_def ds []) as (b & Eb & Eg); [by intros; apply get_put_def|done|].
  rewrite app_nil_r in Eg. cbn [Marshal Unmarshal Table_proto tbl_ColumnDefinitions tbl_Name]. rewrite Eb. eexists. split; [done|]. rewrite get_put_bytes. cbn. by rewrite Eg.
Qed.
#[export] Instance Table_zero : ProtoZero Table (mkTable [] []).
Proof.
  intros [n ds] _. cbn [Marshal Table_proto tbl_ColumnDefinitions tbl_Name]. destruct (put_repeated put_def ds); [|done]. intros [= E]. exfalso. by destruct n.
Qed.

(** ** A stub *)
Abbreviation Mem := (gmap bytes bytes).
#[export] Instance MemStub : ChaincodeStubInterface Mem (list (bytes * bytes)) := {
  stub_GetState k := gets (λ s, inr (s !! k));
  stub_PutState k v := _ ← modify (λ s, match v with Some (_ :: _) => <[k := sl v]> s | _ => delete k s end); mret None;
  stub_DelState k := _ ← modify (delete k); mret None;
  stub_RangeQueryState _ _ := mret (inr []);
  stub_HasNext it := negb (bool_decide (it = []));
  stub_Next it := mret (match it with (k, v) :: it => (inr (k, Some v), it) | [] => (inl [], []) end);
  stub_Close _ := mret tt }.
#[export] Instance MemStub_laws : StubLaws Mem (list (bytes * bytes)).
Proof.
  refine {| stub_val := (λ (s : Mem) k, s !! k) : Mem → bytes → slice |}.
  - done.
  - intros k v s Hv. destruct v as [|x v]; [done|]. eexists. split; [done|]. intros k'. cbn.
    case_decide as E; [subst; apply lookup_insert_eq|by apply lookup_insert_ne].
  - intros k s. eexists. split; [done|]. intros k'. case_decide as E; [subst; apply lookup_delete_eq|by apply lookup_delete_ne].
Defined.

(** ** A table of accounts: an owner and a balance *)
Definition accounts : bytes := bytes_of_string "accounts".
Definition columns0 : list (option ColumnDefinition) :=
  [Some (mkColumnDefinition (bytes_of_string "owner") ColumnDefinition_STRING true);
   Some (mkColumnDefinition (bytes_of_string "balance") ColumnDefinition_INT64 false)].
Definition alice : ColumnValue := Column_String_ (bytes_of_string "alice").
Definition row0 : Row := mkRow (Some [Some (Some alice); Some (Some (Column_Int64 100))]).
Definition mem0 : Mem :=
  match createTableInternal accounts columns0 (∅ : Mem) with Ok (_, s) => s | _ => ∅ end.


(** ** Two rows under one key

    In a table with two integer key columns, a row of another key is refused
    as if it were there. *)
Definition pairs : bytes := bytes_of_string "pairs".
Definition columns1 : list (option ColumnDefinition) :=
  [Some (mkColumnDefinition (bytes_of_string "a") ColumnDefinition_INT64 true);
   Some (mkColumnDefinition (bytes_of_string "b") ColumnDefinition_INT64 true)].
Definition row_of (a b : Z) : Row := mkRow (Some [Some (Some (Column_Int64 a)); Some (Some (Column_Int64 b))]).
Definition two_inserts : res ((table_error + bool) * (table_error + bool)) :=
  r ← (_ ← createTableInternal pairs columns1;
       a ← InsertRow pairs (row_of 2 345678901215);
       b ← InsertRow pairs (row_of 123456789012 5);
       mret (a, b) : M Mem _) ∅;
  Ok r.1.
Lemma distinct_row_refused : two_inserts = Ok (inr true, inr false).
Proof. vm_compute. reflexivity. Qed.
End TableWitness.

(** ** A registry in memory

    The life cycle chaincode on a stub in memory: two deployments of one name. *)

Module LcccWitness.
Import PeerCodec PeerTxCodec TableWitness.

#[export] Instance Row_empty : ProtoEmpty Row (mkRow None).
Proof. done. Qed.

Lemma empty_registry : registry_ok (∅ : Mem).
Proof. split; [by left|]. intros chain ccname _. left. apply lookup_empty. Qed.

Definition chain0 : bytes := bytes_of_string "default".
Definition name0 : bytes := bytes_of_string "mycc".
Definition cds0 : ChaincodeDeploymentSpec :=
  mkCDS (Some (mkChaincodeSpec 1 (Some (mkChaincodeID [] name0)) None 0 [] 0 None [])) None None 0.
Definition code0 : bytes := default [] (Marshal cds0).

Lemma names0_ok : names_ok chain0 name0.
Proof. split; unfold size_ok; cbn; lia. Qed.

Lemma lccc_registry_witness :
  (∀ c n, names_ok c n → lccc_Invoke [GETDEPSPEC; c; n] (∅ : Mem) = Ok (match deployed (∅ : Mem) c n with
     | Some code => inr (Some code)
     | None => inl (TXNotFoundErr (c ++ bytes_of_string "/" ++ n))
     end, ∅))
  ∧ ∃ s', lccc_Invoke [DEPLOY; chain0; code0] (∅ : Mem) = Ok (match deployed (∅ : Mem) chain0 name0 with
      | Some _ => inl (ChaincodeExistsErr name0)
      | None => inr None
      end, s')
    ∧ registry_ok s'
    ∧ ∀ c n, names_ok c n → deployed s' c n =
        if decide ((c, n) = (chain0, name0)) then Some (default code0 (deployed (∅ : Mem) chain0 name0)) else deployed (∅ : Mem) c n.
Proof.
  apply (lccc_registry chain0 name0 code0 cds0 (∅ : Mem)).
  - apply empty_registry.
  - apply names0_ok.
  - discriminate.
  - vm_compute. reflexivity.
  - reflexivity.
  - vm_compute. reflexivity.
Defined.
End LcccWitness.
