(* ===== verification/CcSupport.v ===== *)
(** * Launching and executing chaincodes (core/chaincode/chaincode_support.go,
      exectransaction.go, chaincodeexec.go)

    The peer's table of running chaincodes, how a chaincode is started and
    stopped, and how a transaction is executed on it.  The handlers of
    CcHandler.v and the containers are behind an interface; other goroutines
    run while the code waits, that is during the operations of the interface. *)

From Stdlib Require Import Strings.Byte.
From stdpp Require Import base numbers strings gmap list.
From S2P Require Import Prelude Fsm PeerTypes PeerTx CcTypes CcHandler Lccc.
Local Open Scope Z_scope.

(** ** Configuration *)
Record ChaincodeSupport := mkChaincodeSupport {
  sup_name : bytes; sup_peerAddress : bytes; sup_ccStartupTimeout : Z; sup_chaincodeInstallPath : bytes;
  sup_userRunsCC : bool; sup_peerNetworkID : bytes; sup_peerID : bytes; sup_peerTLS : bool;
  sup_peerTLSCertFile : bytes; sup_peerTLSKeyFile : bytes; sup_peerTLSSvrHostOrd : bytes;
  sup_keepalive : Z; sup_chaincodeLogLevel : bytes }.

Definition DefaultChain : bytes := bytes_of_string "default".
Definition chaincodeInstallPathDefault : bytes := bytes_of_string "/opt/gopath/bin/".
Definition peerAddressDefault : bytes := bytes_of_string "0.0.0.0:7051".

(** The configuration (package viper) and the levels of package logging. *)
Class Viper := {
  GetString : string → bytes; GetBool : string → bool;
  LogLevel : bytes → option bytes; DefaultLoggingLevel : bytes }.

(** [strconv.Atoi] of a 64-bit [int] *)
Definition all_digits (l : bytes) : bool :=
  forallb (λ b, bool_decide (48 ≤ Z_of_byte b < 58)) l && negb (bool_decide (l = [])).
Definition Atoi (l : bytes) : option Z :=
  let '(neg, ds) := match l with
    | x2d :: ds => (true, ds)
    | x2b :: ds => (false, ds)
    | ds => (false, ds)
    end in
  if all_digits ds then
    let n := if (neg : bool) then - decimal_value ds else decimal_value ds in
    if bool_decide (- 2 ^ 63 ≤ n < 2 ^ 63) then Some n else None
  else None.

Definition Second : Z := 1000000000.
Definition keepalive_of (ka : bytes) : Z :=
  if bool_decide (ka = []) then 0
  else match Atoi ka with
       | None => 0
       | Some t => if bool_decide (t ≤ 0) then 0 else i64 (t * Second)
       end.
Definition or_default (d v : bytes) : bytes := if bool_decide (v = []) then d else v.

(** [endpoint]: what [getPeerEndpoint] returns, [None] an error. *)
Definition NewChaincodeSupport `{!Viper} (chainname : bytes) (endpoint : option bytes) (userrunsCC : bool)
    (ccstartuptimeout : Z) : ChaincodeSupport :=
  let peerAddress := match endpoint with Some a => a | None => GetString "peer.address" end in
  let tls := GetBool "peer.tls.enabled" in
  mkChaincodeSupport chainname (or_default peerAddressDefault peerAddress) ccstartuptimeout
    (or_default chaincodeInstallPathDefault (GetString "chaincode.installpath")) userrunsCC
    (GetString "peer.networkId") (GetString "peer.id") tls
    (if tls then GetString "peer.tls.cert.file" else [])
    (if tls then GetString "peer.tls.key.file" else [])
    (if tls then GetString "peer.tls.serverhostoverride" else [])
    (keepalive_of (GetString "chaincode.keepalive"))
    (match LogLevel (GetString "logging.chaincode") with Some l => l | None => DefaultLoggingLevel end).

(** ** Arguments of a chaincode's process *)
Definition UNDEFINED_TYPE : Z := 0.
Definition NODE : Z := 2.
Definition CAR : Z := 3.
Definition JAVA : Z := 4.

(** [strings.Split] at a space *)
Fixpoint split_spaces (l : bytes) : list bytes :=
  match l with
  | [] => [[]]
  | x20 :: l => [] :: split_spaces l
  | b :: l => match split_spaces l with w :: ws => (b :: w) :: ws | [] => [[b]] end
  end.

(** [None]: the type is not known. *)
Definition getArgsAndEnv (c : ChaincodeSupport) (cID : ChaincodeID) (cLang : Z) : option (list bytes * list bytes) :=
  let tls :=
    if sup_peerTLS c then
      [bytes_of_string "CORE_PEER_TLS_ENABLED=true"; bytes_of_string "CORE_PEER_TLS_CERT_FILE=" ++ sup_peerTLSCertFile c]
      ++ (if bool_decide (sup_peerTLSSvrHostOrd c = []) then []
          else [bytes_of_string "CORE_PEER_TLS_SERVERHOSTOVERRIDE=" ++ sup_peerTLSSvrHostOrd c])
    else [bytes_of_string "CORE_PEER_TLS_ENABLED=false"] in
  let level :=
    if bool_decide (sup_chaincodeLogLevel c = []) then []
    else [bytes_of_string "CORE_LOGGING_CHAINCODE=" ++ sup_chaincodeLogLevel c] in
  let envs := (bytes_of_string "CORE_CHAINCODE_ID_NAME=" ++ cid_Name cID) :: tls ++ level in
  if bool_decide (cLang = GOLANG) || bool_decide (cLang = CAR) then
    Some ([sup_chaincodeInstallPath c ++ cid_Name cID; bytes_of_string "-peer.address=" ++ sup_peerAddress c], envs)
  else if bool_decide (cLang = JAVA) then
    Some (split_spaces (bytes_of_string "/root/Chaincode/bin/runChaincode -a " ++ sup_peerAddress c
                        ++ bytes_of_string " -i " ++ cid_Name cID)
          ++ (if sup_peerTLS c then [bytes_of_string " -s"] else []), envs)
  else None.

(** ** Containers *)
Record CCID := mkCCID { ccid_Spec : option ChaincodeSpec; ccid_NetworkID : bytes; ccid_PeerID : bytes }.
Inductive VMCReq :=
  | CreateImageReq (id : CCID) (package : slice) (args env : list bytes)
  | StartImageReq (id : CCID) (package : slice) (args env : list bytes)
  | StopImageReq (id : CCID).
Inductive VMType := DOCKER | SYSTEM.
(** [SYSTEM]'s number in the deployment specification *)
Definition ExecEnv_SYSTEM : Z := 1.

(** What [VMCProcess] returns: an error of its own, or the response, which may
    hold one. *)
Inductive VMCResult := VMErr | VMResp (err : bool).
Definition vm_failed (r : VMCResult) : bool := match r with VMErr => true | VMResp e => e end.

(** ** The interface

    [rt_running]: the table of a chain; the other operations are those of the
    handler [id] (CcHandler.v), of [VMCProcess], and the two waits, which end
    with [None] when the time is over. *)
Class Runtime (W : Type) := {
  rt_running : bytes → W → gmap bytes chaincodeRTEnv;
  rt_update : bytes → (gmap bytes chaincodeRTEnv → gmap bytes chaincodeRTEnv) → M W unit;
  rt_isRunning : positive → W → bool;
  rt_initOrReady : positive → positive → bytes → option (list bytes) → M W (option unit);
  rt_sendExecuteMessage : positive → positive → ChaincodeMessage → M W (option unit);
  rt_response : positive → bytes → Z → M W (option ChaincodeMessage);
  rt_deleteTxContext : positive → bytes → M W unit;
  rt_ready : bytes → bytes → Z → M W (option bool);
  rt_VMCProcess : bytes → VMType → VMCReq → M W VMCResult }.

Inductive support_error :=
  | NameNotSet | HandlerNotFound | SendInitFailed | InitFailed | InitTimeout | UnknownType | StartFailed
  | RegistrationFailed | StartTimeout | StopFailed | Premature | LcccFailed | NoDeployment | BadDeployment
  | FailedToInit (e : support_error) | SameNameRunning | CreateFailed | CannotExecute | SendFailed
  | ExecuteTimeout | DeployFailed (e : support_error) | LaunchFailed (e : support_error) | BadMessage
  | ExecuteFailed (e : support_error) | ChaincodeFailed (payload : slice) | InvalidState | ExecuteChaincodeFailed (e : support_error).

Section support.
Context {W : Type} `{!Runtime W}.
Context `{!Proto ChaincodeInput, !Proto ChaincodeDeploymentSpec}.
Context (c : ChaincodeSupport).

Definition preLaunchSetup (chaincode : bytes) : M W unit :=
  rt_update (sup_name c) (insert chaincode (RTPlaceholder [])).
Definition chaincodeHasBeenLaunched (chaincode : bytes) : M W (option chaincodeRTEnv) :=
  gets (λ w, rt_running (sup_name c) w !! chaincode).
Definition forget (chaincode : bytes) : M W unit := rt_update (sup_name c) (delete chaincode).

Definition getVMType (cds : ChaincodeDeploymentSpec) : VMType :=
  if bool_decide (cds_ExecEnv cds = ExecEnv_SYSTEM) then SYSTEM else DOCKER.

Definition ccid_of (cds : ChaincodeDeploymentSpec) : CCID :=
  mkCCID (cds_ChaincodeSpec cds) (sup_peerNetworkID c) (sup_peerID c).

(** A placeholder's handler has no transaction contexts and fails to make one. *)
Definition sendInitOrReady (sim : positive) (txid chaincode : bytes) (initArgs : option (list bytes)) (timeout : Z)
    : M W (option support_error) :=
  chrte ← chaincodeHasBeenLaunched chaincode;
  match chrte with
  | None => mret (Some HandlerNotFound)
  | Some (RTPlaceholder _) => mret (Some SendInitFailed)
  | Some (RTHandler id) =>
      notfy ← rt_initOrReady id sim txid initArgs;
      match notfy with
      | None => mret (Some SendInitFailed)
      | Some _ =>
          ccMsg ← rt_response id txid timeout;
          _ ← rt_deleteTxContext id txid;
          mret (match ccMsg with
                | None => Some InitTimeout
                | Some m => if bool_decide (cm_Type m = ERROR) then Some InitFailed else None
                end)
      end
  end.

Definition Stop (cds : ChaincodeDeploymentSpec) : M W (option support_error) :=
  chaincode ← lift (cds_name cds);
  if bool_decide (chaincode = []) then mret (Some NameNotSet)
  else
    r ← rt_VMCProcess (sup_name c) (getVMType cds) (StopImageReq (ccid_of cds));
    chrte ← chaincodeHasBeenLaunched chaincode;
    match chrte with
    | None => mret None
    | Some _ =>
        _ ← forget chaincode;
        mret (match r with VMErr => Some StopFailed | VMResp _ => None end)
    end.

(** Whether it was running already, and the error. *)
Definition launchAndWaitForRegister (cds : ChaincodeDeploymentSpec) (cID : ChaincodeID) (cLang : Z) (targz : slice)
    : M W (bool * option support_error) :=
  let chaincode := cid_Name cID in
  if bool_decide (chaincode = []) then mret (false, Some NameNotSet)
  else
    chrte ← chaincodeHasBeenLaunched chaincode;
    match chrte with
    | Some _ => mret (true, None)
    | None =>
        _ ← preLaunchSetup chaincode;
        match getArgsAndEnv c cID cLang with
        | None => mret (false, Some UnknownType)
        | Some (args, env) =>
            r ← rt_VMCProcess (sup_name c) (getVMType cds) (StartImageReq (ccid_of cds) targz args env);
            if vm_failed r then _ ← forget chaincode; mret (false, Some StartFailed)
            else
              ok ← rt_ready (sup_name c) chaincode (sup_ccStartupTimeout c);
              let err := match ok with
                | Some true => None
                | Some false => Some RegistrationFailed
                | None => Some StartTimeout
                end in
              match err with
              | None => mret (false, None)
              | Some e => _ ← Stop cds; mret (false, Some e)
              end
        end
    end.

(** A deployment or an invocation; no arguments are a nil list. *)
Inductive launch_spec := LDeploy (cds : ChaincodeDeploymentSpec) | LInvoke (ci : ChaincodeInvocationSpec).
Definition nil_args (l : list bytes) : option (list bytes) := match l with [] => None | _ => Some l end.

(** The specification of what is launched: the chaincode, its input, and for a
    deployment the arguments of its initialisation. *)
Definition spec_of (s : launch_spec) : res (option ChaincodeID * option (list bytes) * option (list bytes)) :=
  match s with
  | LDeploy cds =>
      spec ← deref (cds_ChaincodeSpec cds);
      cMsg ← deref (cs_CtorMsg spec);
      Ok (cs_ChaincodeID spec, cs_CtorMsg spec, nil_args cMsg)
  | LInvoke ci =>
      spec ← deref (cis_ChaincodeSpec ci);
      Ok (cs_ChaincodeID spec, cs_CtorMsg spec, None)
  end.

(** [GetCDSFromLCCC]: the payload, or an error. *)
Context (GetCDSFromLCCC : positive → bytes → bytes → M W (support_error + slice)).

(** The deployment of a chaincode that is invoked and not running. *)
Definition find_deployment (sim : positive) (txid chaincode : bytes) : M W (support_error + ChaincodeDeploymentSpec) :=
  depPayload ← GetCDSFromLCCC sim txid chaincode;
  mret (match depPayload with
        | inl _ => inl LcccFailed
        | inr None => inl NoDeployment
        | inr (Some b) => match Unmarshal b with None => inl BadDeployment | Some cds => inr cds end
        end).

(** From the deployment on: start the container if there is none, then bring
    the handler to its ready state, and stop the container if that fails. *)
Definition launch_deployed (sim : positive) (txid : bytes) (cds : ChaincodeDeploymentSpec) (cID : ChaincodeID)
    (initargs : option (list bytes)) (known : bool) : M W (option support_error) :=
  cspec ← lift (deref (cds_ChaincodeSpec cds));
  r ← (if (negb (sup_userRunsCC c) || bool_decide (cds_ExecEnv cds = ExecEnv_SYSTEM)) && negb known
       then launchAndWaitForRegister cds cID (cs_Type cspec) (cds_CodePackage cds) else mret (false, None));
  match r.2 with
  | Some e => mret (Some e)
  | None =>
      err ← sendInitOrReady sim txid (cid_Name cID) initargs (sup_ccStartupTimeout c);
      match err with
      | None => mret None
      | Some e => _ ← Stop cds; mret (Some (FailedToInit e))
      end
  end.

(** The chaincode, its input, and the error. *)
Definition Launch (sim : positive) (txid : bytes) (spec : launch_spec)
    : M W (ChaincodeID * option (list bytes) * option support_error) :=
  s ← lift (spec_of spec);
  cID ← lift (deref s.1.1);
  let ret e := mret (cID, s.1.2, e) in
  let chaincode := cid_Name cID in
  chrte ← chaincodeHasBeenLaunched chaincode;
  running ← gets (λ w, match chrte with Some (RTHandler id) => rt_isRunning id w | _ => false end);
  match chrte with
  | Some (RTPlaceholder _) => ret (Some Premature)
  | _ =>
      if (running : bool) then ret None
      else
        let known := bool_decide (chrte ≠ None) in
        match spec with
        | LDeploy cds => e ← launch_deployed sim txid cds cID s.2 known; ret e
        | LInvoke _ =>
            cds ← find_deployment sim txid chaincode;
            match cds with
            | inl e => ret (Some e)
            | inr cds => e ← launch_deployed sim txid cds cID s.2 known; ret e
            end
        end
  end.

Definition Deploy (cds : ChaincodeDeploymentSpec) : M W (option support_error) :=
  cspec ← lift (deref (cds_ChaincodeSpec cds));
  cID ← lift (deref (cs_ChaincodeID cspec));
  if sup_userRunsCC c then mret None
  else
    chrte ← chaincodeHasBeenLaunched (cid_Name cID);
    match chrte with
    | Some _ => mret (Some SameNameRunning)
    | None =>
        match getArgsAndEnv c cID (cs_Type cspec) with
        | None => mret (Some UnknownType)
        | Some (args, envs) =>
            r ← rt_VMCProcess (sup_name c) (getVMType cds) (CreateImageReq (ccid_of cds) (cds_CodePackage cds) args envs);
            mret (if vm_failed r then Some CreateFailed else None)
        end
    end.

(** Marshalling a nil input is an error. *)
Definition createTransactionMessage (txid : bytes) (cMsg : option (list bytes)) : option ChaincodeMessage :=
  args ← cMsg; payload ← Marshal (mkChaincodeInput args); Some (newMsg TRANSACTION (Some payload) txid).

(** [ChaincodeSupport.Execute] *)
Definition support_Execute (sim : positive) (chaincode : bytes) (msg : ChaincodeMessage) (timeout : Z)
    : M W (support_error + ChaincodeMessage) :=
  chrte ← chaincodeHasBeenLaunched chaincode;
  match chrte with
  | None => mret (inl CannotExecute)
  | Some (RTPlaceholder _) => mret (inl SendFailed)
  | Some (RTHandler id) =>
      notfy ← rt_sendExecuteMessage id sim msg;
      match notfy with
      | None => mret (inl SendFailed)
      | Some _ =>
          ccresp ← rt_response id (cm_Txid msg) timeout;
          _ ← rt_deleteTxContext id (cm_Txid msg);
          mret (match ccresp with None => inl ExecuteTimeout | Some m => inr m end)
      end
  end.

(** ** exectransaction.go *)
Abbreviation result := (slice * option ChaincodeEvent * option support_error)%type.
Definition failed (e : support_error) : result := (None, None, Some e).

(** The event carries the chaincode's name and the transaction's id. *)
Definition own_event (chaincode txid : bytes) (e : ChaincodeEvent) : ChaincodeEvent :=
  mkChaincodeEvent chaincode txid (ce_EventName e) (ce_Payload e).
Definition unwrap (chaincode txid : bytes) (resp : ChaincodeMessage) : result :=
  let event := own_event chaincode txid <$> cm_ChaincodeEvent resp in
  match cm_Type resp with
  | COMPLETED => (cm_Payload resp, event, None)
  | ERROR => (None, event, Some (ChaincodeFailed (cm_Payload resp)))
  | _ => (cm_Payload resp, None, Some InvalidState)
  end.

(** 30 seconds *)
Definition execute_timeout : Z := 30 * Second.

Definition Execute (sim : positive) (txid : bytes) (spec : launch_spec) : M W result :=
  match spec with
  | LDeploy cds =>
      err ← Deploy cds;
      match err with
      | Some e => mret (failed (DeployFailed e))
      | None => r ← Launch sim txid spec; mret (match r.2 with Some e => failed e | None => (None, None, None) end)
      end
  | LInvoke _ =>
      r ← Launch sim txid spec;
      let '(cID, cMsg, err) := r in
      match err with
      | Some e => mret (failed (LaunchFailed e))
      | None =>
          match createTransactionMessage txid cMsg with
          | None => mret (failed BadMessage)
          | Some ccMsg =>
              resp ← support_Execute sim (cid_Name cID) ccMsg execute_timeout;
              mret (match resp with
                    | inl e => failed (ExecuteFailed e)
                    | inr resp => unwrap (cid_Name cID) txid resp
                    end)
          end
      end
  end.
End support.

(** ** chaincodeexec.go

    [depth] bounds the nesting: a chaincode that is not running asks the life
    cycle chaincode for its deployment. *)
Definition createCIS (ccname : bytes) (args : list bytes) : ChaincodeInvocationSpec :=
  mkCIS (Some (mkChaincodeSpec 1 (Some (mkChaincodeID [] ccname)) (Some args) 0 [] 0 None [])) [].

Section chaincodeexec.
Context {W : Type} `{!Runtime W}.
Context `{!Proto ChaincodeInput, !Proto ChaincodeDeploymentSpec}.
Context (GetChain : bytes → option ChaincodeSupport).

(** [GetCDSFromLCCC], of a way to execute chaincodes *)
Definition deployment_payload (exec : bytes → bytes → list bytes → M W (support_error + slice * option ChaincodeEvent))
    (chaincodeID : bytes) : M W (support_error + slice) :=
  r ← exec DefaultChain (bytes_of_string "lccc") [GETDEPSPEC; DefaultChain; chaincodeID];
  mret (match r with inl e => inl e | inr (payload, _) => inr payload end).

Fixpoint ExecuteChaincode (depth : nat) (sim : positive) (txid chainname ccname : bytes) (args : list bytes)
    : M W (support_error + slice * option ChaincodeEvent) :=
  match depth with
  | O => out_of_fuel
  | S depth =>
      chain ← lift (deref (GetChain chainname));
      r ← Execute chain (λ sim txid, deployment_payload (ExecuteChaincode depth sim txid)) sim txid
            (LInvoke (createCIS ccname args));
      mret (match r with
            | (_, _, Some e) => inl (ExecuteChaincodeFailed e)
            | (b, ccevent, None) => inr (b, ccevent)
            end)
  end.

Definition GetCDSFromLCCC (depth : nat) (sim : positive) (txid : bytes) : bytes → M W (support_error + slice) :=
  deployment_payload (ExecuteChaincode depth sim txid).
End chaincodeexec.
