(* ===== verification/CcExec.v ===== *)
(** * Launching and executing chaincodes: proofs

    What a failed launch leaves behind.  Then the runtime of CcSupport.v made of
    a handler and a chaincode at the two ends of a stream, on which
    [ExecuteChaincode] returns what the chaincode returns. *)

From Stdlib Require Import Strings.Byte.
From stdpp Require Import base numbers strings gmap list.
From S2P Require Import Prelude PeerTypes PeerTx Fsm CcTypes CcHandler CcShim CcStream CcStreamProofs Lccc CcSupport.
Local Open Scope Z_scope.

(** The table is a map: an update is seen by the reads after it. *)
Class RuntimeLaws (W : Type) `{!Runtime W} : Prop :=
  update_law (chain : bytes) f (w : W) :
    ∃ w', rt_update chain f w = Ok (tt, w') ∧ rt_running chain w' = f (rt_running chain w).

Section launch.
Context {W : Type} `{!Runtime W, RL : !RuntimeLaws W}.
Context `{!Proto ChaincodeInput, !Proto ChaincodeDeploymentSpec}.
Context (c : ChaincodeSupport) (GetCDS : positive → bytes → bytes → M W (support_error + slice)).

Definition absent (name : bytes) (w : W) : Prop := rt_running (sup_name c) w !! name = None.

Lemma pc_any {A} (m : M W A) w : pc m (λ _ _, True) w.
Proof. unfold pc. by destruct (m w) as [[]| |]. Qed.

Lemma pc_update f (Q : unit → W → Prop) w :
  (∀ w', rt_running (sup_name c) w' = f (rt_running (sup_name c) w) → Q tt w') → pc (rt_update (sup_name c) f) Q w.
Proof. intros H. destruct (update_law (sup_name c) f w) as (w' & E & Hw'). unfold pc. rewrite E. auto. Qed.

Lemma pc_forget name w : pc (forget c name) (λ _, absent name) w.
Proof. apply pc_update. intros w' E. unfold absent. rewrite E. apply lookup_delete_eq. Qed.

(** After [Stop] the chaincode is not in the table. *)
Lemma Stop_absent cds name w : cds_name cds = Ok name → name ≠ [] → pc (Stop c cds) (λ _, absent name) w.
Proof.
  intros En Hne. unfold Stop. rewrite En. apply pc_bind, pc_lift. intros a [= <-].
  rewrite bool_decide_false by done. apply pc_bind. eapply pc_mono; [apply pc_any|]. intros r w1 _.
  apply pc_bind, pc_gets. destruct (rt_running _ w1 !! name) eqn:E; [|by apply pc_ret].
  apply pc_bind. eapply pc_mono; [apply pc_forget|]. intros ? w2 H2. by apply pc_ret.
Qed.

Lemma launchAndWait_clean cds cID cLang targz w :
  cds_name cds = Ok (cid_Name cID) → cid_Name cID ≠ [] → absent (cid_Name cID) w →
  pc (launchAndWaitForRegister c cds cID cLang targz)
     (λ r w', ∀ e, r.2 = Some e → (e = UnknownType ∧ rt_running (sup_name c) w' !! cid_Name cID = Some (RTPlaceholder []))
                                  ∨ absent (cid_Name cID) w') w.
Proof.
  intros En Hne Habs. unfold launchAndWaitForRegister. cbv zeta. rewrite bool_decide_false by done.
  apply pc_bind, pc_gets. rewrite Habs. apply pc_bind. unfold preLaunchSetup. apply pc_update. intros w1 E1.
  destruct (getArgsAndEnv c cID cLang) as [[args env]|].
  2: { apply pc_ret. intros e [= <-]. left. split; [done|]. rewrite E1. apply lookup_insert_eq. }
  apply pc_bind. eapply pc_mono; [apply pc_any|]. intros r w2 _. destruct (vm_failed r).
  { apply pc_bind. eapply pc_mono; [apply pc_forget|]. intros ? w3 H3. apply pc_ret. by right. }
  apply pc_bind. eapply pc_mono; [apply pc_any|]. intros ok w3 _. cbv zeta.
  destruct ok as [[]|]; [by apply pc_ret|..]; apply pc_bind; (eapply pc_mono; [by apply (Stop_absent cds (cid_Name cID))|]);
    intros ? w4 H4; apply pc_ret; by right.
Qed.

(** C21. A launch that fails leaves nothing behind.  The deployment of a
    chaincode that is not in the table fails for whatever reason (the
    container does not start, the chaincode does not register or is not
    initialised in time); then the chaincode is not in the table, and can be
    launched again.  The exception is a chaincode of a type the peer cannot
    run, whose placeholder stays. *)
Theorem launch_error_clean sim txid cds cID input e w w' r :
  cds_name cds = Ok (cid_Name cID) → cid_Name cID ≠ [] → rt_running (sup_name c) w !! cid_Name cID = None →
  Launch c GetCDS sim txid (LDeploy cds) w = Ok ((r, input, Some e), w') →
  (e = UnknownType ∧ rt_running (sup_name c) w' !! cid_Name cID = Some (RTPlaceholder []))
  ∨ rt_running (sup_name c) w' !! cid_Name cID = None.
Proof.
  intros En Hne Habs E.
  assert (pc (Launch c GetCDS sim txid (LDeploy cds)) (λ r w', ∀ e, r.2 = Some e →
    (e = UnknownType ∧ rt_running (sup_name c) w' !! cid_Name cID = Some (RTPlaceholder [])) ∨ absent (cid_Name cID) w') w) as Hpc.
  2: { by apply (pc_intro _ _ _ _ _ Hpc E). }
  clear E e r. unfold Launch. apply pc_bind, pc_lift. intros s Es.
  assert (∃ cid, s.1.1 = Some cid ∧ cid_Name cid = cid_Name cID) as (cid & Ecid & Ename).
  { unfold cds_name in En. cbn in Es. destruct (cds_ChaincodeSpec cds) as [spec|]; [|done]. cbn in En, Es.
    destruct (cs_ChaincodeID spec) as [cid|]; [|done]. injection En as En. destruct (cs_CtorMsg spec); [|done].
    injection Es as <-. by exists cid. }
  rewrite Ecid. apply pc_bind, pc_lift. intros cid' [= <-]. cbv zeta. apply pc_bind, pc_gets. rewrite Ename, Habs.
  apply pc_bind, pc_gets. rewrite bool_decide_false by (by intros []).
  apply pc_bind. unfold launch_deployed. apply pc_bind, pc_lift. intros cspec _. apply pc_bind.
  apply (pc_mono _ (λ r w', ∀ e, r.2 = Some e →
    (e = UnknownType ∧ rt_running (sup_name c) w' !! cid_Name cID = Some (RTPlaceholder [])) ∨ absent (cid_Name cID) w')).
  { destruct (_ && _); [|by apply pc_ret]. rewrite <-Ename in *. by apply launchAndWait_clean. }
  intros r1 w1 H1. destruct (r1.2) as [e1|]; [apply pc_ret, pc_ret; intros e [= <-]; by apply H1|].
  apply pc_bind. eapply pc_mono; [apply pc_any|]. intros [e2|] w2 _; [|by apply pc_ret, pc_ret].
  apply pc_bind. eapply pc_mono; [by apply (Stop_absent cds (cid_Name cID))|]. intros ? w3 H3. apply pc_ret, pc_ret. by right.
Qed.

(** The placeholder refuses every later launch of the name. *)
Lemma placeholder_blocks sim txid spec w s cID n :
  spec_of spec = Ok s → s.1.1 = Some cID → rt_running (sup_name c) w !! cid_Name cID = Some (RTPlaceholder n) →
  Launch c GetCDS sim txid spec w = Ok ((cID, s.1.2, Some Premature), w).
Proof.
  intros Es Ec Hr. unfold Launch, chaincodeHasBeenLaunched. rewrite Es, (bind_ok (lift (Ok s)) _ w s w) by done. rewrite Ec.
  rewrite (bind_ok (lift (deref _)) _ w cID w) by done. cbv zeta.
  rewrite (bind_ok (gets _) _ w (Some (RTPlaceholder n)) w) by (unfold gets; by rewrite Hr). by erewrite bind_ok.
Qed.
End launch.

(** ** Executing a chaincode that is running

    The runtime of CcSupport.v made of a handler and a chaincode at the two ends
    of a stream: while the peer waits for an answer, the two ends take the steps
    of a schedule.  [ExecuteChaincode] then returns what the chaincode returns. *)

(** ** What a running chaincode gives *)
Section running.
Context {W : Type} `{!Runtime W}.
Context `{!Proto ChaincodeInput, !Proto ChaincodeDeploymentSpec}.

Lemma Launch_running (c : ChaincodeSupport) GetCDS sim txid ccname args id w :
  rt_running (sup_name c) w !! ccname = Some (RTHandler id) → rt_isRunning id w = true →
  Launch c GetCDS sim txid (LInvoke (createCIS ccname args)) w = Ok ((mkChaincodeID [] ccname, Some args, None), w).
Proof.
  intros Hr Hrun. unfold Launch, chaincodeHasBeenLaunched.
  rewrite (bind_ok (lift (spec_of _)) _ w (Some (mkChaincodeID [] ccname), Some args, None) w) by done.
  rewrite (bind_ok (lift (deref _)) _ w (mkChaincodeID [] ccname) w) by done. cbv zeta. cbn [cid_Name].
  rewrite (bind_ok (gets _) _ w (Some (RTHandler id)) w) by (unfold gets; by rewrite Hr).
  by rewrite (bind_ok (gets _) _ w true w) by (unfold gets; by rewrite Hrun).
Qed.

(** The call of a running chaincode sends the input, waits, and forgets the
    transaction. *)
Lemma ExecuteChaincode_running (GetChain : bytes → option ChaincodeSupport) depth c sim txid chain ccname args id payload w w1 w2 w3 m :
  GetChain chain = Some c → rt_running (sup_name c) w !! ccname = Some (RTHandler id) → rt_isRunning id w = true →
  Marshal (mkChaincodeInput args) = Some payload →
  rt_sendExecuteMessage id sim (newMsg TRANSACTION (Some payload) txid) w = Ok (Some tt, w1) →
  rt_response id txid execute_timeout w1 = Ok (m, w2) → rt_deleteTxContext id txid w2 = Ok (tt, w3) →
  ExecuteChaincode GetChain (S depth) sim txid chain ccname args w
  = Ok (match m with
        | None => inl (ExecuteChaincodeFailed (ExecuteFailed ExecuteTimeout))
        | Some m => match unwrap ccname txid m with
                    | (_, _, Some e) => inl (ExecuteChaincodeFailed e)
                    | (b, ev, None) => inr (b, ev)
                    end
        end, w3).
Proof.
  intros Hc Hr Hrun Hm Hs Hresp Hd. cbn [ExecuteChaincode]. rewrite Hc.
  rewrite (bind_ok (lift (deref (Some c))) _ w c w) by done.
  rewrite (bind_ok (Execute c _ sim txid _) _ w
    (match m with None => failed (ExecuteFailed ExecuteTimeout) | Some m => unwrap ccname txid m end) w3).
  { by destruct m as [m|]. }
  unfold Execute. erewrite bind_ok; [|by apply (Launch_running c _ sim txid ccname args id)]. cbv beta iota.
  unfold createTransactionMessage. cbn [mbind option_bind]. rewrite Hm. cbn [mbind option_bind cid_Name].
  rewrite (bind_ok (support_Execute _ _ _ _ _) _ w
    (match m with None => inl ExecuteTimeout | Some m => inr m end) w3); [by destruct m|].
  unfold support_Execute, chaincodeHasBeenLaunched. cbn [cid_Name].
  rewrite (bind_ok (gets _) _ w (Some (RTHandler id)) w) by (unfold gets; by rewrite Hr).
  erewrite bind_ok; [|exact Hs]. cbv iota. erewrite bind_ok; [|exact Hresp]. erewrite bind_ok; [|exact Hd]. reflexivity.
Qed.
End running.

(** ** A runtime of one stream *)
Section one_stream.
Context {S It : Type} `{!TxSimulator S It, !ErrorText}.
Context `{!Proto ChaincodeID, !Proto PutStateInfo, !Proto RangeQueryState, !Proto RangeQueryStateNext,
  !Proto RangeQueryStateClose, !Proto RangeQueryStateResponse, !Proto ChaincodeSpec, !Proto ChaincodeInput,
  !Proto ChaincodeMessage, !Proto ChaincodeDeploymentSpec}.
Context (cc : Chaincode) (wire : ChaincodeMessage → ChaincodeMessage).

(** The system, and what happens during each wait to come. *)
Abbreviation Rt := (Sys S It * list (list move))%type.

Definition set_peer (w : HW S It) (r : Rt) : Rt := (mkSys w (y_shim r.1), r.2).
(** An operation of the handler [id], the only one here. *)
Definition on_handler {A} (id : positive) (m : M (HW S It) A) : M Rt A := λ r,
  if bool_decide (id = w_id (y_peer r.1)) then '(a, w) ← m (y_peer r.1); Ok (a, set_peer w r) else OutOfFuel.
Definition pass_time : M Rt unit := λ r,
  match r.2 with
  | [] => Ok (tt, r)
  | l :: ls => y ← sys_run cc wire l r.1; Ok (tt, (y, ls))
  end.

#[export] Instance StreamRuntime : Runtime Rt := {
  rt_running _ r := w_running (y_peer r.1);
  rt_update _ f := modify (λ r, set_peer (set_running f (y_peer r.1)) r);
  rt_isRunning id r := bool_decide (id = w_id (y_peer r.1)) && isRunning (w_h (y_peer r.1));
  rt_initOrReady id sim txid args := on_handler id (initOrReady sim txid args);
  rt_sendExecuteMessage id sim msg := on_handler id (sendExecuteMessage sim msg);
  rt_response id txid _ := _ ← pass_time; on_handler id (receive_response txid);
  rt_deleteTxContext id txid := on_handler id (deleteTxContext txid);
  rt_ready _ _ _ := out_of_fuel;
  rt_VMCProcess _ _ _ := out_of_fuel }.

(** What the caller gets of what the chaincode returns. *)
Definition outcome (ccname txid : bytes) (r : bytes + slice) (ev : option ChaincodeEvent)
    : support_error + slice * option ChaincodeEvent :=
  let m := wire (final_msg txid r ev) in
  match r with
  | inr _ => inr (cm_Payload m, own_event ccname txid <$> cm_ChaincodeEvent m)
  | inl _ => inl (ExecuteChaincodeFailed (ChaincodeFailed (cm_Payload m)))
  end.
Definition timed_out : support_error + slice * option ChaincodeEvent :=
  inl (ExecuteChaincodeFailed (ExecuteFailed ExecuteTimeout)).

Lemma receive_run txid (w : HW S It) ctxs ctx :
  h_txCtxs (w_h w) = Some (<[txid := ctx]> ctxs) →
  ∃ w', receive_response txid w = Ok (head (tc_responseNotifier ctx), w')
    ∧ (∃ ctx', h_txCtxs (w_h w') = Some (<[txid := ctx']> ctxs))
    ∧ w_sims w' = w_sims w ∧ w_id w' = w_id w ∧ h_FSM (w_h w') = h_FSM (w_h w)
    ∧ h_tasks (w_h w') = h_tasks (w_h w) ∧ h_nextState (w_h w') = h_nextState (w_h w).
Proof.
  intros E. unfold receive_response.
  rewrite (bind_ok (getTxContext txid) _ w (Some ctx) w).
  2: { unfold getTxContext. erewrite bind_ok; [|done]. rewrite E. cbn. by rewrite lookup_insert_eq. }
  cbn [mbind option_bind]. destruct (tc_responseNotifier ctx) as [|m l] eqn:En; cbn [head].
  - exists w. split_and!; [done|by eexists|done..].
  - eexists. split; [by erewrite bind_ok|]. cbn. rewrite E. cbn. split_and!; [|done..]. eexists. by rewrite alter_insert_eq.
Qed.

Lemma send_run simr txid p (w : HW S It) ctxs :
  h_txCtxs (w_h w) = Some ctxs → ctxs !! txid = None →
  ∃ w', sendExecuteMessage simr (newMsg TRANSACTION p txid) w = Ok (Some tt, w').
Proof.
  intros E Hn. unfold sendExecuteMessage, createTxContext, markIsTransaction. cbn [cm_Txid newMsg cm_Type].
  rewrite (bind_ok (_ ≫= _) _ w (Some tt) (set_h (set_txCtxs (Some (<[txid := mkTxContext [] ∅ simr]> ctxs))) w)).
  2: { erewrite bind_ok; [|done]. by rewrite E, Hn. }
  unfold mbind, M_bind, of_h, gets. cbn. by destruct (h_isTransaction (w_h w)); eexists.
Qed.

Lemma on_handler_run {A} id (m : M (HW S It) A) y ls a w :
  id = w_id (y_peer y) → m (y_peer y) = Ok (a, w) → on_handler id m (y, ls) = Ok (a, (mkSys w (y_shim y), ls)).
Proof. intros -> E. unfold on_handler. cbn [fst]. rewrite bool_decide_true by done. by rewrite E. Qed.

Lemma sys_run_snoc l l' y : sys_run cc wire (l ++ l') y = (y ← sys_run cc wire l y; sys_run cc wire l' y : res (Sys S It)).
Proof.
  revert y. induction l as [|mv l IH]; intros y; [done|]. cbn [sys_run app].
  destruct (sys_step cc wire mv y) as [y1| |]; [apply IH|done|done].
Qed.

Lemma unwrap_outcome ccname txid r ev : wire_laws wire →
  match unwrap ccname txid (wire (final_msg txid r ev)) with
  | (_, _, Some e) => inl (ExecuteChaincodeFailed e)
  | (b, ev, None) => inr (b, ev)
  end = outcome ccname txid r ev.
Proof. intros WL. unfold unwrap, outcome. rewrite (wire_Type wire WL). by destruct r. Qed.

(** One wait: the answer that is there after the schedule, or a timeout. *)
Lemma execute_wait (GetChain : bytes → option ChaincodeSupport) depth c chain hid cid running txid simr args rn0 ctxs0
    trans0 strans0 sims0 payload (w : HW S It) l y ctx :
  GetChain chain = Some c → running !! cid_Name cid = Some (RTHandler hid) → ctxs0 !! txid = None →
  Marshal (mkChaincodeInput args) = Some payload →
  let y0 := quiet hid cid running readystate rn0 ctxs0 trans0 strans0 sims0 in
  peer_step (AExecute simr (newMsg TRANSACTION (Some payload) txid)) (y_peer y0) = Ok (tt, w) →
  sys_run cc wire l (mkSys w (y_shim y0)) = Ok y → w_id (y_peer y) = hid →
  h_txCtxs (w_h (y_peer y)) = Some (<[txid := ctx]> ctxs0) →
  ∃ y', ExecuteChaincode GetChain (Datatypes.S depth) simr txid chain (cid_Name cid) args (y0, [l])
    = Ok (match head (tc_responseNotifier ctx) with
          | None => timed_out
          | Some m => match unwrap (cid_Name cid) txid m with
                      | (_, _, Some e) => inl (ExecuteChaincodeFailed e)
                      | (b, ev, None) => inr (b, ev)
                      end
          end, (y', []))
    ∧ w_sims (y_peer y') = w_sims (y_peer y) ∧ (at_rest y → at_rest y') ∧ h_txCtxs (w_h (y_peer y')) = Some ctxs0.
Proof.
  intros Hc Hrun Hctx Hm y0 Ew El Eid Ectx.
  destruct (receive_run txid (y_peer y) ctxs0 ctx Ectx) as (w' & Er & (ctx' & Ectx') & Esims & Eid' & Hf & Ht & Hn).
  destruct (send_run simr txid (Some payload) (y_peer y0) ctxs0) as (w1 & Es); [done..|].
  assert (w1 = w) as ->. { cbn [peer_step] in Ew. erewrite bind_ok in Ew; [|exact Es]. by injection Ew. }
  exists (mkSys (set_h (λ h, set_txCtxs (delete txid <$> h_txCtxs h) h) w') (y_shim y)). split_and!.
  - eapply (ExecuteChaincode_running GetChain depth c simr txid chain (cid_Name cid) args hid payload (y0, [l])
      (mkSys w (y_shim y0), [l]) (mkSys w' (y_shim y), [])); [done|done| |done| | |].
    + cbn. by rewrite bool_decide_true.
    + by apply on_handler_run.
    + cbn [rt_response StreamRuntime]. rewrite (bind_ok pass_time _ _ tt (y, [])).
      * by apply on_handler_run.
      * unfold pass_time. cbn [fst snd]. by rewrite El.
    + apply (on_handler_run hid _ (mkSys w' (y_shim y)) []); [by cbn; rewrite Eid'|done].
  - done.
  - unfold at_rest. cbn. by rewrite Hf, Ht, Hn.
  - cbn. rewrite Ectx'. cbn. rewrite delete_insert_eq. by rewrite delete_id.
Qed.

End one_stream.
