(* ===== verification/CcSim.v ===== *)
(** * A concrete peer with a chaincode

    The chaincode of the direct run as a chaincode of the transaction manager
    (TxMgrProofs.v), executions of it on lawful instances of the interfaces,
    also through [ExecuteChaincode], and a launch whose container does not
    start. *)

From Stdlib Require Import Strings.Byte.
From stdpp Require Import base numbers strings gmap list.
From S2P Require Import Prelude Wire RWSet LevelDB PeerTypes TxMgr TxMgrProofs PeerSim PeerTx PeerTxSim Fsm CcTypes CcHandler CcConfined CcLockSim CcShim CcStream CcStreamProofs CcBehaviour CcSupport CcExec.
Local Open Scope Z_scope.

(** ** Chaincodes of the transaction manager *)
Section bridge.
Context {D : Type} `{LevelDB D}.
Context (wire : ChaincodeMessage → ChaincodeMessage) (ns txid : bytes).

Fixpoint as_chaincode (p : ccprog) : chaincode :=
  match p with
  | PGetState key k => CGet ns key (λ v, as_chaincode (k (inr (cm_Payload (wire (newMsg RESPONSE v txid))))))
  | PPutState key value k => CSet ns key (norm value) (as_chaincode (k None))
  | PDelState key k => CSet ns key None (as_chaincode (k None))
  | _ => CDone
  end.

(** What a chaincode does over its stream is what the transaction manager
    simulates. *)
Lemma direct_simulate (tm : LockBasedTxMgr D) db_text p s fin s' :
  direct (TxSimulator0 := LockSim tm db_text) wire ns txid p s = Ok (Some fin, s') →
  simulate (as_chaincode p) tm s = Ok (true, s').
Proof.
  revert s. induction p as [r ev|key k IH|key value k IH|key k IH| | | |]; intros s E; cbn [direct] in E; try done.
  - by injection E as _ ->.
  - apply M_bind_Ok in E as (r & s1 & E1 & E2). apply M_bind_Ok in E1 as (o & s2 & E3 & E4).
    injection E4 as <- ->. cbn [simulate as_chaincode]. erewrite bind_ok; [|exact E3].
    destruct o as [v|]; [|done]. by apply IH.
  - apply M_bind_Ok in E as (r & s1 & E1 & E2). apply M_bind_Ok in E1 as ([] & s2 & E3 & E4).
    injection E4 as <- ->. cbn [simulate as_chaincode]. erewrite bind_ok; [|exact E3]. by apply IH.
  - apply M_bind_Ok in E as (r & s1 & E1 & E2). apply M_bind_Ok in E1 as ([] & s2 & E3 & E4).
    injection E4 as <- ->. cbn [simulate as_chaincode]. erewrite bind_ok; [|exact E3]. by apply IH.
Qed.
End bridge.

(** ** Encodings *)
Module CcCodec.
Import PeerCodec PeerTxCodec.

Definition put_kv (kv : RangeQueryStateKeyValue) : bytes := put_bytes (rqkv_Key kv) ++ put_slice (rqkv_Value kv).
Definition get_kv : parser RangeQueryStateKeyValue := λ l,
  '(k, l) ← get_bytes l; '(v, l) ← get_slice l; Some (mkRQKeyValue k v, l).

#[export] Instance ChaincodeID_proto : Proto ChaincodeID := {
  Marshal c := Some (put_ccid c); Unmarshal l := fst <$> get_ccid l }.
#[export] Instance PutStateInfo_proto : Proto PutStateInfo := {
  Marshal p := Some (put_bytes (psi_Key p) ++ put_slice (psi_Value p));
  Unmarshal l := '(k, l) ← get_bytes l; '(v, _) ← get_slice l; Some (mkPutStateInfo k v) }.
#[export] Instance RangeQueryState_proto : Proto RangeQueryState := {
  Marshal p := Some (put_bytes (rqs_StartKey p) ++ put_bytes (rqs_EndKey p));
  Unmarshal l := '(k, l) ← get_bytes l; '(v, _) ← get_bytes l; Some (mkRangeQueryState k v) }.
#[export] Instance RangeQueryStateNext_proto : Proto RangeQueryStateNext := {
  Marshal p := Some (put_bytes (rqn_ID p)); Unmarshal l := mkRangeQueryStateNext ∘ fst <$> get_bytes l }.
#[export] Instance RangeQueryStateClose_proto : Proto RangeQueryStateClose := {
  Marshal p := Some (put_bytes (rqc_ID p)); Unmarshal l := mkRangeQueryStateClose ∘ fst <$> get_bytes l }.
#[export] Instance RangeQueryStateResponse_proto : Proto RangeQueryStateResponse := {
  Marshal p := Some (put_list put_kv (rqr_KeysAndValues p) ++ put_Z (if rqr_HasMore p then 1 else 0) ++ put_bytes (rqr_ID p));
  Unmarshal l :=
    '(kvs, l) ← get_list get_kv (length l) l; '(b, l) ← get_Z l; '(i, _) ← get_bytes l;
    Some (mkRQResponse kvs (bool_decide (b = 1)) i) }.
#[export] Instance ChaincodeSpec_proto : Proto ChaincodeSpec := {
  Marshal c := Some (put_ccspec c); Unmarshal l := fst <$> get_ccspec l }.
#[export] Instance ChaincodeInput_proto : Proto ChaincodeInput := {
  Marshal c := Some (put_input (ci_Args c)); Unmarshal l := mkChaincodeInput ∘ fst <$> get_input l }.
(** The message of a called chaincode: whether it completed, and its payload. *)
#[export] Instance ChaincodeMessage_proto : Proto ChaincodeMessage := {
  Marshal m := Some (put_Z (if bool_decide (cm_Type m = COMPLETED) then 1 else 0) ++ put_slice (cm_Payload m) ++ put_bytes (cm_Txid m));
  Unmarshal l :=
    '(t, l) ← get_Z l; '(p, l) ← get_slice l; '(i, _) ← get_bytes l;
    Some (newMsg (if bool_decide (t = 1) then COMPLETED else ERROR) p i) }.
#[export] Instance texts : ErrorText := {
  unmarshal_text _ := bytes_of_string "bad message"; marshal_text := bytes_of_string "bad value";
  send_text := bytes_of_string "stream closed" }.

Lemma codec_ok : codec_laws.
Proof.
  split.
  - intros key v. eexists. split; [done|]. cbn [Unmarshal PutStateInfo_proto psi_Key psi_Value].
    rewrite <-(app_nil_r (put_slice v)), get_put_bytes. cbn.
    assert (put_slice v = put_slice (norm v)) as -> by (by destruct v as [[|]|]).
    rewrite get_put_slice; [done|]. apply norm_ok.
  - intros args. eexists. split; [done|]. cbn [Unmarshal ChaincodeInput_proto ci_Args].
    by rewrite <-(app_nil_r (put_input args)), get_put_input.
Qed.

(** gRPC: a message is decoded from its encoding. *)
Definition wire (m : ChaincodeMessage) : ChaincodeMessage :=
  mkMsg (cm_Type m) (cm_Timestamp m) (norm (cm_Payload m)) (cm_Txid m) (cm_ChaincodeEvent m).
Lemma wire_ok : wire_laws wire.
Proof. split; intros m; [done|done|apply sl_norm]. Qed.
End CcCodec.

(** ** Executions *)
Module CcWitness.
Import MemDB CcCodec MvccWitness.

Definition tm0 : LockBasedTxMgr (gmap bytes bytes) := NewLockBasedTxMgr db0.
#[export] Instance sims : TxSimulator LockBasedTxSimulator (bytes * list (bytes * bytes)) :=
  LockSim tm0 (bytes_of_string "db").

Definition cc_id : ChaincodeID := mkChaincodeID [] cc.
Definition tx1 : bytes := bytes_of_string "tx1".

(** The chaincode appends to the value of a and returns the old value. *)
Definition append_prog (args : list bytes) : ccprog :=
  PGetState key_a (λ r,
    match r with
    | inl e => PReturn (inl e) None
    | inr v => PPutState key_a (Some (sl v ++ concat args)) (λ e, PReturn (inr v) None)
    end).
Definition chaincode0 : Chaincode := mkChaincode (λ _, PReturn (inr None) None) append_prog.
Definition plus : list bytes := [bytes_of_string "+"].

Definition direct0 : res (option ((bytes + slice) * option ChaincodeEvent) * LockBasedTxSimulator) :=
  direct wire cc tx1 (body chaincode0 false plus) newSimulator.
Definition sim_after : LockBasedTxSimulator := match direct0 with Ok (_, s) => s | _ => newSimulator end.

Lemma direct0_ok : direct0 = Ok (Some (inr (Some (bytes_of_string "1")), None), sim_after).
Proof.
  assert (match direct0 with Ok (r, _) => r | _ => None end = Some (inr (Some (bytes_of_string "1")), None)) as E
    by (vm_compute; reflexivity).
  unfold sim_after. destruct direct0 as [[r s]| |]; [by rewrite E|done|done].
Qed.

Definition sys0 : Sys LockBasedTxSimulator (bytes * list (bytes * bytes)) :=
  quiet 1 cc_id ∅ readystate None ∅ ∅ ∅ {[ 1%positive := newSimulator ]}.


(** *** A chaincode that does not follow the protocol

    It registers, is invoked with the first simulator and writes; it repeats
    the request at once, answers for a transaction of its own and registers
    again under another name. *)
Definition msg (t : MsgType) (payload : slice) (txid : bytes) : ChaincodeMessage := newMsg t payload txid.
Definition forged : list action := [
  ARecv (Some (msg REGISTER (Marshal cc_id) [])); AInit 1 (bytes_of_string "t0") None; ANext 0;
  AForget (bytes_of_string "t0");
  AExecute 1 (msg TRANSACTION (Marshal (mkChaincodeInput plus)) tx1); ANext 0;
  ARecv (Some (msg GET_STATE (Some key_a) tx1)); ARecv (Some (msg GET_STATE (Some key_a) tx1));
  ATask 0 [] (inl []); ATask 1 [] (inl []); ATask 0 [] (inl []);
  ARecv (Some (msg PUT_STATE (Marshal (mkPutStateInfo key_a (Some key_b))) tx1)); ATask 1 [] (inl []);
  ATask 1 [] (inl []); ATask 0 [] (inl []); ANext 0;
  ARecv (Some (msg COMPLETED None (bytes_of_string "t9")));
  ARecv (Some (msg REGISTER (Marshal (mkChaincodeID [] (bytes_of_string "lccc"))) [])) ].

Definition peer0 : HW LockBasedTxSimulator (bytes * list (bytes * bytes)) :=
  mkHW 1 newHandler ∅ {[ 1%positive := newSimulator; 2%positive := newSimulator ]}.
Definition peer1 : HW LockBasedTxSimulator (bytes * list (bytes * bytes)) :=
  match peer_run forged peer0 with Ok (_, w) => w | _ => peer0 end.

Lemma forged_run : peer_run forged peer0 = Ok (tt, peer1).
Proof.
  assert (match peer_run forged peer0 with Ok _ => true | _ => false end = true) as E by (vm_compute; reflexivity).
  unfold peer1. by destruct (peer_run forged peer0) as [[[] w]| |].
Qed.

(** The write was made, in the chaincode's namespace. *)
Lemma forged_wrote :
  (w_sims peer1 !! 1%positive ≫= λ s, writes_of s (cc, key_a) ≫= λ x, Some (kw_Value x)) = Some (Some key_b)
  ∧ h_ended (w_h peer1) = true.
Proof. vm_compute. done. Qed.


(** *** A failed read

    The chaincode handles the error and returns a result of its own. *)
Definition carry_on : ChaincodeMessage → ccprog := λ m, PReturn (inr (Some (sl (cm_Payload m)))) None.

Lemma error_reply_ends_shim_witness :
  (_ ← shim_recv (Some (msg ERROR (Some (bytes_of_string "db")) tx1)); _ ← cctask_step chaincode0 0;
   _ ← cctask_step chaincode0 0; shim_next 0) (waiting tx1 ∅ carry_on [])
  = Ok (tt, mkShim readystate ∅ (delete tx1 ∅) [] []
      [newMsg ERROR (Some (cannot_text (final_msg tx1 (inr (Some (bytes_of_string "db"))) None) readystate)) tx1] true true).
Proof.
  apply (error_reply_ends_shim chaincode0 tx1 ∅ carry_on [] (msg ERROR (Some (bytes_of_string "db")) tx1)
    (inr (Some (bytes_of_string "db"))) None).
  - reflexivity.
  - reflexivity.
  - reflexivity.
Defined.
End CcWitness.

(** ** A peer that executes and launches chaincodes

    The chaincode of CcSim.v called through [ExecuteChaincode], and a launch
    whose container does not start. *)

Module CcExecWitness.
Import PeerCodec PeerTxCodec MemDB CcCodec MvccWitness CcWitness.

Definition support0 : ChaincodeSupport :=
  mkChaincodeSupport DefaultChain peerAddressDefault 5 chaincodeInstallPathDefault false [] [] false [] [] [] 0 [].
Definition chains0 (name : bytes) : option ChaincodeSupport :=
  if bool_decide (name = DefaultChain) then Some support0 else None.
Definition running0 : gmap bytes chaincodeRTEnv := {[ cc := RTHandler 1 ]}.
Definition sims0 : gmap positive LockBasedTxSimulator := {[ 1%positive := newSimulator ]}.
Definition quiet0 : Sys LockBasedTxSimulator (bytes * list (bytes * bytes)) :=
  quiet 1 cc_id running0 readystate None ∅ ∅ ∅ sims0.
Definition result0 : support_error + slice * option ChaincodeEvent := outcome wire cc tx1 (inr (Some (bytes_of_string "1"))) None.


(** ** Containers that do not start *)
Abbreviation Tbl := (gmap bytes chaincodeRTEnv).
#[export] Instance NoContainers : Runtime Tbl := {
  rt_running _ w := w;
  rt_update _ f := modify f;
  rt_isRunning _ _ := false;
  rt_initOrReady _ _ _ _ := mret None;
  rt_sendExecuteMessage _ _ _ := mret None;
  rt_response _ _ _ := mret None;
  rt_deleteTxContext _ _ := mret tt;
  rt_ready _ _ _ := mret None;
  rt_VMCProcess _ _ _ := mret VMErr }.
#[export] Instance NoContainers_laws : RuntimeLaws Tbl.
Proof. intros chain f w. by eexists. Qed.

Definition spec_id : ChaincodeID := mkChaincodeID [] (bytes_of_string "mycc").
Definition cds_of (type : Z) : ChaincodeDeploymentSpec :=
  mkCDS (Some (mkChaincodeSpec type (Some spec_id) (Some plus) 0 [] 0 None [])) None None 0.
Definition no_cds : positive → bytes → bytes → M Tbl (support_error + slice) := λ _ _ _, mret (inr None).

Lemma launch_error_clean_witness :
  Launch support0 no_cds 1 tx1 (LDeploy (cds_of GOLANG)) (∅ : Tbl) = Ok ((spec_id, Some plus, Some StartFailed), ∅)
  ∧ ((StartFailed = UnknownType ∧ rt_running (sup_name support0) (∅ : Tbl) !! cid_Name spec_id = Some (RTPlaceholder []))
     ∨ rt_running (sup_name support0) (∅ : Tbl) !! cid_Name spec_id = None).
Proof.
  split; [vm_compute; reflexivity|].
  apply (launch_error_clean support0 no_cds 1 tx1 (cds_of GOLANG) spec_id (Some plus) StartFailed (∅ : Tbl) ∅ spec_id).
  - reflexivity.
  - discriminate.
  - reflexivity.
  - vm_compute. reflexivity.
Defined.

(** A chaincode of a type without a launcher cannot be launched a second time. *)
Definition placeholder_left : Tbl :=
  match Launch support0 no_cds 1 tx1 (LDeploy (cds_of NODE)) (∅ : Tbl) with Ok (_, w) => w | _ => ∅ end.
Lemma node_chaincode_stuck :
  ∃ r, Launch support0 no_cds 1 tx1 (LDeploy (cds_of GOLANG)) placeholder_left = Ok ((r, Some plus, Some Premature), placeholder_left).
Proof.
  exists spec_id.
  by apply (placeholder_blocks support0 no_cds 1 tx1 _ placeholder_left (Some spec_id, Some plus, Some plus) spec_id []).
Qed.
End CcExecWitness.
