(* ===== verification/Endorser.v ===== *)
(** * The endorser (core/endorser/endorser.go)

    A signed proposal is validated, the chaincode is run on a simulator of its
    own, and the endorsement chaincode signs what the simulation did. *)

From Stdlib Require Import Strings.Byte.
From stdpp Require Import base numbers strings gmap list.
From S2P Require Import Prelude Fsm PeerTypes PeerTx CcTypes CcHandler Lccc CcSupport.
Local Open Scope Z_scope.

(** The ledger of a chain: [NewTxSimulator], [GetTxSimulationResults] and
    [Done] of a simulator; [None] is an error. *)
Class Ledger (W : Type) := {
  ledger_NewTxSimulator : bytes → M W (option positive);
  ledger_GetTxSimulationResults : positive → M W (option bytes);
  ledger_Done : positive → M W unit }.

Inductive endorser_error :=
  | InvalidProposal | InvalidHeader | InvalidTxID | NoSimulator | InvalidInvocation | CallFailed (e : support_error)
  | InvalidDeployment | EndorserDeployFailed (e : support_error) | EndorserLaunchFailed (e : support_error) | NoResults
  | NoCDS (e : support_error) | InvalidCDS | EventError | InvalidResponse.

(** Code that returns an error *)
Abbreviation E W A := (M W (endorser_error + A)%type).
Definition e_bind {W A B} (m : E W A) (f : A → E W B) : E W B :=
  r ← m; match r with inl e => mret (inl e) | inr a => f a end.
Definition throw {W A} (e : endorser_error) : E W A := mret (inl e).
Definition ok {W A} (a : A) : E W A := mret (inr a).
(** A panic, or an error given by [None]. *)
Definition fallible {W A} (e : endorser_error) (r : res (option A)) : E W A :=
  o ← lift r; mret (match o with Some a => inr a | None => inl e end).
Declare Scope endorser_scope.
Delimit Scope endorser_scope with endorser.
Notation "x ←? m ; k" := (e_bind m (λ x, k))
  (at level 20, m at level 100, k at level 200, right associativity) : endorser_scope.
Local Open Scope endorser_scope.

Section endorser.
Context {W : Type} `{!Runtime W, !Ledger W}.
Context `{!Proto Envelope, !Proto Payload, !Proto Transaction, !Proto ChaincodeActionPayload,
  !Proto ProposalResponsePayload, !Proto ChaincodeAction, !Proto Header, !Proto SignatureHeader,
  !Proto ChaincodeHeaderExtension, !Proto ChaincodeProposalPayload, !Proto Proposal,
  !Proto ProposalResponse, !Proto ChaincodeInvocationSpec, !Proto ChaincodeDeploymentSpec,
  !Proto ChaincodeInput, !Proto ChaincodeEvent}.
Context {Id Sid : Type} `{!MSP Id Sid}.
(** [depth] bounds the nesting of [ExecuteChaincode]; [error_text] is the text
    of an error. *)
Context (GetChain : bytes → option ChaincodeSupport) (depth : nat) (error_text : endorser_error → bytes).

Definition lccc : bytes := bytes_of_string "lccc".
Definition escc : bytes := bytes_of_string "escc".

Definition endorser_deploy (sim : positive) (txid chainname : bytes) (cds : ChaincodeDeploymentSpec) : E W unit :=
  chaincodeSupport ← lift (deref (GetChain chainname));
  err ← Deploy chaincodeSupport cds;
  match err with
  | Some e => throw (EndorserDeployFailed e)
  | None =>
      r ← Launch chaincodeSupport (λ sim txid, deployment_payload (ExecuteChaincode GetChain depth sim txid)) sim txid (LDeploy cds);
      match r.2 with
      | Some e => throw (EndorserLaunchFailed e)
      | None => _ ← Stop chaincodeSupport cds; ok tt
      end
  end.

(** The arguments of an invocation. *)
Definition cis_args (cis : ChaincodeInvocationSpec) : res (list bytes) :=
  spec ← deref (cis_ChaincodeSpec cis); deref (cs_CtorMsg spec).

Definition is_deploy (name : bytes) (args : list bytes) : option bytes :=
  match args with
  | [f; _; code] => if bool_decide (name = lccc) && bool_decide (f = DEPLOY) then Some code else None
  | _ => None
  end.

Definition callChaincode (sim : positive) (txid : bytes) (cis : ChaincodeInvocationSpec) (cid : ChaincodeID)
    : E W (slice * option ChaincodeEvent) :=
  args ← lift (cis_args cis);
  r ← ExecuteChaincode GetChain depth sim txid DefaultChain (cid_Name cid) args;
  match r with
  | inl e => throw (CallFailed e)
  | inr (b, ccevent) =>
      match is_deploy (cid_Name cid) args with
      | None => ok (b, ccevent)
      | Some code =>
          cds ←? fallible InvalidDeployment (Ok (GetChaincodeDeploymentSpec (Some code)));
          _ ←? endorser_deploy sim txid DefaultChain cds;
          ok (b, ccevent)
      end
  end.

(** [checkACL] and [checkEsccAndVscc] accept everything. *)
Definition simulateProposal (sim : positive) (txid : bytes) (prop : Proposal) (cid : ChaincodeID)
    : E W (slice * bytes * option ChaincodeEvent) :=
  cis ←? fallible InvalidInvocation (GetChaincodeInvocationSpec prop);
  r ←? callChaincode sim txid cis cid;
  simResult ← ledger_GetTxSimulationResults sim;
  match simResult with
  | None => throw NoResults
  | Some simResult => ok (r.1, simResult, r.2)
  end.

(** The deployment of the chaincode is looked up and not used. *)
Definition check_deployment (sim : positive) (txid : bytes) (ccid : ChaincodeID) : E W unit :=
  if bool_decide (cid_Name ccid = lccc) then ok tt
  else
    depPayload ← GetCDSFromLCCC GetChain depth sim txid (cid_Name ccid);
    match depPayload with
    | inl e => throw (NoCDS e)
    | inr b => match GetChaincodeDeploymentSpec b with None => throw InvalidCDS | Some _ => ok tt end
    end.

Definition endorse_args (proposal : Proposal) (simRes : bytes) (eventBytes : bytes) (visibility : slice) : list bytes :=
  [[]; sl (prop_Header proposal); sl (prop_Payload proposal); simRes; eventBytes; sl visibility].

Definition endorseProposal (sim : positive) (txid : bytes) (proposal : Proposal) (simRes : bytes)
    (event : option ChaincodeEvent) (visibility : slice) (ccid : ChaincodeID) : E W slice :=
  _ ←? check_deployment sim txid ccid;
  eventBytes ←? (match event with
                 | None => ok []
                 | Some e => fallible EventError (Ok (Marshal e))
                 end);
  let ecccis := createCIS escc (endorse_args proposal simRes eventBytes visibility) in
  r ←? callChaincode sim txid ecccis (mkChaincodeID [] escc);
  ok r.1.

(** What follows the creation of the simulator. *)
Definition endorse_with (sim : positive) (txid : bytes) (prop : Proposal) (hdrExt : ChaincodeHeaderExtension)
    : E W (slice * slice) :=
  cid ← lift (deref (che_ChaincodeID hdrExt));
  r ←? simulateProposal sim txid prop cid;
  let '(result, simulationResult, ccevent) := r in
  prBytes ←? endorseProposal sim txid prop simulationResult ccevent (che_PayloadVisibility hdrExt) cid;
  ok (result, prBytes).

(** The answer to the client and the error. *)
Definition refuse (e : endorser_error) : option ProposalResponse * option endorser_error :=
  (Some (mkProposalResponse 0 None (Some (mkResponse 500 (error_text e) None)) None None), Some e).
Definition set_payload (result : slice) (pResp : ProposalResponse) : res ProposalResponse :=
  r ← deref (pr_Response pResp);
  Ok (mkProposalResponse (pr_Version pResp) (pr_Timestamp pResp)
        (Some (mkResponse (resp_Status r) (resp_Message r) result)) (pr_Payload pResp) (pr_Endorsement pResp)).

Definition ProcessProposal (signedProp : SignedProposal) : M W (option ProposalResponse * option endorser_error) :=
  v ← lift (ValidateProposalMessage signedProp);
  match v with
  | None => mret (refuse InvalidProposal)
  | Some (prop, _, hdrExt) =>
      match GetHeader (prop_Header prop) with
      | None => mret (refuse InvalidHeader)
      | Some hdr =>
          ch ← lift (deref (hdr_ChainHeader hdr));
          let txid := ch_TxID ch in
          if bool_decide (txid = []) then mret (refuse InvalidTxID)
          else
            txsim ← ledger_NewTxSimulator DefaultChain;
            match txsim with
            | None => mret (refuse NoSimulator)
            | Some sim =>
                r ← endorse_with sim txid prop hdrExt;
                match r with
                | inl e => _ ← ledger_Done sim; mret (refuse e)
                | inr (result, prBytes) =>
                    match GetProposalResponse prBytes with
                    | None => _ ← ledger_Done sim; mret (None, Some InvalidResponse)
                    | Some pResp => pResp ← lift (set_payload result pResp); _ ← ledger_Done sim; mret (Some pResp, None)
                    end
                end
            end
      end
  end.
End endorser.
