(* ===== verification/EndorserProofs.v ===== *)
(** * From a proposal to a transaction

    What the endorser signs is what the chaincode did to a fresh simulator, and
    its answers make a transaction the peers accept.  The peer's runtime is
    seen through what a call of a chaincode does to a simulator.  Then the
    endorser's simulators: each one opened is closed. *)

From Stdlib Require Import Strings.Byte.
From stdpp Require Import base numbers strings gmap list.
From S2P Require Import Prelude Wire PeerTypes PeerTx PeerTxProofs Fsm CcTypes CcHandler Lccc CcSupport Endorser.
Local Open Scope Z_scope.
Local Open Scope endorser_scope.

(** What the endorser sees of a peer: the open simulators; what calling a
    chaincode does to one of them; the results a simulator has collected.
    Other requests do not run in between. *)
Class ChaincodeWorld (W Sim : Type) `{!Runtime W, !Ledger W, !Proto ChaincodeInput, !Proto ChaincodeDeploymentSpec}
    (GetChain : bytes → option ChaincodeSupport) (depth : nat) := {
  cw_sims : W → gmap positive Sim;
  cw_new : W → Sim;
  cw_results : Sim → bytes;
  cw_run : W → bytes → bytes → list bytes → Sim → option ((support_error + slice * option ChaincodeEvent) * Sim);
  cw_exec sim txid name args w s r s' :
    cw_sims w !! sim = Some s → cw_run w name txid args s = Some (r, s') →
    ∃ w', ExecuteChaincode GetChain depth sim txid DefaultChain name args w = Ok (r, w')
      ∧ cw_sims w' = <[sim := s']> (cw_sims w) ∧ cw_run w' = cw_run w;
  cw_open w : ∃ sim w', ledger_NewTxSimulator DefaultChain w = Ok (Some sim, w') ∧ cw_sims w !! sim = None
    ∧ cw_sims w' = <[sim := cw_new w]> (cw_sims w) ∧ cw_run w' = cw_run w;
  cw_collect sim w s : cw_sims w !! sim = Some s → ledger_GetTxSimulationResults sim w = Ok (Some (cw_results s), w);
  cw_close sim w : ∃ w', ledger_Done sim w = Ok (tt, w') ∧ cw_sims w' = delete sim (cw_sims w) ∧ cw_run w' = cw_run w }.

Section endorse.
Context `{!Proto Envelope, !Proto Payload, !Proto Transaction, !Proto ChaincodeActionPayload,
  !Proto ProposalResponsePayload, !Proto ChaincodeAction, !Proto Header, !Proto SignatureHeader,
  !Proto ChaincodeHeaderExtension, !Proto ChaincodeProposalPayload, !Proto Proposal,
  !Proto ProposalResponse, !Proto ChaincodeInvocationSpec, !Proto ChaincodeDeploymentSpec,
  !Proto ChaincodeInput, !Proto ChaincodeEvent}.
Context {Id Sid : Type} `{!MSP Id Sid, !DefaultHash}.
Context {W Sim : Type} `{!Runtime W, !Ledger W} (GetChain : bytes → option ChaincodeSupport) (depth : nat)
  (error_text : endorser_error → bytes) `{CW : !ChaincodeWorld W Sim GetChain depth}.

(** The bytes of an event. *)
Definition event_bytes (event : option ChaincodeEvent) (b : bytes) : Prop :=
  match event with None => b = [] | Some e => Marshal e = Some b end.

(** A peer at which a chaincode that is not the life cycle chaincode answers
    with [result] and [event] and does [results], is deployed, and whose
    endorsement chaincode signs as [eid]. *)
Definition serves (w : W) (eid : IdentityIdentifier) (name txid : bytes) (args : list bytes) (result : slice)
    (event : option ChaincodeEvent) (results : bytes) : Prop :=
  name ≠ lccc ∧ ∃ s1 dep ev cds s2,
    cw_run w name txid args (cw_new w) = Some (inr (result, event), s1) ∧ cw_results s1 = results
    ∧ cw_run w lccc txid [GETDEPSPEC; DefaultChain; name] s1 = Some (inr (dep, ev), s2)
    ∧ GetChaincodeDeploymentSpec dep = Some cds
    ∧ ∀ eargs b, escc_Invoke (Some eid) (Some <$> eargs) = Ok (Some b) →
        ∃ ev s3, cw_run w escc txid eargs s2 = Some (inr (Some b, ev), s3).

Lemma e_bind_ok {A B} (m : E W A) (f : A → E W B) w a w' : m w = Ok (inr a, w') → e_bind m f w = f a w'.
Proof. intros Em. unfold e_bind. by rewrite (bind_ok m _ w (inr a) w'). Qed.

Lemma callChaincode_run sim txid cis name cid args (w : W) s r s' :
  cis_args cis = Ok args → cid_Name cid = name → name ≠ lccc →
  cw_sims w !! sim = Some s → cw_run w name txid args s = Some (inr r, s') →
  ∃ w', callChaincode GetChain depth sim txid cis cid w = Ok (inr r, w')
    ∧ cw_sims w' = <[sim := s']> (cw_sims w) ∧ cw_run w' = cw_run w.
Proof.
  intros Ea En Hne Hs Hr. destruct (cw_exec sim txid name args w s (inr r) s' Hs Hr) as (w' & Ex & Hsims & Hrun).
  exists w'. split; [|done]. unfold callChaincode. rewrite Ea, (bind_ok (lift (Ok args)) _ w args w) by done.
  rewrite En. erewrite bind_ok; [|exact Ex]. destruct r as [b ev].
  assert (is_deploy name args = None) as ->; [|done].
  unfold is_deploy. destruct args as [|f [|? [|? []]]]; try done. by rewrite bool_decide_false.
Qed.

Lemma simulateProposal_run sim txid prop cid cis args (w : W) s r event s' :
  GetChaincodeInvocationSpec prop = Ok (Some cis) → cis_args cis = Ok args → cid_Name cid ≠ lccc →
  cw_sims w !! sim = Some s → cw_run w (cid_Name cid) txid args s = Some (inr (r, event), s') →
  ∃ w', simulateProposal GetChain depth sim txid prop cid w = Ok (inr (r, cw_results s', event), w')
    ∧ cw_sims w' = <[sim := s']> (cw_sims w) ∧ cw_run w' = cw_run w.
Proof.
  intros Ei Ea Hne Hs Hr.
  destruct (callChaincode_run sim txid cis (cid_Name cid) cid args w s (r, event) s') as (w' & Ec & Hsims & Hrun); [done..|].
  exists w'. split; [|done]. unfold simulateProposal.
  rewrite (e_bind_ok (fallible _ _) _ w cis w) by (rewrite Ei; done).
  erewrite e_bind_ok; [|exact Ec]. rewrite (bind_ok _ _ w' (Some (cw_results s')) w'); [done|].
  apply cw_collect. by rewrite Hsims, lookup_insert_eq.
Qed.

Lemma check_deployment_run sim txid cid (w : W) s dep ev cds s' :
  cid_Name cid ≠ lccc → cw_sims w !! sim = Some s →
  cw_run w lccc txid [GETDEPSPEC; DefaultChain; cid_Name cid] s = Some (inr (dep, ev), s') →
  GetChaincodeDeploymentSpec dep = Some cds →
  ∃ w', check_deployment GetChain depth sim txid cid w = Ok (inr tt, w')
    ∧ cw_sims w' = <[sim := s']> (cw_sims w) ∧ cw_run w' = cw_run w.
Proof.
  intros Hne Hs Hr Ed. destruct (cw_exec sim txid _ _ w s _ s' Hs Hr) as (w' & Ex & Hsims & Hrun). exists w'. split; [|done].
  unfold check_deployment. rewrite bool_decide_false by done.
  rewrite (bind_ok (GetCDSFromLCCC _ _ _ _ _) _ w (inr dep) w').
  - by rewrite Ed.
  - unfold GetCDSFromLCCC, deployment_payload. by erewrite bind_ok; [|exact Ex].
Qed.

Lemma endorse_with_run eid sim txid prop hdrExt cid cis args result event results evB b (w w1 : W) :
  che_ChaincodeID hdrExt = Some cid → GetChaincodeInvocationSpec prop = Ok (Some cis) → cis_args cis = Ok args →
  serves w eid (cid_Name cid) txid args result event results → event_bytes event evB →
  cw_sims w1 !! sim = Some (cw_new w) → cw_run w1 = cw_run w →
  escc_Invoke (Some eid) (Some <$> endorse_args prop results evB (che_PayloadVisibility hdrExt)) = Ok (Some b) →
  ∃ w' s', endorse_with GetChain depth sim txid prop hdrExt w1 = Ok (inr (result, Some b), w')
    ∧ cw_sims w' = <[sim := s']> (cw_sims w1) ∧ cw_run w' = cw_run w1.
Proof.
  intros Ecid Ei Ea (Hne & s1 & dep & ev & cds & s2 & H1 & Hres & H2 & Hcds & H3) Hev Hs Hrun Hb.
  destruct (H3 _ b Hb) as (ev' & s3 & Hescc).
  destruct (simulateProposal_run sim txid prop cid cis args w1 (cw_new w) result event s1) as (w2 & E2 & Hs2 & Hr2);
    [done..|by rewrite Hrun|].
  destruct (check_deployment_run sim txid cid w2 s1 dep ev cds s2) as (w3 & E3 & Hs3 & Hr3);
    [done|by rewrite Hs2, lookup_insert_eq|by rewrite Hr2, Hrun|done|].
  set (eargs := endorse_args prop results evB (che_PayloadVisibility hdrExt)) in *.
  destruct (callChaincode_run sim txid (createCIS escc eargs) escc (mkChaincodeID [] escc) eargs w3 s2 (Some b, ev') s3) as (w4 & E4 & Hs4 & Hr4);
    [done|done|done|by rewrite Hs3, lookup_insert_eq|by rewrite Hr3, Hr2, Hrun|].
  exists w4, s3. split; [|split; [by rewrite Hs4, Hs3, Hs2, !insert_insert_eq|congruence]].
  unfold endorse_with. rewrite Ecid, (bind_ok (lift (deref _)) _ w1 cid w1) by done.
  erewrite e_bind_ok; [|exact E2]. cbv beta iota zeta. rewrite Hres.
  rewrite (e_bind_ok (endorseProposal _ _ _ _ _ _ _ _ _) _ w2 (Some b) w4); [done|].
  unfold endorseProposal. erewrite e_bind_ok; [|exact E3].
  rewrite (e_bind_ok _ _ w3 evB w3); [|destruct event as [e|]; cbn in Hev |- *; [by unfold fallible; rewrite Hev|by rewrite Hev]].
  cbv zeta. by erewrite e_bind_ok; [|exact E4].
Qed.

(** The answer of an endorser to a valid proposal. *)
Lemma ProcessProposal_run eid txid sp prop hdr hdrExt cid cis args result event results evB b pResp r (w : W) :
  ValidateProposalMessage sp = Ok (Some (prop, hdr, hdrExt)) → GetHeader (prop_Header prop) = Some hdr →
  ch_TxID <$> hdr_ChainHeader hdr = Some txid → txid ≠ [] →
  che_ChaincodeID hdrExt = Some cid → GetChaincodeInvocationSpec prop = Ok (Some cis) → cis_args cis = Ok args →
  serves w eid (cid_Name cid) txid args result event results → event_bytes event evB →
  escc_Invoke (Some eid) (Some <$> endorse_args prop results evB (che_PayloadVisibility hdrExt)) = Ok (Some b) →
  GetProposalResponse (Some b) = Some pResp → set_payload result pResp = Ok r →
  ∃ w', ProcessProposal GetChain depth error_text sp w = Ok ((Some r, None), w')
    ∧ cw_sims w' = cw_sims w ∧ cw_run w' = cw_run w.
Proof.
  intros Ev Eh Et Hne Ecid Ei Ea Hsv Hev Hb Hp Hr.
  destruct (cw_open w) as (sim & w1 & E1 & Hfresh & Hs1 & Hr1).
  destruct (endorse_with_run eid sim txid prop hdrExt cid cis args result event results evB b w w1) as (w2 & s2 & E2 & Hs2 & Hr2);
    [done..|by rewrite Hs1, lookup_insert_eq|done|done|].
  destruct (cw_close sim w2) as (w3 & E3 & Hs3 & Hr3). exists w3. split_and!.
  - unfold ProcessProposal. rewrite Ev, (bind_ok (lift (Ok _)) _ w (Some (prop, hdr, hdrExt)) w) by done. rewrite Eh.
    destruct (hdr_ChainHeader hdr) as [ch|]; [|done]. injection Et as <-.
    rewrite (bind_ok (lift (deref _)) _ w ch w) by done. cbv zeta. rewrite bool_decide_false by done.
    erewrite bind_ok; [|exact E1]. cbv iota. erewrite bind_ok; [|exact E2]. cbv iota. rewrite Hp, Hr.
    rewrite (bind_ok (lift (Ok r)) _ w2 r w2) by done. by erewrite bind_ok; [|exact E3].
  - rewrite Hs3, Hs2, Hs1, insert_insert_eq. by rewrite delete_insert_eq, delete_id.
  - congruence.
Qed.
End endorse.

Section transaction.
Context `{!Proto Envelope, !Proto Payload, !Proto Transaction, !Proto ChaincodeActionPayload,
  !Proto ProposalResponsePayload, !Proto ChaincodeAction, !Proto Header, !Proto SignatureHeader,
  !Proto ChaincodeHeaderExtension, !Proto ChaincodeProposalPayload, !Proto Proposal,
  !Proto ProposalResponse, !Proto ChaincodeInvocationSpec, !Proto ChaincodeDeploymentSpec,
  !Proto ChaincodeInput, !Proto ChaincodeEvent}.
Context `{!ProtoLaws Envelope, !ProtoLaws Payload, !ProtoLaws Transaction,
  !ProtoLaws ChaincodeActionPayload, !ProtoLaws ProposalResponsePayload, !ProtoLaws ChaincodeAction,
  !ProtoLaws Header, !ProtoLaws SignatureHeader, !ProtoLaws ChaincodeHeaderExtension,
  !ProtoLaws ChaincodeProposalPayload, !ProtoLaws Proposal, !ProtoLaws ProposalResponse,
  !ProtoLaws ChaincodeInvocationSpec}.
Context `{!ProtoZero Payload (mkPayload None None), !ProtoZero Transaction (mkTransaction 0 None []),
  !ProtoZero ChaincodeActionPayload (mkCAP None None), !ProtoZero ProposalResponsePayload (mkPRP None None),
  !ProtoZero ChaincodeAction (mkChaincodeAction None None), !ProtoZero Header (mkHeader None None),
  !ProtoZero SignatureHeader (mkSignatureHeader None None),
  !ProtoZero ChaincodeHeaderExtension (mkCHE None None),
  !ProtoZero ChaincodeProposalPayload (mkCPP None None), !ProtoZero Proposal (mkProposal None None None),
  !ProtoZero ChaincodeInvocationSpec (mkCIS None [])}.
Context {Id Sid : Type} `{!MSP Id Sid, !DefaultHash, !DigestLaws}.
Context {W Sim : Type} `{!Runtime W, !Ledger W} (GetChain : bytes → option ChaincodeSupport) (depth : nat)
  (error_text : endorser_error → bytes) `{CW : !ChaincodeWorld W Sim GetChain depth}.
Hypothesis Marshal_no_events : ∀ r, Marshal (mkChaincodeAction r (Some [])) = Marshal (mkChaincodeAction r None).

(** A peer with a good signing identity that serves the chaincode. *)
Definition endorser_ok (name txid : bytes) (args : list bytes) (result : slice) (event : option ChaincodeEvent)
    (results : bytes) (w : W) : Prop :=
  ∃ eid e c, GetSigningIdentity eid = Some e ∧ good_signer e c
    ∧ serves GetChain depth w eid name txid args result event results.

(** The endorsers' answers to a client's proposal. *)
Lemma endorse_peers txid nonce creator cis cid hdrB cppB extB cisB args result event results evB caB prpB sp (peers : list W) :
  Made txid nonce creator cis cid hdrB cppB extB cisB → Simulated hdrB cppB results evB caB prpB → txid ≠ [] →
  cis_args cis = Ok args → event_bytes event evB →
  ValidateProposalMessage sp = Ok (Some (made_proposal hdrB cppB, proposal_header txid extB nonce creator, mkCHE None (Some cid))) →
  GetChaincodeInvocationSpec (made_proposal hdrB cppB) = Ok (Some cis) →
  Forall (endorser_ok (cid_Name cid) txid args result event results) peers →
  ∃ cs, Forall (λ x, endorsed_by prpB x.1 x.2) cs
    ∧ Forall2 (λ w r, ∃ w', ProcessProposal GetChain depth error_text sp w = Ok ((Some r, None), w') ∧ cw_sims w' = cw_sims w)
        peers ((λ x, endorsed_response result prpB x.1 x.2) <$> cs).
Proof using All.
  intros HM HS Ht Ea Hev Hval Hinv. induction 1 as [|w peers (eid & e & c & Heid & Hg & Hsv) _ (cs & Hcs & Hall)]; [by exists []|].
  destruct (endorse Marshal_no_events _ _ _ _ _ _ _ _ _ HM eid e c results evB [] caB prpB Heid Hg HS) as (b & sig & Hb & Hr & He).
  exists ((c, sig) :: cs). split; [by constructor|]. rewrite fmap_cons. constructor; [|done].
  destruct (ProcessProposal_run GetChain depth error_text eid txid sp (made_proposal hdrB cppB)
    (proposal_header txid extB nonce creator) (mkCHE None (Some cid)) cid cis args result event results evB b
    (endorsed_response None prpB c sig) (endorsed_response result prpB c sig) w) as (w' & Ex & Hs & _); try done.
  - by destruct HM.
  - by exists w'.
Qed.

(** C4. A proposal becomes a transaction every peer accepts.  A client with a
    good identity proposes to invoke a chaincode and sends the signed proposal
    to any number of endorsers, at least one; at each of them the chaincode,
    run on a fresh simulator, answers alike.  Every endorser answers with that
    result and closes its simulator.  The client's transaction is built from
    the answers, passes [ValidateTransaction] and the validation chaincode,
    and the ledger reads from it the results of the chaincode's run: nothing
    of the calls of the life cycle and endorsement chaincodes. *)
Theorem proposal_to_transaction (txid nonce creator results evB : bytes) (result : slice) (event : option ChaincodeEvent)
    (cis : ChaincodeInvocationSpec) (spec : ChaincodeSpec) (cid : ChaincodeID) (args : list bytes)
    (client : Sid) (peers : list W) (fn : slice) :
  nonce ≠ [] → txid ≠ [] → results ≠ [] → canonical cis →
  cis_ChaincodeSpec cis = Some spec → cs_ChaincodeID spec = Some cid → cs_CtorMsg spec = Some args →
  good_signer client creator → event_bytes event evB →
  peers ≠ [] → Forall (endorser_ok (cid_Name cid) txid args result event results) peers →
  ∃ prop sp resps env envB acts,
    CreateChaincodeProposal (Some nonce) txid cis (Some creator) = Ok (Some prop)
    ∧ GetSignedProposal (Some prop) (Some client) = Some sp
    ∧ Forall2 (λ w r, ∃ w', ProcessProposal GetChain depth error_text sp w = Ok ((Some r, None), w')
                       ∧ cw_sims w' = cw_sims w ∧ resp_Payload <$> pr_Response r = Some result) peers resps
    ∧ CreateSignedTx prop client resps = Ok (Some env)
    ∧ GetBytesEnvelope env = Some envB
    ∧ ValidateTransaction (Some env) = Ok (Some acts)
    ∧ vscc_Invoke [fn; Some envB] = Ok (Some tt)
    ∧ GetActionFromEnvelope envB = Ok (Some (Some (mkChaincodeAction (Some results) (nilable evB)))).
Proof using All.
  intros Hn Ht Hr Hcis Hspec Hcid Hargs Hg Hev Hne Hes. pose proof Hg as (_ & Hc & _).
  assert (cis_args cis = Ok args) as Ea by (unfold cis_args; rewrite Hspec; cbn; by rewrite Hargs).
  destruct (CreateChaincodeProposal_made txid nonce creator cis spec cid) as (hdrB & cppB & extB & cisB & Hmk & HM);
    [done..|].
  destruct (proposal_validates Marshal_no_events _ _ _ _ _ _ _ _ _ HM client Hg) as (sp & Hsp & Hval & Hinv).
  destruct (simulated Marshal_no_events _ _ _ _ _ _ _ _ _ HM results evB Hr) as (caB & prpB & HS).
  destruct (endorse_peers _ _ _ _ _ _ _ _ _ args result event results evB _ _ sp peers HM HS Ht Ea Hev Hval Hinv Hes) as (cs & Hcs & Hall).
  assert (cs ≠ []) as Hcsn by (intros ->; by apply Forall2_nil_inv_r in Hall).
  destruct (assembled Marshal_no_events _ _ _ _ _ _ _ _ _ HM _ _ _ _ HS result cs Hcs) as (shB & capB & txB & plB & HA).
  destruct (CreateSignedTx_assembled Marshal_no_events _ _ _ _ _ _ _ _ _ HM _ _ _ _ HS result cs Hcs client _ _ _ _ Hcsn Hg HA)
    as (sig & Htx & Hsn & Hchk).
  destruct (Unmarshal_Marshal (mkEnvelope (Some plB) (Some sig))) as (envB & HeB & HeB').
  { split; apply field_ok_Some; [by destruct HA|done]. }
  eexists _, sp, _, _, envB, _. split_and!; try done.
  - apply Forall2_fmap_r. apply Forall2_fmap_r in Hall. eapply Forall2_impl; [exact Hall|].
    intros w x (w' & Ex & Hs). by exists w'.
  - by eapply ValidateTransaction_assembled.
  - by eapply vscc_assembled.
  - by eapply action_assembled.
Qed.
End transaction.

(** ** The endorser's simulators

    However a proposal is answered, the simulator opened for it is closed.  An
    open simulator keeps the ledger from committing blocks. *)

(** The open simulators: [NewTxSimulator] opens one, [Done] closes it; calls of
    chaincodes and containers do neither.  Other requests do not run in between. *)
Class LedgerLaws (W : Type) `{!Runtime W, !Ledger W} := {
  open_sims : W → gset positive;
  new_open chain w : pc (ledger_NewTxSimulator chain) (λ r w', match r with
    | Some sim => (sim ∉ open_sims w) ∧ open_sims w' = {[sim]} ∪ open_sims w
    | None => open_sims w' = open_sims w
    end) w;
  done_open sim w : pc (ledger_Done sim) (λ _ w', open_sims w' = open_sims w ∖ {[sim]}) w;
  results_open sim w : pc (ledger_GetTxSimulationResults sim) (λ _ w', open_sims w' = open_sims w) w;
  update_open chain f w : pc (rt_update chain f) (λ _ w', open_sims w' = open_sims w) w;
  init_open id sim txid args w : pc (rt_initOrReady id sim txid args) (λ _ w', open_sims w' = open_sims w) w;
  send_open id sim msg w : pc (rt_sendExecuteMessage id sim msg) (λ _ w', open_sims w' = open_sims w) w;
  response_open id txid t w : pc (rt_response id txid t) (λ _ w', open_sims w' = open_sims w) w;
  delete_open id txid w : pc (rt_deleteTxContext id txid) (λ _ w', open_sims w' = open_sims w) w;
  ready_open chain name t w : pc (rt_ready chain name t) (λ _ w', open_sims w' = open_sims w) w;
  vm_open chain t req w : pc (rt_VMCProcess chain t req) (λ _ w', open_sims w' = open_sims w) w }.

Section keeps.
Context {W : Type} `{!Runtime W, !Ledger W, LL : !LedgerLaws W}.

(** Code that opens and closes no simulator. *)
Definition keeps_open {A} (m : M W A) : Prop := ∀ w, pc m (λ _ w', open_sims w' = open_sims w) w.

Lemma keeps_open_ret {A} (a : A) : keeps_open (mret a).
Proof. done. Qed.
Lemma keeps_open_gets {A} (f : W → A) : keeps_open (gets f).
Proof. done. Qed.
Lemma keeps_open_fuel {A} : keeps_open (out_of_fuel (A := A)).
Proof. done. Qed.
Lemma keeps_open_lift {A} (r : res A) : keeps_open (lift r).
Proof. intros w. by apply pc_lift. Qed.
Lemma keeps_open_bind {A B} (m : M W A) (f : A → M W B) : keeps_open m → (∀ a, keeps_open (f a)) → keeps_open (m ≫= f).
Proof.
  intros Hm Hf w. apply pc_bind. eapply pc_mono; [apply Hm|]. intros a w1 E1.
  eapply pc_mono; [apply Hf|]. intros b w2 E2. cbn in *. congruence.
Qed.
Lemma keeps_open_e_bind {A B} (m : E W A) (f : A → E W B) : keeps_open m → (∀ a, keeps_open (f a)) → keeps_open (e_bind m f).
Proof. intros Hm Hf. apply keeps_open_bind; [done|]. intros [e|a]; [apply keeps_open_ret|apply Hf]. Qed.
Lemma keeps_open_fallible {A} e (r : res (option A)) : keeps_open (fallible e r).
Proof. apply keeps_open_bind; [apply keeps_open_lift|]. intros. apply keeps_open_ret. Qed.
End keeps.

Create HintDb keeps_open.
#[export] Hint Resolve keeps_open_ret keeps_open_gets keeps_open_fuel keeps_open_lift keeps_open_fallible : keeps_open.
#[export] Hint Extern 1 (keeps_open (rt_update _ _)) => intros ?; apply update_open : keeps_open.
#[export] Hint Extern 1 (keeps_open (rt_initOrReady _ _ _ _)) => intros ?; apply init_open : keeps_open.
#[export] Hint Extern 1 (keeps_open (rt_sendExecuteMessage _ _ _)) => intros ?; apply send_open : keeps_open.
#[export] Hint Extern 1 (keeps_open (rt_response _ _ _)) => intros ?; apply response_open : keeps_open.
#[export] Hint Extern 1 (keeps_open (rt_deleteTxContext _ _)) => intros ?; apply delete_open : keeps_open.
#[export] Hint Extern 1 (keeps_open (rt_ready _ _ _)) => intros ?; apply ready_open : keeps_open.
#[export] Hint Extern 1 (keeps_open (rt_VMCProcess _ _ _)) => intros ?; apply vm_open : keeps_open.
#[export] Hint Extern 1 (keeps_open (ledger_GetTxSimulationResults _)) => intros ?; apply results_open : keeps_open.

(** Goes through a program, one operation at a time. *)
Ltac solve_keeps_open :=
  repeat first
    [ progress intros
    | progress cbv zeta
    | solve [auto with keeps_open]
    | apply keeps_open_bind
    | apply keeps_open_e_bind
    | match goal with |- keeps_open (match ?x with _ => _ end) => destruct x end ].

Section endorser.
Context {W : Type} `{!Runtime W, !Ledger W, LL : !LedgerLaws W}.
Context `{!Proto Header, !Proto ChaincodeHeaderExtension, !Proto ChaincodeProposalPayload, !Proto Proposal,
  !Proto ProposalResponse, !Proto ChaincodeInvocationSpec, !Proto ChaincodeDeploymentSpec,
  !Proto ChaincodeInput, !Proto ChaincodeEvent}.
Context {Id Sid : Type} `{!MSP Id Sid}.
Context (GetChain : bytes → option ChaincodeSupport) (depth : nat) (error_text : endorser_error → bytes).

Lemma Stop_keeps c cds : keeps_open (Stop c cds).
Proof. unfold Stop, forget, chaincodeHasBeenLaunched. solve_keeps_open. Qed.
Hint Resolve Stop_keeps : keeps_open.
Lemma launchAndWait_keeps c cds cID cLang targz : keeps_open (launchAndWaitForRegister c cds cID cLang targz).
Proof. unfold launchAndWaitForRegister, preLaunchSetup, forget, chaincodeHasBeenLaunched. solve_keeps_open. Qed.
Hint Resolve launchAndWait_keeps : keeps_open.
Lemma sendInitOrReady_keeps c sim txid name args t : keeps_open (sendInitOrReady c sim txid name args t).
Proof. unfold sendInitOrReady, chaincodeHasBeenLaunched. solve_keeps_open. Qed.
Hint Resolve sendInitOrReady_keeps : keeps_open.
Lemma Launch_keeps c GetCDS sim txid spec :
  (∀ sim txid name, keeps_open (GetCDS sim txid name)) → keeps_open (Launch c GetCDS sim txid spec).
Proof. intros H. unfold Launch, find_deployment, launch_deployed, chaincodeHasBeenLaunched. solve_keeps_open. Qed.
Lemma Deploy_keeps c cds : keeps_open (Deploy c cds).
Proof. unfold Deploy, chaincodeHasBeenLaunched. solve_keeps_open. Qed.
Hint Resolve Deploy_keeps : keeps_open.
Lemma Execute_keeps c GetCDS sim txid spec :
  (∀ sim txid name, keeps_open (GetCDS sim txid name)) → keeps_open (Execute c GetCDS sim txid spec).
Proof.
  intros H. pose proof (λ spec, Launch_keeps c GetCDS sim txid spec H).
  unfold Execute, support_Execute, chaincodeHasBeenLaunched. solve_keeps_open.
Qed.
Lemma ExecuteChaincode_keeps n sim txid chain name args : keeps_open (ExecuteChaincode GetChain n sim txid chain name args).
Proof.
  revert sim txid chain name args. induction n as [|n IH]; intros; cbn [ExecuteChaincode]; [apply keeps_open_fuel|].
  apply keeps_open_bind; [auto with keeps_open|]. intros c. apply keeps_open_bind.
  - apply Execute_keeps. unfold deployment_payload. solve_keeps_open.
  - solve_keeps_open.
Qed.
Hint Resolve ExecuteChaincode_keeps : keeps_open.
Lemma deployment_payload_keeps n sim txid name : keeps_open (deployment_payload (ExecuteChaincode GetChain n sim txid) name).
Proof. unfold deployment_payload. solve_keeps_open. Qed.
Hint Resolve deployment_payload_keeps Launch_keeps : keeps_open.
Lemma callChaincode_keeps sim txid cis cid : keeps_open (callChaincode GetChain depth sim txid cis cid).
Proof. unfold callChaincode, endorser_deploy, throw, ok. solve_keeps_open. Qed.
Hint Resolve callChaincode_keeps : keeps_open.
Lemma endorse_with_keeps sim txid prop ext : keeps_open (endorse_with GetChain depth sim txid prop ext).
Proof.
  unfold endorse_with, simulateProposal, endorseProposal, check_deployment, GetCDSFromLCCC, throw, ok. solve_keeps_open.
Qed.

(** C20. The endorser leaves no simulator open: whatever it answers to a
    proposal, with a response, a refusal or an error at any stage, the open
    simulators are those that were open before. *)
Theorem endorser_closes_simulator sp w r w' :
  ProcessProposal GetChain depth error_text sp w = Ok (r, w') → open_sims w' = open_sims w.
Proof.
  revert r w'. refine (λ r w', pc_intro _ (λ _ w', open_sims w' = open_sims w) w r w' _). unfold ProcessProposal.
  apply pc_bind, pc_lift. intros [[[prop hdr0] ext]|] _; [|by apply pc_ret].
  destruct (GetHeader _) as [hdr|]; [|by apply pc_ret]. apply pc_bind, pc_lift. intros ch _. cbv zeta.
  case_bool_decide; [by apply pc_ret|]. apply pc_bind. eapply pc_mono; [apply new_open|].
  intros [sim|] w1 H1; [|by apply pc_ret]. destruct H1 as [Hf H1].
  apply pc_bind. eapply pc_mono; [apply endorse_with_keeps|]. intros o w2 H2. cbn in H2.
  assert (∀ a, pc (_ ← ledger_Done sim; mret a : M W (option ProposalResponse * option endorser_error))
    (λ _ w', open_sims w' = open_sims w) w2) as Hdone.
  { intros a. apply pc_bind. eapply pc_mono; [apply done_open|]. intros ? w3 H3. apply pc_ret. cbn in H3.
    rewrite H3, H2, H1. set_solver. }
  destruct o as [e|[result prBytes]]; [apply Hdone|]. destruct (GetProposalResponse prBytes) as [pResp|]; [|apply Hdone].
  apply pc_bind, pc_lift. intros. apply Hdone.
Qed.
End endorser.
