(* ===== verification/EndorserSim.v ===== *)
(** * Peers that endorse

    A lawful world of peers with three running chaincodes, which answer at
    once, and the flow of a proposal through two of them. *)

From Stdlib Require Import Strings.Byte.
From stdpp Require Import base numbers strings gmap list.
From S2P Require Import Prelude Wire Fsm RWSet LevelDB PeerTypes TxMgr TxMgrProofs PeerSim PeerTx PeerTxProofs PeerTxSim CcTypes CcHandler CcLockSim CcShim CcStream CcStreamProofs CcSim Lccc CcSupport CcExec Endorser EndorserProofs.
Local Open Scope Z_scope.

Module EndorserWitness.
Import PeerCodec PeerTxCodec PeerTxWitness MemDB CcCodec MvccWitness CcWitness CcExecWitness.

#[export] Instance ChaincodeEvent_proto : Proto ChaincodeEvent := {
  Marshal e := Some (put_bytes (ce_ChaincodeID e) ++ put_bytes (ce_TxID e) ++ put_bytes (ce_EventName e) ++ put_slice (ce_Payload e));
  Unmarshal l := '(c, l) ← get_bytes l; '(t, l) ← get_bytes l; '(n, l) ← get_bytes l; '(p, _) ← get_slice l;
    Some (mkChaincodeEvent c t n p) }.

(** ** A peer

    Its signer, its open simulators, and the answers not yet received. *)
Record PW := mkPW {
  pw_eid : IdentityIdentifier; pw_sims : gmap positive LockBasedTxSimulator; pw_answers : gmap (positive * bytes) ChaincodeMessage }.

Definition dep0 : bytes := default [] (Marshal (cds_of GOLANG)).
(** What the three chaincodes do: the one of CcSim.v, a life cycle chaincode
    that knows one deployment, and the endorsement chaincode. *)
Definition run_cc (eid : IdentityIdentifier) (name tx : bytes) (args : list bytes) (s : LockBasedTxSimulator)
    : option (slice * LockBasedTxSimulator) :=
  if bool_decide (name = cc) then
    match direct wire cc tx (body chaincode0 false args) s with
    | Ok (Some (inr v, None), s') => Some (v, s')
    | _ => None
    end
  else if bool_decide (name = lccc) then Some (Some dep0, s)
  else if bool_decide (name = escc) then
    match escc_Invoke (Some eid) (Some <$> args) with Ok (Some b) => Some (Some b, s) | _ => None end
  else None.
Definition chaincodes : gmap bytes chaincodeRTEnv := {[ cc := RTHandler 1; lccc := RTHandler 2; escc := RTHandler 3 ]}.
Definition name_of (id : positive) : bytes := match id with 1%positive => cc | 2%positive => lccc | _ => escc end.

Definition send_at (id sim : positive) (msg : ChaincodeMessage) : M PW (option unit) := λ w,
  match pw_sims w !! sim, Unmarshal (A := ChaincodeInput) (sl (cm_Payload msg)) with
  | Some s, Some input =>
      match run_cc (pw_eid w) (name_of id) (cm_Txid msg) (ci_Args input) s with
      | Some (v, s') => Ok (Some tt, mkPW (pw_eid w) (<[sim := s']> (pw_sims w))
          (<[(id, cm_Txid msg) := mkMsg COMPLETED None v (cm_Txid msg) None]> (pw_answers w)))
      | None => Ok (None, w)
      end
  | _, _ => Ok (None, w)
  end.

#[export] Instance PW_runtime : Runtime PW := {
  rt_running _ _ := chaincodes;
  rt_update _ _ := mret tt;
  rt_isRunning _ _ := true;
  rt_initOrReady _ _ _ _ := mret None;
  rt_sendExecuteMessage := send_at;
  rt_response id tx _ := gets (λ w, pw_answers w !! (id, tx));
  rt_deleteTxContext id tx := modify (λ w, mkPW (pw_eid w) (pw_sims w) (delete (id, tx) (pw_answers w)));
  rt_ready _ _ _ := mret None;
  rt_VMCProcess _ _ _ := mret VMErr }.
#[export] Instance PW_ledger : Ledger PW := {
  ledger_NewTxSimulator _ := λ w,
    let sim := fresh (dom (pw_sims w)) in
    Ok (Some sim, mkPW (pw_eid w) (<[sim := newSimulator]> (pw_sims w)) (pw_answers w));
  ledger_GetTxSimulationResults sim := gets (λ w, GetTxSimulationResults order0 <$> pw_sims w !! sim);
  ledger_Done sim := modify (λ w, mkPW (pw_eid w) (delete sim (pw_sims w)) (pw_answers w)) }.

Definition pw_run (w : PW) (name tx : bytes) (args : list bytes) (s : LockBasedTxSimulator)
    : option ((support_error + slice * option ChaincodeEvent) * LockBasedTxSimulator) :=
  '(v, s') ← run_cc (pw_eid w) name tx args s; Some (inr (v, None), s').

Lemma run_cc_name eid name tx args s r :
  run_cc eid name tx args s = Some r → ∃ id, chaincodes !! name = Some (RTHandler id) ∧ name_of id = name.
Proof.
  unfold run_cc. repeat case_bool_decide; subst; intros E; [by exists 1%positive|by exists 2%positive|by exists 3%positive|done].
Qed.

Lemma pw_exec sim tx name args (w : PW) s r s' :
  pw_sims w !! sim = Some s → pw_run w name tx args s = Some (r, s') →
  ∃ w', ExecuteChaincode chains0 1 sim tx DefaultChain name args w = Ok (r, w')
    ∧ pw_sims w' = <[sim := s']> (pw_sims w) ∧ pw_run w' = pw_run w.
Proof.
  intros Hs Hr. unfold pw_run in Hr. destruct (run_cc (pw_eid w) name tx args s) as [[v s1]|] eqn:Er; [|done].
  injection Hr as <- <-. destruct (run_cc_name _ _ _ _ _ _ Er) as (hid & Hid & Hname).
  destruct (input_codec codec_ok args) as (payload & Hm & Hu). eexists. split.
  - apply (ExecuteChaincode_running chains0 0 support0 sim tx DefaultChain name args hid payload w
      (mkPW (pw_eid w) (<[sim := s1]> (pw_sims w)) (<[(hid, tx) := mkMsg COMPLETED None v tx None]> (pw_answers w)))
      (mkPW (pw_eid w) (<[sim := s1]> (pw_sims w)) (<[(hid, tx) := mkMsg COMPLETED None v tx None]> (pw_answers w)))
      _ (Some (mkMsg COMPLETED None v tx None))); try done.
    + unfold rt_sendExecuteMessage, PW_runtime, send_at. rewrite Hs.
      change (sl (cm_Payload (newMsg TRANSACTION (Some payload) tx))) with payload. rewrite Hu. cbn [ci_Args cm_Txid newMsg].
      by rewrite Hname, Er.
    + unfold rt_response, PW_runtime, gets. cbn [pw_answers]. by rewrite lookup_insert_eq.
  - done.
Qed.

#[export] Instance PW_world : ChaincodeWorld PW LockBasedTxSimulator chains0 1.
Proof.
  refine {| cw_sims := pw_sims; cw_new := λ _, newSimulator; cw_results := GetTxSimulationResults order0; cw_run := pw_run |}.
  - apply pw_exec.
  - intros w. eexists _, _. split_and!; [done| |done|done].
    apply not_elem_of_dom, is_fresh.
  - intros sim w s Hs. cbn. unfold gets. by rewrite Hs.
  - intros sim w. by eexists.
Defined.

#[export] Instance PW_laws : LedgerLaws PW.
Proof.
  refine {| open_sims := λ w, dom (pw_sims w) |}; try (by intros; done).
  - intros chain w. cbn. split; [apply is_fresh|]. by rewrite dom_insert_L.
  - intros sim w. cbn. by rewrite dom_delete_L.
  - intros id sim txid msg. unfold rt_sendExecuteMessage, PW_runtime, send_at, pc. repeat case_match; simplify_eq/=; try done.
    rewrite dom_insert_lookup_L; [done|by eexists].
Defined.

(** ** The flow with two endorsers *)
#[local] Hint Extern 1 (ProtoZero _ _) => apply never_empty; reflexivity : typeclass_instances.
#[local] Existing Instance checksum_laws.

Definition spec1 : ChaincodeSpec := mkChaincodeSpec GOLANG (Some cc_id) (Some plus) 0 [] 0 None [].
Definition cis1 : ChaincodeInvocationSpec := mkCIS (Some spec1) [].
Definition results1 : bytes := GetTxSimulationResults order0 sim_after.
Definition peer_of (name : bytes) : PW := mkPW (mkIdentityIdentifier [] name) ∅ ∅.
Definition answer1 : slice := Some (bytes_of_string "1").
Definition text0 : endorser_error → bytes := λ _, [].

Lemma cis1_canonical : canonical cis1.
Proof. intros ? [= <-]. split_and!; try (unfold is_i32; simpl; unfold GOLANG; lia). apply field_ok_None. Qed.

Lemma peer_ok name : name ≠ [] → endorser_ok chains0 1 cc tx1 plus answer1 None results1 (peer_of name).
Proof.
  intros Hn. exists (mkIdentityIdentifier [] name), name, name. split_and!; [done|by apply names_good|].
  split; [done|]. exists sim_after, (Some dep0), None, (cds_of GOLANG), sim_after. split_and!.
  - cbn [cw_run cw_new PW_world]. unfold pw_run, run_cc. rewrite bool_decide_true by done.
    pose proof direct0_ok as E. unfold direct0 in E. rewrite E. reflexivity.
  - reflexivity.
  - reflexivity.
  - vm_compute. reflexivity.
  - intros eargs b Hb. exists None, sim_after. cbn [cw_run PW_world]. unfold pw_run, run_cc.
    rewrite !bool_decide_false by done. rewrite bool_decide_true by done. cbn [pw_eid peer_of]. by rewrite Hb.
Qed.

Lemma proposal_to_transaction_witness :
  ∃ prop sp resps env envB acts,
    CreateChaincodeProposal (Some nonce) tx1 cis1 (Some alice) = Ok (Some prop)
    ∧ GetSignedProposal (Some prop) (Some alice) = Some sp
    ∧ Forall2 (λ w r, ∃ w', ProcessProposal chains0 1 text0 sp w = Ok ((Some r, None), w')
                       ∧ cw_sims w' = cw_sims w ∧ resp_Payload <$> pr_Response r = Some answer1) [peer_of PeerTxWitness.peer0; peer_of PeerTxWitness.peer1] resps
    ∧ CreateSignedTx prop alice resps = Ok (Some env)
    ∧ GetBytesEnvelope env = Some envB
    ∧ ValidateTransaction (Some env) = Ok (Some acts)
    ∧ vscc_Invoke [None; Some envB] = Ok (Some tt)
    ∧ GetActionFromEnvelope envB = Ok (Some (Some (mkChaincodeAction (Some results1) (nilable [])))).
Proof.
  apply (proposal_to_transaction chains0 1 text0 no_events tx1 nonce alice results1 [] answer1 None cis1 spec1 cc_id plus alice
    [peer_of PeerTxWitness.peer0; peer_of PeerTxWitness.peer1] None).
  - discriminate.
  - discriminate.
  - vm_compute. discriminate.
  - exact cis1_canonical.
  - reflexivity.
  - reflexivity.
  - reflexivity.
  - apply names_good. discriminate.
  - reflexivity.
  - discriminate.
  - repeat constructor; by apply peer_ok.
Defined.

(** The first endorser's run, computed. *)
Definition sp1 : SignedProposal :=
  default (mkSignedProposal None None)
    (GetSignedProposal (match CreateChaincodeProposal (Some nonce) tx1 cis1 (Some alice) with Ok p => p | _ => None end) (Some alice)).
Definition run1 : res ((option ProposalResponse * option endorser_error) * PW) := ProcessProposal chains0 1 text0 sp1 (peer_of PeerTxWitness.peer0).

Lemma endorser_closes_simulator_witness :
  match run1 with Ok ((r, e), w') => e = None ∧ open_sims w' = open_sims (peer_of PeerTxWitness.peer0) | _ => False end.
Proof.
  assert (match run1 with Ok ((_, e), _) => e = None | _ => False end) as Hok by (vm_compute; reflexivity).
  destruct run1 as [[[r e] w']| |] eqn:E1; [|exact Hok|exact Hok]. split; [exact Hok|].
  exact (endorser_closes_simulator chains0 1 text0 sp1 (peer_of PeerTxWitness.peer0) (r, e) w' E1).
Defined.
End EndorserWitness.
