(* ===== verification/VmController.v ===== *)
(** * Locks of containers (core/container/controller.go)

    Requests about a container run one at a time.  A lock is made when a
    container is first asked for, counted while requests hold it or wait for
    it, and dropped with the last one.  The goroutines of [VMCProcess] are
    threads that take a lock, do their work and give it back; each of the three
    steps is atomic. *)

From Stdlib Require Import Strings.Byte.
From stdpp Require Import base numbers strings gmap list.
From S2P Require Import Prelude.
Local Open Scope Z_scope.

(** ** State

    The table holds pointers to locks; [lockHeap] is what they point to. *)
Record refCountedLock := mkLock { refCount : Z; locked : bool }.
Inductive thread :=
  | TIdle
  | TWaiting (id : bytes) (refLck : positive)
  | THolding (id : bytes) (refLck : positive)
  | TReturned.
Record VMController := mkVMC {
  containerLocks : gmap bytes positive; lockHeap : gmap positive refCountedLock; threads : list thread }.

Definition set_thread (i : nat) (t : thread) (v : VMController) : VMController :=
  mkVMC (containerLocks v) (lockHeap v) (<[i := t]> (threads v)).

(** ** Steps *)

(** [lockContainer] under the global lock: thread [i] asks for [id]. *)
Definition lockContainer (i : nat) (id : bytes) (v : VMController) : VMController :=
  match containerLocks v !! id with
  | Some l => mkVMC (containerLocks v) (alter (λ r, mkLock (refCount r + 1) (locked r)) l (lockHeap v))
                (<[i := TWaiting id l]> (threads v))
  | None =>
      let l := fresh (dom (lockHeap v)) in
      mkVMC (<[id := l]> (containerLocks v)) (<[l := mkLock 1 false]> (lockHeap v)) (<[i := TWaiting id l]> (threads v))
  end.

(** Its last line: the lock is taken, when it is free. *)
Definition take_lock (i : nat) (id : bytes) (l : positive) (v : VMController) : VMController :=
  match lockHeap v !! l with
  | Some (mkLock n false) => mkVMC (containerLocks v) (<[l := mkLock n true]> (lockHeap v)) (<[i := THolding id l]> (threads v))
  | _ => v
  end.

(** The lock is looked up again; unlocking one that is not locked is fatal. *)
Definition unlockContainer (i : nat) (id : bytes) (v : VMController) : res VMController :=
  match containerLocks v !! id with
  | None => Ok (set_thread i TReturned v)
  | Some l =>
      r ← deref (lockHeap v !! l);
      if bool_decide (refCount r ≤ 0) then Panic
      else if negb (locked r) then Panic
      else
        let n := refCount r - 1 in
        Ok (mkVMC (if bool_decide (n = 0) then delete id (containerLocks v) else containerLocks v)
              (<[l := mkLock n false]> (lockHeap v)) (<[i := TReturned]> (threads v)))
  end.

(** Thread [i] goes on; an idle one has a request about [id]. *)
Definition vm_step (i : nat) (id : bytes) (v : VMController) : res VMController :=
  match threads v !! i with
  | Some TIdle => Ok (lockContainer i id v)
  | Some (TWaiting id l) => Ok (take_lock i id l v)
  | Some (THolding id _) => unlockContainer i id v
  | _ => Ok v
  end.
Fixpoint vm_run (l : list (nat * bytes)) (v : VMController) : res VMController :=
  match l with [] => Ok v | (i, id) :: l => v ← vm_step i id v; vm_run l v end.

Definition vm_init (n : nat) : VMController := mkVMC ∅ ∅ (replicate n TIdle).

(** ** The invariant *)
Definition waits (id : bytes) (l : positive) (t : thread) : nat :=
  match t with TWaiting id' l' => if decide (id' = id ∧ l' = l) then 1%nat else 0%nat | _ => 0%nat end.
Definition holds (id : bytes) (l : positive) (t : thread) : nat :=
  match t with THolding id' l' => if decide (id' = id ∧ l' = l) then 1%nat else 0%nat | _ => 0%nat end.
Definition uses (id : bytes) (l : positive) (t : thread) : nat := (waits id l t + holds id l t)%nat.
Definition count (f : thread → nat) (v : VMController) : nat := sum_list_with f (threads v).

Record vm_inv (v : VMController) : Prop := {
  vi_lock id l : containerLocks v !! id = Some l → ∃ r, lockHeap v !! l = Some r
    ∧ refCount r = Z.of_nat (count (uses id l) v) ∧ 0 < refCount r
    ∧ count (holds id l) v = (if locked r then 1 else 0)%nat;
  vi_thread i id l : threads v !! i = Some (TWaiting id l) ∨ threads v !! i = Some (THolding id l) →
    containerLocks v !! id = Some l;
  vi_inj id id' l : containerLocks v !! id = Some l → containerLocks v !! id' = Some l → id = id' }.

(** ** Counting threads *)
Lemma count_insert (f : thread → nat) ts i t t' :
  ts !! i = Some t → (sum_list_with f (<[i := t']> ts) + f t = sum_list_with f ts + f t')%nat.
Proof. intros Hi. rewrite list_insert_alter. exact (sum_list_with_alter f (λ _, t') ts i t Hi). Qed.

Lemma count_zero (f : thread → nat) ts : (∀ i t, ts !! i = Some t → f t = 0%nat) → sum_list_with f ts = 0%nat.
Proof.
  induction ts as [|t ts IH]; intros H; [done|]. cbn. rewrite (H 0%nat t eq_refl), IH; [done|].
  intros i t' Hi. exact (H (S i) t' Hi).
Qed.
Lemma count_le (f : thread → nat) ts i t : ts !! i = Some t → (f t ≤ sum_list_with f ts)%nat.
Proof.
  revert i. induction ts as [|t' ts IH]; intros [|i] Hi; cbn in *; simplify_eq; [lia|]. specialize (IH i Hi). lia.
Qed.

Lemma holds_uses id l t : (holds id l t ≤ uses id l t)%nat.
Proof. unfold uses. lia. Qed.
Lemma uses_of id l t : (0 < uses id l t)%nat → t = TWaiting id l ∨ t = THolding id l.
Proof. destruct t; cbn; try lia; case_decide as E; cbn; try lia; destruct E as [-> ->]; auto. Qed.
Lemma uses_waiting id l : uses id l (TWaiting id l) = 1%nat ∧ holds id l (TWaiting id l) = 0%nat.
Proof. unfold uses. cbn. by rewrite decide_True by done. Qed.
Lemma uses_holding id l : uses id l (THolding id l) = 1%nat ∧ holds id l (THolding id l) = 1%nat.
Proof. unfold uses. cbn. by rewrite decide_True by done. Qed.
Lemma uses_other id l id' l' t :
  (id', l') ≠ (id, l) → t = TWaiting id l ∨ t = THolding id l → uses id' l' t = 0%nat ∧ holds id' l' t = 0%nat.
Proof.
  intros Hne Ht. unfold uses. destruct Ht as [-> | ->]; cbn; rewrite ?decide_False; try done; naive_solver.
Qed.

Section preservation.
Context (v : VMController) (Hinv : vm_inv v).

(** A lock that is not in the table has no users. *)
Lemma no_users id l : containerLocks v !! id ≠ Some l → sum_list_with (uses id l) (threads v) = 0%nat.
Proof.
  intros Hn. apply count_zero. intros i t Hi. destruct (decide (uses id l t = 0%nat)); [done|].
  exfalso. apply Hn, (vi_thread v Hinv i). destruct (uses_of id l t) as [-> | ->]; [lia|auto..].
Qed.
Lemma table_heap id l : containerLocks v !! id = Some l → l ∈ dom (lockHeap v).
Proof. intros H. destruct (vi_lock v Hinv id l H) as (r & Hr & _). by apply elem_of_dom_2 in Hr. Qed.

(** What changing one thread's use from [t] to [t'] does to the counts of a lock. *)
Lemma counts id l i t t' :
  threads v !! i = Some t →
  (sum_list_with (uses id l) (<[i := t']> (threads v)) + uses id l t = sum_list_with (uses id l) (threads v) + uses id l t')%nat
  ∧ (sum_list_with (holds id l) (<[i := t']> (threads v)) + holds id l t = sum_list_with (holds id l) (threads v) + holds id l t')%nat.
Proof. intros Hi. split; by apply count_insert. Qed.

Lemma threads_insert i t t' (P : bytes → positive → Prop) :
  threads v !! i = Some t → (∀ id l, t' = TWaiting id l ∨ t' = THolding id l → P id l) →
  (∀ j id l, j ≠ i → threads v !! j = Some (TWaiting id l) ∨ threads v !! j = Some (THolding id l) → P id l) →
  ∀ j id l, <[i := t']> (threads v) !! j = Some (TWaiting id l) ∨ <[i := t']> (threads v) !! j = Some (THolding id l) → P id l.
Proof.
  intros Hi Ht Ho j id l Hj. destruct (decide (j = i)) as [->|Hne].
  - rewrite list_lookup_insert_eq in Hj by (by eapply lookup_lt_Some). apply Ht. naive_solver.
  - rewrite list_lookup_insert_ne in Hj by done. by apply (Ho j).
Qed.

Lemma lock_known i id l :
  threads v !! i = Some TIdle → containerLocks v !! id = Some l → vm_inv (lockContainer i id v).
Proof.
  intros Hi Em. unfold lockContainer. rewrite Em. split; cbn [containerLocks lockHeap threads]; [| |apply vi_inj, Hinv].
  - intros id0 l0 H0. destruct (vi_lock v Hinv id0 l0 H0) as (r & Hr & Hc & Hp & Hh). unfold count in *.
    destruct (counts id0 l0 i TIdle (TWaiting id l) Hi) as [Hu Hd]. destruct (decide (l0 = l)) as [->|Hne].
    + assert (id0 = id) as -> by (by eapply vi_inj). destruct (uses_waiting id l) as [E1 E2]. rewrite E1 in Hu. rewrite E2 in Hd.
      exists (mkLock (refCount r + 1) (locked r)). cbn in *. rewrite lookup_alter_eq, Hr. split_and!; [done|lia|lia|lia].
    + destruct (uses_other id l id0 l0 (TWaiting id l)) as [E1 E2]; [naive_solver|auto|]. rewrite E1 in Hu. rewrite E2 in Hd.
      exists r. cbn in *. rewrite lookup_alter_ne by done. split_and!; [done|lia|lia|lia].
  - eapply threads_insert; [done|naive_solver|]. intros j id0 l0 _. apply (vi_thread v Hinv).
Qed.

Lemma lock_fresh i id :
  threads v !! i = Some TIdle → containerLocks v !! id = None → vm_inv (lockContainer i id v).
Proof.
  intros Hi Em. unfold lockContainer. rewrite Em. set (l := fresh (dom (lockHeap v))).
  assert (l ∉ dom (lockHeap v)) as Hf by apply is_fresh. clearbody l.
  split; cbn [containerLocks lockHeap threads].
  - intros id0 l0. destruct (counts id0 l0 i TIdle (TWaiting id l) Hi) as [Hu Hd]. unfold count in *.
    rewrite lookup_insert_Some. intros [[<- <-]|[Hne H0]].
    + pose proof (no_users id l) as Hz. rewrite Em in Hz. specialize (Hz ltac:(done)).
      assert (sum_list_with (holds id l) (threads v) ≤ sum_list_with (uses id l) (threads v))%nat.
      { clear. induction (threads v) as [|t ts IH]; [done|]. cbn. pose proof (holds_uses id l t). lia. }
      destruct (uses_waiting id l) as [E1 E2]. rewrite E1 in Hu. rewrite E2 in Hd. exists (mkLock 1 false).
      cbn in *. rewrite lookup_insert_eq. split_and!; [done|lia|lia|lia].
    + destruct (vi_lock v Hinv id0 l0 H0) as (r & Hr & Hc & Hp & Hh). unfold count in *.
      destruct (uses_other id l id0 l0 (TWaiting id l)) as [E1 E2]; [naive_solver|auto|]. rewrite E1 in Hu. rewrite E2 in Hd.
      exists r. cbn in *. rewrite lookup_insert_ne by (intros ->; apply elem_of_dom_2 in Hr; done). split_and!; [done|lia|lia|lia].
  - eapply threads_insert; [done| |].
    + intros id0 l0 [[= <- <-]|[=]]. apply lookup_insert_eq.
    + intros j id0 l0 _ Hj. apply (vi_thread v Hinv) in Hj. rewrite lookup_insert_ne; [done|]. by intros ->; rewrite Em in Hj.
  - intros id0 id1 l0. rewrite !lookup_insert_Some. intros [[<- <-]|[Hn0 H0]] [[<- E]|[Hn1 H1]]; [done|..].
    + by apply table_heap in H1.
    + subst. by apply table_heap in H0.
    + by eapply vi_inj.
Qed.

Lemma take_lock_inv i id l : threads v !! i = Some (TWaiting id l) → vm_inv (take_lock i id l v).
Proof.
  intros Hi. unfold take_lock. destruct (lockHeap v !! l) as [[n []]|] eqn:El; [done| |done].
  assert (containerLocks v !! id = Some l) as Em by (apply (vi_thread v Hinv i); auto).
  split; cbn [containerLocks lockHeap threads]; [| |apply vi_inj, Hinv].
  - intros id0 l0 H0. destruct (vi_lock v Hinv id0 l0 H0) as (r & Hr & Hc & Hp & Hh). unfold count in *.
    destruct (counts id0 l0 i _ (THolding id l) Hi) as [Hu Hd]. destruct (decide (l0 = l)) as [->|Hne].
    + assert (id0 = id) as -> by (by eapply vi_inj). rewrite El in Hr. injection Hr as <-.
      destruct (uses_waiting id l) as [E1 E2], (uses_holding id l) as [E3 E4]. rewrite E1, E3 in Hu. rewrite E2, E4 in Hd.
      exists (mkLock n true). cbn in *. rewrite lookup_insert_eq. split_and!; [done|lia|lia|lia].
    + destruct (uses_other id l id0 l0 (TWaiting id l)) as [E1 E2]; [naive_solver|auto|].
      destruct (uses_other id l id0 l0 (THolding id l)) as [E3 E4]; [naive_solver|auto|]. rewrite E1, E3 in Hu. rewrite E2, E4 in Hd.
      exists r. cbn [threads]. rewrite lookup_insert_ne by done. split_and!; [done|lia|lia|lia].
  - eapply threads_insert; [done|naive_solver|]. intros j id0 l0 _. apply (vi_thread v Hinv).
Qed.

Lemma unlockContainer_inv i id l :
  threads v !! i = Some (THolding id l) → ∃ v', unlockContainer i id v = Ok v' ∧ vm_inv v'.
Proof.
  intros Hi. assert (containerLocks v !! id = Some l) as Em by (apply (vi_thread v Hinv i); auto).
  destruct (vi_lock v Hinv id l Em) as (r & Hr & Hc & Hp & Hh). unfold count in *.
  destruct (uses_holding id l) as [E3 E4]. pose proof (count_le (holds id l) _ _ _ Hi) as Hle. rewrite E4 in Hle.
  destruct (counts id l i _ TReturned Hi) as [Hu Hd]. rewrite E3 in Hu. rewrite E4 in Hd. cbn in Hu, Hd.
  unfold unlockContainer. rewrite Em, Hr. cbn. rewrite bool_decide_false by lia.
  destruct (locked r) eqn:Elk; [|lia]. cbn. eexists. split; [done|].
  set (m := if bool_decide (refCount r - 1 = 0) then delete id (containerLocks v) else containerLocks v).
  assert (∀ id0 l0, m !! id0 = Some l0 → containerLocks v !! id0 = Some l0 ∧ (id0 = id → refCount r - 1 ≠ 0)) as Hm.
  { intros id0 l0. unfold m. case_bool_decide; [rewrite lookup_delete_Some; naive_solver|]. naive_solver. }
  split; cbn [containerLocks lockHeap threads].
  - intros id0 l0 [H0 Hn0]%Hm. destruct (vi_lock v Hinv id0 l0 H0) as (r0 & Hr0 & Hc0 & Hp0 & Hh0). unfold count in *.
    destruct (decide (l0 = l)) as [->|Hne].
    + assert (id0 = id) as -> by (by eapply vi_inj). specialize (Hn0 eq_refl).
      exists (mkLock (refCount r - 1) false). rewrite lookup_insert_eq. cbn. split_and!; [done|lia|lia|lia].
    + destruct (counts id0 l0 i _ TReturned Hi) as [Hu0 Hd0].
      destruct (uses_other id l id0 l0 (THolding id l)) as [E1 E2]; [naive_solver|auto|]. rewrite E1 in Hu0. rewrite E2 in Hd0.
      exists r0. cbn [threads]. cbn in Hu0, Hd0. rewrite lookup_insert_ne by done. split_and!; [done|lia|lia|lia].
  - eapply threads_insert; [done|naive_solver|]. intros j id0 l0 Hne Hj. pose proof (vi_thread v Hinv j id0 l0 Hj) as H0.
    unfold m. case_bool_decide as En; [|done]. rewrite lookup_delete_ne; [done|]. intros <-.
    rewrite Em in H0. injection H0 as <-.
    assert (0 < sum_list_with (uses id l) (<[i := TReturned]> (threads v)))%nat; [|lia].
    destruct Hj as [Hj|Hj]; rewrite <-(list_lookup_insert_ne _ i j TReturned) in Hj by done;
      apply (count_le (uses id l)) in Hj; [destruct (uses_waiting id l) as [E _]|]; lia.
  - intros id0 id1 l0 [H0 _]%Hm [H1 _]%Hm. by eapply vi_inj.
Qed.

Lemma vm_step_inv i id : ∃ v', vm_step i id v = Ok v' ∧ vm_inv v'.
Proof.
  unfold vm_step. destruct (threads v !! i) as [[|id' l|id' l|]|] eqn:Hi; [| | |by exists v..].
  - eexists. split; [done|]. destruct (containerLocks v !! id) as [l|] eqn:Em; [by eapply lock_known|by apply lock_fresh].
  - eexists. split; [done|]. by apply take_lock_inv.
  - by apply (unlockContainer_inv i id' l).
Qed.
End preservation.

Lemma vm_run_inv l v : vm_inv v → ∃ v', vm_run l v = Ok v' ∧ vm_inv v'.
Proof.
  revert v. induction l as [|[i id] l IH]; intros v Hv; [by exists v|].
  destruct (vm_step_inv v Hv i id) as (v1 & E & Hv1). cbn [vm_run]. rewrite E. by apply IH.
Qed.

Lemma vm_init_inv n : vm_inv (vm_init n).
Proof.
  split; [done| |done]. intros i id l Hj.
  destruct Hj as [Hj|Hj]; cbn [vm_init threads] in Hj; apply lookup_replicate in Hj as [[=] _].
Qed.

(** C22. Requests about a container run one at a time.  However the goroutines
    of any number of requests interleave, no lock or count is found in a state
    that panics, and two requests that hold the lock of a container are the
    same; when no request is under way, no lock is left in the table. *)
Theorem container_requests_exclusive n l :
  ∃ v, vm_run l (vm_init n) = Ok v
    ∧ (∀ i j id p q, threads v !! i = Some (THolding id p) → threads v !! j = Some (THolding id q) → i = j)
    ∧ ((∀ i id p, threads v !! i ≠ Some (TWaiting id p) ∧ threads v !! i ≠ Some (THolding id p)) → containerLocks v = ∅).
Proof.
  destruct (vm_run_inv l (vm_init n) (vm_init_inv n)) as (v & E & Hv). exists v. split_and!; [done| |].
  - intros i j id p q Hi Hj. pose proof (vi_thread v Hv i id p (or_intror Hi)) as Ep.
    pose proof (vi_thread v Hv j id q (or_intror Hj)) as Eq. rewrite Ep in Eq. injection Eq as <-.
    destruct (vi_lock v Hv id p Ep) as (r & _ & _ & _ & Hh). destruct (decide (i = j)) as [|Hne]; [done|exfalso].
    pose proof (count_insert (holds id p) (threads v) i _ TIdle Hi) as Hc. cbn in Hc.
    pose proof (count_le (holds id p) (<[i := TIdle]> (threads v)) j (THolding id p)) as Hle.
    rewrite list_lookup_insert_ne in Hle by done. specialize (Hle Hj).
    destruct (uses_holding id p) as [_ E4]. cbn in E4. rewrite E4 in Hc. cbn in Hle. rewrite E4 in Hle. unfold count in Hh.
    destruct (locked r); lia.
  - intros Hno. apply map_empty. intros id. destruct (containerLocks v !! id) as [p|] eqn:Ep; [exfalso|done].
    destruct (vi_lock v Hv id p Ep) as (r & _ & Hc & Hp & _). unfold count in Hc.
    rewrite (count_zero (uses id p)) in Hc; [lia|]. intros i t Hi.
    destruct (decide (uses id p t = 0%nat)); [done|]. exfalso. destruct (Hno i id p) as [H1 H2].
    destruct (uses_of id p t) as [-> | ->]; [lia|done..].
Qed.
