(* ===== verification/GossipStore.v ===== *)
(** * Messages of the gossip layer and their store (gossip/proto, gossip/gossip)

    Peers find each other, spread blocks and fetch missing ones by gossip
    messages.  A message has one content; a submessage that may be absent is an
    option, and the code that reads it without a look panics.  Then which of two
    messages makes the other obsolete, the store and the emitter. *)

From Stdlib Require Import Strings.Byte.
From stdpp Require Import base numbers strings gmap list.
From S2P Require Import Prelude.
Local Open Scope Z_scope.

Record PeerTime := mkPeerTime { pt_IncNumber : Z; pt_SeqNum : Z }.
Record Member := mkMember { mb_Endpoint : bytes; mb_Metadata : slice; mb_PkiID : slice }.
Record AliveMessage := mkAlive {
  am_Membership : option Member; am_Timestamp : option PeerTime; am_Signature : slice }.
Record MembershipRequest := mkMemReq { mq_SelfInformation : option AliveMessage; mq_Known : list bytes }.
Record MembershipResponse := mkMemRes { mr_Alive : list AliveMessage; mr_Dead : list AliveMessage }.
Record StateInfo := mkStateInfo {
  si_Metadata : slice; si_Timestamp : option PeerTime; si_PkiID : slice; si_Signature : slice }.

Record GossipPayload := mkGossipPayload { gp_SeqNum : Z; gp_Hash : bytes; gp_Data : slice }.
Record DataMessage := mkDataMessage { dm_Payload : option GossipPayload }.

(** [GossipHello], [DataDigest], [DataRequest] and [DataUpdate], each with its
    nonce; [RemoteStateRequest] and [RemoteStateResponse]. *)
Inductive Content :=
  | CAlive (m : AliveMessage)
  | CMemReq (m : MembershipRequest)
  | CMemRes (m : MembershipResponse)
  | CData (m : DataMessage)
  | CHello (nonce : Z)
  | CDataDig (nonce : Z) (seqMap : list Z)
  | CDataReq (nonce : Z) (seqMap : list Z)
  | CDataUpdate (nonce : Z) (data : list DataMessage)
  | CChanCmd (payload : slice)
  | CEmpty
  | CConn (sig pkiID : slice)
  | CStateInfo (m : StateInfo)
  | CStateRequest (seqNums : list Z)
  | CStateResponse (payloads : list GossipPayload)
  | CNone.

Inductive Tag := TAG_UNDEFINED | TAG_EMPTY | TAG_ORG_ONLY | TAG_CHAN_ONLY | TAG_CHAN_AND_ORG.
Record GossipMessage := mkGossip {
  gm_Nonce : Z; gm_Channel : slice; gm_Tag : Tag; gm_Content : Content }.

(** The composite literals of the code set a content and the empty tag. *)
Definition newGossip (c : Content) : GossipMessage := mkGossip 0 None TAG_EMPTY c.

(** ** Fields a message of a well-behaved peer has set *)
Definition alive_set (m : AliveMessage) : Prop := is_Some (am_Membership m) ∧ is_Some (am_Timestamp m).
Definition message_set (m : GossipMessage) : Prop :=
  match gm_Content m with
  | CAlive m => alive_set m
  | CData m => is_Some (dm_Payload m)
  | CStateInfo m => is_Some (si_Timestamp m)
  | CMemReq m => ∃ a, mq_SelfInformation m = Some a ∧ alive_set a
  | CMemRes m => Forall alive_set (mr_Alive m) ∧ Forall alive_set (mr_Dead m)
  | CDataUpdate _ data => Forall (λ d, is_Some (dm_Payload d)) data
  | _ => True
  end.

(** ** The message store and the emitter (gossip/gossip/msgs.go, batcher.go,
      gossip/proto/compare.go)

    The store keeps messages until newer ones replace them.  It is written for
    any replacing policy; the policy of the gossip layer compares the
    timestamps of a peer's messages and the sequence numbers of blocks.  The
    emitter forwards each message a fixed number of times. *)

Inductive InvalidationResult := MessageNoAction | MessageInvalidates | MessageInvalidated.
#[global] Instance InvalidationResult_eq : EqDecision InvalidationResult.
Proof. solve_decision. Defined.

(** ** compare.go *)
Definition Abs (a b : Z) : Z := if bool_decide (b < a) then a - b else b - a.

Definition compareTimestamps (thisTS thatTS : option PeerTime) : res InvalidationResult :=
  thisTS ← deref thisTS;
  thatTS ← deref thatTS;
  Ok (if bool_decide (pt_IncNumber thisTS = pt_IncNumber thatTS) then
        if bool_decide (pt_SeqNum thatTS < pt_SeqNum thisTS) then MessageInvalidates else MessageInvalidated
      else if bool_decide (pt_IncNumber thisTS < pt_IncNumber thatTS) then MessageInvalidated
      else MessageInvalidates).

Definition aliveInvalidationPolicy (thisMsg thatMsg : AliveMessage) : res InvalidationResult :=
  this ← deref (am_Membership thisMsg);
  that ← deref (am_Membership thatMsg);
  if bytes_Equal (mb_PkiID this) (mb_PkiID that)
  then compareTimestamps (am_Timestamp thisMsg) (am_Timestamp thatMsg)
  else Ok MessageNoAction.

Definition stateInvalidationPolicy (thisStateMsg thatStateMsg : StateInfo) : res InvalidationResult :=
  if bytes_Equal (si_PkiID thisStateMsg) (si_PkiID thatStateMsg)
  then compareTimestamps (si_Timestamp thisStateMsg) (si_Timestamp thatStateMsg)
  else Ok MessageNoAction.

Section comparator.
Context (dataBlockStorageSize : Z).

Definition dataInvalidationPolicy (thisDataMsg thatDataMsg : DataMessage) : res InvalidationResult :=
  this ← deref (dm_Payload thisDataMsg);
  that ← deref (dm_Payload thatDataMsg);
  Ok (if bool_decide (gp_SeqNum this = gp_SeqNum that) then
        if bool_decide (gp_Hash this = gp_Hash that) then MessageInvalidated else MessageNoAction
      else if bool_decide (Abs (gp_SeqNum this) (gp_SeqNum that) ≤ u64 dataBlockStorageSize) then MessageNoAction
      else if bool_decide (gp_SeqNum that < gp_SeqNum this) then MessageInvalidates
      else MessageInvalidated).

Definition invalidationPolicy (thisMsg thatMsg : GossipMessage) : res InvalidationResult :=
  match gm_Content thisMsg, gm_Content thatMsg with
  | CAlive this, CAlive that => aliveInvalidationPolicy this that
  | CData this, CData that => dataInvalidationPolicy this that
  | CStateInfo this, CStateInfo that => stateInvalidationPolicy this that
  | _, _ => Ok MessageNoAction
  end.
End comparator.

(** ** msgs.go: the messages oldest first *)
Section store.
Context {A : Type} (pol : A → A → res InvalidationResult).

(** The loop of [add]: whether it got to the end, the messages left, and those
    the invalidation trigger was called on. *)
Fixpoint add_loop (message : A) (messages : list A) : res (bool * list A * list A) :=
  match messages with
  | [] => Ok (true, [], [])
  | m :: rest =>
      r ← pol message m;
      match r with
      | MessageInvalidated => Ok (false, m :: rest, [])
      | MessageInvalidates =>
          '(done, kept, gone) ← add_loop message rest; Ok (done, kept, m :: gone)
      | MessageNoAction =>
          '(done, kept, gone) ← add_loop message rest; Ok (done, m :: kept, gone)
      end
  end.

Definition store_add (message : A) (messages : list A) : res (bool * list A * list A) :=
  '(done, kept, gone) ← add_loop message messages;
  Ok (done, if (done : bool) then kept ++ [message] else kept, gone).
End store.

(** ** batcher.go *)
Section emitter.
Context {A : Type}.

(** [be_emitted]: the batches given to the callback so far. *)
Record batchingEmitter := mkEmitter {
  be_iterations : Z; be_burstSize : Z; be_buff : list (A * Z); be_stopFlag : bool; be_emitted : list (list A) }.

Definition newBatchingEmitter (iterations burstSize : Z) : batchingEmitter :=
  mkEmitter iterations burstSize [] false [].

Definition decrementCounters (buff : list (A * Z)) : list (A * Z) :=
  filter (λ m, m.2 ≠ 0) ((λ m, (m.1, i64 (m.2 - 1))) <$> buff).

Definition emit (p : batchingEmitter) : batchingEmitter :=
  if be_stopFlag p then p
  else match be_buff p with
       | [] => p
       | buff => mkEmitter (be_iterations p) (be_burstSize p) (decrementCounters buff) (be_stopFlag p)
                   (be_emitted p ++ [buff.*1])
       end.

Definition emitter_Add (message : A) (p : batchingEmitter) : batchingEmitter :=
  let buff := be_buff p ++ [(message, be_iterations p)] in
  let p := mkEmitter (be_iterations p) (be_burstSize p) buff (be_stopFlag p) (be_emitted p) in
  if bool_decide (be_burstSize p ≤ Z.of_nat (length buff)) then emit p else p.

Definition emitter_Stop (p : batchingEmitter) : batchingEmitter :=
  mkEmitter (be_iterations p) (be_burstSize p) (be_buff p) true (be_emitted p).
End emitter.
Arguments batchingEmitter : clear implicits.
