(* ===== verification/GossipStoreProofs.v ===== *)
(** * The message store keeps the newest messages, the emitter counts

    For any policy that compares messages by a transitive relation the store
    holds, of all messages ever added, those no newer one covers, one of each.
    The policy of the gossip layer is such a policy. *)

From Stdlib Require Import Strings.Byte Lists.List.
From stdpp Require Import base numbers strings gmap list.
From S2P Require Import Prelude GossipStore.
Local Open Scope Z_scope.

(** [covers s m]: with [s] in the store [m] is not worth having. *)
Class PolicyLaws {A} (pol : A → A → res InvalidationResult) (valid : A → Prop) (covers : A → A → Prop) := {
  pol_spec a b : valid a → valid b → ∃ r, pol a b = Ok r ∧
    match r with
    | MessageInvalidated => covers b a
    | MessageInvalidates => covers a b ∧ ¬ covers b a
    | MessageNoAction => ¬ covers a b ∧ ¬ covers b a
    end;
  covers_trans a b c : covers a b → covers b c → covers a c }.

(** ** Lists whose elements are pairwise related *)
Lemma elem_of_sublist {A} (x : A) l k : sublist l k → x ∈ l → x ∈ k.
Proof. intros H Hx. by eapply elem_of_submseteq, sublist_submseteq. Qed.
Lemma ForallOrdPairs_sublist {A} (R : A → A → Prop) l k :
  sublist l k → ForallOrdPairs R k → ForallOrdPairs R l.
Proof.
  induction 1 as [|x l k Hs IH|x l k Hs IH]; intros Hk; inversion Hk as [|? ? Hx Hk']; subst; auto.
  constructor; [|auto]. apply List.Forall_forall. intros y Hy. apply (proj1 (List.Forall_forall _ _) Hx).
  apply list_elem_of_In. apply list_elem_of_In in Hy. by eapply elem_of_sublist.
Qed.
Lemma ForallOrdPairs_snoc {A} (R : A → A → Prop) l x :
  ForallOrdPairs R l → (∀ y, y ∈ l → R y x) → ForallOrdPairs R (l ++ [x]).
Proof.
  induction 1 as [|y l Hy Hl IH]; intros Hx; cbn; constructor; try constructor.
  - apply Forall_app. split; [done|]. constructor; [|constructor]. apply Hx. by left.
  - apply IH. intros z Hz. apply Hx. by right.
Qed.

(** ** The store, for any policy *)
Section store.
Context {A : Type} (pol : A → A → res InvalidationResult) (valid : A → Prop) (covers : A → A → Prop).
Context `{!PolicyLaws pol valid covers}.

Definition apart (x y : A) : Prop := ¬ covers x y ∧ ¬ covers y x.

(** What the loop does when nothing covers the message, and when something
    does. *)
Lemma add_loop_spec m st : valid m → Forall valid st →
  ∃ fin kept gone, add_loop pol m st = Ok (fin, kept, gone) ∧ sublist kept st ∧
    if (fin : bool)
    then Forall (λ x, ¬ covers x m) st ∧ Forall (λ x, ¬ covers m x) kept ∧ (∀ x, x ∈ st → x ∈ kept ∨ covers m x)
         ∧ ∀ x, x ∈ gone ↔ x ∈ st ∧ covers m x
    else Exists (λ x, covers x m) st ∧ (∀ x, x ∈ gone → x ∈ st ∧ covers m x ∧ ¬ covers x m) ∧ (gone = [] → kept = st).
Proof.
  intros Hm. induction 1 as [|x st Hx Hst IH]; cbn [add_loop].
  { eexists _, _, _. split; [done|]. split; [done|]. repeat split; try done; set_solver. }
  destruct (pol_spec m x Hm Hx) as (r & -> & Hr). cbn [mbind res_bind].
  destruct r; cbn.
  - destruct IH as (fin & kept & gone & -> & Hsub & Hfin). cbn. eexists _, _, _. split; [done|].
    split; [by constructor|]. destruct fin.
    + destruct Hfin as (H1 & H2 & H3 & H4). destruct Hr as [Hr1 Hr2]. repeat split; try (by constructor).
      * intros y [->|Hy]%elem_of_cons; [left; left|]. destruct (H3 y Hy); [left; by right|by right].
      * apply H4 in H as [??]. by right.
      * by apply H4 in H as [??].
      * intros [[->|Hy]%elem_of_cons ?]; [done|]. by apply H4.
    + destruct Hfin as (H1 & H2 & H3). repeat split; [by right| | |by apply H2|].
      * right. by apply H2.
      * by apply H2.
      * intros E. by rewrite (H3 E).
  - destruct IH as (fin & kept & gone & -> & Hsub & Hfin). cbn. eexists _, _, _. split; [done|].
    split; [by constructor|]. destruct Hr as [Hr1 Hr2]. destruct fin.
    + destruct Hfin as (H1 & H2 & H3 & H4). repeat split; try (by constructor); try done.
      * intros y [->|Hy]%elem_of_cons; [by right|]. by apply H3.
      * apply elem_of_cons in H as [->|H]; [by left|]. right. by apply H4.
      * apply elem_of_cons in H as [->|H]; [done|]. by apply H4.
      * intros [[->|Hy]%elem_of_cons ?]; [by left|]. right. by apply H4.
    + destruct Hfin as (H1 & H2 & H3). repeat split; [by right|..|done].
      * apply elem_of_cons in H as [->|H]; [by left|]. right. by apply H2.
      * apply elem_of_cons in H as [->|H]; [done|]. by apply H2.
      * apply elem_of_cons in H as [->|H]; [done|]. by apply H2.
  - eexists _, _, _. split; [done|]. split; [done|]. repeat split; [by left|..]; set_solver.
Qed.

(** [st] is what a store holds after the messages [ms]. *)
Record store_ok (ms st : list A) : Prop := mkStoreOk {
  so_valid : Forall valid st;
  so_from x : x ∈ st → x ∈ ms;
  so_apart : ForallOrdPairs apart st;
  so_cover m : m ∈ ms → ∃ s, s ∈ st ∧ (s = m ∨ covers s m) }.

Lemma store_ok_nil : store_ok [] [].
Proof. split; [done|set_solver|constructor|set_solver]. Qed.

Lemma store_same ms st x y : store_ok ms st → x ∈ st → y ∈ st → covers x y → x = y.
Proof.
  intros [_ _ Hp _] Hx%list_elem_of_In Hy%list_elem_of_In Hc.
  by destruct (ForallOrdPairs_In Hp x y Hx Hy) as [?|[[??]|[??]]].
Qed.

(** Adding a message: it is taken when no message added before covers it, and
    otherwise nothing changes. *)
Lemma store_add_spec m ms st : valid m → store_ok ms st →
  ∃ added st' gone, store_add pol m st = Ok (added, st', gone) ∧ store_ok (ms ++ [m]) st' ∧
    if (added : bool) then ∀ x, x ∈ ms → ¬ covers x m
    else st' = st ∧ gone = [] ∧ ∃ x, x ∈ ms ∧ covers x m.
Proof.
  intros Hm Hok. pose proof Hok as [Hv Hfrom Hap Hcov].
  destruct (add_loop_spec m st Hm Hv) as (fin & kept & gone & E & Hsub & Hfin).
  unfold store_add. rewrite E. cbn. eexists _, _, _. split; [done|]. destruct fin.
  - destruct Hfin as (H1 & H2 & H3 & _). rewrite Forall_forall in H1, H2.
    assert (∀ x, x ∈ ms → ¬ covers x m) as Hno.
    { intros x Hx Hc. destruct (Hcov x Hx) as (s & Hs & [->|Hsx]); [by apply (H1 x)|].
      apply (H1 s Hs). by eapply covers_trans. }
    split; [|done]. split.
    + apply Forall_app. split; [|by constructor]. rewrite Forall_forall in Hv |- *. intros x Hx. by eapply Hv, elem_of_sublist.
    + intros x [Hx|Hx]%elem_of_app; [|set_solver]. apply elem_of_app. left. apply Hfrom.
      by eapply elem_of_sublist.
    + apply ForallOrdPairs_snoc; [by eapply ForallOrdPairs_sublist|]. intros y Hy. split; [|by apply H2].
      apply H1. by eapply elem_of_sublist.
    + intros x [Hx|Hx]%elem_of_app; [|exists x; set_solver].
      destruct (Hcov x Hx) as (s & Hs & Hsx). destruct (H3 s Hs) as [Hk|Hc].
      * exists s. set_solver.
      * exists m. split; [set_solver|]. right. destruct Hsx as [->|Hsx]; [done|]. by eapply covers_trans.
  - destruct Hfin as (Hex & Hgone & Hkept). apply Exists_exists in Hex as (x & Hx & Hxm).
    assert (gone = []) as ->.
    { destruct gone as [|y gone]; [done|]. exfalso. destruct (Hgone y ltac:(by left)) as (Hy & Hmy & Hym).
      assert (x = y) as ->; [|done]. apply (store_same ms st x y Hok Hx Hy). by eapply covers_trans. }
    rewrite (Hkept eq_refl). split; [|by eauto 10]. split; try done.
    + intros y Hy. apply elem_of_app. left. by apply Hfrom.
    + intros y [Hy|Hy]%elem_of_app; [by apply Hcov|]. exists x. set_solver.
Qed.

Fixpoint add_all (ms st : list A) : res (list A) :=
  match ms with
  | [] => Ok st
  | m :: ms => '(_, st, _) ← store_add pol m st; add_all ms st
  end.

Lemma add_all_spec old ms st : Forall valid ms → store_ok old st →
  ∃ st', add_all ms st = Ok st' ∧ store_ok (old ++ ms) st'.
Proof.
  intros Hms. revert old st. induction Hms as [|m ms Hm Hms IH]; intros old st Hok; cbn.
  { exists st. by rewrite app_nil_r. }
  destruct (store_add_spec m old st Hm Hok) as (added & st1 & gone & -> & Hok1 & _). cbn.
  destruct (IH _ _ Hok1) as (st' & -> & Hok'). exists st'. by rewrite <-app_assoc in Hok'.
Qed.

(** A stored message is covered only by messages as new as itself. *)
Lemma store_newest ms st s m : store_ok ms st → s ∈ st → m ∈ ms → covers m s → covers s m.
Proof.
  intros Hok Hs Hm Hms. destruct (so_cover _ _ Hok m Hm) as (s' & Hs' & Hc).
  assert (covers s' s) as Hss. { destruct Hc as [->|Hc]; [done|]. by eapply covers_trans. }
  pose proof (store_same _ _ _ _ Hok Hs' Hs Hss) as ->. by destruct Hc as [->|].
Qed.
End store.

(** ** The policy of the gossip layer *)
Definition time_le (a b : PeerTime) : Prop :=
  pt_IncNumber a < pt_IncNumber b ∨ (pt_IncNumber a = pt_IncNumber b ∧ pt_SeqNum a ≤ pt_SeqNum b).

(** Of an alive message the peer and its time, of information on a state too,
    of a block its number and hash. *)
Definition alive_of (m : GossipMessage) : option (bytes * PeerTime) :=
  match gm_Content m with
  | CAlive a => match am_Membership a, am_Timestamp a with
                | Some b, Some t => Some (sl (mb_PkiID b), t)
                | _, _ => None
                end
  | _ => None
  end.
Definition info_of (m : GossipMessage) : option (bytes * PeerTime) :=
  match gm_Content m with CStateInfo i => (λ t, (sl (si_PkiID i), t)) <$> si_Timestamp i | _ => None end.
Definition data_of (m : GossipMessage) : option (Z * bytes) :=
  match gm_Content m with CData d => (λ p, (gp_SeqNum p, gp_Hash p)) <$> dm_Payload d | _ => None end.

Definition covers (size : Z) (s m : GossipMessage) : Prop :=
  (∃ i a b, alive_of s = Some (i, a) ∧ alive_of m = Some (i, b) ∧ time_le b a)
  ∨ (∃ i a b, info_of s = Some (i, a) ∧ info_of m = Some (i, b) ∧ time_le b a)
  ∨ (∃ d e, data_of s = Some d ∧ data_of m = Some e ∧ (d = e ∨ e.1 + u64 size < d.1)).

Lemma compareTimestamps_spec a b : ∃ r, compareTimestamps (Some a) (Some b) = Ok r ∧
  match r with
  | MessageInvalidated => time_le a b
  | MessageInvalidates => time_le b a ∧ ¬ time_le a b
  | MessageNoAction => False
  end.
Proof. unfold time_le. cbn. eexists. split; [done|]. repeat case_bool_decide; lia. Qed.

Lemma covers_alive size x y i a j b : alive_of x = Some (i, a) → alive_of y = Some (j, b) →
  covers size x y ↔ i = j ∧ time_le b a.
Proof.
  intros Hx Hy. unfold covers. split.
  - intros [(?&?&?&?&?&?)|[(?&?&?&H&_)|(?&?&H&_)]]; [naive_solver|..];
      unfold alive_of in Hx; unfold info_of, data_of in H; destruct (gm_Content x); done.
  - intros [-> ?]. left. eauto 10.
Qed.
Lemma covers_info size x y i a j b : info_of x = Some (i, a) → info_of y = Some (j, b) →
  covers size x y ↔ i = j ∧ time_le b a.
Proof.
  intros Hx Hy. unfold covers. split.
  - intros [(?&?&?&H&_)|[(?&?&?&?&?&?)|(?&?&H&_)]]; [|naive_solver|];
      unfold info_of in Hx; unfold alive_of, data_of in H; destruct (gm_Content x); done.
  - intros [-> ?]. right. left. eauto 10.
Qed.
Lemma covers_data size x y d e : data_of x = Some d → data_of y = Some e →
  covers size x y ↔ d = e ∨ e.1 + u64 size < d.1.
Proof.
  intros Hx Hy. unfold covers. split.
  - intros [(?&?&?&H&_)|[(?&?&?&H&_)|(?&?&?&?&?)]]; [..|naive_solver];
      unfold data_of in Hx; unfold alive_of, info_of in H; destruct (gm_Content x); done.
  - intros ?. right. right. eauto 10.
Qed.

(** What each of the three comparisons says. *)
Definition pol_says (size : Z) (x y : GossipMessage) (r : res InvalidationResult) : Prop :=
  ∃ a, r = Ok a ∧
    match a with
    | MessageInvalidated => covers size y x
    | MessageInvalidates => covers size x y ∧ ¬ covers size y x
    | MessageNoAction => ¬ covers size x y ∧ ¬ covers size y x
    end.

Lemma alive_policy size x y a b : gm_Content x = CAlive a → gm_Content y = CAlive b → alive_set a → alive_set b →
  pol_says size x y (aliveInvalidationPolicy a b).
Proof.
  intros Ex Ey [[ma Ha] [ta Ta]] [[mb Hb] [tb Tb]].
  assert (alive_of x = Some (sl (mb_PkiID ma), ta)) as Ax. { unfold alive_of. by rewrite Ex, Ha, Ta. }
  assert (alive_of y = Some (sl (mb_PkiID mb), tb)) as Ay. { unfold alive_of. by rewrite Ey, Hb, Tb. }
  unfold pol_says, aliveInvalidationPolicy. rewrite Ha, Hb, Ta, Tb. cbn [deref mbind res_bind]. unfold bytes_Equal.
  pose proof (covers_alive size _ _ _ _ _ _ Ax Ay) as Hxy. pose proof (covers_alive size _ _ _ _ _ _ Ay Ax) as Hyx.
  case_bool_decide as E; [|exists MessageNoAction; split; [done|]; naive_solver].
  destruct (compareTimestamps_spec ta tb) as (r & -> & Hr). exists r. split; [done|]. destruct r; naive_solver.
Qed.

Lemma info_policy size x y a b : gm_Content x = CStateInfo a → gm_Content y = CStateInfo b →
  is_Some (si_Timestamp a) → is_Some (si_Timestamp b) → pol_says size x y (stateInvalidationPolicy a b).
Proof.
  intros Ex Ey [ta Ta] [tb Tb].
  assert (info_of x = Some (sl (si_PkiID a), ta)) as Ax. { unfold info_of. by rewrite Ex, Ta. }
  assert (info_of y = Some (sl (si_PkiID b), tb)) as Ay. { unfold info_of. by rewrite Ey, Tb. }
  unfold pol_says, stateInvalidationPolicy. rewrite Ta, Tb. unfold bytes_Equal.
  pose proof (covers_info size _ _ _ _ _ _ Ax Ay) as Hxy. pose proof (covers_info size _ _ _ _ _ _ Ay Ax) as Hyx.
  case_bool_decide as E; [|exists MessageNoAction; split; [done|]; naive_solver].
  destruct (compareTimestamps_spec ta tb) as (r & -> & Hr). exists r. split; [done|]. destruct r; naive_solver.
Qed.

Lemma data_policy size x y a b : gm_Content x = CData a → gm_Content y = CData b →
  is_Some (dm_Payload a) → is_Some (dm_Payload b) → pol_says size x y (dataInvalidationPolicy size a b).
Proof.
  pose proof (u64_range size) as Hsz. intros Ex Ey [p Hp] [q Hq].
  assert (data_of x = Some (gp_SeqNum p, gp_Hash p)) as Ax. { unfold data_of. by rewrite Ex, Hp. }
  assert (data_of y = Some (gp_SeqNum q, gp_Hash q)) as Ay. { unfold data_of. by rewrite Ey, Hq. }
  unfold pol_says, dataInvalidationPolicy, Abs. rewrite Hp, Hq. cbn [deref mbind res_bind].
  pose proof (covers_data size _ _ _ _ Ax Ay) as Hxy. pose proof (covers_data size _ _ _ _ Ay Ax) as Hyx.
  cbn [fst] in Hxy, Hyx. eexists. split; [done|].
  repeat case_bool_decide; rewrite ?Hxy, ?Hyx; repeat match goal with |- _ ∧ _ => split end;
    try (intros [|]; [congruence|lia]); try (right; lia); left; congruence.
Qed.

Lemma covers_kind size x y : covers size x y →
  match gm_Content x, gm_Content y with
  | CAlive _, CAlive _ | CData _, CData _ | CStateInfo _, CStateInfo _ => True
  | _, _ => False
  end.
Proof.
  unfold covers, alive_of, info_of, data_of.
  intros [(?&?&?&H&H'&_)|[(?&?&?&H&H'&_)|(?&?&H&H'&_)]]; by destruct (gm_Content x), (gm_Content y).
Qed.

Lemma gossip_covers_trans size x y z : covers size x y → covers size y z → covers size x z.
Proof.
  intros Hxy Hyz. pose proof (u64_range size) as Hsz. pose proof (covers_kind _ _ _ Hyz) as Hk.
  destruct Hxy as [(i&a&b&Hx&Hy&Hab)|[(i&a&b&Hx&Hy&Hab)|(d&e&Hx&Hy&Hab)]].
  - left. destruct Hyz as [(j&c&d&Hy'&Hz&Hcd)|[(?&?&?&Hy'&_)|(?&?&Hy'&_)]];
      [|unfold alive_of, info_of, data_of in *; by destruct (gm_Content y)..].
    rewrite Hy in Hy'. simplify_eq. exists j, a, d. split_and!; try done. unfold time_le in *. lia.
  - right. left. destruct Hyz as [(?&?&?&Hy'&_)|[(j&c&d&Hy'&Hz&Hcd)|(?&?&Hy'&_)]];
      [unfold alive_of, info_of, data_of in *; by destruct (gm_Content y)| |
       unfold alive_of, info_of, data_of in *; by destruct (gm_Content y)].
    rewrite Hy in Hy'. simplify_eq. exists j, a, d. split_and!; try done. unfold time_le in *. lia.
  - right. right. destruct Hyz as [(?&?&?&Hy'&_)|[(?&?&?&Hy'&_)|(d'&f&Hy'&Hz&Hdf)]];
      [unfold alive_of, info_of, data_of in *; by destruct (gm_Content y)..|].
    rewrite Hy in Hy'. simplify_eq. exists d, f. split_and!; try done.
    destruct Hab as [->|?], Hdf as [->|?]; auto. right. lia.
Qed.

#[global] Instance gossip_policy size : PolicyLaws (invalidationPolicy size) message_set (covers size).
Proof.
  split; [|apply gossip_covers_trans].
  intros x y Hx Hy. change (pol_says size x y (invalidationPolicy size x y)). unfold invalidationPolicy.
  destruct (gm_Content x) eqn:Ex; destruct (gm_Content y) eqn:Ey;
    try (exists MessageNoAction; split; [done|]; split; intros H%covers_kind; rewrite ?Ex, ?Ey in H; done);
    unfold message_set in Hx, Hy; rewrite Ex in Hx; rewrite Ey in Hy.
  - by apply alive_policy.
  - by apply data_policy.
  - by apply info_policy.
Qed.

(** ** What the store holds *)
Lemma omap_apart {A B} (R : A → A → Prop) (f : A → option B) l :
  ForallOrdPairs R l → (∀ x y a, x ∈ l → y ∈ l → f x = Some a → f y = Some a → ¬ R x y) → NoDup (omap f l).
Proof.
  induction 1 as [|x l Hx Hl IH]; intros HR; cbn; [constructor|].
  assert (NoDup (omap f l)) as Hnd. { apply IH. intros y z a Hy Hz. apply HR; by right. }
  destruct (f x) as [a|] eqn:E; [|done]. constructor; [|done].
  intros (y & Hy & Ey)%list_elem_of_omap. apply (HR x y a); [by left|by right|done..|].
  apply (proj1 (List.Forall_forall _ _) Hx). by apply list_elem_of_In.
Qed.

Lemma NoDup_constant {A} (a : A) l : NoDup l → a ∈ l → (∀ b, b ∈ l → b = a) → l = [a].
Proof.
  intros Hnd Ha Hall. destruct l as [|x l]; [by apply not_elem_of_nil in Ha|].
  rewrite (Hall x) by (by left). destruct l as [|y l]; [done|].
  exfalso. apply NoDup_cons in Hnd as [Hx _]. apply Hx.
  rewrite (Hall x) by (by left). rewrite <-(Hall y) by (right; by left). by left.
Qed.

(** The time of the alive messages of a peer. *)
Definition time_of (id : bytes) (m : GossipMessage) : option PeerTime :=
  match alive_of m with Some (i, t) => if bool_decide (i = id) then Some t else None | None => None end.

Lemma time_of_Some id m t : time_of id m = Some t ↔ alive_of m = Some (id, t).
Proof.
  unfold time_of. destruct (alive_of m) as [[i u]|]; [|done]. case_bool_decide; split; intros; simplify_eq; done.
Qed.

Lemma time_le_total a b : time_le a b ∨ time_le b a.
Proof. unfold time_le. lia. Qed.

(** Of two alive messages of a peer one covers the other. *)
Lemma covers_total size x y i a b : alive_of x = Some (i, a) → alive_of y = Some (i, b) →
  covers size x y ∨ covers size y x.
Proof.
  intros Hx Hy. rewrite (covers_alive _ _ _ _ _ _ _ Hx Hy), (covers_alive _ _ _ _ _ _ _ Hy Hx).
  destruct (time_le_total a b); auto.
Qed.

Lemma store_alive size ms st id m t : store_ok message_set (covers size) ms st → m ∈ ms → time_of id m = Some t →
  ∃ t', omap (time_of id) st = [t'] ∧ ∀ m u, m ∈ ms → time_of id m = Some u → time_le u t'.
Proof.
  intros Hok Hm Ht%time_of_Some. destruct (so_cover _ _ _ _ Hok m Hm) as (s & Hs & Hsm).
  assert (∃ t', alive_of s = Some (id, t')) as (t' & Ht').
  { destruct Hsm as [->|Hc]; [by eauto|]. pose proof (covers_kind _ _ _ Hc) as Hk.
    destruct Hc as [(i&a&b&Ha&Hb&_)|[(?&?&?&_&Hb&_)|(?&?&_&Hb&_)]].
    - rewrite Ht in Hb. simplify_eq. by eauto.
    - unfold alive_of, info_of in *. by destruct (gm_Content m).
    - unfold alive_of, data_of in *. by destruct (gm_Content m). }
  exists t'. split.
  - apply NoDup_constant.
    + eapply omap_apart; [apply (so_apart _ _ _ _ Hok)|].
      intros x y a Hx Hy Ex%time_of_Some Ey%time_of_Some [Hxy _]. apply Hxy.
      rewrite (covers_alive _ _ _ _ _ _ _ Ex Ey). split; [done|]. right. lia.
    + apply list_elem_of_omap. exists s. split; [done|]. by apply time_of_Some.
    + intros u (x & Hx & Eu%time_of_Some)%list_elem_of_omap.
      assert (x = s) as ->; [|by simplify_eq].
      destruct (covers_total size _ _ _ _ _ Eu Ht') as [Hc|Hc].
      * by eapply store_same.
      * symmetry. by eapply store_same.
  - intros m' u Hm' Hu%time_of_Some.
    assert (covers size s m') as Hc.
    { destruct (covers_total size _ _ _ _ _ Ht' Hu) as [Hc|Hc]; [done|]. by apply (store_newest (invalidationPolicy size) message_set (covers size) ms st s m' Hok Hs Hm'). }
    by apply (covers_alive _ _ _ _ _ _ _ Ht' Hu) in Hc as [_ ?].
Qed.

Lemma store_data size ms st : store_ok message_set (covers size) ms st →
  NoDup (omap data_of st) ∧
  ∀ d, d ∈ omap data_of st ↔ d ∈ omap data_of ms ∧ ∀ e, e ∈ omap data_of ms → e.1 ≤ d.1 + u64 size.
Proof.
  intros Hok. pose proof (u64_range size) as Hsz. split.
  { eapply omap_apart; [apply (so_apart _ _ _ _ Hok)|].
    intros x y a Hx Hy Ex Ey [Hxy _]. apply Hxy. rewrite (covers_data _ _ _ _ _ Ex Ey). by left. }
  intros d. setoid_rewrite list_elem_of_omap. split.
  - intros (s & Hs & Ed). split; [exists s; split; [by eapply so_from|done]|].
    intros e (m & Hm & Ee). apply Z.nlt_ge. intros Hlt.
    assert (covers size m s) as Hc. { rewrite (covers_data _ _ _ _ _ Ee Ed). by right. }
    apply (store_newest (invalidationPolicy size) message_set (covers size) ms st s m Hok Hs Hm) in Hc.
    apply (covers_data _ _ _ _ _ Ed Ee) in Hc as [->|?]; lia.
  - intros [(m & Hm & Ed) Hmax]. destruct (so_cover _ _ _ _ Hok m Hm) as (s & Hs & [->|Hc]); [by eauto|].
    pose proof (covers_kind _ _ _ Hc) as Hk.
    destruct Hc as [(?&?&?&_&Hb&_)|[(?&?&?&_&Hb&_)|(e&d'&Ha&Hb&Hor)]].
    + unfold alive_of, data_of in *. by destruct (gm_Content m).
    + unfold info_of, data_of in *. by destruct (gm_Content m).
    + rewrite Ed in Hb. simplify_eq. destruct Hor as [->|Hlt]; [by eauto|].
      specialize (Hmax e ltac:(exists s; split; [by eapply so_from|done])). lia.
Qed.

(** C25. The message store keeps what is newest.  After any messages of peers, the
    store holds of each peer that has sent an alive message exactly one, with
    the greatest time of all of them; and of the blocks, each number and hash
    once, exactly those whose number is at most the storage size behind the
    greatest number seen. *)
Theorem store_keeps_newest size ms : Forall message_set ms →
  ∃ st, add_all (invalidationPolicy size) ms [] = Ok st ∧ (∀ s, s ∈ st → s ∈ ms)
  ∧ (∀ id m t, m ∈ ms → time_of id m = Some t →
      ∃ t', omap (time_of id) st = [t'] ∧ ∀ m u, m ∈ ms → time_of id m = Some u → time_le u t')
  ∧ NoDup (omap data_of st)
  ∧ ∀ d, d ∈ omap data_of st ↔ d ∈ omap data_of ms ∧ ∀ e, e ∈ omap data_of ms → e.1 ≤ d.1 + u64 size.
Proof.
  intros Hms. destruct (add_all_spec (invalidationPolicy size) message_set (covers size) [] ms [] Hms
    (store_ok_nil (invalidationPolicy size) _ _)) as (st & E & Hok). exists st.
  split_and!; [done|by eapply so_from|intros; by eapply store_alive|by eapply store_data..].
Qed.

(** ** The emitter *)
Section emitter.
Context {A : Type} `{!EqDecision A}.

Definition times (x : A) (l : list A) : Z := Z.of_nat (length (filter (x =.) l)).
(** How often [x] is still to be emitted. *)
Fixpoint left (x : A) (buff : list (A * Z)) : Z :=
  match buff with [] => 0 | (y, n) :: buff => (if bool_decide (x = y) then n else 0) + left x buff end.

Inductive emitter_event := EAdd (x : A) | ETick.
Definition emitter_run (l : list emitter_event) (p : batchingEmitter A) : batchingEmitter A :=
  foldl (λ p e, match e with EAdd x => emitter_Add x p | ETick => emit p end) p l.
Definition added (l : list emitter_event) : list A := omap (λ e, match e with EAdd x => Some x | ETick => None end) l.

Lemma left_app x l k : left x (l ++ k) = left x l + left x k.
Proof. induction l as [|[y n] l IH]; cbn; lia. Qed.
Lemma times_app x (l k : list A) : times x (l ++ k) = times x l + times x k.
Proof. unfold times. rewrite filter_app, length_app. lia. Qed.
Lemma times_cons x y (l : list A) : times x (y :: l) = (if bool_decide (x = y) then 1 else 0) + times x l.
Proof. unfold times. rewrite filter_cons. case_bool_decide; case_decide; try done; cbn [length]; lia. Qed.

Definition counts_ok (n : Z) (buff : list (A * Z)) : Prop := Forall (λ m, 0 < m.2 ≤ n) buff.

Lemma left_decrement x n buff : n < 2 ^ 63 → counts_ok n buff →
  counts_ok n (decrementCounters buff) ∧ left x (decrementCounters buff) = left x buff - times x buff.*1.
Proof.
  intros Hn. induction 1 as [|[y k] buff Hk Hb IH]; cbn [fmap list_fmap decrementCounters]; [split; [constructor|reflexivity]|].
  cbn in Hk. destruct IH as [IH1 IH2]. unfold decrementCounters in *. cbn [fmap list_fmap fst snd].
  rewrite times_cons, filter_cons. cbn [fst snd left]. rewrite i64_small by lia. case_decide as E; cbn [left].
  - split; [constructor; [cbn; lia|done]|]. rewrite IH2. case_bool_decide; lia.
  - split; [done|]. rewrite IH2. case_bool_decide; lia.
Qed.

Definition emitter_inv (n : Z) (xs : list A) (p : batchingEmitter A) : Prop :=
  be_iterations p = n ∧ be_stopFlag p = false ∧ counts_ok n (be_buff p)
  ∧ ∀ x, times x (concat (be_emitted p)) + left x (be_buff p) = n * times x xs.

Lemma emit_inv n xs p : n < 2 ^ 63 → emitter_inv n xs p → emitter_inv n xs (emit p).
Proof.
  intros Hn (Hi & Hs & Hc & Hx). unfold emit. rewrite Hs. destruct (be_buff p) as [|b buff] eqn:Eb.
  { split_and!; try done; by rewrite Eb. }
  split_and!; cbn [be_iterations be_stopFlag be_buff be_emitted]; try done; [by apply (left_decrement (b.1))|].
  intros x. specialize (Hx x). destruct (left_decrement x n _ Hn Hc) as [_ E].
  rewrite E, concat_app, times_app. cbn [concat]. rewrite app_nil_r. lia.
Qed.

(** Each message is forwarded as often as configured, no more and no less:
    what has been emitted and what is still in the buffer add up. *)
Lemma emitter_conserves n burst l x : 0 < n < 2 ^ 63 →
  let p := emitter_run l (newBatchingEmitter n burst) in
  times x (concat (be_emitted p)) + left x (be_buff p) = n * times x (added l).
Proof.
  intros Hn p. assert (emitter_inv n (added l) p) as (_ & _ & _ & H); [|by apply H].
  subst p. induction l as [|e l IH] using rev_ind.
  { split_and!; try done; [constructor|]. intros y. unfold times. cbn. lia. }
  unfold emitter_run, added in *. rewrite foldl_app, omap_app. cbn [foldl omap list_omap]. destruct e as [y|].
  - set (p := foldl _ _ _) in *. destruct IH as (Hi & Hs & Hc & Hx).
    assert (emitter_inv n (omap (λ e, match e with EAdd x => Some x | ETick => None end) l ++ [y])
      (mkEmitter (be_iterations p) (be_burstSize p) (be_buff p ++ [(y, be_iterations p)]) (be_stopFlag p) (be_emitted p))) as Hp.
    { split_and!; cbn [be_iterations be_stopFlag be_buff be_emitted]; try done.
      - apply Forall_app. split; [done|]. constructor; [cbn; lia|constructor].
      - intros z. rewrite left_app, times_app, times_cons. cbn [left]. change (times z []) with 0.
        specialize (Hx z). rewrite Hi. case_bool_decide; lia. }
    unfold emitter_Add. case_bool_decide; [apply emit_inv; [lia|done]|done].
  - rewrite app_nil_r. apply emit_inv; [lia|done].
Qed.
End emitter.
