(* ===== verification/Pull.v ===== *)
(** * The pull engine (gossip/gossip/algo/pull.go)

    A peer asks some others for the items it does not have: it greets them with
    fresh nonces, they answer with digests of what they hold, it asks one owner
    for each missing item, and they send the items.  Each operation returns the
    messages it sends through the [PullAdapter].  The operations hold the
    engine's lock throughout, apart from the look at flags and nonces with
    which [OnDigest] starts.  A Go map is iterated in any order; here that is
    the order of [map_to_list], which shows in the order of requests and of the
    items in them and nowhere else. *)

From Stdlib Require Import Strings.Byte.
From stdpp Require Import base numbers strings gmap list.
From S2P Require Import Prelude.
Local Open Scope Z_scope.

(** [C]: the context a message came with, to which the answer goes. *)
Inductive pull_out (C : Type) :=
  | OHello (dest : bytes) (nonce : Z)
  | ODigest (digest : list Z) (nonce : Z) (context : C)
  | OReq (dest : bytes) (items : list Z) (nonce : Z)
  | ORes (items : list Z) (context : C) (nonce : Z).
Arguments OHello {C}.
Arguments ODigest {C}.
Arguments OReq {C}.
Arguments ORes {C}.

(** The functions [time.AfterFunc] is waiting to call. *)
Inductive pull_timer := TProcessDigests | TEndPull | TForget (nonce : Z).

Record PullEngine := mkPull {
  pe_stopFlag : bool; pe_state : gset Z; pe_item2owners : gmap Z (list bytes);
  pe_peers2nonces : gmap bytes Z; pe_nonces2peers : gmap Z bytes;
  pe_acceptingDigests : bool; pe_acceptingResponses : bool;
  pe_outgoingNONCES : gset Z; pe_incomingNONCES : gset Z; pe_timers : list pull_timer }.

Definition NewPullEngine : PullEngine := mkPull false ∅ ∅ ∅ ∅ false false ∅ ∅ [].

Definition set_items (s : gset Z) (e : PullEngine) : PullEngine :=
  mkPull (pe_stopFlag e) s (pe_item2owners e) (pe_peers2nonces e) (pe_nonces2peers e) (pe_acceptingDigests e)
    (pe_acceptingResponses e) (pe_outgoingNONCES e) (pe_incomingNONCES e) (pe_timers e).
Definition set_owners (m : gmap Z (list bytes)) (e : PullEngine) : PullEngine :=
  mkPull (pe_stopFlag e) (pe_state e) m (pe_peers2nonces e) (pe_nonces2peers e) (pe_acceptingDigests e)
    (pe_acceptingResponses e) (pe_outgoingNONCES e) (pe_incomingNONCES e) (pe_timers e).
Definition set_acceptingDigests (b : bool) (e : PullEngine) : PullEngine :=
  mkPull (pe_stopFlag e) (pe_state e) (pe_item2owners e) (pe_peers2nonces e) (pe_nonces2peers e) b
    (pe_acceptingResponses e) (pe_outgoingNONCES e) (pe_incomingNONCES e) (pe_timers e).
Definition set_acceptingResponses (b : bool) (e : PullEngine) : PullEngine :=
  mkPull (pe_stopFlag e) (pe_state e) (pe_item2owners e) (pe_peers2nonces e) (pe_nonces2peers e)
    (pe_acceptingDigests e) b (pe_outgoingNONCES e) (pe_incomingNONCES e) (pe_timers e).
Definition set_incoming (s : gset Z) (e : PullEngine) : PullEngine :=
  mkPull (pe_stopFlag e) (pe_state e) (pe_item2owners e) (pe_peers2nonces e) (pe_nonces2peers e)
    (pe_acceptingDigests e) (pe_acceptingResponses e) (pe_outgoingNONCES e) s (pe_timers e).
Definition after_func (t : pull_timer) (e : PullEngine) : PullEngine :=
  mkPull (pe_stopFlag e) (pe_state e) (pe_item2owners e) (pe_peers2nonces e) (pe_nonces2peers e)
    (pe_acceptingDigests e) (pe_acceptingResponses e) (pe_outgoingNONCES e) (pe_incomingNONCES e) (pe_timers e ++ [t]).

Definition pull_Stop (e : PullEngine) : PullEngine :=
  mkPull true (pe_state e) (pe_item2owners e) (pe_peers2nonces e) (pe_nonces2peers e)
    (pe_acceptingDigests e) (pe_acceptingResponses e) (pe_outgoingNONCES e) (pe_incomingNONCES e) (pe_timers e).

Definition pull_Add (seqs : list Z) (e : PullEngine) : PullEngine := set_items (list_to_set seqs ∪ pe_state e) e.
Definition pull_Remove (seqs : list Z) (e : PullEngine) : PullEngine := set_items (pe_state e ∖ list_to_set seqs) e.

(** The loop over random numbers, of which [draws] are the next ones: the
    first that is not in use. *)
Fixpoint newNONCE (used : gset Z) (draws : list Z) : res (Z * list Z) :=
  match draws with
  | [] => OutOfFuel
  | n :: draws => if bool_decide (n ∈ used) then newNONCE used draws else Ok (n, draws)
  end.

Section engine.
Context {C : Type}.

Definition greet (peer : bytes) (nonce : Z) (e : PullEngine) : PullEngine :=
  mkPull (pe_stopFlag e) (pe_state e) (pe_item2owners e) (<[peer := nonce]> (pe_peers2nonces e))
    (<[nonce := peer]> (pe_nonces2peers e)) (pe_acceptingDigests e) (pe_acceptingResponses e)
    ({[nonce]} ∪ pe_outgoingNONCES e) (pe_incomingNONCES e) (pe_timers e).

Fixpoint greet_all (peers : list bytes) (draws : list Z) (e : PullEngine) : res (PullEngine * list (pull_out C)) :=
  match peers with
  | [] => Ok (e, [])
  | peer :: peers =>
      '(nonce, draws) ← newNONCE (pe_outgoingNONCES e) draws;
      '(e, out) ← greet_all peers draws (greet peer nonce e);
      Ok (e, OHello peer nonce :: out)
  end.

(** [peers]: what [SelectPeers] returns. *)
Definition initiatePull (peers : list bytes) (draws : list Z) (e : PullEngine)
    : res (PullEngine * list (pull_out C)) :=
  '(e, out) ← greet_all peers draws (set_acceptingDigests true e);
  Ok (after_func TProcessDigests e, out).

(** The loop over [item2owners]; [pick n k] is the number below [k] drawn for
    the item [n]. *)
Fixpoint map_requests (pick : Z → nat → nat) (items : list (Z * list bytes)) (m : gmap bytes (list Z))
    : res (gmap bytes (list Z)) :=
  match items with
  | [] => Ok m
  | (n, sources) :: items =>
      source ← deref (sources !! pick n (length sources));
      map_requests pick items (<[source := default [] (m !! source) ++ [n]]> m)
  end.

Definition processIncomingDigests (pick : Z → nat → nat) (e : PullEngine) : res (PullEngine * list (pull_out C)) :=
  let e := set_acceptingDigests false e in
  requestMapping ← map_requests pick (map_to_list (pe_item2owners e)) ∅;
  let e := set_acceptingResponses true e in
  Ok (after_func TEndPull e,
      (λ r, OReq r.1 r.2 (default 0 (pe_peers2nonces e !! r.1))) <$> map_to_list requestMapping).

Definition endPull (e : PullEngine) : PullEngine :=
  mkPull (pe_stopFlag e) (pe_state e) ∅ ∅ ∅ (pe_acceptingDigests e) false ∅ (pe_incomingNONCES e) (pe_timers e).

Definition OnDigest (digest : list Z) (nonce : Z) (e : PullEngine) : PullEngine :=
  if negb (pe_acceptingDigests e) || negb (bool_decide (nonce ∈ pe_outgoingNONCES e)) then e
  else
    set_owners
      (foldl (λ m n, if bool_decide (n ∈ pe_state e) then m
                     else <[n := default [] (m !! n) ++ [default [] (pe_nonces2peers e !! nonce)]]> m)
         (pe_item2owners e) digest) e.

Definition OnHello (nonce : Z) (context : C) (e : PullEngine) : PullEngine * list (pull_out C) :=
  let e := after_func (TForget nonce) (set_incoming ({[nonce]} ∪ pe_incomingNONCES e) e) in
  (e, [ODigest (elements (pe_state e)) nonce context]).
Definition forget_nonce (nonce : Z) (e : PullEngine) : PullEngine :=
  set_incoming (pe_incomingNONCES e ∖ {[nonce]}) e.

Definition OnReq (items : list Z) (nonce : Z) (context : C) (e : PullEngine) : list (pull_out C) :=
  if bool_decide (nonce ∈ pe_incomingNONCES e)
  then [ORes (filter (λ item, item ∈ pe_state e) items) context nonce]
  else [].

Definition OnRes (items : list Z) (nonce : Z) (e : PullEngine) : PullEngine :=
  if negb (bool_decide (nonce ∈ pe_outgoingNONCES e)) || negb (pe_acceptingResponses e) then e
  else pull_Add items e.

(** ** A round *)

(** An engine between two rounds. *)
Definition at_rest (e : PullEngine) : Prop :=
  pe_item2owners e = ∅ ∧ pe_peers2nonces e = ∅ ∧ pe_nonces2peers e = ∅ ∧ pe_outgoingNONCES e = ∅
  ∧ pe_acceptingResponses e = false.
End engine.

(** The other engines, by their names.  Each takes the greetings addressed to
    it, and then the requests. *)
Definition greeted (p : bytes) (hellos : list (pull_out unit)) (r : PullEngine) : PullEngine :=
  foldl (λ r m, match m with
                | OHello dest nonce => if bool_decide (dest = p) then (OnHello nonce tt r).1 else r
                | _ => r
                end) r hellos.
Definition digests (net : gmap bytes PullEngine) (hello : pull_out unit) : list (pull_out unit) :=
  match hello with
  | OHello dest nonce => match net !! dest with Some r => (OnHello nonce tt r).2 | None => [] end
  | _ => []
  end.
Definition responses (net : gmap bytes PullEngine) (hellos : list (pull_out unit)) (req : pull_out unit)
    : list (pull_out unit) :=
  match req with
  | OReq dest items nonce =>
      match net !! dest with Some r => OnReq items nonce tt (greeted dest hellos r) | None => [] end
  | _ => []
  end.
(** What the initiator does with an answer. *)
Definition receive (e : PullEngine) (m : pull_out unit) : PullEngine :=
  match m with
  | ODigest digest nonce _ => OnDigest digest nonce e
  | ORes items _ nonce => OnRes items nonce e
  | _ => e
  end.

(** ** Greeting *)

(** [e'] differs from [e] in what a greeting changes. *)
Definition same_but_nonces (e e' : PullEngine) : Prop :=
  pe_state e' = pe_state e ∧ pe_item2owners e' = pe_item2owners e ∧ pe_acceptingDigests e' = pe_acceptingDigests e
  ∧ pe_acceptingResponses e' = pe_acceptingResponses e ∧ pe_incomingNONCES e' = pe_incomingNONCES e.

Lemma greet_all_total {C} peers draws e : NoDup draws → (∀ n, n ∈ draws → n ∉ pe_outgoingNONCES e) →
  (length peers ≤ length draws)%nat → ∃ r, greet_all (C := C) peers draws e = Ok r.
Proof.
  revert draws e. induction peers as [|p peers IH]; intros draws e Hnd Hfresh Hlen; cbn; [by eexists|].
  destruct draws as [|n draws]; cbn in Hlen; [lia|]. apply NoDup_cons in Hnd as [Hn Hnd]. cbn [newNONCE].
  rewrite bool_decide_eq_false_2 by (apply Hfresh; by left). cbn.
  destruct (IH draws (greet p n e) Hnd) as [[e' out] ->]; [|lia|cbn; by eexists].
  intros k Hk [->%elem_of_singleton|Hin]%elem_of_union; [done|]. apply (Hfresh k); [by right|done].
Qed.

Lemma newNONCE_fresh used draws n rest : newNONCE used draws = Ok (n, rest) → n ∉ used.
Proof.
  induction draws as [|d draws IH]; cbn; [done|]. case_bool_decide; [done|]. by intros [= -> ->].
Qed.

(** The greetings carry nonces the engine knows, each for the peer greeted. *)
Lemma greet_all_spec {C} peers draws e e' out : greet_all (C := C) peers draws e = Ok (e', out) →
  same_but_nonces e e' ∧ pe_outgoingNONCES e ⊆ pe_outgoingNONCES e'
  ∧ (∀ n, n ∈ pe_outgoingNONCES e → pe_nonces2peers e' !! n = pe_nonces2peers e !! n)
  ∧ (∀ m, m ∈ out → ∃ p n, m = OHello p n ∧ p ∈ peers ∧ n ∈ pe_outgoingNONCES e' ∧ pe_nonces2peers e' !! n = Some p)
  ∧ (∀ p, p ∈ peers → ∃ n, pe_peers2nonces e' !! p = Some n ∧ OHello p n ∈ out)
  ∧ ∀ p, p ∉ peers → pe_peers2nonces e' !! p = pe_peers2nonces e !! p.
Proof.
  revert draws e e' out. induction peers as [|p peers IH]; intros draws e e' out; cbn.
  { intros [= <- <-]. split_and!; try done; set_solver. }
  intros ((n & rest) & E & H1)%res_bind_Ok. apply newNONCE_fresh in E.
  apply res_bind_Ok in H1 as ((e1 & out1) & E1 & [= <- <-]).
  destruct (IH _ _ _ _ E1) as (Hsame & Hsub & Hkeep & Hout & Hpeers & Hother).
  cbn in Hsub, Hkeep. split_and!; [done|set_solver|..].
  - intros k Hk. rewrite Hkeep by set_solver. apply lookup_insert_ne. by intros ->.
  - intros m [->|Hm]%elem_of_cons.
    + exists p, n. split_and!; [done|by left|set_solver|]. rewrite Hkeep by set_solver. apply lookup_insert_eq.
    + destruct (Hout m Hm) as (q & k & ? & ? & ? & ?). exists q, k. split_and!; try done. by right.
  - intros q Hq. destruct (decide (q ∈ peers)) as [Hin|Hnin].
    + destruct (Hpeers q Hin) as (k & ? & ?). exists k. split; [done|by right].
    + apply elem_of_cons in Hq as [->|?]; [|done]. exists n. rewrite (Hother p Hnin). cbn.
      split; [apply lookup_insert_eq|by left].
  - intros q [Hne Hnin]%not_elem_of_cons. rewrite (Hother q Hnin). cbn. by apply lookup_insert_ne.
Qed.

(** A greeted engine holds what it held and knows the nonces. *)
Lemma greeted_spec p ms r :
  pe_state (greeted p ms r) = pe_state r
  ∧ ∀ n, n ∈ pe_incomingNONCES r ∨ OHello p n ∈ ms → n ∈ pe_incomingNONCES (greeted p ms r).
Proof.
  unfold greeted. revert r. induction ms as [|m ms IH]; intros r; cbn [foldl].
  { split; [done|]. intros n [?|Hn]; [done|]. by apply not_elem_of_nil in Hn. }
  destruct m as [q k| | |]; try (destruct (IH r) as [H1 H2]; split; [done|]; intros n [?|[?|?]%elem_of_cons];
    [apply H2; by left|done|apply H2; by right]).
  case_bool_decide as E.
  - destruct (IH (OnHello k tt r).1) as [H1 H2]. split; [done|]. intros n Hn. apply H2. cbn.
    destruct Hn as [?|[?|?]%elem_of_cons]; [left; set_solver|left; simplify_eq; set_solver|by right].
  - destruct (IH r) as [H1 H2]. split; [done|]. intros n [?|[?|?]%elem_of_cons]; [apply H2; by left| |apply H2; by right].
    by simplify_eq.
Qed.

(** ** Digests *)

(** What the engine knows of the owners of items: [told n p] of those named in
    the digests so far. *)
Definition owners_ok (e : PullEngine) (told : Z → bytes → Prop) (m : gmap Z (list bytes)) : Prop :=
  ∀ n, match m !! n with
       | Some l => (n ∉ pe_state e) ∧ l ≠ [] ∧ (∀ p, p ∈ l → told n p)
       | None => (n ∈ pe_state e) ∨ (∀ p, ¬ told n p)
       end.
Definition told_by (e : PullEngine) (ds : list (pull_out unit)) (n : Z) (p : bytes) : Prop :=
  ∃ d k, ODigest d k tt ∈ ds ∧ n ∈ d ∧ p = default [] (pe_nonces2peers e !! k).

Lemma owners_ok_iff e (told told' : Z → bytes → Prop) m : (∀ n p, told n p ↔ told' n p) →
  owners_ok e told m → owners_ok e told' m.
Proof. intros H Hm n. specialize (Hm n). destruct (m !! n); naive_solver. Qed.

Lemma digest_owners e told p d m : owners_ok e told m →
  owners_ok e (λ n q, told n q ∨ (n ∈ d ∧ q = p))
    (foldl (λ m n, if bool_decide (n ∈ pe_state e) then m else <[n := default [] (m !! n) ++ [p]]> m) m d).
Proof.
  revert told m. induction d as [|i d IH]; intros told m Hok; cbn [foldl].
  { eapply owners_ok_iff; [|done]. intros n q. rewrite elem_of_nil. naive_solver. }
  set (told1 n q := told n q ∨ (n = i ∧ q = p)).
  apply (owners_ok_iff e (λ n q, told1 n q ∨ (n ∈ d ∧ q = p))).
  { intros n q. unfold told1. rewrite elem_of_cons. tauto. }
  apply IH. intros n. specialize (Hok n). unfold told1. case_bool_decide as Ei.
  - destruct (m !! n) as [l|]; [naive_solver|]. destruct (decide (n = i)); naive_solver.
  - destruct (decide (n = i)) as [->|Hne].
    + rewrite lookup_insert_eq. split_and!; [done|by destruct (default [] (m !! i))|].
      intros q [Hq|Hq%list_elem_of_singleton]%elem_of_app; [left|by right].
      destruct (m !! i); [naive_solver|by apply not_elem_of_nil in Hq].
    + rewrite lookup_insert_ne by done. destruct (m !! n); naive_solver.
Qed.

(** The digests of peers that were greeted, in any order. *)
Lemma receive_digests e ds : pe_item2owners e = ∅ → pe_acceptingDigests e = true →
  (∀ m, m ∈ ds → ∃ d k, m = ODigest d k tt ∧ k ∈ pe_outgoingNONCES e) →
  ∃ m, foldl receive e ds = set_owners m e ∧ owners_ok e (told_by e ds) m.
Proof.
  intros Hown Hacc. induction ds as [|x ds IH] using rev_ind; intros Hds.
  { exists ∅. split; [by destruct e; cbn in *; subst|]. intros n. rewrite lookup_empty. right.
    intros p (d & k & Hin & _). by apply not_elem_of_nil in Hin. }
  destruct IH as (m & E & Hm). { intros x' Hx'. apply Hds, elem_of_app. by left. }
  rewrite foldl_app, E. cbn [foldl].
  destruct (Hds x) as (d & k & -> & Hk). { apply elem_of_app. right. by left. }
  cbn [receive]. unfold OnDigest. cbn. rewrite Hacc, bool_decide_eq_true_2 by done. cbn.
  eexists. split; [reflexivity|]. eapply owners_ok_iff; [|by apply digest_owners].
  intros n p. unfold told_by. split.
  - intros [(d' & k' & ? & ? & ?)|[? ->]]; [exists d', k'|exists d, k]; rewrite elem_of_app; split_and!; auto.
    right. by left.
  - intros (d' & k' & [?|Hin%list_elem_of_singleton]%elem_of_app & ? & ->); [left; by eauto|right]. by simplify_eq.
Qed.

(** ** Requests and responses *)

(** Each item is asked of one of its sources. *)
Lemma map_requests_spec pick items m :
  (∀ n k, (0 < k)%nat → (pick n k < k)%nat) → (∀ n l, (n, l) ∈ items → l ≠ []) →
  ∃ m', map_requests pick items m = Ok m'
  ∧ (∀ n l, (n, l) ∈ items → ∃ p its, m' !! p = Some its ∧ n ∈ its ∧ p ∈ l)
  ∧ (∀ p its n, m !! p = Some its → n ∈ its → ∃ its', m' !! p = Some its' ∧ n ∈ its')
  ∧ (∀ p its n, m' !! p = Some its → n ∈ its →
      (∃ its', m !! p = Some its' ∧ n ∈ its') ∨ ∃ l, (n, l) ∈ items ∧ p ∈ l)
  ∧ ∀ p its, m' !! p = Some its → m !! p = Some its ∨ its ≠ [].
Proof.
  intros Hpick. revert m. induction items as [|[n l] items IH]; intros m Hne; cbn.
  { exists m. split_and!; [done|set_solver|naive_solver..]. }
  assert (l ≠ []) as Hl. { apply (Hne n l). by left. }
  destruct (lookup_lt_is_Some_2 l (pick n (length l))) as [p Hp].
  { apply Hpick. by destruct l; [|cbn; lia]. }
  rewrite Hp. cbn. destruct (IH (<[p := default [] (m !! p) ++ [n]]> m)) as (m' & -> & Hall & Hkeep & Honly & Hfull).
  { intros n' l' Hin. apply (Hne n'). by right. }
  assert (p ∈ l) as Hpl by (by eapply list_elem_of_lookup_2). exists m'. split; [done|]. split_and!.
  - intros n' l' [?|Hin]%elem_of_cons; [simplify_eq|by apply Hall].
    destruct (Hkeep p (default [] (m !! p) ++ [n]) n) as (its & ? & ?); [apply lookup_insert_eq|set_solver|].
    by exists p, its.
  - intros q its k Hq Hk. destruct (decide (q = p)) as [->|Hqp].
    + apply (Hkeep p (default [] (m !! p) ++ [n])); [apply lookup_insert_eq|]. rewrite Hq. cbn. set_solver.
    + apply (Hkeep q its); [by rewrite lookup_insert_ne|done].
  - intros q its k Hq Hk. destruct (Honly q its k Hq Hk) as [(its' & Hq' & Hk')|(l' & Hin & Hql)].
    2: { right. exists l'. split; [by right|done]. }
    destruct (decide (q = p)) as [->|Hqp].
    + rewrite lookup_insert_eq in Hq'. simplify_eq. apply elem_of_app in Hk' as [Hk'|Hk'].
      * left. destruct (m !! p); [by eauto|by apply not_elem_of_nil in Hk'].
      * apply list_elem_of_singleton in Hk' as ->. right. exists l. split; [by left|done].
    + rewrite lookup_insert_ne in Hq' by done. left. by eauto.
  - intros q its Hq. destruct (Hfull q its Hq) as [Hq'|?]; [|by right]. destruct (decide (q = p)) as [->|Hqp].
    + rewrite lookup_insert_eq in Hq'. simplify_eq. right. by destruct (default [] (m !! p)).
    + rewrite lookup_insert_ne in Hq' by done. by left.
Qed.

(** The responses, in any order. *)
Lemma receive_responses e rs : pe_acceptingResponses e = true →
  (∀ m, m ∈ rs → ∃ its k, m = ORes its tt k ∧ k ∈ pe_outgoingNONCES e) →
  ∃ s, foldl receive e rs = set_items s e ∧
    ∀ n, n ∈ s ↔ n ∈ pe_state e ∨ ∃ its k, ORes its tt k ∈ rs ∧ n ∈ its.
Proof.
  intros Hacc. induction rs as [|x rs IH] using rev_ind; intros Hrs.
  { exists (pe_state e). split; [by destruct e|]. intros n. split; [by left|].
    intros [?|(?&?&Hin&_)]; [done|by apply not_elem_of_nil in Hin]. }
  destruct IH as (s & E & Hs). { intros y Hy. apply Hrs, elem_of_app. by left. }
  rewrite foldl_app, E. cbn [foldl].
  destruct (Hrs x) as (its & k & -> & Hk). { apply elem_of_app. right. by left. }
  cbn [receive]. unfold OnRes. cbn. rewrite Hacc, bool_decide_eq_true_2 by done. cbn.
  eexists. split; [reflexivity|]. intros n. rewrite elem_of_union, elem_of_list_to_set, Hs. split.
  - intros [?|[?|(its' & k' & ? & ?)]]; [right; exists its, k|by left|right; exists its', k'];
      (split; [apply elem_of_app|done]); [right; by left|by left].
  - intros [?|(its' & k' & [?|Hin%list_elem_of_singleton]%elem_of_app & ?)]; [by right; left| |].
    + right. right. by eauto.
    + left. by simplify_eq.
Qed.

Lemma elem_of_digests net hellos m : m ∈ hellos ≫= digests net ↔
  ∃ p k r, OHello p k ∈ hellos ∧ net !! p = Some r ∧ m = ODigest (elements (pe_state r)) k tt.
Proof.
  rewrite list_elem_of_bind. split.
  - intros (h & Hm & Hh). destruct h as [p k| | |]; cbn in Hm; try by apply not_elem_of_nil in Hm.
    destruct (net !! p) as [r|] eqn:Er; [|by apply not_elem_of_nil in Hm].
    apply list_elem_of_singleton in Hm as ->. by exists p, k, r.
  - intros (p & k & r & Hin & Hr & ->). exists (OHello p k). split; [|done]. cbn. rewrite Hr. by left.
Qed.

Lemma elem_of_responses net hellos reqs m : m ∈ reqs ≫= responses net hellos ↔
  ∃ p its k r, OReq p its k ∈ reqs ∧ net !! p = Some r ∧ m ∈ OnReq its k tt (greeted p hellos r).
Proof.
  rewrite list_elem_of_bind. split.
  - intros (h & Hm & Hh). destruct h as [| |p its k|]; cbn in Hm; try by apply not_elem_of_nil in Hm.
    destruct (net !! p) as [r|] eqn:Er; [|by apply not_elem_of_nil in Hm]. by exists p, its, k, r.
  - intros (p & its & k & r & Hin & Hr & Hm). exists (OReq p its k). split; [|done]. cbn. by rewrite Hr.
Qed.

(** The requests for the items of the digests, and what comes back. *)
Lemma requests_answered e hellos ds net (peers : list bytes) owners pick :
  (∀ m, m ∈ hellos → ∃ p n, m = OHello (C := unit) p n ∧ p ∈ peers ∧ n ∈ pe_outgoingNONCES e ∧ pe_nonces2peers e !! n = Some p) →
  (∀ p, p ∈ peers → ∃ n, pe_peers2nonces e !! p = Some n ∧ OHello p n ∈ hellos) →
  (∀ m, m ∈ ds → ∃ p k r, OHello p k ∈ hellos ∧ net !! p = Some r ∧ m = ODigest (elements (pe_state r)) k tt) →
  owners_ok e (told_by e ds) owners → (∀ n k, (0 < k)%nat → (pick n k < k)%nat) →
  ∃ m, map_requests pick (map_to_list owners) ∅ = Ok m ∧
  let reqs := (λ r, OReq r.1 r.2 (default 0 (pe_peers2nonces e !! r.1))) <$> map_to_list m in
  (∀ x, x ∈ reqs ≫= responses net hellos → ∃ its k, x = ORes its tt k ∧ k ∈ pe_outgoingNONCES e)
  ∧ ∀ n, (∃ its k, ORes its tt k ∈ reqs ≫= responses net hellos ∧ n ∈ its) ↔ is_Some (owners !! n).
Proof.
  intros Hhello Hpeer Hds Hown Hpick.
  assert (∀ n p, told_by e ds n p → ∃ r k, net !! p = Some r ∧ n ∈ pe_state r ∧ pe_peers2nonces e !! p = Some k
    ∧ k ∈ pe_outgoingNONCES e ∧ k ∈ pe_incomingNONCES (greeted p hellos r)) as Htold.
  { intros n p (d & k & Hin & Hn & ->). destruct (Hds _ Hin) as (q & k' & r & Hh & Hr & [= -> ->]).
    destruct (Hhello _ Hh) as (? & ? & [= <- <-] & Hq & _ & Hnp). rewrite Hnp. cbn.
    destruct (Hpeer q Hq) as (k & Hk & Hh'). destruct (Hhello _ Hh') as (? & ? & [= <- <-] & _ & Hko & _).
    exists r, k. split_and!; try done; [by apply elem_of_elements|]. apply greeted_spec. by right. }
  destruct (map_requests_spec pick (map_to_list owners) ∅ Hpick) as (m & Em & Hall & _ & Honly & Hfull).
  { intros n l Hin%elem_of_map_to_list. specialize (Hown n). rewrite Hin in Hown. apply Hown. }
  assert (∀ p its n, m !! p = Some its → n ∈ its → is_Some (owners !! n) ∧ told_by e ds n p) as Hsrc.
  { intros p its n Hp Hn. destruct (Honly p its n Hp Hn) as [(?&H&_)|(l & Hin%elem_of_map_to_list & Hpl)].
    { by rewrite lookup_empty in H. }
    specialize (Hown n). rewrite Hin in Hown. split; [by eexists|]. by apply Hown. }
  exists m. split; [done|]. cbn. split.
  - intros x (p & its & k & r & Hreq & Hr & Hx)%elem_of_responses.
    apply list_elem_of_fmap in Hreq as ([p' its'] & [= -> -> ->] & Hin%elem_of_map_to_list).
    destruct (Hfull _ _ Hin) as [H|Hne]; [by rewrite lookup_empty in H|].
    destruct its' as [|n its']; [done|]. destruct (Hsrc p' _ n Hin) as [_ Ht]; [by left|].
    destruct (Htold n p' Ht) as (r' & k & _ & _ & Hk & Hko & _). cbn in Hx. rewrite Hk in Hx. cbn in Hx.
    unfold OnReq in Hx. case_bool_decide; [|by apply not_elem_of_nil in Hx].
    apply list_elem_of_singleton in Hx as ->. by eauto.
  - intros n. split.
    + intros (its & k & (p & its' & k' & r & Hreq & Hr & Hx)%elem_of_responses & Hn).
      apply list_elem_of_fmap in Hreq as ([p' its2] & [= -> -> ->] & Hin%elem_of_map_to_list).
      unfold OnReq in Hx. case_bool_decide; [|by apply not_elem_of_nil in Hx].
      apply list_elem_of_singleton in Hx. simplify_eq. apply list_elem_of_filter in Hn as [_ Hn].
      by destruct (Hsrc p' its2 n Hin Hn).
    + intros [l Hl]. destruct (Hall n l) as (p & its & Hp & Hn & Hpl); [by apply elem_of_map_to_list|].
      destruct (Hsrc p its n Hp Hn) as [_ Ht]. destruct (Htold n p Ht) as (r & k & Hr & Hnr & Hk & _ & Hki).
      eexists _, k. split.
      * apply elem_of_responses. exists p, its, k, r. split_and!; [|done|].
        { apply list_elem_of_fmap. exists (p, its). cbn. rewrite Hk. split; [done|by apply elem_of_map_to_list]. }
        unfold OnReq. rewrite bool_decide_eq_true_2 by done. by left.
      * apply list_elem_of_filter. split; [|done]. by rewrite (proj1 (greeted_spec p hellos r)).
Qed.

(** C24. A round of the pull algorithm completes.  An engine at rest starts a round
    with some peers, and their engines answer.  Some of the digests arrive, in
    any order; the engine asks the owners it picks, whatever the random
    choices; the responses arrive in any order.  At the end of the round it is
    at rest and holds what it held and everything held by the peers whose
    digests arrived. *)
Theorem pull_round_complete (e : PullEngine) (peers : list bytes) (draws : list Z) (net : gmap bytes PullEngine)
    (pick : Z → nat → nat) :
  at_rest e → NoDup draws → (length peers ≤ length draws)%nat → (∀ n k, (0 < k)%nat → (pick n k < k)%nat) →
  ∃ e1 hellos, initiatePull peers draws e = Ok (e1, hellos) ∧
  ∀ ds, ds ⊆+ hellos ≫= digests net →
  ∃ e2 reqs, processIncomingDigests pick (foldl receive e1 ds) = Ok (e2, reqs) ∧
  ∀ rs, rs ≡ₚ reqs ≫= responses net hellos →
  at_rest (endPull (foldl receive e2 rs))
  ∧ ∀ n, n ∈ pe_state (endPull (foldl receive e2 rs)) ↔
      n ∈ pe_state e ∨ ∃ d k, ODigest d k tt ∈ ds ∧ n ∈ d.
Proof.
  intros (Hown & Hpn & Hnp & Hout & Hres) Hnd Hlen Hpick. unfold initiatePull.
  destruct (greet_all_total (C := unit) peers draws (set_acceptingDigests true e) Hnd) as [[e1 hellos] E1]; [|done|].
  { cbn. rewrite Hout. set_solver. }
  destruct (greet_all_spec _ _ _ _ _ E1) as ((Hst1 & Hown1 & Had1 & Har1 & Hin1) & _ & _ & Hhello & Hpeer & _).
  cbn in Hst1, Hown1, Had1, Har1. rewrite E1. cbn. eexists _, _. split; [reflexivity|]. intros ds Hds.
  set (e1' := after_func TProcessDigests e1).
  assert (∀ m, m ∈ ds → ∃ p k r, OHello p k ∈ hellos ∧ net !! p = Some r
    ∧ m = ODigest (elements (pe_state r)) k tt) as Hfrom.
  { intros m Hm. apply elem_of_digests. by eapply elem_of_submseteq. }
  destruct (receive_digests e1' ds) as (owners & E2 & Howners); [by rewrite <-Hown|done| |].
  { intros m Hm. destruct (Hfrom m Hm) as (p & k & r & Hh & _ & ->). eexists _, k. split; [done|].
    by destruct (Hhello _ Hh) as (? & ? & [= <- <-] & _ & ? & _). }
  destruct (requests_answered e1' hellos ds net peers owners pick Hhello Hpeer Hfrom Howners Hpick) as (m & Em & Hr1 & Hr2).
  rewrite E2. unfold processIncomingDigests. cbn [pe_item2owners set_owners set_acceptingDigests]. rewrite Em. cbn.
  eexists _, _. split; [reflexivity|]. intros rs Hrs. cbn in Hr1, Hr2.
  set (e2 := after_func TEndPull _).
  destruct (receive_responses e2 rs) as (s & E3 & Hs); [done| |].
  { intros x Hx. rewrite Hrs in Hx. destruct (Hr1 x Hx) as (its & k & -> & Hk). by exists its, k. }
  rewrite E3. split; [by split_and!|]. intros n. cbn. rewrite Hs. setoid_rewrite Hrs. rewrite Hr2. cbn.
  rewrite Hst1. specialize (Howners n). cbn in Howners. rewrite Hst1 in Howners. split.
  - intros [?|[l Hl]]; [by left|]. rewrite Hl in Howners. destruct Howners as (_ & Hne & Hall).
    destruct l as [|p l]; [done|]. destruct (Hall p) as (d & k & ? & ? & _); [by left|]. right. by eauto.
  - intros [?|(d & k & Hin & Hn)]; [by left|]. destruct (owners !! n); [right; by eexists|left].
    destruct Howners as [?|Hno]; [done|]. exfalso. eapply Hno. by exists d, k.
Qed.
