(* ===== verification/Discovery.v ===== *)
(** * Membership (gossip/discovery/discovery_impl.go)

    A peer keeps the members it has heard of, alive or presumed dead, with the
    time each of them last gave: the incarnation of the member and a number it
    counts up.  Members are heard of through alive messages, directly or in
    membership responses of others, and expire when nothing is heard.

    Four kinds of goroutines work on the state.  The one that handles messages
    takes the lock several times for one message; what it does between two
    points without the lock is one step ([hstep] says where it is), and the
    others run in between.  [time.Now()] is an argument.  Messages are signed
    and checked by the [CryptoService], an interface. *)

From Stdlib Require Import Strings.Byte.
From stdpp Require Import base numbers strings gmap list.
From S2P Require Import Prelude GossipStore.
Local Open Scope Z_scope.

Record NetworkMember := mkNetworkMember { nm_Endpoint : bytes; nm_Metadata : slice; nm_PKIid : slice }.
Record timestamp := mkTimestamp { ts_incTime : Z; ts_seqNum : Z; ts_lastSeen : Z }.

Class CryptoService := {
  ValidateAliveMsg : AliveMessage → bool;
  SignMessage : AliveMessage → AliveMessage }.

(** Where the message goroutine is: at the start of an alive message or of a
    member reported dead, or between two of its locked sections. *)
Inductive hstep :=
  | HAlive (m : AliveMessage)
  | HLearnNew (m : AliveMessage)
  | HRead (m : AliveMessage)
  | HRead2 (m : AliveMessage)
  | HResurrect (m : AliveMessage)
  | HLearnExisting (m : AliveMessage)
  | HDead (m : AliveMessage)
  | HLearnDead (m : AliveMessage)
  | HRespond (m : AliveMessage) (known : list bytes).

(** The goroutines that answer membership requests. *)
Inductive rstep := RStart (m : Member) (known : list bytes) | RSigned (m : Member) (known : list bytes) (self : AliveMessage).

(** What is asked of the [CommService]. *)
Inductive disc_out :=
  | DSend (peer : NetworkMember) (msg : GossipMessage)
  | DGossip (msg : GossipMessage)
  | DCloseConn (peer : NetworkMember).

Record Disc := mkDisc {
  d_pkiID : slice; d_endpoint : bytes; d_incTime : Z; d_metadata : slice; d_seqNum : Z;
  d_deadLastTS : gmap bytes timestamp; d_aliveLastTS : gmap bytes timestamp; d_id2Member : gmap bytes NetworkMember;
  d_Alive : list AliveMessage; d_Dead : list AliveMessage; d_toDie : bool;
  d_todo : list hstep; d_responding : list rstep; d_expiring : list (list bytes); d_out : list disc_out }.

Definition newDisc (self : NetworkMember) (now : Z) : Disc :=
  mkDisc (nm_PKIid self) (nm_Endpoint self) (u64 now) (nm_Metadata self) 0 ∅ ∅ ∅ [] [] false [] [] [] [].

(** ** Fields *)
Definition set_members (dead alive : gmap bytes timestamp) (members : gmap bytes NetworkMember)
    (cachedAlive cachedDead : list AliveMessage) (d : Disc) : Disc :=
  mkDisc (d_pkiID d) (d_endpoint d) (d_incTime d) (d_metadata d) (d_seqNum d) dead alive members cachedAlive cachedDead
    (d_toDie d) (d_todo d) (d_responding d) (d_expiring d) (d_out d).
Definition set_self (endpoint : bytes) (metadata : slice) (seqNum : Z) (d : Disc) : Disc :=
  mkDisc (d_pkiID d) endpoint (d_incTime d) metadata seqNum (d_deadLastTS d) (d_aliveLastTS d) (d_id2Member d)
    (d_Alive d) (d_Dead d) (d_toDie d) (d_todo d) (d_responding d) (d_expiring d) (d_out d).
Definition set_tasks (toDie : bool) (todo : list hstep) (responding : list rstep) (expiring : list (list bytes))
    (out : list disc_out) (d : Disc) : Disc :=
  mkDisc (d_pkiID d) (d_endpoint d) (d_incTime d) (d_metadata d) (d_seqNum d) (d_deadLastTS d) (d_aliveLastTS d)
    (d_id2Member d) (d_Alive d) (d_Dead d) toDie todo responding expiring out.
Definition set_todo (todo : list hstep) (d : Disc) : Disc :=
  set_tasks (d_toDie d) todo (d_responding d) (d_expiring d) (d_out d) d.
Definition set_responding (r : list rstep) (d : Disc) : Disc :=
  set_tasks (d_toDie d) (d_todo d) r (d_expiring d) (d_out d) d.
Definition set_expiring (x : list (list bytes)) (d : Disc) : Disc :=
  set_tasks (d_toDie d) (d_todo d) (d_responding d) x (d_out d) d.
Definition comm (o : list disc_out) (d : Disc) : Disc :=
  set_tasks (d_toDie d) (d_todo d) (d_responding d) (d_expiring d) (d_out d ++ o) d.

(** ** Times *)
Definition tsToTime (ts : Z) : Z := i64 ts.
Definition same (a : timestamp) (b : PeerTime) : bool :=
  bool_decide (u64 (ts_incTime a) = pt_IncNumber b) && bool_decide (ts_seqNum a = pt_SeqNum b).
Definition before (a : timestamp) (b : PeerTime) : bool :=
  (bool_decide (u64 (ts_incTime a) = pt_IncNumber b) && bool_decide (ts_seqNum a < pt_SeqNum b))
  || bool_decide (u64 (ts_incTime a) < pt_IncNumber b).
Definition stamp (now : Z) (t : PeerTime) : timestamp := mkTimestamp (tsToTime (pt_IncNumber t)) (pt_SeqNum t) now.

Definition member_of (m : Member) : NetworkMember := mkNetworkMember (mb_Endpoint m) (mb_Metadata m) (mb_PkiID m).

(** [util.IndexInSlice] with [samePKIidAliveMessage]. *)
Fixpoint indexOf (id : bytes) (l : list AliveMessage) : res (option nat) :=
  match l with
  | [] => Ok None
  | a :: l =>
      m ← deref (am_Membership a);
      if bool_decide (sl (mb_PkiID m) = id) then Ok (Some O)
      else i ← indexOf id l; Ok (option_map S i)
  end.

Section discovery.
Context `{!CryptoService}.

(** ** Learning of members *)
Definition learn_alive (now : Z) (am : AliveMessage) : M Disc unit := λ d,
  m ← deref (am_Membership am);
  if bytes_Equal (mb_PkiID m) (d_pkiID d) then Ok (tt, d)
  else
    t ← deref (am_Timestamp am);
    Ok (tt, set_members (d_deadLastTS d) (<[sl (mb_PkiID m) := stamp now t]> (d_aliveLastTS d)) (d_id2Member d)
              (d_Alive d ++ [am]) (d_Dead d) d).
Definition learn_dead (now : Z) (dm : AliveMessage) : M Disc unit := λ d,
  m ← deref (am_Membership dm);
  if bytes_Equal (mb_PkiID m) (d_pkiID d) then Ok (tt, d)
  else
    t ← deref (am_Timestamp dm);
    Ok (tt, set_members (<[sl (mb_PkiID m) := stamp now t]> (d_deadLastTS d)) (d_aliveLastTS d) (d_id2Member d)
              (d_Alive d) (d_Dead d ++ [dm]) d).
Definition learn_member (a : AliveMessage) : M Disc unit := λ d,
  m ← deref (am_Membership a);
  Ok (tt, set_members (d_deadLastTS d) (d_aliveLastTS d) (<[sl (mb_PkiID m) := member_of m]> (d_id2Member d))
            (d_Alive d) (d_Dead d) d).

Fixpoint each {A} (f : A → M Disc unit) (l : list A) : M Disc unit :=
  match l with [] => mret tt | a :: l => _ ← f a; each f l end.

Definition learnNewMembers (now : Z) (aliveMembers deadMembers : list AliveMessage) : M Disc unit :=
  _ ← each (learn_alive now) aliveMembers;
  _ ← each (learn_dead now) deadMembers;
  each learn_member (aliveMembers ++ deadMembers).

(** One message of [learnExistingMembers]. *)
Definition learn_existing (now : Z) (am : AliveMessage) : M Disc unit := λ d,
  m ← deref (am_Membership am);
  let id := sl (mb_PkiID m) in
  member ← deref (d_id2Member d !! id);
  let members := <[id := mkNetworkMember (mb_Endpoint m) (mb_Metadata m) (nm_PKIid member)]> (d_id2Member d) in
  let d := set_members (d_deadLastTS d) (d_aliveLastTS d) members (d_Alive d) (d_Dead d) d in
  if bool_decide (is_Some (d_deadLastTS d !! id)) then Ok (tt, d)
  else if negb (bool_decide (is_Some (d_aliveLastTS d !! id))) then Ok (tt, d)
  else
    t ← deref (am_Timestamp am);
    i ← indexOf id (d_Alive d);
    Ok (tt, set_members (d_deadLastTS d) (<[id := stamp now t]> (d_aliveLastTS d)) (d_id2Member d)
              (match i with None => d_Alive d ++ [am] | Some i => <[i := am]> (d_Alive d) end) (d_Dead d) d).
Definition learnExistingMembers (now : Z) (aliveArr : list AliveMessage) : M Disc unit :=
  each (learn_existing now) aliveArr.

Definition resurrectMember (now : Z) (am : AliveMessage) (t : PeerTime) : M Disc unit := λ d,
  m ← deref (am_Membership am);
  let id := sl (mb_PkiID m) in
  i ← indexOf id (d_Dead d);
  j ← indexOf id (d_Alive d);
  Ok (tt, set_members (delete id (d_deadLastTS d)) (<[id := stamp now t]> (d_aliveLastTS d))
            (<[id := member_of m]> (d_id2Member d))
            (match j with None => d_Alive d ++ [am] | Some _ => d_Alive d end)
            (match i with None => d_Dead d | Some i => list_delete i (d_Dead d) end) d).

(** ** The message goroutine *)

(** The start of [handleAliveMessage], up to its first look at the members. *)
Definition alive_start (m : AliveMessage) : M Disc (list hstep) := λ d,
  mb ← deref (am_Membership m);
  if negb (ValidateAliveMsg m) then Ok ([], d)
  else if bytes_Equal (mb_PkiID mb) (d_pkiID d) then Ok ([], d)
  else if bool_decide (is_Some (d_id2Member d !! sl (mb_PkiID mb))) then Ok ([HRead m], d)
  else Ok ([HLearnNew m], d).

(** The second look: a member is alive or dead, and not both. *)
Definition alive_read (m : AliveMessage) : M Disc (list hstep) := λ d,
  mb ← deref (am_Membership m);
  let id := sl (mb_PkiID mb) in
  match d_aliveLastTS d !! id, d_deadLastTS d !! id with
  | None, None => Panic
  | Some _, Some _ => Panic
  | None, Some lastDeadTS =>
      ts ← deref (am_Timestamp m);
      Ok (if before lastDeadTS ts then [HResurrect m] else [], d)
  | Some _, None => Ok ([HRead2 m], d)
  end.
(** The third look. *)
Definition alive_read2 (m : AliveMessage) : M Disc (list hstep) := λ d,
  mb ← deref (am_Membership m);
  match d_aliveLastTS d !! sl (mb_PkiID mb) with
  | Some lastAliveTS =>
      ts ← deref (am_Timestamp m);
      Ok (if before lastAliveTS ts then [HLearnExisting m] else [], d)
  | None => Ok ([], d)
  end.

(** A member reported dead, in [handleMsgFromComm]. *)
Definition dead_start (dm : AliveMessage) : M Disc (list hstep) := λ d,
  mb ← deref (am_Membership dm);
  if negb (ValidateAliveMsg dm) then Ok ([], d)
  else if bool_decide (is_Some (d_id2Member d !! sl (mb_PkiID mb))) then Ok ([], d)
  else Ok ([HLearnDead dm], d).

(** One step of the goroutine: what is to be done next for the message. *)
Definition hstep_run (now : Z) (h : hstep) : M Disc (list hstep) :=
  match h with
  | HAlive m => alive_start m
  | HLearnNew m => _ ← learnNewMembers now [m] []; mret []
  | HRead m => alive_read m
  | HRead2 m => alive_read2 m
  | HResurrect m => t ← lift (deref (am_Timestamp m)); _ ← resurrectMember now m t; mret []
  | HLearnExisting m => _ ← learnExistingMembers now [m]; mret []
  | HDead dm => dead_start dm
  | HLearnDead dm => _ ← learnNewMembers now [] [dm]; mret []
  | HRespond m known => λ d,
      mb ← deref (am_Membership m);
      Ok ([], set_responding (d_responding d ++ [RStart mb known]) d)
  end.

(** [handleMsgFromComm]: what is to be done for a message. *)
Definition handleMsgFromComm (m : GossipMessage) : res (list hstep) :=
  match gm_Content m with
  | CMemReq memReq =>
      self ← deref (mq_SelfInformation memReq);
      Ok [HAlive self; HRespond self (mq_Known memReq)]
  | CAlive alive => Ok [HAlive alive]
  | CMemRes memResp => Ok ((HAlive <$> mr_Alive memResp) ++ (HDead <$> mr_Dead memResp))
  | _ => Ok []
  end.

(** ** The other goroutines *)
Definition createAliveMessage (d : Disc) : AliveMessage * Disc :=
  let seqNum := u64 (d_seqNum d + 1) in
  (SignMessage (mkAlive (Some (mkMember (d_endpoint d) (d_metadata d) (d_pkiID d)))
     (Some (mkPeerTime (d_incTime d) seqNum)) (Some [])),
   set_self (d_endpoint d) (d_metadata d) seqNum d).

(** The dead members the asker does not know: the loop stops at the first. *)
Fixpoint first_unknown (known : list bytes) (dead : list AliveMessage) : res (list AliveMessage) :=
  match dead with
  | [] => Ok []
  | dm :: dead =>
      m ← deref (am_Membership dm);
      if bool_decide (sl (mb_PkiID m) ∈ known) then first_unknown known dead else Ok [dm]
  end.
Definition createMembershipResponse (known : list bytes) (aliveMsg : AliveMessage) (d : Disc) : res MembershipResponse :=
  deadPeers ← first_unknown known (d_Dead d);
  Ok (mkMemRes (d_Alive d ++ [aliveMsg]) deadPeers).

(** A step of a goroutine of [sendMemResponse]. *)
Definition respond (i : nat) : M Disc unit := λ d,
  match d_responding d !! i with
  | None => Ok (tt, d)
  | Some (RStart m known) =>
      let '(self, d) := createAliveMessage d in
      Ok (tt, set_responding (<[i := RSigned m known self]> (d_responding d)) d)
  | Some (RSigned m known self) =>
      memResp ← createMembershipResponse known self d;
      Ok (tt, comm [DSend (member_of m) (newGossip (CMemRes memResp))]
                (set_responding (list_delete i (d_responding d)) d))
  end.

Definition getKnownPeers (d : Disc) : list bytes := (map_to_list (d_id2Member d)).*1.
Definition createMembershipRequest (d : Disc) : GossipMessage * Disc :=
  let '(self, d) := createAliveMessage d in
  (newGossip (CMemReq (mkMemReq (Some self) (getKnownPeers d))), d).

(** [aliveExpirationTimeout] in nanoseconds. *)
Context (aliveExpirationTimeout : Z).
Definition getDeadMembers (now : Z) (d : Disc) : list bytes :=
  (map_to_list (filter (λ e, aliveExpirationTimeout < now - ts_lastSeen e.2) (d_aliveLastTS d))).*1.

Definition expire_member (pkiID : bytes) : M Disc (list disc_out) := λ d,
  match d_aliveLastTS d !! pkiID with
  | None => Ok ([], d)
  | Some lastTS =>
      member ← deref (d_id2Member d !! pkiID);
      i ← indexOf pkiID (d_Alive d);
      Ok ([DCloseConn member],
          set_members (<[pkiID := lastTS]> (d_deadLastTS d)) (delete pkiID (d_aliveLastTS d)) (d_id2Member d)
            (match i with None => d_Alive d | Some i => list_delete i (d_Alive d) end)
            (match i with None => d_Dead d | Some i => d_Dead d ++ option_list (d_Alive d !! i) end) d)
  end.
Fixpoint expire_loop (dead : list bytes) : M Disc (list disc_out) :=
  match dead with
  | [] => mret []
  | pkiID :: dead => o ← expire_member pkiID; os ← expire_loop dead; mret (o ++ os)
  end.
Definition expireDeadMembers (dead : list bytes) : M Disc unit := λ d,
  '(closes, d) ← expire_loop dead d;
  Ok (tt, comm closes d).

Definition periodicalCheckAlive (now : Z) (d : Disc) : Disc :=
  match getDeadMembers now d with
  | [] => d
  | dead => set_expiring (d_expiring d ++ [dead]) d
  end.
Definition handlePresumedDead (deadPeer : bytes) (d : Disc) : Disc :=
  if bool_decide (is_Some (d_aliveLastTS d !! deadPeer)) then set_expiring (d_expiring d ++ [[deadPeer]]) d else d.

Definition periodicalSendAlive (d : Disc) : Disc :=
  let '(self, d) := createAliveMessage d in comm [DGossip (newGossip (CAlive self))] d.

Fixpoint copy_members (ids : list bytes) (members : gmap bytes NetworkMember) : res (list NetworkMember) :=
  match ids with
  | [] => Ok []
  | id :: ids => m ← deref (members !! id); ms ← copy_members ids members; Ok (m :: ms)
  end.
Definition copyLastSeen (lastSeenMap : gmap bytes timestamp) (d : Disc) : res (list NetworkMember) :=
  copy_members (map_to_list lastSeenMap).*1 (d_id2Member d).

Definition sendMembershipRequest (member : NetworkMember) (d : Disc) : Disc :=
  let '(req, d) := createMembershipRequest d in comm [DSend member req] d.
(** [ping]: which members answer. *)
Definition periodicalReconnectToDead (ping : NetworkMember → bool) : M Disc unit := λ d,
  members ← copyLastSeen (d_deadLastTS d) d;
  Ok (tt, foldl (λ d m, if ping m then sendMembershipRequest m d else d) d members).

Definition connect2BootstrapPeers (endpoints : list bytes) (d : Disc) : Disc :=
  let '(req, d) := createMembershipRequest d in
  comm ((λ endpoint, DSend (mkNetworkMember endpoint None None) req) <$> endpoints) d.

(** [util.GetRandomIndices]; [draws] are the random numbers to come, of which
    [rand.Intn] takes the remainder. *)
Fixpoint draw_indices (indiceCount : Z) (draws : list nat) (indices : list nat) : res (list nat) :=
  if bool_decide (indiceCount ≤ Z.of_nat (length indices)) then Ok indices
  else match draws with
       | [] => OutOfFuel
       | n :: draws => draw_indices indiceCount draws (if bool_decide (n ∈ indices) then indices else indices ++ [n])
       end.
Definition GetRandomIndices (indiceCount highestIndex : Z) (draws : list nat) : res (list nat) :=
  if bool_decide (highestIndex + 1 < indiceCount) then Ok []
  else if bool_decide (highestIndex + 1 = indiceCount) then Ok (seq 0 (Z.to_nat indiceCount))
  else draw_indices indiceCount ((λ n, n `mod` Z.to_nat (highestIndex + 1))%nat <$> draws) [].

Fixpoint pulled_peers (indices : list nat) (alive : list AliveMessage) : res (list NetworkMember) :=
  match indices with
  | [] => Ok []
  | i :: indices =>
      a ← deref (alive !! i);
      m ← deref (am_Membership a);
      ms ← pulled_peers indices alive;
      Ok (member_of m :: ms)
  end.
Definition InitiateSync (peerNum : Z) (draws : list nat) : M Disc unit := λ d,
  if d_toDie d then Ok (tt, d)
  else
    let '(memReq, d) := createMembershipRequest d in
    let n := Z.of_nat (length (d_Alive d)) in
    indices ← GetRandomIndices (Z.min peerNum n) (n - 1) draws;
    peers ← pulled_peers indices (d_Alive d);
    Ok (tt, comm ((λ p, DSend p memReq) <$> peers) d).

Fixpoint members_of (alive : list AliveMessage) : res (list NetworkMember) :=
  match alive with
  | [] => Ok []
  | a :: alive => m ← deref (am_Membership a); ms ← members_of alive; Ok (member_of m :: ms)
  end.
Definition GetMembership (d : Disc) : res (list NetworkMember) := if d_toDie d then Ok [] else members_of (d_Alive d).

Definition UpdateMetadata (md : slice) (d : Disc) : Disc := set_self (d_endpoint d) md (d_seqNum d) d.
Definition UpdateEndpoint (endpoint : bytes) (d : Disc) : Disc := set_self endpoint (d_metadata d) (d_seqNum d) d.
Definition disc_Stop (d : Disc) : Disc := set_tasks true (d_todo d) (d_responding d) (d_expiring d) (d_out d) d.

(** ** Executions *)
Inductive disc_event :=
  | EMessage (m : GossipMessage)
  | EHandle (now : Z)
  | ECheckAlive (now : Z)
  | EPresumedDead (id : bytes)
  | EExpire (i : nat)
  | ERespond (i : nat)
  | ESendAlive
  | EReconnect (ping : NetworkMember → bool)
  | EConnect (endpoints : list bytes)
  | ESync (peerNum : Z) (draws : list nat)
  | EUpdateMetadata (md : slice)
  | EUpdateEndpoint (endpoint : bytes)
  | EStop.

(** A message is taken when the one before is done with. *)
Definition disc_step (ev : disc_event) (d : Disc) : res Disc :=
  match ev with
  | EMessage m =>
      match d_todo d with
      | [] => if d_toDie d then Ok d else todo ← handleMsgFromComm m; Ok (set_todo todo d)
      | _ => Ok d
      end
  | EHandle now =>
      match d_todo d with
      | [] => Ok d
      | h :: rest => '(next, d) ← hstep_run now h (set_todo rest d); Ok (set_todo (next ++ d_todo d) d)
      end
  | ECheckAlive now => Ok (periodicalCheckAlive now d)
  | EPresumedDead id => Ok (handlePresumedDead id d)
  | EExpire i =>
      match d_expiring d !! i with
      | None => Ok d
      | Some dead => '(_, d) ← expireDeadMembers dead (set_expiring (list_delete i (d_expiring d)) d); Ok d
      end
  | ERespond i => '(_, d) ← respond i d; Ok d
  | ESendAlive => Ok (periodicalSendAlive d)
  | EReconnect ping => '(_, d) ← periodicalReconnectToDead ping d; Ok d
  | EConnect endpoints => Ok (connect2BootstrapPeers endpoints d)
  | ESync peerNum draws => '(_, d) ← InitiateSync peerNum draws d; Ok d
  | EUpdateMetadata md => Ok (UpdateMetadata md d)
  | EUpdateEndpoint endpoint => Ok (UpdateEndpoint endpoint d)
  | EStop => Ok (disc_Stop d)
  end.
Fixpoint disc_run (l : list disc_event) (d : Disc) : res Disc :=
  match l with [] => Ok d | ev :: l => d ← disc_step ev d; disc_run l d end.
End discovery.
