(* ===== verification/DiscoveryProofs.v ===== *)
(** * Membership is consistent in every interleaving

    A member is alive or dead and never both, the cached messages are those of
    the members with the times the peer goes by, and the time known of a member
    never goes back; a member that is dead comes back only with a newer time. *)

From Stdlib Require Import Strings.Byte.
From stdpp Require Import base numbers strings gmap list.
From S2P Require Import Prelude GossipStore Discovery.
Local Open Scope Z_scope.

(** ** Messages *)
Definition alive_id (a : AliveMessage) : bytes :=
  match am_Membership a with Some m => sl (mb_PkiID m) | None => [] end.
Definition wf_alive (a : AliveMessage) : Prop :=
  is_Some (am_Membership a) ∧ ∃ t, am_Timestamp a = Some t ∧ 0 ≤ pt_IncNumber t < 2 ^ 64.
Definition ids (l : list AliveMessage) : list bytes := alive_id <$> l.

(** A stamp holds the time of a message. *)
Definition stamp_of (a : AliveMessage) (x : timestamp) : Prop :=
  ∃ t, am_Timestamp a = Some t ∧ u64 (ts_incTime x) = pt_IncNumber t ∧ ts_seqNum x = pt_SeqNum t.

Lemma u64_i64 z : 0 ≤ z < 2 ^ 64 → u64 (i64 z) = z.
Proof.
  intros Hz. unfold u64, i64.
  destruct (decide (z < 2 ^ 63)).
  - rewrite (Z.mod_small (z + 2 ^ 63)) by lia. rewrite Z.mod_small; lia.
  - replace (z + 2 ^ 63) with (z - 2 ^ 63 + 1 * 2 ^ 64) by lia. rewrite Z.mod_add, (Z.mod_small (z - 2 ^ 63)) by lia.
    replace (z - 2 ^ 63 - 2 ^ 63) with (z + (-1) * 2 ^ 64) by lia. rewrite Z.mod_add, Z.mod_small; lia.
Qed.

Lemma stamp_of_stamp now a t : wf_alive a → am_Timestamp a = Some t → stamp_of a (stamp now t).
Proof.
  intros (_ & t' & Ht' & Hr) Ht. exists t. simplify_eq. split; [done|]. cbn. split; [|done]. by apply u64_i64.
Qed.

(** [x] is before [y], in incarnation and number. *)
Definition stamp_lt (x y : timestamp) : Prop :=
  u64 (ts_incTime x) < u64 (ts_incTime y)
  ∨ (u64 (ts_incTime x) = u64 (ts_incTime y) ∧ ts_seqNum x < ts_seqNum y).
Definition stamp_eq (x y : timestamp) : Prop :=
  u64 (ts_incTime x) = u64 (ts_incTime y) ∧ ts_seqNum x = ts_seqNum y.

Lemma before_lt x t now a : wf_alive a → am_Timestamp a = Some t → before x t = true → stamp_lt x (stamp now t).
Proof.
  intros Hwf Ht Hb. destruct (stamp_of_stamp now a t Hwf Ht) as (t' & Ht' & H1 & H2). simplify_eq.
  unfold before in Hb. unfold stamp_lt. rewrite H1, H2. repeat case_bool_decide; cbn in Hb; try done; lia.
Qed.

(** ** A cached list and the times of its members *)
Definition cached_ok (l : list AliveMessage) (ts : gmap bytes timestamp) : Prop :=
  Forall wf_alive l ∧ NoDup (ids l) ∧ (∀ id, is_Some (ts !! id) → id ∈ ids l)
  ∧ ∀ a, a ∈ l → ∃ x, ts !! alive_id a = Some x ∧ stamp_of a x.

Lemma elem_of_ids id l : id ∈ ids l ↔ ∃ a, id = alive_id a ∧ a ∈ l.
Proof. apply list_elem_of_fmap. Qed.

Lemma cached_ids l ts id : cached_ok l ts → id ∈ ids l ↔ is_Some (ts !! id).
Proof.
  intros (_ & _ & H1 & H2). split; [|by apply H1]. intros (a & -> & Ha)%elem_of_ids.
  destruct (H2 a Ha) as (x & -> & _). by eexists.
Qed.

Lemma cached_nil : cached_ok [] ∅.
Proof. split_and!; [constructor..| |]; [intros id; rewrite lookup_empty; by intros [? ?]|set_solver]. Qed.

Lemma cached_add l ts a x : cached_ok l ts → wf_alive a → ts !! alive_id a = None → stamp_of a x →
  cached_ok (l ++ [a]) (<[alive_id a := x]> ts).
Proof.
  intros Hc Ha Hnone Hx. pose proof (cached_ids _ _ (alive_id a) Hc) as Hids.
  assert (alive_id a ∉ ids l) as Hnin. { rewrite Hids, Hnone. by intros [??]. }
  destruct Hc as (H1 & H2 & H3 & H4). split_and!.
  - apply Forall_app. split; [done|by constructor].
  - unfold ids. rewrite fmap_app. apply NoDup_app. split_and!; [done| |apply NoDup_singleton].
    intros id Hid Hid'. cbn in Hid'. apply list_elem_of_singleton in Hid' as ->. done.
  - intros id. rewrite lookup_insert_is_Some. unfold ids. rewrite fmap_app, elem_of_app. cbn.
    intros [<-|[_ Hs]]; [right; by left|left; by apply H3].
  - intros b [Hb|Hb]%elem_of_app.
    + destruct (H4 b Hb) as (y & Hy & Hs). exists y. split; [|done]. rewrite lookup_insert_ne; [done|].
      intros E. apply Hnin. rewrite E. apply elem_of_ids. by eauto.
    + apply list_elem_of_singleton in Hb as ->. exists x. by rewrite lookup_insert_eq.
Qed.

Lemma cached_replace l ts i a b x : cached_ok l ts → l !! i = Some b → alive_id b = alive_id a → wf_alive a →
  stamp_of a x → cached_ok (<[i := a]> l) (<[alive_id a := x]> ts).
Proof.
  intros (H1 & H2 & H3 & H4) Hi Hid Ha Hx.
  assert (ids (<[i := a]> l) = ids l) as Eids.
  { unfold ids. rewrite list_fmap_insert, <-Hid. apply list_insert_id. by rewrite list_lookup_fmap, Hi. }
  split_and!.
  - by apply Forall_insert.
  - by rewrite Eids.
  - intros id. rewrite Eids, lookup_insert_is_Some. intros [<-|[_ Hs]]; [|by apply H3].
    rewrite <-Hid. apply elem_of_ids. exists b. split; [done|]. by eapply list_elem_of_lookup_2.
  - intros c (j & Hj)%list_elem_of_lookup_1. destruct (decide (i = j)) as [->|Hne].
    + rewrite list_lookup_insert_eq in Hj by (by eapply lookup_lt_Some). simplify_eq. exists x. by rewrite lookup_insert_eq.
    + rewrite list_lookup_insert_ne in Hj by done. destruct (H4 c) as (y & Hy & Hs); [by eapply list_elem_of_lookup_2|].
      exists y. split; [|done]. rewrite lookup_insert_ne; [done|]. intros E. apply Hne.
      apply (NoDup_lookup (ids l) i j (alive_id c) H2); unfold ids; rewrite list_lookup_fmap; [rewrite Hi|rewrite Hj];
        cbn; congruence.
Qed.

Lemma cached_remove l ts i a : cached_ok l ts → l !! i = Some a → cached_ok (list_delete i l) (delete (alive_id a) ts).
Proof.
  intros (H1 & H2 & H3 & H4) Hi. pose proof (delete_Permutation l i a Hi) as HP. fold (list_delete i l) in HP.
  assert ((alive_id a ∉ ids (list_delete i l)) ∧ NoDup (ids (list_delete i l))) as [Hnin Hnd].
  { unfold ids in *. rewrite HP in H2. cbn in H2. by apply NoDup_cons in H2. }
  split_and!; [| |intros id|intros b Hb].
  - rewrite HP in H1. by apply Forall_cons in H1 as [_ ?].
  - done.
  - rewrite lookup_delete_is_Some. intros [Hne Hs]. specialize (H3 id Hs). unfold ids in H3 |- *. rewrite HP in H3.
    by apply elem_of_cons in H3 as [?|?].
  - destruct (H4 b) as (x & Hx & Hs). { rewrite HP. by right. }
    exists x. split; [|done]. rewrite lookup_delete_ne; [done|]. intros E. apply Hnin. rewrite E.
    apply elem_of_ids. by eauto.
Qed.

Lemma indexOf_spec id l : Forall wf_alive l →
  (indexOf id l = Ok None ∧ (id ∉ ids l)) ∨ ∃ i a, indexOf id l = Ok (Some i) ∧ l !! i = Some a ∧ alive_id a = id.
Proof.
  induction 1 as [|a l Ha Hl IH]; cbn; [left; split; [done|apply not_elem_of_nil]|].
  destruct Ha as [[m Hm] _]. unfold alive_id at 1 3. rewrite Hm. cbn. case_bool_decide as E.
  - right. exists O, a. unfold alive_id. by rewrite Hm.
  - destruct IH as [[-> Hn]|(i & b & -> & Hi & Hb)].
    + left. split; [done|]. cbn. intros [?|?]%elem_of_cons; [|done]. by subst.
    + right. by exists (S i), b.
Qed.

(** ** Consistency *)
Record consistent (d : Disc) : Prop := mkConsistent {
  c_disjoint id : d_aliveLastTS d !! id = None ∨ d_deadLastTS d !! id = None;
  c_self : d_aliveLastTS d !! sl (d_pkiID d) = None ∧ d_deadLastTS d !! sl (d_pkiID d) = None;
  c_known id : id ≠ sl (d_pkiID d) →
    is_Some (d_id2Member d !! id) ↔ is_Some (d_aliveLastTS d !! id) ∨ is_Some (d_deadLastTS d !! id);
  c_alive : cached_ok (d_Alive d) (d_aliveLastTS d);
  c_dead : cached_ok (d_Dead d) (d_deadLastTS d);
  c_member id m : d_id2Member d !! id = Some m → sl (nm_PKIid m) = id }.

(** The time known of a member. *)
Definition known_ts (d : Disc) (id : bytes) : option timestamp :=
  match d_aliveLastTS d !! id with Some x => Some x | None => d_deadLastTS d !! id end.

(** From [d] to [d'] no time goes back, and a member that was not alive and is
    has a newer time. *)
Definition moves_on (d d' : Disc) : Prop :=
  ∀ id x, known_ts d id = Some x → ∃ x', known_ts d' id = Some x' ∧ (stamp_eq x x' ∨ stamp_lt x x')
    ∧ (d_aliveLastTS d !! id = None → is_Some (d_aliveLastTS d' !! id) → stamp_lt x x').

Lemma moves_on_refl d d' : d_aliveLastTS d' = d_aliveLastTS d → d_deadLastTS d' = d_deadLastTS d → moves_on d d'.
Proof.
  intros Ha Hd id x Hx. unfold known_ts in *. rewrite Ha, Hd. exists x. split; [done|]. split; [by left|].
  intros -> [??]. done.
Qed.
Lemma moves_on_trans d1 d2 d3 : moves_on d1 d2 → moves_on d2 d3 → moves_on d1 d3.
Proof.
  intros H12 H23 id x Hx. destruct (H12 id x Hx) as (y & Hy & Hxy & Hxy').
  destruct (H23 id y Hy) as (z & Hz & Hyz & Hyz'). exists z. split; [done|]. unfold stamp_eq, stamp_lt in *. split; [lia|].
  intros Hn Hs. destruct (d_aliveLastTS d2 !! id) as [w|] eqn:E; [|].
  - assert (stamp_lt x y) as Hlt by (apply Hxy'; [done|by eexists]). unfold stamp_lt in Hlt. lia.
  - assert (stamp_lt y z) as Hlt by (by apply Hyz'). unfold stamp_lt in Hlt. lia.
Qed.

Definition same_self (d d' : Disc) : Prop := d_pkiID d' = d_pkiID d.
Definition same_view (d d' : Disc) : Prop :=
  d_pkiID d' = d_pkiID d ∧ d_aliveLastTS d' = d_aliveLastTS d ∧ d_deadLastTS d' = d_deadLastTS d
  ∧ d_id2Member d' = d_id2Member d ∧ d_Alive d' = d_Alive d ∧ d_Dead d' = d_Dead d.

Lemma consistent_view d d' : same_view d d' → consistent d → consistent d'.
Proof.
  intros (E1 & E2 & E3 & E4 & E5 & E6) [H1 H2 H3 H4 H5 H6]. split; rewrite ?E1, ?E2, ?E3, ?E4, ?E5, ?E6; auto.
Qed.

(** Learning of a new member, alive or dead. *)
Lemma unknown_member d id : consistent d → id ≠ sl (d_pkiID d) → d_id2Member d !! id = None →
  d_aliveLastTS d !! id = None ∧ d_deadLastTS d !! id = None.
Proof.
  intros Hc Hne Hn. pose proof (c_known d Hc id Hne) as Hk. rewrite Hn in Hk.
  rewrite !eq_None_not_Some. split; intros Hs; by destruct (proj2 Hk ltac:(auto)).
Qed.

Lemma learn_new_eq now m mb t d : am_Membership m = Some mb → am_Timestamp m = Some t →
  sl (mb_PkiID mb) ≠ sl (d_pkiID d) →
  learnNewMembers now [m] [] d = Ok (tt, set_members (d_deadLastTS d) (<[sl (mb_PkiID mb) := stamp now t]> (d_aliveLastTS d))
    (<[sl (mb_PkiID mb) := member_of mb]> (d_id2Member d)) (d_Alive d ++ [m]) (d_Dead d) d).
Proof.
  intros Hmb Ht Hne. unfold learnNewMembers, mbind, M_bind. cbn [each app].
  unfold mbind, M_bind, mret, M_ret, learn_alive, learn_member. rewrite Hmb, Ht. cbn.
  unfold bytes_Equal. rewrite bool_decide_eq_false_2 by done. done.
Qed.

Lemma learn_new_ok now m d : consistent d → wf_alive m → alive_id m ≠ sl (d_pkiID d) →
  d_id2Member d !! alive_id m = None →
  ∃ d', learnNewMembers now [m] [] d = Ok (tt, d') ∧ consistent d' ∧ moves_on d d' ∧ d_pkiID d' = d_pkiID d
    ∧ d_todo d' = d_todo d.
Proof.
  intros Hc Hwf Hne Hn. destruct (unknown_member d _ Hc Hne Hn) as [Ha Hd].
  pose proof Hwf as ([mb Hmb] & t & Ht & _).
  assert (alive_id m = sl (mb_PkiID mb)) as Eid by (unfold alive_id; by rewrite Hmb).
  rewrite (learn_new_eq now m mb t d Hmb Ht) by congruence.
  eexists. split; [reflexivity|]. rewrite <-Eid. destruct Hc as [H1 H2 H3 H4 H5 H6]. split_and!; try done.
  - split; cbn.
    + intros id. destruct (decide (id = alive_id m)) as [->|?]; [by right|]. rewrite lookup_insert_ne by done. apply H1.
    + rewrite lookup_insert_ne by done. done.
    + intros id Hid. destruct (decide (id = alive_id m)) as [->|?]; [rewrite !lookup_insert_eq; by split; eauto|].
      rewrite !lookup_insert_ne by done. by apply H3.
    + apply cached_add; try done. by apply stamp_of_stamp.
    + done.
    + intros id nm. destruct (decide (id = alive_id m)) as [->|?]; [|rewrite lookup_insert_ne by done; apply H6].
      rewrite lookup_insert_eq. intros [= <-]. by rewrite Eid.
  - intros id x Hx. unfold known_ts in *. cbn. exists x.
    assert (id ≠ alive_id m) by (intros ->; by rewrite Ha, Hd in Hx). rewrite lookup_insert_ne by done.
    split; [done|]. split; [by left|]. intros -> [??]. done.
Qed.

Lemma learn_dead_eq now m mb t d : am_Membership m = Some mb → am_Timestamp m = Some t →
  learnNewMembers now [] [m] d = Ok (tt,
    if bool_decide (sl (mb_PkiID mb) = sl (d_pkiID d))
    then set_members (d_deadLastTS d) (d_aliveLastTS d) (<[sl (mb_PkiID mb) := member_of mb]> (d_id2Member d))
           (d_Alive d) (d_Dead d) d
    else set_members (<[sl (mb_PkiID mb) := stamp now t]> (d_deadLastTS d)) (d_aliveLastTS d)
           (<[sl (mb_PkiID mb) := member_of mb]> (d_id2Member d)) (d_Alive d) (d_Dead d ++ [m]) d).
Proof.
  intros Hmb Ht. unfold learnNewMembers, mbind, M_bind. cbn [each app].
  unfold mbind, M_bind, mret, M_ret, learn_dead, learn_member. rewrite Hmb, Ht. cbn.
  unfold bytes_Equal. by case_bool_decide.
Qed.

Lemma learn_dead_ok now m d : consistent d → wf_alive m → d_id2Member d !! alive_id m = None →
  ∃ d', learnNewMembers now [] [m] d = Ok (tt, d') ∧ consistent d' ∧ moves_on d d' ∧ d_pkiID d' = d_pkiID d
    ∧ d_todo d' = d_todo d.
Proof.
  intros Hc Hwf Hn. pose proof Hwf as ([mb Hmb] & t & Ht & _).
  assert (alive_id m = sl (mb_PkiID mb)) as Eid by (unfold alive_id; by rewrite Hmb).
  rewrite (learn_dead_eq now m mb t d Hmb Ht), <-Eid. eexists. split; [reflexivity|].
  pose proof (unknown_member d (alive_id m) Hc) as Hun. destruct Hc as [H1 H2 H3 H4 H5 H6].
  assert (∀ id nm, <[alive_id m := member_of mb]> (d_id2Member d) !! id = Some nm → sl (nm_PKIid nm) = id) as Hmem.
  { intros id nm. destruct (decide (id = alive_id m)) as [->|?]; [|rewrite lookup_insert_ne by done; apply H6].
    rewrite lookup_insert_eq. intros [= <-]. by rewrite Eid. }
  case_bool_decide as Es.
  { split_and!; [split; cbn; try done|by apply moves_on_refl|done..].
    intros id Hid. rewrite lookup_insert_ne by (intros <-; by apply Hid). by apply H3. }
  destruct (Hun Es Hn) as [Ha Hd]. split_and!; try done.
  - split; cbn; try done.
    + intros id. destruct (decide (id = alive_id m)) as [->|?]; [by left|]. rewrite lookup_insert_ne by done. apply H1.
    + by rewrite lookup_insert_ne.
    + intros id Hid. destruct (decide (id = alive_id m)) as [->|?]; [rewrite !lookup_insert_eq; by split; eauto|].
      rewrite !lookup_insert_ne by done. by apply H3.
    + apply cached_add; try done. by apply stamp_of_stamp.
  - intros id x Hx. unfold known_ts in *. cbn. exists x.
    assert (id ≠ alive_id m) by (intros ->; by rewrite Ha, Hd in Hx). rewrite lookup_insert_ne by done.
    split; [done|]. split; [by left|]. intros -> [??]. done.
Qed.

(** A member heard of again. *)
Lemma learn_existing_ok now m d x t : consistent d → wf_alive m → alive_id m ≠ sl (d_pkiID d) →
  known_ts d (alive_id m) = Some x → am_Timestamp m = Some t → before x t = true →
  ∃ d', learnExistingMembers now [m] d = Ok (tt, d') ∧ consistent d' ∧ moves_on d d' ∧ d_pkiID d' = d_pkiID d
    ∧ d_todo d' = d_todo d.
Proof.
  intros Hc Hwf Hne Hx Ht Hb. pose proof Hwf as ([mb Hmb] & _).
  assert (alive_id m = sl (mb_PkiID mb)) as Eid by (unfold alive_id; by rewrite Hmb).
  pose proof (before_lt x t now m Hwf Ht Hb) as Hlt. pose proof (stamp_of_stamp now m t Hwf Ht) as Hst.
  destruct Hc as [H1 H2 H3 H4 H5 H6].
  assert (is_Some (d_id2Member d !! alive_id m)) as [nm Hnm].
  { apply H3; [done|]. unfold known_ts in Hx. destruct (d_aliveLastTS d !! alive_id m); eauto. }
  set (nm' := mkNetworkMember (mb_Endpoint mb) (mb_Metadata mb) (nm_PKIid nm)).
  assert (∀ id k, <[alive_id m := nm']> (d_id2Member d) !! id = Some k → sl (nm_PKIid k) = id) as Hmem.
  { intros id k. destruct (decide (id = alive_id m)) as [->|?]; [|rewrite lookup_insert_ne by done; apply H6].
    rewrite lookup_insert_eq. intros [= <-]. cbn. by apply H6. }
  assert (∀ id, id ≠ sl (d_pkiID d) → is_Some (<[alive_id m := nm']> (d_id2Member d) !! id) ↔
    is_Some (d_aliveLastTS d !! id) ∨ is_Some (d_deadLastTS d !! id)) as Hkn.
  { intros id Hid. rewrite <-H3 by done. destruct (decide (id = alive_id m)) as [->|?].
    - rewrite lookup_insert_eq, Hnm. split; intros _; by eexists.
    - by rewrite lookup_insert_ne. }
  unfold learnExistingMembers. cbn [each]. unfold mbind, M_bind, mret, M_ret, learn_existing.
  rewrite Hmb, Ht. cbn. rewrite <-Eid, Hnm. cbn.
  destruct (H1 (alive_id m)) as [Ha|Hd].
  - unfold known_ts in Hx. rewrite Ha in Hx. rewrite Hx, bool_decide_eq_true_2 by eauto.
    eexists. split; [reflexivity|]. split_and!; try done; by apply moves_on_refl.
  - unfold known_ts in Hx. destruct (d_aliveLastTS d !! alive_id m) as [x'|] eqn:Ea; [|by rewrite Hd in Hx]. simplify_eq.
    rewrite Hd, bool_decide_eq_false_2 by (by intros [??]). rewrite bool_decide_eq_true_2 by eauto. cbn.
    destruct (indexOf_spec (alive_id m) (d_Alive d)) as [[_ Hni]|(i & a & -> & Hi & Eai)]; [apply H4| |].
    { exfalso. apply Hni. apply (cached_ids _ _ _ H4). by rewrite Ea. }
    cbn. eexists. split; [reflexivity|]. split_and!; try done.
    + split; cbn; try done.
      * intros id. destruct (decide (id = alive_id m)) as [->|?]; [by right|]. rewrite lookup_insert_ne by done. apply H1.
      * by rewrite lookup_insert_ne.
      * intros id Hid. etrans; [by apply Hkn|]. destruct (decide (id = alive_id m)) as [->|?].
        { rewrite lookup_insert_eq, Ea. split; intros _; left; by eexists. } by rewrite lookup_insert_ne.
      * by eapply cached_replace.
    + intros id y Hy. unfold known_ts in *. cbn. destruct (decide (id = alive_id m)) as [->|?].
      { rewrite lookup_insert_eq. rewrite Ea in *. simplify_eq. eexists. split; [done|]. split; [by right|done]. }
      rewrite lookup_insert_ne by done. exists y. split; [done|]. split; [by left|]. intros -> [??]. done.
Qed.

(** A dead member that is heard of again. *)
Lemma resurrect_ok now m d x t : consistent d → wf_alive m → alive_id m ≠ sl (d_pkiID d) →
  d_deadLastTS d !! alive_id m = Some x → am_Timestamp m = Some t → before x t = true →
  ∃ d', resurrectMember now m t d = Ok (tt, d') ∧ consistent d' ∧ moves_on d d' ∧ d_pkiID d' = d_pkiID d
    ∧ d_todo d' = d_todo d.
Proof.
  intros Hc Hwf Hne Hx Ht Hb. pose proof Hwf as ([mb Hmb] & _).
  assert (alive_id m = sl (mb_PkiID mb)) as Eid by (unfold alive_id; by rewrite Hmb).
  pose proof (before_lt x t now m Hwf Ht Hb) as Hlt. pose proof (stamp_of_stamp now m t Hwf Ht) as Hst.
  destruct Hc as [H1 H2 H3 H4 H5 H6].
  assert (d_aliveLastTS d !! alive_id m = None) as Ha. { destruct (H1 (alive_id m)) as [?|E]; [done|by rewrite E in Hx]. }
  unfold resurrectMember. rewrite Hmb. cbn. rewrite <-Eid.
  destruct (indexOf_spec (alive_id m) (d_Dead d)) as [[_ Hni]|(i & a & -> & Hi & Eai)]; [apply H5| |].
  { exfalso. apply Hni. apply (cached_ids _ _ _ H5). by rewrite Hx. }
  destruct (indexOf_spec (alive_id m) (d_Alive d)) as [[-> _]|(j & b & _ & Hj & Ebj)]; [apply H4| |].
  2: { exfalso. assert (is_Some (d_aliveLastTS d !! alive_id m)) as [? Hs]; [|by rewrite Ha in Hs].
       apply (cached_ids _ _ _ H4), elem_of_ids. exists b. split; [done|]. by eapply list_elem_of_lookup_2. }
  cbn. eexists. split; [reflexivity|]. split_and!; try done.
  - split; cbn.
    + intros id. destruct (decide (id = alive_id m)) as [->|?]; [right; apply lookup_delete_eq|].
      rewrite lookup_insert_ne, lookup_delete_ne by done. apply H1.
    + by rewrite lookup_insert_ne, lookup_delete_ne.
    + intros id Hid. destruct (decide (id = alive_id m)) as [->|?]; [rewrite !lookup_insert_eq; by split; eauto|].
      rewrite !lookup_insert_ne, lookup_delete_ne by done. by apply H3.
    + by apply cached_add.
    + rewrite <-Eai. by apply cached_remove.
    + intros id nm. destruct (decide (id = alive_id m)) as [->|?]; [|rewrite lookup_insert_ne by done; apply H6].
      rewrite lookup_insert_eq. intros [= <-]. by rewrite Eid.
  - intros id y Hy. unfold known_ts in *. cbn. destruct (decide (id = alive_id m)) as [->|?].
    + rewrite lookup_insert_eq. rewrite Ha, Hx in Hy. simplify_eq. eexists. split; [done|]. split; [by right|done].
    + rewrite lookup_insert_ne, lookup_delete_ne by done. exists y. split; [done|]. split; [by left|]. intros -> [??]. done.
Qed.

(** ** Expiry *)

(** What expiry keeps: the times known, the members, and the dead. *)
Definition expires (d d' : Disc) : Prop :=
  (∀ id, known_ts d' id = known_ts d id) ∧ d_id2Member d' = d_id2Member d ∧ d_pkiID d' = d_pkiID d
  ∧ d_todo d' = d_todo d ∧ (∀ id x, d_deadLastTS d !! id = Some x → d_deadLastTS d' !! id = Some x)
  ∧ ∀ id, d_aliveLastTS d !! id = None → d_aliveLastTS d' !! id = None.

Lemma expires_refl d : expires d d.
Proof. by split_and!. Qed.
Lemma expires_trans d1 d2 d3 : expires d1 d2 → expires d2 d3 → expires d1 d3.
Proof.
  intros (A1 & A2 & A3 & A4 & A5 & A6) (B1 & B2 & B3 & B4 & B5 & B6). split_and!; try congruence; auto.
Qed.
Lemma expires_moves_on d d' : expires d d' → moves_on d d'.
Proof.
  intros (H1 & _ & _ & _ & _ & H6) id x Hx. exists x. rewrite H1. split; [done|]. split; [left; by split|].
  intros Hn [y Hy]. by rewrite (H6 id Hn) in Hy.
Qed.

Lemma expire_member_ok id d : consistent d → ∃ o d', expire_member id d = Ok (o, d') ∧ consistent d' ∧ expires d d'.
Proof.
  intros Hc. unfold expire_member. destruct (d_aliveLastTS d !! id) as [x|] eqn:Ea; [|by eauto using expires_refl].
  destruct Hc as [H1 H2 H3 H4 H5 H6].
  assert (id ≠ sl (d_pkiID d)) as Hne. { intros ->. by rewrite (proj1 H2) in Ea. }
  assert (d_deadLastTS d !! id = None) as Hd. { destruct (H1 id) as [E|?]; [by rewrite E in Ea|done]. }
  assert (is_Some (d_id2Member d !! id)) as [nm Hnm]. { apply H3; [done|]. left. by eexists. }
  rewrite Hnm. cbn.
  destruct (indexOf_spec id (d_Alive d)) as [[_ Hni]|(i & a & -> & Hi & <-)]; [apply H4| |].
  { exfalso. apply Hni. apply (cached_ids _ _ _ H4). by rewrite Ea. }
  cbn. rewrite Hi. cbn. eexists _, _. split; [reflexivity|]. split.
  - destruct H4 as (F1 & F2 & F3 & F4). assert (a ∈ d_Alive d) as Hin by (by eapply list_elem_of_lookup_2).
    destruct (F4 a Hin) as (y & Hy & Hs). rewrite Ea in Hy. simplify_eq. split; cbn.
    + intros id. destruct (decide (id = alive_id a)) as [->|?]; [left; apply lookup_delete_eq|].
      rewrite lookup_insert_ne, lookup_delete_ne by done. apply H1.
    + by rewrite lookup_insert_ne, lookup_delete_ne.
    + intros id Hid. rewrite H3 by done. destruct (decide (id = alive_id a)) as [->|?].
      { rewrite lookup_insert_eq, Ea. split; intros _; [right|left]; by eexists. }
      by rewrite lookup_insert_ne, lookup_delete_ne.
    + by apply cached_remove.
    + apply cached_add; try done. by apply (proj1 (Forall_forall _ _) F1).
    + done.
  - split_and!; try done; cbn.
    + intros id. unfold known_ts. cbn. destruct (decide (id = alive_id a)) as [->|?].
      { by rewrite lookup_delete_eq, lookup_insert_eq, Ea. } by rewrite lookup_insert_ne, lookup_delete_ne.
    + intros id y Hy. rewrite lookup_insert_ne; [done|]. intros <-. by rewrite Hd in Hy.
    + intros id Hid. destruct (decide (id = alive_id a)) as [->|?]; [apply lookup_delete_eq|]. by rewrite lookup_delete_ne.
Qed.

Lemma expire_loop_ok dead d : consistent d → ∃ o d', expire_loop dead d = Ok (o, d') ∧ consistent d' ∧ expires d d'.
Proof.
  revert d. induction dead as [|id dead IH]; intros d Hc; cbn [expire_loop].
  { eexists _, d. split; [reflexivity|]. split; [done|apply expires_refl]. }
  destruct (expire_member_ok id d Hc) as (o1 & d1 & E1 & Hc1 & Hx1).
  destruct (IH d1 Hc1) as (o2 & d2 & E2 & Hc2 & Hx2).
  rewrite (bind_ok _ _ _ _ _ E1), (bind_ok _ _ _ _ _ E2). eexists _, d2. split; [reflexivity|]. split; [done|].
  by eapply expires_trans.
Qed.

(** ** The message goroutine *)
Section steps.
Context `{!CryptoService} (timeout : Z).

Definition start_ok (h : hstep) : Prop :=
  match h with HAlive m | HDead m | HRespond m _ => wf_alive m | _ => False end.
(** What holds of a message between two locked sections, whatever the other
    goroutines do. *)
Definition head_ok (d : Disc) (h : hstep) : Prop :=
  match h with
  | HAlive m | HDead m | HRespond m _ => wf_alive m
  | HLearnNew m => wf_alive m ∧ alive_id m ≠ sl (d_pkiID d) ∧ d_id2Member d !! alive_id m = None
  | HLearnDead m => wf_alive m ∧ d_id2Member d !! alive_id m = None
  | HRead m | HRead2 m => wf_alive m ∧ alive_id m ≠ sl (d_pkiID d) ∧ is_Some (d_id2Member d !! alive_id m)
  | HResurrect m => wf_alive m ∧ alive_id m ≠ sl (d_pkiID d) ∧
      ∃ x t, d_deadLastTS d !! alive_id m = Some x ∧ am_Timestamp m = Some t ∧ before x t = true
  | HLearnExisting m => wf_alive m ∧ alive_id m ≠ sl (d_pkiID d) ∧
      ∃ x t, known_ts d (alive_id m) = Some x ∧ am_Timestamp m = Some t ∧ before x t = true
  end.
Definition todo_ok (d : Disc) (todo : list hstep) : Prop :=
  match todo with [] => True | h :: rest => head_ok d h ∧ Forall start_ok rest end.

Lemma start_head d h : start_ok h → head_ok d h.
Proof. by destruct h. Qed.
Lemma todo_ok_starts d l : Forall start_ok l → todo_ok d l.
Proof. destruct 1; [done|]. split; [by apply start_head|done]. Qed.
Lemma todo_ok_next d next rest : todo_ok d next → (length next ≤ 1)%nat → Forall start_ok rest → todo_ok d (next ++ rest).
Proof. destruct next as [|h [|]]; cbn; [intros; by apply todo_ok_starts|naive_solver|lia]. Qed.

Lemma todo_ok_expires d d' todo : expires d d' → todo_ok d todo → todo_ok d' todo.
Proof.
  intros (H1 & H2 & H3 & _ & H5 & _). destruct todo as [|h rest]; [done|]. intros [Hh Hr]. split; [|done].
  destruct h; cbn in *; rewrite ?H1, ?H2, ?H3; try done.
  destruct Hh as (? & ? & x & t & ? & ? & ?). split_and!; try done. exists x, t. by auto.
Qed.

Lemma wf_membership m : wf_alive m → ∃ mb t, am_Membership m = Some mb ∧ am_Timestamp m = Some t
  ∧ alive_id m = sl (mb_PkiID mb).
Proof. intros ([mb Hmb] & t & Ht & _). exists mb, t. unfold alive_id. by rewrite Hmb. Qed.

(** What a step of the goroutine leaves: [next] is at most one thing to do. *)
Definition step_ok (d : Disc) (r : res (list hstep * Disc)) : Prop :=
  ∃ next d', r = Ok (next, d') ∧ consistent d' ∧ moves_on d d' ∧ d_pkiID d' = d_pkiID d
    ∧ d_todo d' = d_todo d ∧ (length next ≤ 1)%nat ∧ todo_ok d' next.

Lemma step_ok_look d next : consistent d → (length next ≤ 1)%nat → todo_ok d next → step_ok d (Ok (next, d)).
Proof. intros. exists next, d. split_and!; try done. by apply moves_on_refl. Qed.
Lemma step_ok_done (m : M Disc unit) d :
  (∃ d', m d = Ok (tt, d') ∧ consistent d' ∧ moves_on d d' ∧ d_pkiID d' = d_pkiID d ∧ d_todo d' = d_todo d) →
  step_ok d ((_ ← m; mret []) d).
Proof.
  intros (d' & E & H1 & H2 & H3 & H4). rewrite (bind_ok _ _ _ _ _ E). exists [], d'. split_and!; try done. cbn. lia.
Qed.

Lemma alive_start_ok m d : consistent d → wf_alive m → step_ok d (alive_start m d).
Proof.
  intros Hc Hwf. destruct (wf_membership m Hwf) as (mb & t & Hmb & Ht & Eid). unfold alive_start. rewrite Hmb. cbn.
  unfold bytes_Equal. rewrite <-Eid. destruct (ValidateAliveMsg m); cbn; [|apply step_ok_look; [done|cbn; lia|done]].
  case_bool_decide as Es; [apply step_ok_look; [done|cbn; lia|done]|].
  case_bool_decide as Ek; apply step_ok_look; try done; cbn; split_and!; try done. by apply eq_None_not_Some.
Qed.
Lemma dead_start_ok m d : consistent d → wf_alive m → step_ok d (dead_start m d).
Proof.
  intros Hc Hwf. destruct (wf_membership m Hwf) as (mb & t & Hmb & Ht & Eid). unfold dead_start. rewrite Hmb. cbn.
  rewrite <-Eid. destruct (ValidateAliveMsg m); cbn; [|apply step_ok_look; [done|cbn; lia|done]].
  case_bool_decide as Ek; apply step_ok_look; try done; [cbn; lia|]. cbn; split_and!; try done. by apply eq_None_not_Some.
Qed.

(** A known member is alive or dead and not both, so that the looks at the two
    maps never panic. *)
Lemma alive_read_ok m d : consistent d → head_ok d (HRead m) → step_ok d (alive_read m d).
Proof.
  intros Hc (Hwf & Hne & Hs). destruct (wf_membership m Hwf) as (mb & t & Hmb & Ht & Eid).
  unfold alive_read. rewrite Hmb. cbn. rewrite <-Eid, Ht. pose proof (proj1 (c_known d Hc _ Hne) Hs) as Hor.
  destruct (d_aliveLastTS d !! alive_id m) as [x|] eqn:Ea, (d_deadLastTS d !! alive_id m) as [y|] eqn:Ed.
  - destruct (c_disjoint d Hc (alive_id m)) as [E|E]; [by rewrite E in Ea|by rewrite E in Ed].
  - by apply step_ok_look.
  - cbn. destruct (before y t) eqn:Eb; apply step_ok_look; try done; [|cbn; lia].
    cbn; split_and!; try done. by exists y, t.
  - by destruct Hor as [[??]|[??]].
Qed.
Lemma alive_read2_ok m d : consistent d → head_ok d (HRead2 m) → step_ok d (alive_read2 m d).
Proof.
  intros Hc (Hwf & Hne & Hs). destruct (wf_membership m Hwf) as (mb & t & Hmb & Ht & Eid).
  unfold alive_read2. rewrite Hmb. cbn. rewrite <-Eid, Ht.
  destruct (d_aliveLastTS d !! alive_id m) as [x|] eqn:Ea; cbn; [|apply step_ok_look; [done|cbn; lia|done]].
  destruct (before x t) eqn:Eb; apply step_ok_look; try done; [|cbn; lia].
  cbn; split_and!; try done. exists x, t. unfold known_ts. by rewrite Ea.
Qed.

Lemma hstep_run_ok now h d : consistent d → head_ok d h → step_ok d (hstep_run now h d).
Proof.
  intros Hc Hh. destruct h as [m|m|m|m|m|m|m|m|m known]; cbn [hstep_run].
  - by apply alive_start_ok.
  - destruct Hh as (Hwf & Hne & Hn). by apply step_ok_done, learn_new_ok.
  - by apply alive_read_ok.
  - by apply alive_read2_ok.
  - destruct Hh as (Hwf & Hne & x & t & Hx & Ht & Hb). rewrite Ht. cbn [deref].
    rewrite (bind_ok (lift (Ok t)) _ d t d eq_refl). by eapply step_ok_done, resurrect_ok.
  - destruct Hh as (Hwf & Hne & x & t & Hx & Ht & Hb). by eapply step_ok_done, learn_existing_ok.
  - by apply dead_start_ok.
  - destruct Hh as (Hwf & Hn). by apply step_ok_done, learn_dead_ok.
  - destruct (wf_membership m Hh) as (mb & t & Hmb & Ht & Eid). rewrite Hmb. cbn. eexists _, _.
    split; [reflexivity|]. split_and!; try done; [|by apply moves_on_refl|cbn; lia]. by apply (consistent_view d).
Qed.
(** ** Every step *)
Definition good (d : Disc) : Prop := consistent d ∧ todo_ok d (d_todo d).

(** A step that leaves members and messages alone. *)
Definition view_kept (d d' : Disc) : Prop := same_view d d' ∧ d_todo d' = d_todo d.
Lemma view_kept_trans d1 d2 d3 : view_kept d1 d2 → view_kept d2 d3 → view_kept d1 d3.
Proof. unfold view_kept, same_view. intuition congruence. Qed.
Lemma view_kept_good d d' : view_kept d d' → good d → good d' ∧ moves_on d d'.
Proof.
  intros [Hv Ht] [Hc Hd]. split; [split; [by eapply consistent_view|]|].
  - rewrite Ht. apply (todo_ok_expires d); [|done]. destruct Hv as (E1 & E2 & E3 & E4 & _).
    unfold expires, known_ts. by rewrite E1, E2, E3, E4, Ht.
  - destruct Hv as (_ & E2 & E3 & _). by apply moves_on_refl.
Qed.

Lemma send_request_view m d : view_kept d (sendMembershipRequest m d).
Proof. done. Qed.
Lemma reconnect_view (ping : NetworkMember → bool) (members : list NetworkMember) (d : Disc) :
  view_kept d (foldl (λ d m, if ping m then sendMembershipRequest m d else d) d members).
Proof.
  revert d. induction members as [|m ms IH]; intros d; cbn [foldl]; [done|].
  destruct (ping m); [|apply IH]. eapply view_kept_trans; [apply (send_request_view m)|apply IH].
Qed.

Lemma first_unknown_ok known dead : Forall wf_alive dead → ∃ l, first_unknown known dead = Ok l.
Proof.
  induction 1 as [|a l Ha Hl IH]; cbn; [by eexists|]. destruct Ha as [[m ->] _]. cbn. case_bool_decide; [done|by eexists].
Qed.
Lemma copy_members_ok (keys : list bytes) (members : gmap bytes NetworkMember) :
  (∀ id, id ∈ keys → is_Some (members !! id)) → ∃ l, copy_members keys members = Ok l.
Proof.
  induction keys as [|id keys IH]; intros Hm; cbn; [by eexists|]. destruct (Hm id) as [m ->]; [by left|]. cbn.
  destruct IH as [l ->]; [intros; apply Hm; by right|]. by eexists.
Qed.
Lemma pulled_peers_ok indices alive : Forall wf_alive alive → Forall (λ i, i < length alive)%nat indices →
  ∃ l, pulled_peers indices alive = Ok l.
Proof.
  intros Ha. induction 1 as [|i indices Hi Hl IH]; cbn; [by eexists|].
  destruct (lookup_lt_is_Some_2 alive i Hi) as [a Ea]. rewrite Ea. cbn.
  destruct (proj1 (Forall_lookup _ _) Ha i a Ea) as [[m ->] _]. cbn. destruct IH as [l ->]. by eexists.
Qed.

Lemma draw_indices_ok count draws acc n :
  Forall (λ i, i < n)%nat acc → Forall (λ i, i < n)%nat draws →
  draw_indices count draws acc = OutOfFuel ∨ ∃ l, draw_indices count draws acc = Ok l ∧ Forall (λ i, i < n)%nat l.
Proof.
  intros Hacc Hd. revert acc Hacc. induction Hd as [|i draws Hi Hd IH]; intros acc Hacc; cbn;
    (case_bool_decide; [right; by eexists|]); [by left|]. apply IH. case_bool_decide; [done|].
  apply Forall_app. by split; [|constructor].
Qed.
Lemma GetRandomIndices_ok peerNum n draws :
  let r := GetRandomIndices (Z.min peerNum (Z.of_nat n)) (Z.of_nat n - 1) draws in
  r = OutOfFuel ∨ ∃ l, r = Ok l ∧ Forall (λ i, i < n)%nat l.
Proof.
  cbv zeta. unfold GetRandomIndices. case_bool_decide; [lia|]. case_bool_decide as E.
  { right. eexists. split; [done|]. apply Forall_seq. lia. }
  destruct n as [|n].
  { right. exists []. split; [|constructor]. destruct draws; cbn; by rewrite bool_decide_true by (cbn; lia). }
  apply draw_indices_ok; [constructor|]. apply Forall_fmap, Forall_forall. intros i _. cbn.
  replace (Z.to_nat (Z.of_nat (S n) - 1 + 1)) with (S n) by lia. apply Nat.mod_upper_bound. lia.
Qed.

(** A message that is acted on carries what the protocol says it does. *)
Definition content_ok (c : Content) : Prop :=
  match c with
  | CAlive a => wf_alive a
  | CMemReq r => ∃ self, mq_SelfInformation r = Some self ∧ wf_alive self
  | CMemRes r => Forall wf_alive (mr_Alive r) ∧ Forall wf_alive (mr_Dead r)
  | _ => True
  end.
Definition event_ok (ev : disc_event) : Prop := match ev with EMessage m => content_ok (gm_Content m) | _ => True end.

Lemma handleMsg_ok m : content_ok (gm_Content m) → ∃ todo, handleMsgFromComm m = Ok todo ∧ Forall start_ok todo.
Proof.
  unfold handleMsgFromComm. destruct (gm_Content m); cbn; intros Hm; try (by exists []; split; [|constructor]).
  - eexists. split; [done|]. apply Forall_singleton, Hm.
  - destruct Hm as (self & -> & Hs). eexists. split; [done|]. apply Forall_cons. split; [done|]. by apply Forall_singleton.
  - eexists. split; [done|]. apply Forall_app. by rewrite !Forall_fmap.
Qed.

(** What a step promises. *)
Definition keeps (d : Disc) (r : res Disc) : Prop := ∃ d', r = Ok d' ∧ good d' ∧ moves_on d d'.
Lemma keeps_view d d' : good d → view_kept d d' → keeps d (Ok d').
Proof. intros Hg Hv. exists d'. split; [done|]. by apply view_kept_good. Qed.

Lemma message_keeps m d : good d → content_ok (gm_Content m) → keeps d (disc_step timeout (EMessage m) d).
Proof.
  intros Hg Hm. cbn. destruct (d_todo d) as [|h rest] eqn:Et; [|by apply keeps_view].
  destruct (d_toDie d); [by apply keeps_view|]. destruct (handleMsg_ok m Hm) as (todo & -> & Hs). cbn.
  eexists. split; [done|]. split; [|by apply moves_on_refl]. destruct Hg as [Hc _].
  split; [by apply (consistent_view d)|]. by apply todo_ok_starts.
Qed.
Lemma todo_ok_view d d' todo : d_pkiID d' = d_pkiID d → d_aliveLastTS d' = d_aliveLastTS d → d_deadLastTS d' = d_deadLastTS d →
  d_id2Member d' = d_id2Member d → todo_ok d todo → todo_ok d' todo.
Proof. destruct d, d'. cbn. intros -> -> -> ->. by destruct todo as [|[] ?]. Qed.
Lemma handle_keeps now d : good d → keeps d (disc_step timeout (EHandle now) d).
Proof.
  intros [Hc Ht]. cbn. destruct (d_todo d) as [|h rest] eqn:Et.
  { apply keeps_view; [|done]. split; [done|]. by rewrite Et. }
  destruct Ht as [Hh Hr]. set (d0 := set_todo rest d).
  destruct (hstep_run_ok now h d0) as (next & d1 & -> & Hc1 & Hm1 & _ & Et1 & Hl & Hn).
  { by apply (consistent_view d). } { by destruct h. }
  cbn. eexists. split; [reflexivity|]. split; [split|]; [by apply (consistent_view d1)| |].
  - apply (todo_ok_view d1); try done. cbn. rewrite Et1. by apply todo_ok_next.
  - eapply moves_on_trans; [by apply (moves_on_refl d d0)|]. eapply moves_on_trans; [apply Hm1|by apply moves_on_refl].
Qed.
Lemma expire_keeps_from d0 dead : good d0 →
  ∃ o d1, expire_loop dead d0 = Ok (o, d1) ∧ good (comm o d1) ∧ moves_on d0 (comm o d1).
Proof.
  intros [Hc0 Ht0]. destruct (expire_loop_ok dead d0 Hc0) as (o & d1 & -> & Hc1 & Hx).
  exists o, d1. split; [done|]. split; [split|].
  - by apply (consistent_view d1).
  - apply (todo_ok_view d1); try done. cbn. replace (d_todo d1) with (d_todo d0) by (symmetry; apply Hx).
    by apply (todo_ok_expires d0).
  - eapply moves_on_trans; [by apply expires_moves_on|by apply moves_on_refl].
Qed.
Lemma expire_keeps i d : good d → keeps d (disc_step timeout (EExpire i) d).
Proof.
  intros Hg. cbn. destruct (d_expiring d !! i) as [dead|]; [|by apply keeps_view]. unfold expireDeadMembers.
  set (d0 := set_expiring _ d). destruct (view_kept_good d d0) as [Hg0 Hm0]; [done..|].
  destruct (expire_keeps_from d0 dead Hg0) as (o & d1 & -> & Hg1 & Hm1). cbn. eexists. split; [reflexivity|].
  split; [done|]. exact (moves_on_trans _ _ _ Hm0 Hm1).
Qed.
Lemma respond_keeps i d : good d → keeps d (disc_step timeout (ERespond i) d).
Proof.
  intros Hg. cbn. unfold respond. destruct (d_responding d !! i) as [[m known|m known self]|]; cbn; [by apply keeps_view| |by apply keeps_view].
  unfold createMembershipResponse. destruct (first_unknown_ok known (d_Dead d)) as [l ->]; [apply (c_dead d (proj1 Hg))|].
  by apply keeps_view.
Qed.
Lemma reconnect_keeps ping d : good d → keeps d (disc_step timeout (EReconnect ping) d).
Proof.
  intros Hg. pose proof (proj1 Hg) as Hc. cbn. unfold periodicalReconnectToDead, copyLastSeen.
  destruct (copy_members_ok (map_to_list (d_deadLastTS d)).*1 (d_id2Member d)) as [l ->].
  { intros id ([id' x] & -> & Hin%elem_of_map_to_list)%list_elem_of_fmap. cbn. apply (c_known d Hc); [|right; by eexists].
    intros E. pose proof (proj2 (c_self d Hc)) as Hs. rewrite <-E, Hin in Hs. done. }
  cbn. apply keeps_view; [done|apply reconnect_view].
Qed.
Lemma sync_keeps n draws d : good d →
  disc_step timeout (ESync n draws) d = OutOfFuel ∨ keeps d (disc_step timeout (ESync n draws) d).
Proof.
  intros Hg. cbn. unfold InitiateSync. destruct (d_toDie d); [right; by apply keeps_view|]. cbn.
  destruct (GetRandomIndices_ok n (length (d_Alive d)) draws) as [->|(l & -> & Hl)]; [by left|]. right. cbn.
  destruct (pulled_peers_ok l (d_Alive d)) as [ps ->]; [apply (c_alive d (proj1 Hg))|done|]. by apply keeps_view.
Qed.

Lemma step_keeps ev d : good d → event_ok ev →
  keeps d (disc_step timeout ev d) ∨ (disc_step timeout ev d = OutOfFuel ∧ ∃ n draws, ev = ESync n draws).
Proof.
  intros Hg Hev. destruct ev as [m|now|now|id|i|i| |ping|eps|n draws|md|ep| ];
    try (left; cbn; by apply keeps_view).
  - left. by apply message_keeps.
  - left. by apply handle_keeps.
  - left. cbn. apply keeps_view; [done|]. unfold periodicalCheckAlive. by destruct (getDeadMembers _ _ _).
  - left. cbn. apply keeps_view; [done|]. unfold handlePresumedDead. by case_bool_decide.
  - left. by apply expire_keeps.
  - left. by apply respond_keeps.
  - left. by apply reconnect_keeps.
  - destruct (sync_keeps n draws d Hg) as [?|?]; [right|by left]. by eauto.
Qed.

Lemma run_keeps evs d : good d → Forall event_ok evs →
  keeps d (disc_run timeout evs d) ∨ (disc_run timeout evs d = OutOfFuel ∧ ∃ n draws, ESync n draws ∈ evs).
Proof.
  intros Hg Hev. revert d Hg. induction Hev as [|ev evs Hev Hevs IH]; intros d Hg; cbn [disc_run].
  { left. by apply keeps_view. }
  destruct (step_keeps ev d Hg Hev) as [(d1 & -> & Hg1 & Hm1)|(-> & n & draws & ->)]; cbn.
  - destruct (IH d1 Hg1) as [(d2 & -> & Hg2 & Hm2)|(-> & n & draws & Hin)].
    + left. exists d2. split_and!; try done. by eapply moves_on_trans.
    + right. split; [done|]. exists n, draws. by right.
  - right. split; [done|]. exists n, draws. by left.
Qed.

Lemma new_good self now : good (newDisc self now).
Proof.
  split; [|done]. split; cbn; try done; try apply cached_nil.
  - by left.
  - intros id _. rewrite !lookup_empty. split; [by intros [??]|]. by intros [[??]|[??]].
Qed.

(** The membership others ask for. *)
Definition member_ids (ms : list NetworkMember) : list bytes := (λ m, sl (nm_PKIid m)) <$> ms.
Lemma members_of_ok l : Forall wf_alive l →
  ∃ ms, members_of l = Ok ms ∧ member_ids ms = ids l.
Proof.
  induction 1 as [|a l Ha Hl (ms & IH & Hms)]; cbn; [by exists []|]. destruct Ha as [[m Hm] _]. rewrite Hm, IH. cbn.
  eexists. split; [done|]. change (sl (mb_PkiID m) :: member_ids ms = alive_id a :: ids l). rewrite Hms. unfold alive_id. by rewrite Hm.
Qed.
Lemma membership_is_alive d : consistent d → d_toDie d = false →
  ∃ ms, GetMembership d = Ok ms ∧ NoDup (member_ids ms)
    ∧ ∀ id, id ∈ member_ids ms ↔ is_Some (d_aliveLastTS d !! id).
Proof.
  intros Hc Hd. unfold GetMembership. rewrite Hd. pose proof (c_alive d Hc) as Ha.
  destruct (members_of_ok (d_Alive d) (proj1 Ha)) as (ms & -> & Hms). exists ms. rewrite Hms. split_and!; [done|apply Ha|].
  intros id. by apply cached_ids.
Qed.


(** ** A member that is silent expires *)
Lemma expire_member_alive id d o d' : expire_member id d = Ok (o, d') → d_aliveLastTS d' = delete id (d_aliveLastTS d).
Proof.
  unfold expire_member. destruct (d_aliveLastTS d !! id) eqn:E; [|intros [= <- <-]; by rewrite delete_id].
  destruct (d_id2Member d !! id); cbn; [|done]. destruct (indexOf id (d_Alive d)); cbn; by intros [= <- <-].
Qed.
Lemma expire_loop_alive dead d o d' : expire_loop dead d = Ok (o, d') →
  d_aliveLastTS d' = foldl (λ m id, delete id m) (d_aliveLastTS d) dead.
Proof.
  revert d o d'. induction dead as [|id dead IH]; intros d o d'; cbn [expire_loop]; [by intros [= <- <-]|].
  unfold mbind, M_bind. destruct (expire_member id d) as [[o1 d1]| |] eqn:E1; cbn; [|done..].
  destruct (expire_loop dead d1) as [[o2 d2]| |] eqn:E2; cbn; [|done..]. intros [= <- <-].
  by rewrite (IH _ _ _ E2), (expire_member_alive _ _ _ _ E1).
Qed.
Lemma foldl_delete_lookup (l : list bytes) (m : gmap bytes timestamp) id :
  foldl (λ m id, delete id m) m l !! id = if decide (id ∈ l) then None else m !! id.
Proof.
  revert m. induction l as [|k l IH]; intros m; cbn [foldl]; [by rewrite decide_False by apply not_elem_of_nil|].
  rewrite IH. destruct (decide (id = k)) as [->|Hne].
  - rewrite lookup_delete_eq. rewrite (decide_True (P := k ∈ k :: l)) by by left. by case_decide.
  - rewrite lookup_delete_ne by done. repeat case_decide; set_solver.
Qed.
Lemma elem_of_getDeadMembers now d id :
  id ∈ getDeadMembers timeout now d ↔ ∃ x, d_aliveLastTS d !! id = Some x ∧ timeout < now - ts_lastSeen x.
Proof.
  unfold getDeadMembers. rewrite list_elem_of_fmap. split.
  - intros ([k x] & -> & (Hx & Ht)%elem_of_map_to_list%map_lookup_filter_Some). by exists x.
  - intros (x & Hx & Ht). exists (id, x). split; [done|]. apply elem_of_map_to_list, map_lookup_filter_Some. by split.
Qed.

(** The check that finds members silent for longer than the timeout, and the
    goroutine it starts, leave exactly those members alive that were heard of. *)
Lemma silent_members_expire now d : good d → ∃ d',
  disc_run timeout [ECheckAlive now; EExpire (length (d_expiring d))] d = Ok d' ∧ good d'
  ∧ ∀ id x, d_aliveLastTS d' !! id = Some x ↔ d_aliveLastTS d !! id = Some x ∧ now - ts_lastSeen x ≤ timeout.
Proof.
  intros Hg. cbn [disc_run disc_step]. unfold periodicalCheckAlive.
  destruct (getDeadMembers timeout now d) as [|k dead] eqn:Ed; cbn.
  { rewrite (proj2 (lookup_ge_None (d_expiring d) _)) by lia. exists d. split_and!; [done..|].
    intros id x. split; [|by intros [??]]. intros Hx. split; [done|]. destruct (decide (timeout < now - ts_lastSeen x)); [|lia].
    assert (id ∈ getDeadMembers timeout now d) as Hin by (apply elem_of_getDeadMembers; by exists x).
    rewrite Ed in Hin. by apply not_elem_of_nil in Hin. }
  rewrite lookup_app_r, Nat.sub_diag by lia. cbn. unfold expireDeadMembers. set (d0 := set_expiring _ (set_expiring _ d)).
  destruct (expire_keeps_from d0 (k :: dead)) as (o & d1 & E & Hg1 & _); [by apply (view_kept_good d)|].
  cbn [expire_loop] in E. rewrite E. change (expire_loop (k :: dead) d0 = Ok (o, d1)) in E. cbn. eexists. split; [reflexivity|]. split; [done|]. intros id x. cbn.
  rewrite (expire_loop_alive _ _ _ _ E), foldl_delete_lookup, <-Ed. cbn.
  pose proof (elem_of_getDeadMembers now d id) as Hd.  case_decide as Hin.
  - split; [done|]. intros [Hx Ht]. apply Hd in Hin as (y & Hy & Hlt). simplify_eq. lia.
  - split; [|by intros [??]]. intros Hx. split; [done|]. destruct (decide (timeout < now - ts_lastSeen x)); [|lia].
    exfalso. apply Hin, Hd. by exists x.
Qed.

(** ** What is gossiped is the peer's own alive message *)
Definition alive_out (o : disc_out) : Prop :=
  match o with DGossip m => ∃ a, gm_Content m = CAlive a | _ => True end.

(** A computation that sends nothing. *)
Definition quiet {A} (m : M Disc A) : Prop := ∀ d a d', m d = Ok (a, d') → d_out d' = d_out d.
Lemma quiet_ret {A} (a : A) : quiet (mret a).
Proof. intros d b d' [= <- <-]. done. Qed.
Lemma quiet_bind {A B} (m : M Disc A) (f : A → M Disc B) : quiet m → (∀ a, quiet (f a)) → quiet (m ≫= f).
Proof.
  intros Hm Hf d b d'. unfold mbind, M_bind. destruct (m d) as [[a d1]| |] eqn:E; [|done..]. intros E2.
  rewrite (Hf _ _ _ _ E2). by eapply Hm.
Qed.
Lemma quiet_each {A} (f : A → M Disc unit) l : (∀ a, quiet (f a)) → quiet (each f l).
Proof. intros Hf. induction l; cbn; [apply quiet_ret|]. by apply quiet_bind. Qed.
Ltac quiet_cases :=
  let E := fresh in intros ? ? ? E;
  repeat first [ apply res_bind_Ok in E as (? & _ & E)
               | match type of E with (if ?b then _ else _) = _ => destruct b end
               | match type of E with match ?b with _ => _ end = _ => destruct b end ]; by simplify_eq/=.
Lemma quiet_learn_alive now a : quiet (learn_alive now a).
Proof. unfold learn_alive. quiet_cases. Qed.
Lemma quiet_learn_dead now a : quiet (learn_dead now a).
Proof. unfold learn_dead. quiet_cases. Qed.
Lemma quiet_learn_member a : quiet (learn_member a).
Proof. unfold learn_member. quiet_cases. Qed.
Lemma quiet_learn_existing now a : quiet (learn_existing now a).
Proof. unfold learn_existing. cbv zeta. quiet_cases. Qed.
Lemma quiet_resurrect now a t : quiet (resurrectMember now a t).
Proof. unfold resurrectMember. cbv zeta. quiet_cases. Qed.
Lemma quiet_learnNew now l k : quiet (learnNewMembers now l k).
Proof.
  apply quiet_bind; [apply quiet_each, quiet_learn_alive|]. intros _.
  apply quiet_bind; [apply quiet_each, quiet_learn_dead|]. intros _. apply quiet_each, quiet_learn_member.
Qed.
Lemma hstep_quiet now h : quiet (hstep_run now h).
Proof.
  destruct h; cbn [hstep_run].
  - unfold alive_start. quiet_cases.
  - apply quiet_bind; [apply quiet_learnNew|intros; apply quiet_ret].
  - unfold alive_read. cbv zeta. quiet_cases.
  - unfold alive_read2. cbv zeta. quiet_cases.
  - apply quiet_bind; [|intros t; apply quiet_bind; [apply quiet_resurrect|intros; apply quiet_ret]].
    intros d a d'. unfold lift. destruct (deref (am_Timestamp m)); [|done..]. by intros [= <- <-].
  - apply quiet_bind; [apply quiet_each, quiet_learn_existing|intros; apply quiet_ret].
  - unfold dead_start. quiet_cases.
  - apply quiet_bind; [apply quiet_learnNew|intros; apply quiet_ret].
  - quiet_cases.
Qed.

Lemma expire_member_closes id d os d' : expire_member id d = Ok (os, d') → d_out d' = d_out d ∧ Forall alive_out os.
Proof.
  unfold expire_member. destruct (d_aliveLastTS d !! id); [|by intros [= <- <-]].
  destruct (d_id2Member d !! id); cbn; [|done]. destruct (indexOf id (d_Alive d)); cbn; [|done..].
  intros [= <- <-]. split; [done|by repeat constructor].
Qed.
Lemma expire_loop_closes dead d os d' : expire_loop dead d = Ok (os, d') → d_out d' = d_out d ∧ Forall alive_out os.
Proof.
  revert d os d'. induction dead as [|id dead IH]; intros d os d'; cbn [expire_loop]; [by intros [= <- <-]|].
  unfold mbind, M_bind, mret, M_ret. destruct (expire_member id d) as [[o1 d1]| |] eqn:E1; [|done..].
  destruct (expire_loop dead d1) as [[o2 d2]| |] eqn:E2; [|done..]. intros [= <- <-].
  destruct (expire_member_closes _ _ _ _ E1) as [F1 ?], (IH _ _ _ E2) as [F2 ?]. split; [congruence|]. by apply Forall_app.
Qed.

Lemma disc_step_outs ev d d' : Forall alive_out (d_out d) → disc_step timeout ev d = Ok d' → Forall alive_out (d_out d').
Proof.
  intros Ho. destruct ev as [m|now|now|id|i|i| |ping|eps|n draws|md|ep| ]; cbn.
  - destruct (d_todo d); [|by intros [= <-]]. destruct (d_toDie d); [by intros [= <-]|].
    intros (todo & _ & [= <-])%res_bind_Ok. done.
  - destruct (d_todo d) as [|h rest]; [by intros [= <-]|]. intros ((next & d1) & E & [= <-])%res_bind_Ok.
    cbn. by rewrite (hstep_quiet _ _ _ _ _ E).
  - unfold periodicalCheckAlive. intros [= <-]. by destruct (getDeadMembers _ _ _).
  - unfold handlePresumedDead. intros [= <-]. by case_bool_decide.
  - destruct (d_expiring d !! i) as [dead|]; [|by intros [= <-]]. unfold expireDeadMembers.
    intros ((u & d1) & ((os & d2) & E & [= <- <-])%res_bind_Ok & [= <-])%res_bind_Ok.
    destruct (expire_loop_closes _ _ _ _ E) as [F ?]. cbn. rewrite F. by apply Forall_app.
  - unfold respond. destruct (d_responding d !! i) as [[m known|m known self]|]; cbn; [by intros [= <-]| |by intros [= <-]].
    intros ((u & d1) & (r & _ & [= <- <-])%res_bind_Ok & [= <-])%res_bind_Ok. cbn. apply Forall_app. split; [done|by repeat constructor].
  - intros [= <-]. cbn. apply Forall_app. split; [done|]. apply Forall_singleton. cbn. by eexists.
  - intros ((u & d1) & (ms & _ & [= <- <-])%res_bind_Ok & [= <-])%res_bind_Ok. revert d Ho.
    induction ms as [|m ms IH]; intros d Ho; cbn [foldl]; [done|]. apply IH. destruct (ping m); [|done].
    cbn. apply Forall_app. split; [done|by repeat constructor].
  - intros [= <-]. cbn. apply Forall_app. split; [done|]. apply Forall_fmap, Forall_forall. done.
  - unfold InitiateSync. destruct (d_toDie d); [by intros [= <-]|]. cbn.
    intros ((u & d1) & (js & _ & (ps & _ & [= <- <-])%res_bind_Ok)%res_bind_Ok & [= <-])%res_bind_Ok. cbn.
    apply Forall_app. split; [done|]. apply Forall_fmap, Forall_forall. done.
  - by intros [= <-].
  - by intros [= <-].
  - by intros [= <-].
Qed.
End steps.
