(* ===== verification/GossipState.v ===== *)
(** * State transfer (gossip/state)

    Blocks reach a peer as payloads, in any order and more than once: by gossip
    or in the answer of another peer it asked.  A buffer puts them in order
    ([payloads_buffer.go]); a goroutine takes them out and commits them; another
    one compares the height of the ledger with the heights the other peers
    publish in their metadata ([metastate.go]) and asks for what is missing.

    The committer is an interface; the ledger of KVLedger.v implements it.  The
    goroutines of [state.go] are steps: each message is handled by a goroutine
    of its own, which works payload by payload or block by block. *)

From Stdlib Require Import Strings.Byte.
From stdpp Require Import base numbers strings gmap list.
From S2P Require Import Prelude Sha256 LedgerUtil PeerTypes BlockStore GossipStore Discovery.
Local Open Scope Z_scope.

(** ** payloads_buffer.go *)

(** [b_ready] counts the goroutines that wait to send on the ready channel. *)
Record PayloadsBuffer := mkPayloadsBuffer { b_buf : gmap Z GossipPayload; b_next : Z; b_ready : nat }.
Definition NewPayloadsBuffer (next : Z) : PayloadsBuffer := mkPayloadsBuffer ∅ next 0.

(** The result is whether there was no error. *)
Definition Push (payload : option GossipPayload) (b : PayloadsBuffer) : res (bool * PayloadsBuffer) :=
  payload ← deref payload;
  let seqNum := gp_SeqNum payload in
  if bool_decide (seqNum < b_next b) || bool_decide (is_Some (b_buf b !! seqNum)) then Ok (false, b)
  else Ok (true, mkPayloadsBuffer (<[seqNum := payload]> (b_buf b)) (b_next b)
                   (if bool_decide (seqNum = b_next b) then S (b_ready b) else b_ready b)).
Definition Pop (b : PayloadsBuffer) : option GossipPayload * PayloadsBuffer :=
  match b_buf b !! b_next b with
  | None => (None, b)
  | Some result => (Some result, mkPayloadsBuffer (delete (b_next b) (b_buf b)) (u64 (b_next b + 1)) (b_ready b))
  end.
Definition Size (b : PayloadsBuffer) : Z := Z.of_nat (size (b_buf b)).

(** ** metastate.go *)
Definition NodeMetastate_Bytes (height : Z) : bytes := PutUint64 height.
(** [binary.Read] needs eight bytes and leaves what follows. *)
Definition FromBytes (buf : slice) : option Z :=
  if bool_decide (length (sl buf) < 8)%nat then None else Some (Uint64 (take 8 (sl buf))).

(** ** The committer *)
Class Committer (C : Type) := {
  c_CommitBlock : Block2 → P C bool;
  c_LedgerHeight : C → option Z;
  c_GetBlocks : list Z → C → res (list Block2) }.

(** ** state.go *)
Inductive listen_at := LHead | LSelect | LDone.
Inductive deliver_at := DHead | DSelect | DPop | DBlock (payload : GossipPayload) | DDone.
Inductive entropy_at :=
  | AHead | ASleep | ACurrent | AMax (current : Z) | APeers (current max : Z) | ARequest (start end_ : Z) | ADone.

(** What is asked of the gossip and the communication layer. *)
Inductive state_out :=
  | SRespond (payloads : list GossipPayload)
  | SRequest (peer : NetworkMember) (seqNums : list Z)
  | SUpdateMetadata (md : bytes).

(** [sp_queueing] and [sp_answering]: the goroutines that put payloads into the
    buffer, and those that answer requests, with what they have read so far. *)
Record StateProvider (C : Type) := mkStateProvider {
  sp_committer : C; sp_payloads : PayloadsBuffer; sp_stopFlag : bool;
  sp_listen : listen_at; sp_deliver : deliver_at; sp_entropy : entropy_at; sp_checkPoint : Z;
  sp_queueing : list (list (option GossipPayload)); sp_answering : list (list Z * list GossipPayload);
  sp_out : list state_out }.
Arguments mkStateProvider {C}.
Arguments sp_committer {C}.
Arguments sp_payloads {C}.
Arguments sp_stopFlag {C}.
Arguments sp_listen {C}.
Arguments sp_deliver {C}.
Arguments sp_entropy {C}.
Arguments sp_checkPoint {C}.
Arguments sp_queueing {C}.
Arguments sp_answering {C}.
Arguments sp_out {C}.

Section provider.
Context {C : Type} `{!Committer C, !Proto Block2}.
Abbreviation Provider := (StateProvider C).

(** ** Fields *)
Definition set_payloads (b : PayloadsBuffer) (s : Provider) : Provider :=
  mkStateProvider (sp_committer s) b (sp_stopFlag s) (sp_listen s) (sp_deliver s) (sp_entropy s) (sp_checkPoint s)
    (sp_queueing s) (sp_answering s) (sp_out s).
Definition set_listen (l : listen_at) (s : Provider) : Provider :=
  mkStateProvider (sp_committer s) (sp_payloads s) (sp_stopFlag s) l (sp_deliver s) (sp_entropy s) (sp_checkPoint s)
    (sp_queueing s) (sp_answering s) (sp_out s).
Definition set_deliver (d : deliver_at) (s : Provider) : Provider :=
  mkStateProvider (sp_committer s) (sp_payloads s) (sp_stopFlag s) (sp_listen s) d (sp_entropy s) (sp_checkPoint s)
    (sp_queueing s) (sp_answering s) (sp_out s).
Definition set_entropy (a : entropy_at) (s : Provider) : Provider :=
  mkStateProvider (sp_committer s) (sp_payloads s) (sp_stopFlag s) (sp_listen s) (sp_deliver s) a (sp_checkPoint s)
    (sp_queueing s) (sp_answering s) (sp_out s).
Definition set_queueing (q : list (list (option GossipPayload))) (s : Provider) : Provider :=
  mkStateProvider (sp_committer s) (sp_payloads s) (sp_stopFlag s) (sp_listen s) (sp_deliver s) (sp_entropy s)
    (sp_checkPoint s) q (sp_answering s) (sp_out s).
Definition set_answering (a : list (list Z * list GossipPayload)) (s : Provider) : Provider :=
  mkStateProvider (sp_committer s) (sp_payloads s) (sp_stopFlag s) (sp_listen s) (sp_deliver s) (sp_entropy s)
    (sp_checkPoint s) (sp_queueing s) a (sp_out s).
Definition sp_put (o : state_out) (s : Provider) : Provider :=
  mkStateProvider (sp_committer s) (sp_payloads s) (sp_stopFlag s) (sp_listen s) (sp_deliver s) (sp_entropy s)
    (sp_checkPoint s) (sp_queueing s) (sp_answering s) (sp_out s ++ [o]).
Definition set_committer (c : C) (s : Provider) : Provider :=
  mkStateProvider c (sp_payloads s) (sp_stopFlag s) (sp_listen s) (sp_deliver s) (sp_entropy s) (sp_checkPoint s)
    (sp_queueing s) (sp_answering s) (sp_out s).
Definition set_checkPoint (t : Z) (s : Provider) : Provider :=
  mkStateProvider (sp_committer s) (sp_payloads s) (sp_stopFlag s) (sp_listen s) (sp_deliver s) (sp_entropy s) t
    (sp_queueing s) (sp_answering s) (sp_out s).
Definition provider_Stop (s : Provider) : Provider :=
  mkStateProvider (sp_committer s) (sp_payloads s) true (sp_listen s) (sp_deliver s) (sp_entropy s) (sp_checkPoint s)
    (sp_queueing s) (sp_answering s) (sp_out s).

Definition NewGossipStateProvider (c : C) (now : Z) : option Provider :=
  match c_LedgerHeight c with
  | None => None
  | Some height =>
      Some (mkStateProvider c (NewPayloadsBuffer (u64 (height + 1))) false LHead DHead AHead now [] []
              [SUpdateMetadata (NodeMetastate_Bytes height)])
  end.

(** ** Messages *)

(** [queueNewMessage] reads the payload's number before it pushes it. *)
Definition queueNewMessage (m : GossipMessage) (s : Provider) : Provider :=
  match gm_Content m with
  | CData dataMsg => set_queueing (sp_queueing s ++ [[dm_Payload dataMsg]]) s
  | _ => s
  end.
Definition directMessage (m : GossipMessage) (s : Provider) : Provider :=
  match gm_Content m with
  | CStateRequest seqNums => set_answering (sp_answering s ++ [(seqNums, [])]) s
  | CStateResponse payloads => set_queueing (sp_queueing s ++ [Some <$> payloads]) s
  | _ => s
  end.

(** What a [select] of [listen] finds. *)
Inductive arrival := AGossip (m : GossipMessage) | ADirect (m : GossipMessage) | ATimeout.
Definition listen (a : arrival) (s : Provider) : Provider :=
  match sp_listen s with
  | LDone => s
  | LHead => set_listen (if sp_stopFlag s then LDone else LSelect) s
  | LSelect =>
      let s := set_listen LHead s in
      match a with AGossip m => queueNewMessage m s | ADirect m => directMessage m s | ATimeout => s end
  end.

(** A payload of the goroutine [i] of [queueNewMessage] or [handleStateResponse]. *)
Definition queue_payload (i : nat) (s : Provider) : res Provider :=
  match sp_queueing s !! i with
  | None => Ok s
  | Some [] => Ok (set_queueing (list_delete i (sp_queueing s)) s)
  | Some (payload :: rest) =>
      '(_, b) ← Push payload (sp_payloads s);
      Ok (set_payloads b (set_queueing (<[i := rest]> (sp_queueing s)) s))
  end.

(** A block of the goroutine [i] of [handleStateRequest].  When a block cannot
    be marshalled its payload is sent without data. *)
Definition handleStateRequest (i : nat) (s : Provider) : res Provider :=
  match sp_answering s !! i with
  | None => Ok s
  | Some ([], payloads) => Ok (sp_put (SRespond payloads) (set_answering (list_delete i (sp_answering s)) s))
  | Some (seqNum :: rest, payloads) =>
      blocks ← c_GetBlocks [seqNum] (sp_committer s);
      let payloads :=
        match blocks with
        | [] => payloads
        | block :: _ => payloads ++ [mkGossipPayload seqNum [] (Marshal block)]
        end in
      Ok (set_answering (<[i := (rest, payloads)]> (sp_answering s)) s)
  end.

(** ** Delivery *)
Definition commitBlock (block : Block2) (seqNum : Z) (s : Provider) : res Provider :=
  let '(r, c) := c_CommitBlock block (sp_committer s) in
  ok ← r;
  let s := set_committer c s in
  Ok (if ok : bool then sp_put (SUpdateMetadata (NodeMetastate_Bytes seqNum)) s else s).

(** A step of [deliverPayloads]; [ready] is whether the select takes a ready
    signal or times out. *)
Definition deliverPayloads (ready : bool) (s : Provider) : res Provider :=
  match sp_deliver s with
  | DDone => Ok s
  | DHead => Ok (set_deliver (if sp_stopFlag s then DDone else DSelect) s)
  | DSelect =>
      let b := sp_payloads s in
      match b_ready b with
      | S n => Ok (if ready then set_deliver DPop (set_payloads (mkPayloadsBuffer (b_buf b) (b_next b) n) s)
                   else set_deliver DHead s)
      | O => Ok (if ready then s else set_deliver DHead s)
      end
  | DPop =>
      let '(payload, b) := Pop (sp_payloads s) in
      Ok (set_deliver (match payload with Some payload => DBlock payload | None => DHead end) (set_payloads b s))
  | DBlock payload =>
      match Unmarshal (sl (gp_Data payload)) with
      | None => Ok (set_deliver DPop s)
      | Some rawblock => s ← commitBlock rawblock (gp_SeqNum payload) s; Ok (set_deliver DPop s)
      end
  end.

(** ** Anti-entropy *)
Definition defAntiEntropyInterval : Z := 10 * 10 ^ 9.

(** The loop over [i] does not end when [end_] is the greatest number. *)
Fixpoint numbers_in (fuel : nat) (i end_ : Z) (acc : list Z) : res (list Z) :=
  match fuel with
  | O => OutOfFuel
  | S fuel => if bool_decide (i ≤ end_) then numbers_in fuel (u64 (i + 1)) end_ (acc ++ [i]) else Ok acc
  end.
Definition has_block (end_ : Z) (p : NetworkMember) : bool :=
  match FromBytes (nm_Metadata p) with Some height => bool_decide (end_ ≤ height) | None => false end.
Definition peers_with (end_ : Z) (peers : list NetworkMember) : list NetworkMember :=
  filter (λ p, has_block end_ p = true) peers.
(** [pick] is the random number. *)
Definition requestBlocksInRange (fuel : nat) (peers : list NetworkMember) (pick : nat) (start end_ : Z) (s : Provider)
    : res Provider :=
  let peers := peers_with end_ peers in
  match peers !! (pick `mod` length peers)%nat with
  | None => Ok s
  | Some peer => seqNums ← numbers_in fuel start end_ []; Ok (sp_put (SRequest peer seqNums) s)
  end.

Definition highest (max : Z) (peers : list NetworkMember) : Z :=
  foldl (λ max p, match FromBytes (nm_Metadata p) with
                  | Some height => if bool_decide (max < height) then height else max
                  | None => max
                  end) max peers.

(** A step of [antiEntropy]: [peers] are those the gossip layer knows at that
    moment, and an error of the committer counts as height 0. *)
Definition antiEntropy (fuel : nat) (now now' : Z) (peers : list NetworkMember) (pick : nat) (s : Provider) : res Provider :=
  match sp_entropy s with
  | ADone => Ok s
  | AHead => Ok (set_entropy (if sp_stopFlag s then ADone else ASleep) s)
  | ASleep =>
      Ok (if bool_decide (now - sp_checkPoint s ≤ defAntiEntropyInterval) then set_entropy AHead s
          else set_entropy ACurrent (set_checkPoint now' s))
  | ACurrent => Ok (set_entropy (AMax (default 0 (c_LedgerHeight (sp_committer s)))) s)
  | AMax current => Ok (set_entropy (APeers current (default 0 (c_LedgerHeight (sp_committer s)))) s)
  | APeers current max =>
      let max := highest max peers in
      Ok (set_entropy (if bool_decide (current = max) then AHead else ARequest (u64 (current + 1)) max) s)
  | ARequest start end_ => requestBlocksInRange fuel peers pick start end_ (set_entropy AHead s)
  end.

(** ** The interface of the provider *)
Definition GetBlock (index : Z) (s : Provider) : res (option Block2) :=
  blocks ← c_GetBlocks [index] (sp_committer s); Ok (head blocks).
Definition AddPayload (payload : option GossipPayload) (s : Provider) : res (bool * Provider) :=
  '(ok, b) ← Push payload (sp_payloads s); Ok (ok, set_payloads b s).

(** ** Executions *)
Inductive state_event :=
  | SListen (a : arrival)
  | SQueue (i : nat)
  | SAnswer (i : nat)
  | SDeliver (ready : bool)
  | SEntropy (fuel : nat) (now now' : Z) (peers : list NetworkMember) (pick : nat)
  | SAdd (payload : option GossipPayload)
  | SStop.
Definition state_step (ev : state_event) (s : Provider) : res Provider :=
  match ev with
  | SListen a => Ok (listen a s)
  | SQueue i => queue_payload i s
  | SAnswer i => handleStateRequest i s
  | SDeliver ready => deliverPayloads ready s
  | SEntropy fuel now now' peers pick => antiEntropy fuel now now' peers pick s
  | SAdd payload => '(_, s) ← AddPayload payload s; Ok s
  | SStop => Ok (provider_Stop s)
  end.
Fixpoint state_run (l : list state_event) (s : Provider) : res Provider :=
  match l with [] => Ok s | ev :: l => s ← state_step ev s; state_run l s end.
End provider.

(** ** Blocks are committed in order, each once *)
Section order.
Context {C : Type} `{!Committer C, !Proto Block2}.
Abbreviation Provider := (StateProvider C).

(** What the goroutine that delivers does with payloads, one after the other. *)
Definition commit_payload (p : GossipPayload) (c : C) : res C :=
  match Unmarshal (sl (gp_Data p)) with
  | None => Ok c
  | Some rawblock => let '(r, c) := c_CommitBlock rawblock c in _ ← r; Ok c
  end.
Fixpoint commit_payloads (ps : list GossipPayload) (c : C) : res C :=
  match ps with [] => Ok c | p :: ps => c ← commit_payload p c; commit_payloads ps c end.

Lemma commit_payloads_app ps qs c : commit_payloads (ps ++ qs) c = (c ← commit_payloads ps c; commit_payloads qs c).
Proof. revert c. induction ps as [|p ps IH]; intros c; cbn; [done|]. destruct (commit_payload p c); cbn; [apply IH|done..]. Qed.

Lemma commitBlock_commits b p s : Unmarshal (sl (gp_Data p)) = Some b →
  match commitBlock b (gp_SeqNum p) s with
  | Ok s' => commit_payload p (sp_committer s) = Ok (sp_committer s') ∧ sp_payloads s' = sp_payloads s
             ∧ sp_queueing s' = sp_queueing s
  | _ => ¬ ∃ c, commit_payload p (sp_committer s) = Ok c
  end.
Proof.
  intros Hb. unfold commitBlock, commit_payload. rewrite Hb.
  destruct (c_CommitBlock b (sp_committer s)) as [[ok| |] c]; cbn; [by destruct ok|by intros [??]..].
Qed.

(** The payload taken out and not yet committed. *)
Definition in_flight (s : Provider) : list GossipPayload := match sp_deliver s with DBlock p => [p] | _ => [] end.
Definition delivering (s : Provider) : Prop := match sp_deliver s with DPop | DBlock _ => True | _ => False end.

(** A payload of a message that arrives, or that the peer adds itself. *)
Definition offered_by (ev : state_event) : list (option GossipPayload) :=
  match ev with
  | SListen (AGossip m) => match gm_Content m with CData d => [dm_Payload d] | _ => [] end
  | SListen (ADirect m) => match gm_Content m with CStateResponse ps => Some <$> ps | _ => [] end
  | SAdd p => [p]
  | _ => []
  end.
Definition offered (evs : list state_event) : list (option GossipPayload) := evs ≫= offered_by.

(** Of a state reached from a ledger [c0] of height [h]: the ledger is [c0]
    with the payloads [committed] committed in order; with the one in flight,
    these are numbered from [h + 1] on without a gap up to the next one; the
    buffer has later ones only; and when it has the next one, the goroutine
    that delivers is at it or has a signal waiting. *)
Record in_order (h : Z) (c0 : C) (avail : GossipPayload → Prop) (s : Provider) (committed : list GossipPayload) : Prop := {
  io_ledger : commit_payloads committed c0 = Ok (sp_committer s);
  io_numbers : gp_SeqNum <$> (committed ++ in_flight s) = seqZ (h + 1) (Z.of_nat (length (committed ++ in_flight s)));
  io_next : b_next (sp_payloads s) = h + 1 + Z.of_nat (length (committed ++ in_flight s));
  io_buf k p : b_buf (sp_payloads s) !! k = Some p → gp_SeqNum p = k ∧ b_next (sp_payloads s) ≤ k ∧ avail p;
  io_ready : is_Some (b_buf (sp_payloads s) !! b_next (sp_payloads s)) → (0 < b_ready (sp_payloads s))%nat ∨ delivering s;
  io_avail p : p ∈ committed ++ in_flight s → avail p;
  io_queue q p : q ∈ sp_queueing s → Some p ∈ q → avail p }.

(** Steps that leave delivery, ledger and buffer alone. *)
Definition delivery_kept (s s' : Provider) : Prop :=
  sp_committer s' = sp_committer s ∧ sp_payloads s' = sp_payloads s ∧ sp_deliver s' = sp_deliver s.

Lemma in_order_kept h c0 (avail avail' : GossipPayload → Prop) s s' cs : in_order h c0 avail s cs → delivery_kept s s' →
  (∀ p, avail p → avail' p) → (∀ q p, q ∈ sp_queueing s' → Some p ∈ q → avail' p) → in_order h c0 avail' s' cs.
Proof.
  intros [H1 H2 H3 H4 H5 H6 H7] (E1 & E2 & E3) Ha Hq. unfold in_flight, delivering in *.
  split; unfold in_flight, delivering; rewrite ?E1, ?E2, ?E3; auto. intros k p Hk. destruct (H4 k p Hk) as (? & ? & ?). auto.
Qed.

(** A push. *)
Lemma Push_spec p b : let r := Push (Some p) b in
  r = Ok (false, b)
  ∨ (b_next b ≤ gp_SeqNum p ∧ b_buf b !! gp_SeqNum p = None ∧
     r = Ok (true, mkPayloadsBuffer (<[gp_SeqNum p := p]> (b_buf b)) (b_next b)
                     (if bool_decide (gp_SeqNum p = b_next b) then S (b_ready b) else b_ready b))).
Proof.
  cbn. case_bool_decide as E1; cbn; [by left|]. case_bool_decide as E2; [by left|]. right.
  split; [lia|]. split; [by apply eq_None_not_Some|done].
Qed.

Lemma in_order_push h c0 (avail : GossipPayload → Prop) s cs p ok b : in_order h c0 avail s cs → avail p →
  Push (Some p) (sp_payloads s) = Ok (ok, b) → in_order h c0 avail (set_payloads b s) cs.
Proof.
  intros [H1 H2 H3 H4 H5 H6 H7] Ha E. destruct (Push_spec p (sp_payloads s)) as [E'|(Hle & Hnone & E')]; rewrite E in E'.
  { injection E' as -> ->. by split. }
  injection E' as -> ->. split; cbn; try done.
  - intros k q. rewrite lookup_insert_Some. intros [[<- <-]|[? Hk]]; [done|by apply H4].
  - intros Hs. case_bool_decide as Eq; [left; lia|]. rewrite lookup_insert_ne in Hs by done. by apply H5.
Qed.

Lemma in_order_pop h c0 avail s cs : in_order h c0 avail s cs → sp_deliver s = DPop →
  h + 1 + Z.of_nat (length (cs ++ in_flight s)) + 1 < 2 ^ 64 → 0 ≤ h →
  let r := Pop (sp_payloads s) in
  in_order h c0 avail (set_deliver (match r.1 with Some p => DBlock p | None => DHead end) (set_payloads r.2 s)) cs.
Proof.
  intros [H1 H2 H3 H4 H5 H6 H7] Hd Hbound Hh. unfold in_flight in *. rewrite Hd, app_nil_r in *. cbv zeta. unfold Pop.
  destruct (b_buf (sp_payloads s) !! b_next (sp_payloads s)) as [p|] eqn:Eb; cbn.
  - destruct (H4 _ p Eb) as (Hp & _ & Hap).
    assert (length (cs ++ [p]) = S (length cs)) as El by (rewrite length_app; cbn; lia).
    assert (u64 (b_next (sp_payloads s) + 1) = b_next (sp_payloads s) + 1) as Eu by (apply u64_small; lia).
    split; unfold in_flight; cbn; try done; rewrite ?El, ?Eu.
    + rewrite fmap_app, H2. rewrite Nat2Z.inj_succ, <-Z.add_1_r, seqZ_app by lia. cbn. rewrite Hp, H3. done.
    + lia.
    + intros k q. rewrite lookup_delete_Some. intros [Hne Hk]. destruct (H4 k q Hk) as (? & ? & ?). split_and!; try done. lia.
    + intros _. right. done.
    + intros q [?|Hq]%elem_of_app; [by apply H6|]. by apply list_elem_of_singleton in Hq as ->.
  - split; unfold in_flight; cbn; rewrite ?app_nil_r; try done. rewrite Eb. by intros [??].
Qed.

Lemma in_order_commit h c0 avail s s' cs p : in_order h c0 avail s cs → sp_deliver s = DBlock p →
  commit_payload p (sp_committer s) = Ok (sp_committer s') → sp_payloads s' = sp_payloads s →
  sp_queueing s' = sp_queueing s → sp_deliver s' = DPop → in_order h c0 avail s' (cs ++ [p]).
Proof.
  intros [H1 H2 H3 H4 H5 H6 H7] Hd Hc Ep Eq Ed. unfold in_flight in *. rewrite Hd in *.
  split; unfold in_flight, delivering; rewrite ?Ed, ?Ep, ?Eq, ?app_nil_r; try done.
  - rewrite commit_payloads_app, H1. cbn. by rewrite Hc.
  - intros _. by right.
Qed.

(** A step takes out at most one payload. *)
Definition ordered (h : Z) (c0 : C) (avail : GossipPayload → Prop) (n : nat) (s : Provider) : Prop :=
  ∃ cs, in_order h c0 avail s cs ∧ (length (cs ++ in_flight s) ≤ n)%nat.

Lemma ordered_kept h c0 (avail avail' : GossipPayload → Prop) n s s' : ordered h c0 avail n s → delivery_kept s s' →
  (∀ p, avail p → avail' p) → (∀ q p, q ∈ sp_queueing s' → Some p ∈ q → avail' p) → ordered h c0 avail' (S n) s'.
Proof.
  intros (cs & Hio & Hn) Hk Ha Hq. exists cs. split; [by eapply in_order_kept|]. destruct Hk as (_ & _ & E).
  unfold in_flight in *. rewrite E. lia.
Qed.

Lemma ordered_waiting h c0 avail n s d : ordered h c0 avail n s → ¬ delivering s → in_flight s = [] →
  d = DHead ∨ d = DSelect ∨ d = DDone → ordered h c0 avail (S n) (set_deliver d s).
Proof.
  intros (cs & [H1 H2 H3 H4 H5 H6 H7] & Hn) Hd Hf Hx. exists cs.
  assert (in_flight (set_deliver d s) = []) as Ef by (by destruct Hx as [-> | [-> | ->]]). rewrite Hf in *.
  split; [|rewrite Ef; lia]. split; rewrite ?Ef; try done. intros Hs. left. by destruct (H5 Hs).
Qed.

Lemma ordered_deliver h c0 avail n s ready s' : ordered h c0 avail n s → 0 ≤ h → h + Z.of_nat n + 2 < 2 ^ 64 →
  deliverPayloads ready s = Ok s' → ordered h c0 avail (S n) s'.
Proof.
  intros Ho Hh Hb. unfold deliverPayloads. destruct (sp_deliver s) as [| | |p|] eqn:Ed.
  - intros [= <-]. apply ordered_waiting; unfold delivering, in_flight; rewrite ?Ed; auto. destruct (sp_stopFlag s); auto.
  - assert (∀ d, d = DHead ∨ d = DSelect ∨ d = DDone → ordered h c0 avail (S n) (set_deliver d s)) as Hw.
    { intros d Hd. apply ordered_waiting; unfold delivering, in_flight; rewrite ?Ed; auto. }
    destruct Ho as (cs & Hio & Hn).
    assert (ordered h c0 avail (S n) s) as Hs by (exists cs; split; [done|lia]).
    destruct (b_ready (sp_payloads s)) as [|k] eqn:Er; destruct ready; intros [= <-]; auto.
    exists cs. unfold in_flight in *. rewrite Ed in *. cbn. split; [|rewrite app_nil_r in *; lia].
    destruct Hio as [H1 H2 H3 H4 H5 H6 H7]. unfold in_flight in *. rewrite Ed in *.
    split; cbn; try done. intros _. by right.
  - destruct Ho as (cs & Hio & Hn). destruct (Pop (sp_payloads s)) as [o b] eqn:Ep. intros [= <-]. exists cs.
    pose proof (in_order_pop h c0 avail s cs Hio Ed ltac:(lia) Hh) as Hp. rewrite Ep in Hp. split; [exact Hp|].
    unfold in_flight in *. rewrite Ed in Hn. rewrite length_app in *. cbn in *. destruct o; cbn; lia.
  - destruct Ho as (cs & Hio & Hn).
    assert (∀ s', commit_payload p (sp_committer s) = Ok (sp_committer s') → sp_payloads s' = sp_payloads s →
      sp_queueing s' = sp_queueing s → ordered h c0 avail (S n) (set_deliver DPop s')) as Hc.
    { intros s1 E1 E2 E3. exists (cs ++ [p]). split; [by eapply in_order_commit|].
      unfold in_flight in *. rewrite Ed in Hn. cbn. rewrite app_nil_r. lia. }
    destruct (Unmarshal (sl (gp_Data p))) as [b|] eqn:Eu.
    + pose proof (commitBlock_commits b p s Eu) as Hcb. destruct (commitBlock b (gp_SeqNum p) s) as [s1| |]; cbn; [|done..].
      intros [= <-]. destruct Hcb as (? & ? & ?). by apply Hc.
    + intros [= <-]. apply Hc; [|done..]. unfold commit_payload. by rewrite Eu.
  - intros [= <-]. destruct Ho as (cs & ? & ?). exists cs. split; [done|lia].
Qed.

(** A message adds its payloads to those that are put into the buffer. *)
Lemma listen_kept a s : delivery_kept s (listen a s)
  ∧ ∀ q p, q ∈ sp_queueing (listen a s) → Some p ∈ q → (q ∈ sp_queueing s) ∨ Some p ∈ offered_by (SListen a).
Proof.
  unfold listen, delivery_kept. destruct (sp_listen s); cbn; [by auto| |by auto].
  destruct a as [m|m|]; unfold queueNewMessage, directMessage; cbn; try (by auto);
    destruct (gm_Content m); cbn; (split; [by split_and!|]); try (by auto);
    (intros q p [?|Hq]%elem_of_app; [by left|]); apply list_elem_of_singleton in Hq as ->; by right.
Qed.
Lemma queue_ordered h c0 avail n s i s' : ordered h c0 avail n s → queue_payload i s = Ok s' → ordered h c0 avail (S n) s'.
Proof.
  intros Ho. unfold queue_payload. destruct Ho as (cs & Hio & Hn).
  assert (∀ s', in_order h c0 avail s' cs → sp_deliver s' = sp_deliver s → ordered h c0 avail (S n) s') as Hdone.
  { intros s1 H1 E. exists cs. split; [done|]. unfold in_flight in *. rewrite E. lia. }
  destruct (sp_queueing s !! i) as [[|p q]|] eqn:Eq.
  - intros [= <-]. apply Hdone; [|done]. eapply in_order_kept; [done|done|done|]. intros q p Hq. apply (io_queue _ _ _ _ _ Hio).
    cbn in Hq. rewrite (delete_Permutation _ i [] Eq). by right.
  - assert (∀ r, Some r ∈ p :: q → avail r) as Hav.
    { intros r. apply (io_queue _ _ _ _ _ Hio). by eapply list_elem_of_lookup_2. }
    destruct p as [p|]; [|done]. destruct (Push (Some p) (sp_payloads s)) as [[ok b]| |] eqn:Ep; cbn; [|done..].
    intros [= <-]. apply Hdone; [|done].
    assert (in_order h c0 avail (set_queueing (<[i := q]> (sp_queueing s)) s) cs) as Hio'.
    { eapply in_order_kept; [done|done|done|]. cbn. intros q' r (j & Hj)%list_elem_of_lookup_1 Hr.
      destruct (decide (i = j)) as [<-|Hne].
      - rewrite list_lookup_insert_eq in Hj by (by eapply lookup_lt_Some). simplify_eq. apply Hav. by right.
      - rewrite list_lookup_insert_ne in Hj by done. apply (io_queue _ _ _ _ _ Hio q'); [|done]. by eapply list_elem_of_lookup_2. }
    eapply (in_order_push _ _ _ _ _ p ok b Hio'); [apply Hav; by left|done].
  - intros [= <-]. by apply Hdone.
Qed.
Lemma request_kept fuel peers pick a z s s' : requestBlocksInRange fuel peers pick a z s = Ok s' →
  delivery_kept s s' ∧ sp_queueing s' = sp_queueing s.
Proof.
  unfold requestBlocksInRange. destruct (peers_with z peers !! _); [|by intros [= <-]].
  destruct (numbers_in fuel a z []); cbn; [|done..]. by intros [= <-].
Qed.
Lemma entropy_kept fuel now now' peers pick s s' : antiEntropy fuel now now' peers pick s = Ok s' →
  delivery_kept s s' ∧ sp_queueing s' = sp_queueing s.
Proof.
  unfold antiEntropy. destruct (sp_entropy s); try (by intros [= <-]); [intros [= <-]; by case_bool_decide|].
  by intros ?%request_kept.
Qed.
Lemma answer_kept i s s' : handleStateRequest i s = Ok s' → delivery_kept s s' ∧ sp_queueing s' = sp_queueing s.
Proof.
  unfold handleStateRequest. destruct (sp_answering s !! i) as [[[|k ks] ps]|]; [by intros [= <-]| |by intros [= <-]].
  destruct (c_GetBlocks [k] (sp_committer s)); cbn; [|done..]. by intros [= <-].
Qed.

Lemma step_ordered h c0 (avail : GossipPayload → Prop) n ev s s' : ordered h c0 avail n s → 0 ≤ h →
  h + Z.of_nat n + 2 < 2 ^ 64 → state_step ev s = Ok s' →
  ordered h c0 (λ p, avail p ∨ Some p ∈ offered_by ev) (S n) s'.
Proof.
  intros Ho Hh Hb.
  assert (∀ m s', ordered h c0 avail m s' → ordered h c0 (λ p, avail p ∨ Some p ∈ offered_by ev) m s') as Hmono.
  { intros m s1 (cs & Hio & Hn). exists cs. split; [|done]. eapply in_order_kept; [done|done|by left|].
    intros q p Hq Hp. left. by eapply io_queue. }
  assert (∀ q p, q ∈ sp_queueing s → Some p ∈ q → avail p) as Hq. { destruct Ho as (cs & Hio & _). apply (io_queue _ _ _ _ _ Hio). }
  assert (∀ s1, delivery_kept s s1 ∧ sp_queueing s1 = sp_queueing s →
    ordered h c0 (λ p, avail p ∨ Some p ∈ offered_by ev) (S n) s1) as Hkept.
  { intros s1 [Hk E]. eapply ordered_kept; [done|done|by left|]. rewrite E. intros; left; by eapply Hq. }
  destruct ev as [a|i|i|ready|fuel now now' peers pick|p|]; cbn [state_step].
  - intros [= <-]. destruct (listen_kept a s) as [Hk Hl]. eapply ordered_kept; [done|done|by left|].
    intros q p H1 H2. destruct (Hl q p H1 H2); [left; by eapply Hq|by right].
  - intros E. apply Hmono. by eapply queue_ordered.
  - intros E%answer_kept. by apply Hkept.
  - intros E. apply Hmono. by eapply ordered_deliver.
  - intros E%entropy_kept. by apply Hkept.
  - unfold AddPayload. destruct p as [p|]; [|done]. destruct (Push (Some p) (sp_payloads s)) as [[ok b]| |] eqn:Ep; cbn; [|done..].
    intros [= <-]. destruct (Hmono n s Ho) as (cs & Hio & Hn). exists cs.
    split; [eapply in_order_push; [done| |done]; right; by left|]. change (in_flight (set_payloads b s)) with (in_flight s). lia.
  - intros [= <-]. by apply Hkept.
Qed.

Lemma run_ordered h c0 (avail : GossipPayload → Prop) evs n s s' : ordered h c0 avail n s → 0 ≤ h →
  h + Z.of_nat n + Z.of_nat (length evs) + 2 < 2 ^ 64 → state_run evs s = Ok s' →
  ∃ n', ordered h c0 (λ p, avail p ∨ Some p ∈ offered evs) n' s'.
Proof.
  revert avail n s. induction evs as [|ev evs IH]; intros avail n s Ho Hh Hb; cbn [state_run].
  { intros [= <-]. exists (S n). eapply ordered_kept; [done|done|by left|]. destruct Ho as (cs & Hio & _).
    intros q p ??. left. by eapply (io_queue _ _ _ _ _ Hio). }
  destruct (state_step ev s) as [s1| |] eqn:E; cbn [mbind res_bind]; [|done..]. cbn in Hb. intros Hr.
  destruct (IH (λ p, avail p ∨ Some p ∈ offered_by ev) (S n) s1) as (n' & Hn'); [apply (step_ordered _ _ _ n ev s); [done|done|lia|done]|done|lia|done|].
  exists n'. destruct Hn' as (cs & Hio & Hn). exists cs. split; [|done].
  eapply in_order_kept; [done|done| |].
  - unfold offered. cbn. intros p [[?|?]|?]; rewrite ?elem_of_app; auto.
  - intros q p ??. unfold offered. cbn. rewrite elem_of_app. destruct (io_queue _ _ _ _ _ Hio q p) as [[?|?]|?]; auto.
Qed.

(** C12. Whatever arrives, in whatever order and however often, and whatever the
    goroutines are at: the ledger is the one it started from with the payloads
    [committed] committed in turn.  Together with the payload in flight they
    are numbered one after the other from the height at the start, each was
    offered to the peer, and the buffer waits for the one that follows.  When
    that one is in the buffer, the goroutine that delivers is at work or has a
    signal to take: no wake-up is lost. *)
Theorem state_transfer_in_order c0 h now s0 evs s :
  c_LedgerHeight c0 = Some h → 0 ≤ h → h + Z.of_nat (length evs) + 2 < 2 ^ 64 →
  NewGossipStateProvider c0 now = Some s0 → state_run evs s0 = Ok s →
  ∃ committed, let popped := committed ++ in_flight s in
    commit_payloads committed c0 = Ok (sp_committer s)
    ∧ gp_SeqNum <$> popped = seqZ (h + 1) (Z.of_nat (length popped))
    ∧ b_next (sp_payloads s) = h + 1 + Z.of_nat (length popped)
    ∧ (∀ p, p ∈ popped → Some p ∈ offered evs)
    ∧ (is_Some (b_buf (sp_payloads s) !! b_next (sp_payloads s)) → (0 < b_ready (sp_payloads s))%nat ∨ delivering s).
Proof.
  intros Hh Hpos Hb Hnew Hrun. unfold NewGossipStateProvider in Hnew. rewrite Hh in Hnew. injection Hnew as <-.
  match type of Hrun with state_run _ ?s0 = _ => assert (ordered h c0 (λ _, False) 0 s0) as Ho end.
  { exists []. split; [|cbn; lia]. split; cbn; try done.
    - rewrite u64_small; lia.
    - rewrite lookup_empty. by intros [??].
    - intros p. by apply not_elem_of_nil.
    - intros q p. by intros ?%not_elem_of_nil. }
  destruct (run_ordered h c0 _ evs 0 _ s Ho) as (n & cs & [H1 H2 H3 H4 H5 H6 H7] & _); [done|lia|done|].
  exists cs. cbv zeta. split_and!; try done. intros p Hp. by destruct (H6 p Hp).
Qed.
End order.

(** ** A peer that is behind catches up *)

(** A block that is marshalled reads back, with an empty hash as none. *)
Definition wire_block (b : Block2) : Block2 :=
  mkBlock2 (if bool_decide (sl (b2_PreviousBlockHash b) = []) then None else b2_PreviousBlockHash b) (b2_Transactions b).
Class BlockWire `{!Proto Block2} : Prop :=
  wire_read (b : Block2) : ∃ w, Marshal b = Some w ∧ Unmarshal w = Some (wire_block b).

(** What a committer promises to the peers that ask for blocks: its height is
    the number of its blocks, and it finds them by number, counted from 1. *)
Class CommitterLaws (C : Type) `{!Committer C} := {
  HoldsBlocks : C → list Block2 → Prop;
  hb_height c bs : HoldsBlocks c bs → c_LedgerHeight c = Some (Z.of_nat (length bs));
  hb_block c bs k b : HoldsBlocks c bs → bs !! k = Some b → c_GetBlocks [Z.of_nat (S k)] c = Ok [b] }.

Lemma FromBytes_Bytes height : 0 ≤ height < 2 ^ 64 → FromBytes (Some (NodeMetastate_Bytes height)) = Some height.
Proof.
  intros Hh. unfold FromBytes, NodeMetastate_Bytes, PutUint64.
  change (sl (Some (Sha.be_bytes 8 height))) with (Sha.be_bytes 8 height).
  rewrite length_be_bytes, bool_decide_false by lia. rewrite take_ge by (rewrite length_be_bytes; lia).
  unfold Uint64. rewrite be_value. change (256 ^ Z.of_nat 8) with (2 ^ 64). rewrite Z.mod_small by lia. f_equal; lia.
Qed.

Lemma numbers_in_ok fuel i end_ acc : 0 ≤ i ≤ end_ + 1 → end_ + 1 < 2 ^ 64 → (Z.to_nat (end_ + 1 - i) < fuel)%nat →
  numbers_in fuel i end_ acc = Ok (acc ++ seqZ i (end_ + 1 - i)).
Proof.
  revert i acc. induction fuel as [|fuel IH]; intros i acc Hi He Hf; [lia|]. cbn. case_bool_decide as Hle.
  - rewrite u64_small, IH by lia. f_equal. rewrite <-app_assoc. f_equal.
    rewrite (seqZ_cons i) by lia. cbn. do 2 f_equal; lia.
  - replace (end_ + 1 - i) with 0 by lia. cbn. by rewrite app_nil_r.
Qed.
(** ... and does not end for the greatest number. *)
Lemma numbers_in_forever fuel i acc : 0 ≤ i < 2 ^ 64 → numbers_in fuel i (2 ^ 64 - 1) acc = OutOfFuel.
Proof.
  revert i acc. induction fuel as [|fuel IH]; intros i acc Hi; cbn [numbers_in]; [done|].
  rewrite bool_decide_true by lia. apply IH, u64_range.
Qed.

Lemma highest_attained max peers : highest max peers = max
  ∨ ∃ p, p ∈ peers ∧ FromBytes (nm_Metadata p) = Some (highest max peers).
Proof.
  revert max. induction peers as [|p peers IH]; intros max; [by left|]. unfold highest in *. cbn [foldl].
  destruct (FromBytes (nm_Metadata p)) as [height|] eqn:Ep.
  - case_bool_decide.
    + destruct (IH height) as [E|(q & Hq & E)]; right; [exists p; rewrite E; split; [by left|done]|exists q; split; [by right|done]].
    + destruct (IH max) as [E|(q & Hq & E)]; [by left|right; exists q; split; [by right|done]].
  - destruct (IH max) as [E|(q & Hq & E)]; [by left|right; exists q; split; [by right|done]].
Qed.
Lemma peer_found max peers pick k : highest max peers = k → max < k →
  ∃ p, peers_with k peers !! (pick `mod` length (peers_with k peers))%nat = Some p ∧ (p ∈ peers) ∧ has_block k p = true.
Proof.
  intros Hk Hlt. destruct (highest_attained max peers) as [E|(p & Hp & Ep)]; [lia|]. rewrite Hk in Ep.
  assert (p ∈ peers_with k peers) as Hin.
  { apply list_elem_of_filter. split; [|done]. unfold has_block. rewrite Ep. by apply bool_decide_true. }
  assert (length (peers_with k peers) ≠ 0%nat) as Hne. { intros E%length_zero_iff_nil. rewrite E in Hin. by apply not_elem_of_nil in Hin. }
  destruct (lookup_lt_is_Some_2 (peers_with k peers) (pick `mod` length (peers_with k peers))) as [q Hq].
  { by apply Nat.mod_upper_bound. }
  exists q. split; [done|]. apply list_elem_of_lookup_2, list_elem_of_filter in Hq as [??]. done.
Qed.

(** A buffer that holds the payloads [ps] from the next number on. *)
Definition window (b : PayloadsBuffer) (ps : list GossipPayload) : Prop :=
  ∀ k, b_buf b !! k = if decide (b_next b ≤ k) then ps !! Z.to_nat (k - b_next b) else None.

Lemma window_push b ps p : window b ps → gp_SeqNum p = b_next b + Z.of_nat (length ps) →
  ∃ b', Push (Some p) b = Ok (true, b') ∧ window b' (ps ++ [p]) ∧ b_next b' = b_next b
    ∧ b_ready b' = if bool_decide (ps = []) then S (b_ready b) else b_ready b.
Proof.
  intros Hw Hp. assert (b_buf b !! gp_SeqNum p = None) as Hnone.
  { rewrite (Hw _), Hp, decide_True by lia. apply lookup_ge_None_2. lia. }
  unfold Push. cbn [deref mbind res_bind]. cbv zeta. rewrite bool_decide_false by lia.
  rewrite bool_decide_false by (rewrite Hnone; by intros [??]). cbn. eexists. split; [reflexivity|]. split; [|split; [done|]].
  - intros k. cbn. destruct (decide (k = gp_SeqNum p)) as [->|Hne].
    + rewrite lookup_insert_eq, decide_True by lia. symmetry. apply list_lookup_middle. lia.
    + rewrite lookup_insert_ne, (Hw k) by done. destruct (decide (b_next b ≤ k)); [|done].
      destruct (decide (k < gp_SeqNum p)); [rewrite lookup_app_l by lia; done|].
      rewrite !lookup_ge_None_2; rewrite ?length_app; cbn; [done|lia..].
  - cbn. destruct ps as [|q ps]; [rewrite !bool_decide_true; [done|done|cbn in Hp; lia]|].
    rewrite !bool_decide_false; [done|done|cbn in Hp; lia].
Qed.
Lemma window_pop b p ps : window b (p :: ps) → 0 ≤ b_next b → b_next b + 1 < 2 ^ 64 →
  ∃ b', Pop b = (Some p, b') ∧ window b' ps ∧ b_next b' = b_next b + 1 ∧ b_ready b' = b_ready b.
Proof.
  intros Hw H0 Hb. unfold Pop. rewrite (Hw (b_next b)), decide_True, Z.sub_diag by lia. cbn.
  rewrite u64_small by lia. eexists. split; [done|]. split; [|done]. intros k. cbn. destruct (decide (k = b_next b)) as [->|Hne].
  - rewrite lookup_delete_eq. by rewrite decide_False by lia.
  - rewrite lookup_delete_ne, (Hw k) by done. repeat case_decide; try lia; [|done].
    by replace (Z.to_nat (k - b_next b)) with (S (Z.to_nat (k - (b_next b + 1)))) by lia.
Qed.
Lemma window_nil b : window b [] ↔ b_buf b = ∅.
Proof.
  unfold window. split.
  - intros Hw. apply map_eq. intros k. rewrite (Hw k), lookup_empty. by case_decide.
  - intros E k. rewrite E, lookup_empty. by case_decide.
Qed.

Section catch_up.
Context {C : Type} `{!Committer C, !CommitterLaws C, !Proto Block2, !BlockWire}.
Abbreviation Provider := (StateProvider C).

(** A provider with nothing to do that waits for the block after [h]. *)
Record idle (h : Z) (s : Provider) : Prop := {
  id_payloads : sp_payloads s = NewPayloadsBuffer (h + 1);
  id_stop : sp_stopFlag s = false;
  id_listen : sp_listen s = LHead;
  id_deliver : sp_deliver s = DHead;
  id_entropy : sp_entropy s = AHead;
  id_queueing : sp_queueing s = [];
  id_answering : sp_answering s = [] }.

Lemma state_run_cons ev l s s' : state_step ev s = Ok s' → state_run (ev :: l) s = state_run l s'.
Proof. intros E. cbn [state_run]. by rewrite E. Qed.
Lemma state_run_app l1 l2 s : state_run l1 s ≫= state_run l2 = state_run (l1 ++ l2) s.
Proof. revert s. induction l1 as [|ev l1 IH]; intros s; cbn; [done|]. destruct (state_step ev s); cbn; [apply IH|done..]. Qed.

(** One round of anti-entropy asks for what is missing. *)
Definition ask (fuel : nat) (now now' : Z) (peers : list NetworkMember) (pick : nat) : list state_event :=
  replicate 6 (SEntropy fuel now now' peers pick).
Lemma ask_ok fuel now now' peers pick h k s :
  idle h s → c_LedgerHeight (sp_committer s) = Some h → 0 ≤ h < k → k + 1 < 2 ^ 64 → highest h peers = k →
  defAntiEntropyInterval < now - sp_checkPoint s → (Z.to_nat (k - h) < fuel)%nat →
  ∃ p s', state_run (ask fuel now now' peers pick) s = Ok s' ∧ idle h s' ∧ sp_committer s' = sp_committer s
    ∧ (p ∈ peers) ∧ has_block k p = true ∧ sp_out s' = sp_out s ++ [SRequest p (seqZ (h + 1) (k - h))].
Proof.
  intros [H1 H2 H3 H4 H5 H6 H7] Hh Hr Hk Hhigh Hnow Hfuel.
  destruct (peer_found h peers pick k Hhigh (proj2 Hr)) as (p & Hp & Hin & Hhas).
  destruct s as [c b stop li de en cp qu an out]. cbn in *. subst. exists p.
  unfold ask. cbn. rewrite bool_decide_false by lia. cbn. rewrite Hh. cbn. rewrite bool_decide_false by lia. cbn.
  unfold requestBlocksInRange. rewrite Hp. rewrite u64_small, numbers_in_ok by lia.
  replace (highest h peers + 1 - (h + 1)) with (highest h peers - h) by lia. cbn. eexists. split; [reflexivity|]. by split_and!.
Qed.

(** The peer that is asked answers with its blocks. *)
Definition payload_of (bs : list Block2) (n : Z) : option GossipPayload :=
  b ← bs !! Z.to_nat (n - 1); Some (mkGossipPayload n [] (Marshal b)).
Lemma answer_blocks bs c (nums : list Z) acc s : HoldsBlocks c bs → sp_committer s = c →
  Forall (λ n, 1 ≤ n ≤ Z.of_nat (length bs)) nums → sp_answering s = [(nums, acc)] →
  state_run (replicate (S (length nums)) (SAnswer 0)) s
  = Ok (sp_put (SRespond (acc ++ omap (payload_of bs) nums)) (set_answering [] s)).
Proof.
  intros Hb Hc Hn. revert acc s Hc. induction Hn as [|n nums Hn Hns IH]; intros acc s Hc Ha.
  { cbn. unfold handleStateRequest. rewrite Ha. cbn. by rewrite app_nil_r. }
  destruct (lookup_lt_is_Some_2 bs (Z.to_nat (n - 1))) as [b Eb]; [lia|].
  assert (c_GetBlocks [n] c = Ok [b]) as Hget.
  { rewrite <-(hb_block c bs _ b Hb Eb). do 2 f_equal. lia. }
  change (replicate (S (length (n :: nums))) (SAnswer 0)) with (SAnswer 0 :: replicate (S (length nums)) (SAnswer 0)).
  cbn [state_run state_step]. unfold handleStateRequest. rewrite Ha. cbn [lookup list_lookup]. rewrite Hc, Hget. cbn [mbind res_bind].
  rewrite (IH (acc ++ [mkGossipPayload n [] (Marshal b)])); [|done|done].
  destruct s. cbn. unfold payload_of at 2. rewrite Eb. cbn. by rewrite <-app_assoc.
Qed.
Definition answer (nums : list Z) : list state_event :=
  [SListen ATimeout; SListen (ADirect (newGossip (CStateRequest nums)))] ++ replicate (S (length nums)) (SAnswer 0).
Lemma answer_ok bs nums j s : idle j s → HoldsBlocks (sp_committer s) bs →
  Forall (λ n, 1 ≤ n ≤ Z.of_nat (length bs)) nums →
  ∃ s', state_run (answer nums) s = Ok s' ∧ idle j s' ∧ sp_committer s' = sp_committer s
    ∧ sp_out s' = sp_out s ++ [SRespond (omap (payload_of bs) nums)].
Proof.
  intros [H1 H2 H3 H4 H5 H6 H7] Hb Hn. destruct s as [c b stop li de en cp qu an out]. cbn in H1, H2, H3, H4, H5, H6, H7, Hb. subst.
  unfold answer.
  rewrite <-state_run_app. cbn [state_run state_step listen sp_listen sp_stopFlag set_listen mbind res_bind].
  unfold directMessage. cbn [gm_Content newGossip]. erewrite (answer_blocks bs c nums []); [|done..].
  eexists. split; [reflexivity|]. by split_and!.
Qed.

(** The answer fills the buffer, ... *)
Lemma queue_all qs ps s : window (sp_payloads s) ps → sp_queueing s = [Some <$> qs] →
  gp_SeqNum <$> qs = seqZ (b_next (sp_payloads s) + Z.of_nat (length ps)) (Z.of_nat (length qs)) →
  ∃ b, state_run (replicate (S (length qs)) (SQueue 0)) s = Ok (set_payloads b (set_queueing [] s))
    ∧ window b (ps ++ qs) ∧ b_next b = b_next (sp_payloads s)
    ∧ b_ready b = if bool_decide (ps = []) && negb (bool_decide (qs = [])) then S (b_ready (sp_payloads s))
                  else b_ready (sp_payloads s).
Proof.
  revert ps s. induction qs as [|q qs IH]; intros ps s Hw Hq Hn.
  { exists (sp_payloads s). rewrite app_nil_r. cbn. unfold queue_payload. rewrite Hq. cbn.
    split; [by destruct s|]. split_and!; [done|done|]. by rewrite andb_false_r. }
  cbn [length] in Hn. rewrite Nat2Z.inj_succ, seqZ_cons in Hn by lia. injection Hn as Hq0 Hqs.
  destruct (window_push _ ps q Hw Hq0) as (b1 & Hp & Hw1 & Hn1 & Hr1).
  change (replicate (S (length (q :: qs))) (SQueue 0)) with (SQueue 0 :: replicate (S (length qs)) (SQueue 0)).
  cbn [state_run state_step]. unfold queue_payload at 1. rewrite Hq. cbn [lookup list_lookup fmap list_fmap].
  rewrite Hp. cbn [mbind res_bind].
  destruct (IH (ps ++ [q]) (set_payloads b1 (set_queueing (<[0%nat := Some <$> qs]> [Some <$> q :: qs]) s)))
    as (b & Hrun & Hwb & Hnb & Hrb); [done|done| |].
  { etransitivity; [exact Hqs|]. cbn. rewrite Hn1, length_app. f_equal; cbn; lia. }
  exists b. split; [exact Hrun|]. rewrite <-app_assoc in Hwb. split; [done|]. split; [by rewrite Hnb|].
  rewrite Hrb. cbn. rewrite Hr1. by destruct ps.
Qed.

(** ... and the blocks are committed one after the other. *)
Fixpoint commits (bs : list Block2) (c : C) : option C :=
  match bs with
  | [] => Some c
  | b :: bs => match c_CommitBlock b c with (Ok true, c) => commits bs c | _ => None end
  end.
Lemma deliver_pop ready s p b : sp_deliver s = DPop → Pop (sp_payloads s) = (Some p, b) →
  state_step (SDeliver ready) s = Ok (set_deliver (DBlock p) (set_payloads b s)).
Proof. intros Hd Hp. cbn. unfold deliverPayloads. by rewrite Hd, Hp. Qed.
Lemma deliver_block ready s p b c : sp_deliver s = DBlock p → Unmarshal (sl (gp_Data p)) = Some b →
  c_CommitBlock b (sp_committer s) = (Ok true, c) →
  state_step (SDeliver ready) s
  = Ok (set_deliver DPop (sp_put (SUpdateMetadata (NodeMetastate_Bytes (gp_SeqNum p))) (set_committer c s))).
Proof. intros Hd Hu Hc. cbn. unfold deliverPayloads, commitBlock. by rewrite Hd, Hu, Hc. Qed.

Definition published (ps : list GossipPayload) : list state_out := (λ p, SUpdateMetadata (NodeMetastate_Bytes (gp_SeqNum p))) <$> ps.

Lemma deliver_all ps bs s c' : window (sp_payloads s) ps → sp_deliver s = DPop → 0 ≤ b_next (sp_payloads s) →
  b_next (sp_payloads s) + Z.of_nat (length ps) < 2 ^ 64 →
  Forall2 (λ p b, Unmarshal (sl (gp_Data p)) = Some b) ps bs → commits bs (sp_committer s) = Some c' →
  ∃ b, state_run (replicate (length ps + S (length ps)) (SDeliver true)) s
       = Ok (mkStateProvider c' b (sp_stopFlag s) (sp_listen s) DHead (sp_entropy s) (sp_checkPoint s) (sp_queueing s)
               (sp_answering s) (sp_out s ++ published ps))
    ∧ window b [] ∧ b_next b = b_next (sp_payloads s) + Z.of_nat (length ps) ∧ b_ready b = b_ready (sp_payloads s).
Proof.
  intros Hw Hd H0 Hb Hf. revert s Hw Hd H0 Hb. induction Hf as [|p b ps bs Hu Hf IH]; intros s Hw Hd H0 Hb Hc.
  { exists (sp_payloads s). cbn in Hc. injection Hc as <-. cbn. unfold deliverPayloads, Pop. rewrite Hd.
    rewrite (proj1 (window_nil _) Hw), lookup_empty. cbn. rewrite app_nil_r. split; [by destruct s|]. split_and!; [done|lia|done]. }
  cbn [length] in Hb. destruct (window_pop _ p ps Hw) as (b1 & Hp & Hw1 & Hn1 & Hr1); [lia..|].
  cbn [commits] in Hc. destruct (c_CommitBlock b (sp_committer s)) as [[[|]| |] c1] eqn:Ec; try done.
  replace (length (p :: ps) + S (length (p :: ps)))%nat with (S (S (length ps + S (length ps)))) by (cbn; lia).
  cbn [replicate]. rewrite (state_run_cons _ _ _ _ (deliver_pop true s p b1 Hd Hp)).
  erewrite state_run_cons by (by eapply (deliver_block true _ p)).
  match goal with |- context [state_run (replicate _ _) ?s1] => destruct (IH s1) as (b2 & Hrun & Hw2 & Hn2 & Hr2) end;
    [done|done|cbn; lia|cbn; lia|done|].
  exists b2. split; [rewrite Hrun; cbn; by rewrite <-app_assoc|]. cbn in *. split_and!; [done|lia|congruence].
Qed.

Definition take_in (ps : list GossipPayload) : list state_event :=
  [SListen ATimeout; SListen (ADirect (newGossip (CStateResponse ps)))] ++ replicate (S (length ps)) (SQueue 0)
  ++ [SDeliver true; SDeliver true] ++ replicate (length ps + S (length ps)) (SDeliver true).
Lemma take_in_ok ps bs h s c' : idle h s → 0 ≤ h → h + 1 + Z.of_nat (length ps) < 2 ^ 64 → ps ≠ [] →
  gp_SeqNum <$> ps = seqZ (h + 1) (Z.of_nat (length ps)) →
  Forall2 (λ p b, Unmarshal (sl (gp_Data p)) = Some b) ps bs → commits bs (sp_committer s) = Some c' →
  ∃ s', state_run (take_in ps) s = Ok s' ∧ idle (h + Z.of_nat (length ps)) s' ∧ sp_committer s' = c'
    ∧ sp_out s' = sp_out s ++ published ps.
Proof.
  intros [H1 H2 H3 H4 H5 H6 H7] Hh Hb Hne Hn Hf Hc. unfold take_in. rewrite <-state_run_app.
  destruct s as [c b stop li de en cp qu an out]. cbn in H1, H2, H3, H4, H5, H6, H7, Hc. subst.
  cbn [state_run state_step listen sp_listen sp_stopFlag set_listen mbind res_bind]. unfold directMessage. cbn [gm_Content newGossip]. rewrite <-state_run_app.
  match goal with |- context [state_run (replicate _ (SQueue 0)) ?s1] =>
    destruct (queue_all ps [] s1) as (b1 & -> & Hw1 & Hn1 & Hr1) end; [by apply window_nil|done|cbn; by rewrite Z.add_0_r|].
  cbn in Hr1, Hn1. rewrite (bool_decide_false (ps = [])) in Hr1 by done. cbn in Hr1.
  cbn [mbind res_bind app]. erewrite state_run_cons by reflexivity.
  erewrite state_run_cons by (cbn; rewrite Hr1; reflexivity).
  match goal with |- context [state_run (replicate _ _) ?s1] =>
    destruct (deliver_all ps bs s1 c') as (b2 & -> & Hw2 & Hn2 & Hr2) end; [done|done|cbn; lia|cbn; lia|done|done|].
  eexists. split; [reflexivity|]. cbn in *. split; [|done]. split; try done. cbn. apply window_nil in Hw2.
  destruct b2 as [buf next ready]. cbn in *. subst. unfold NewPayloadsBuffer. f_equal. lia.
Qed.

(** The payloads of the blocks [suf] that follow [pre]. *)
Lemma payloads_of_blocks pre suf :
  let ps := omap (payload_of (pre ++ suf)) (seqZ (Z.of_nat (length pre) + 1) (Z.of_nat (length suf))) in
  gp_SeqNum <$> ps = seqZ (Z.of_nat (length pre) + 1) (Z.of_nat (length suf))
  ∧ Forall2 (λ p b, Unmarshal (sl (gp_Data p)) = Some b) ps (wire_block <$> suf).
Proof.
  revert pre. induction suf as [|b suf IH]; intros pre; [done|]. cbv zeta. cbn [length].
  assert (payload_of (pre ++ b :: suf) (Z.of_nat (length pre) + 1)
          = Some (mkGossipPayload (Z.of_nat (length pre) + 1) [] (Marshal b))) as Hp.
  { unfold payload_of. replace (Z.to_nat (Z.of_nat (length pre) + 1 - 1)) with (length pre) by lia.
    by rewrite list_lookup_middle by done. }
  rewrite Nat2Z.inj_succ, seqZ_cons by lia. cbn. rewrite !Hp. cbn.
  specialize (IH (pre ++ [b])). rewrite <-app_assoc, length_app in IH. cbn in IH.
  replace (Z.of_nat (length pre + 1) + 1) with (Z.succ (Z.of_nat (length pre) + 1)) in IH by lia.
  replace (Z.pred (Z.succ (Z.of_nat (length suf)))) with (Z.of_nat (length suf)) by lia.
  destruct IH as [IH1 IH2]. split; [f_equal; exact IH1|]. constructor; [|exact IH2]. cbn.
  destruct (wire_read b) as (w & -> & Hw). exact Hw.
Qed.

End catch_up.
