(* ===== verification/Gossip.v ===== *)
(** * The gossip service (gossip/gossip/gossip_impl.go, gossip/comm/demux.go)

    The service puts the parts together: a message that comes in goes to the
    discovery, to the message store and the emitter, to those who have asked
    for messages, or to the pull engine; what discovery and pull engine send
    goes out through the service.

    A handler is one step; the parts it calls take their locks one after the
    other.  Messages for the discovery wait in [g_incChan], the batches given to
    goroutines of [gossipBatch] in [g_batches].  Of a channel that [Accept]
    returns the model has all that was sent to it. *)

From Stdlib Require Import Strings.Byte.
From stdpp Require Import base numbers strings gmap list.
From S2P Require Import Prelude GossipStore GossipStoreProofs Pull Discovery DiscoveryProofs.
Local Open Scope Z_scope.

Record Config := mkConfig {
  cf_PropagateIterations : Z; cf_PropagatePeerNum : Z; cf_MaxMessageCountToStore : Z;
  cf_MaxPropagationBurstSize : Z; cf_PullPeerNum : Z; cf_aliveExpirationTimeout : Z }.

Record RemotePeer := mkRemotePeer { rp_Endpoint : bytes; rp_PKIID : slice }.
(** What is asked of the communication layer; an answer goes to where the
    message being handled came from. *)
Inductive gossip_out :=
  | GSend (m : GossipMessage) (peers : list RemotePeer)
  | GRespond (m : GossipMessage)
  | GCloseConn (peer : RemotePeer).

Record channel := mkChannel { ch_pred : GossipMessage → bool; ch_sent : list GossipMessage }.

Record gossipService := mkService {
  g_disc : Disc; g_msgStore : list GossipMessage; g_emitter : batchingEmitter GossipMessage; g_pushPull : PullEngine;
  g_channels : list channel; g_closed : bool; g_stopFlag : bool; g_incChan : list GossipMessage;
  g_batches : list (list GossipMessage); g_out : list gossip_out }.

Section service.
Context (conf : Config) `{!CryptoService}.

Definition NewGossipService (self : NetworkMember) (now : Z) : gossipService :=
  mkService (newDisc self now) [] (newBatchingEmitter (cf_PropagateIterations conf) (cf_MaxPropagationBurstSize conf))
    NewPullEngine [] false false [] [] [].

(** ** Fields *)
Definition set_disc (d : Disc) (g : gossipService) : gossipService :=
  mkService d (g_msgStore g) (g_emitter g) (g_pushPull g) (g_channels g) (g_closed g) (g_stopFlag g) (g_incChan g)
    (g_batches g) (g_out g).
Definition set_store (st : list GossipMessage) (g : gossipService) : gossipService :=
  mkService (g_disc g) st (g_emitter g) (g_pushPull g) (g_channels g) (g_closed g) (g_stopFlag g) (g_incChan g)
    (g_batches g) (g_out g).
Definition set_pull (e : PullEngine) (g : gossipService) : gossipService :=
  mkService (g_disc g) (g_msgStore g) (g_emitter g) e (g_channels g) (g_closed g) (g_stopFlag g) (g_incChan g)
    (g_batches g) (g_out g).
Definition set_channels (chs : list channel) (g : gossipService) : gossipService :=
  mkService (g_disc g) (g_msgStore g) (g_emitter g) (g_pushPull g) chs (g_closed g) (g_stopFlag g) (g_incChan g)
    (g_batches g) (g_out g).
Definition set_incChan (l : list GossipMessage) (g : gossipService) : gossipService :=
  mkService (g_disc g) (g_msgStore g) (g_emitter g) (g_pushPull g) (g_channels g) (g_closed g) (g_stopFlag g) l
    (g_batches g) (g_out g).
Definition set_batches (l : list (list GossipMessage)) (g : gossipService) : gossipService :=
  mkService (g_disc g) (g_msgStore g) (g_emitter g) (g_pushPull g) (g_channels g) (g_closed g) (g_stopFlag g)
    (g_incChan g) l (g_out g).
Definition g_put (o : list gossip_out) (g : gossipService) : gossipService :=
  mkService (g_disc g) (g_msgStore g) (g_emitter g) (g_pushPull g) (g_channels g) (g_closed g) (g_stopFlag g)
    (g_incChan g) (g_batches g) (g_out g ++ o).
(** The callback of the emitter, [sendGossipBatch], starts a goroutine for each
    batch. *)
Definition on_emitter (f : batchingEmitter GossipMessage → batchingEmitter GossipMessage) (g : gossipService) : gossipService :=
  let e := f (g_emitter g) in
  mkService (g_disc g) (g_msgStore g) e (g_pushPull g) (g_channels g) (g_closed g) (g_stopFlag g) (g_incChan g)
    (g_batches g ++ drop (length (be_emitted (g_emitter g))) (be_emitted e)) (g_out g).

(** ** demux.go *)
Definition DeMultiplex (m : GossipMessage) (g : gossipService) : gossipService :=
  if g_closed g then g
  else set_channels ((λ ch, if ch_pred ch m then mkChannel (ch_pred ch) (ch_sent ch ++ [m]) else ch) <$> g_channels g) g.
Definition AddChannel (pred : GossipMessage → bool) (g : gossipService) : gossipService :=
  set_channels (g_channels g ++ [mkChannel pred []]) g.

(** ** Peers *)
Definition GetPeers (g : gossipService) : res (list NetworkMember) := GetMembership (g_disc g).

Fixpoint endpoints_at (indices : list nat) (pool : list NetworkMember) : res (list bytes) :=
  match indices with
  | [] => Ok []
  | j :: indices => m ← deref (pool !! j); es ← endpoints_at indices pool; Ok (nm_Endpoint m :: es)
  end.
Definition selectEndpoints (k : Z) (draws : list nat) (peerPool : list NetworkMember) : res (list bytes) :=
  let n := Z.of_nat (length peerPool) in
  indices ← GetRandomIndices (if bool_decide (n < k) then n else k) (n - 1) draws;
  endpoints_at indices peerPool.
Definition SelectPeers (draws : list nat) (g : gossipService) : res (list bytes) :=
  members ← GetMembership (g_disc g); selectEndpoints (cf_PullPeerNum conf) draws members.
Definition peersWithEndpoints (endpoints : list bytes) (g : gossipService) : res (list RemotePeer) :=
  members ← GetMembership (g_disc g);
  Ok (members ≫= λ m, endpoints ≫= λ e,
        if bool_decide (nm_Endpoint m = e) then [mkRemotePeer (nm_Endpoint m) (nm_PKIid m)] else []).

(** ** The pull adapter *)
Definition Hello (dest : bytes) (nonce : Z) (g : gossipService) : res gossipService :=
  peers ← peersWithEndpoints [dest] g; Ok (g_put [GSend (newGossip (CHello nonce)) peers] g).
Definition SendDigest (digest : list Z) (nonce : Z) (g : gossipService) : gossipService :=
  g_put [GRespond (newGossip (CDataDig nonce digest))] g.
Definition SendReq (dest : bytes) (items : list Z) (nonce : Z) (g : gossipService) : res gossipService :=
  peers ← peersWithEndpoints [dest] g; Ok (g_put [GSend (newGossip (CDataReq nonce items)) peers] g).

Fixpoint item_map (msgs : list GossipMessage) (m : gmap Z DataMessage) : res (gmap Z DataMessage) :=
  match msgs with
  | [] => Ok m
  | msg :: msgs =>
      match gm_Content msg with
      | CData dataMsg => p ← deref (dm_Payload dataMsg); item_map msgs (<[gp_SeqNum p := dataMsg]> m)
      | _ => item_map msgs m
      end
  end.
Definition SendRes (requestedItems : list Z) (nonce : Z) (g : gossipService) : res gossipService :=
  itemMap ← item_map (g_msgStore g) ∅;
  Ok (g_put [GRespond (newGossip (CDataUpdate nonce (omap (λ item, itemMap !! item) requestedItems)))] g).

Definition pull_send (o : pull_out unit) (g : gossipService) : res gossipService :=
  match o with
  | OHello dest nonce => Hello dest nonce g
  | ODigest digest nonce _ => Ok (SendDigest digest nonce g)
  | OReq dest items nonce => SendReq dest items nonce g
  | ORes items _ nonce => SendRes items nonce g
  end.
Fixpoint pull_sends (os : list (pull_out unit)) (g : gossipService) : res gossipService :=
  match os with [] => Ok g | o :: os => g ← pull_send o g; pull_sends os g end.

(** ** Messages *)

(** [msgStore.add].  Its trigger would take the items of data messages that go
    out of the store out of the pull engine, but asks for the type of the
    data within a message, which no message in the store has. *)
Definition msg_add (m : GossipMessage) (g : gossipService) : res (bool * gossipService) :=
  '(added, st, gone) ← store_add (invalidationPolicy (cf_MaxMessageCountToStore conf)) m (g_msgStore g);
  Ok (added, set_store st g).

Definition selectOnlyDiscoveryMessages (m : GossipMessage) : bool :=
  match gm_Content m with CAlive _ | CMemReq _ | CMemRes _ => true | _ => false end.
Definition forwardDiscoveryMsg (m : GossipMessage) (g : gossipService) : gossipService :=
  set_incChan (g_incChan g ++ [m]) g.

(** The loop over an update: an item that is not added stays 0. *)
Fixpoint add_updates (nonce : Z) (data : list DataMessage) (g : gossipService) : res (list Z * gossipService) :=
  match data with
  | [] => Ok ([], g)
  | d :: data =>
      let dataMsg := mkGossip nonce None TAG_EMPTY (CData d) in
      '(added, g) ← msg_add dataMsg g;
      '(item, g) ← (if added : bool then p ← deref (dm_Payload d); Ok (gp_SeqNum p, DeMultiplex dataMsg g)
                    else Ok (0, g));
      '(items, g) ← add_updates nonce data g;
      Ok (item :: items, g)
  end.
Definition handlePushPullMsg (m : GossipMessage) (g : gossipService) : res gossipService :=
  match gm_Content m with
  | CHello nonce => let '(e, os) := OnHello nonce tt (g_pushPull g) in pull_sends os (set_pull e g)
  | CDataDig nonce seqMap => Ok (set_pull (OnDigest seqMap nonce (g_pushPull g)) g)
  | CDataReq nonce seqMap => pull_sends (OnReq seqMap nonce tt (g_pushPull g)) g
  | CDataUpdate nonce data =>
      '(items, g) ← add_updates (gm_Nonce m) data g;
      Ok (set_pull (OnRes items nonce (g_pushPull g)) g)
  | _ => Ok g
  end.

Definition handleMessage (m : GossipMessage) (g : gossipService) : res gossipService :=
  if g_stopFlag g then Ok g
  else
    let g := if selectOnlyDiscoveryMessages m then forwardDiscoveryMsg m g else g in
    match gm_Content m with
    | CAlive _ | CData _ =>
        '(added, g) ← msg_add m g;
        if negb added then Ok g
        else
          let g := on_emitter (emitter_Add m) g in
          match gm_Content m with
          | CData dataMsg =>
              let g := DeMultiplex m g in
              p ← deref (dm_Payload dataMsg);
              Ok (set_pull (pull_Add [gp_SeqNum p] (g_pushPull g)) g)
          | _ => Ok g
          end
    | CDataReq _ _ | CDataUpdate _ _ | CHello _ | CDataDig _ _ => handlePushPullMsg m g
    | _ => Ok g
    end.
(** [start]: connection and empty messages are not taken from the
    communication layer. *)
Definition acceptMessages (m : GossipMessage) (g : gossipService) : res gossipService :=
  match gm_Content m with CConn _ _ | CEmpty => Ok g | _ => handleMessage m g end.

Definition Gossip (m : GossipMessage) (g : gossipService) : res gossipService :=
  g ← match gm_Content m with
      | CData dataMsg =>
          '(_, g) ← msg_add m g;
          p ← deref (dm_Payload dataMsg);
          Ok (set_pull (pull_Add [gp_SeqNum p] (g_pushPull g)) g)
      | _ => Ok g
      end;
  Ok (on_emitter (emitter_Add m) g).

(** The goroutine [i] of [gossipBatch]. *)
Fixpoint send_all (peers : list RemotePeer) (msgs : list GossipMessage) (g : gossipService) : gossipService :=
  match msgs with [] => g | m :: msgs => send_all peers msgs (g_put [GSend m peers] g) end.
Definition gossipBatch (i : nat) (draws : list nat) (g : gossipService) : res gossipService :=
  match g_batches g !! i with
  | None => Ok g
  | Some msgs =>
      members ← GetMembership (g_disc g);
      peers2Send ← selectEndpoints (cf_PropagatePeerNum conf) draws members;
      peers ← peersWithEndpoints peers2Send g;
      Ok (send_all peers msgs (set_batches (list_delete i (g_batches g)) g))
  end.

(** ** The discovery adapter *)
Definition adapter_out (o : disc_out) (g : gossipService) : res gossipService :=
  match o with
  | DSend peer m => Ok (if g_stopFlag g then g else g_put [GSend m [mkRemotePeer (nm_Endpoint peer) (nm_PKIid peer)]] g)
  | DGossip m => Gossip m g
  | DCloseConn peer => Ok (g_put [GCloseConn (mkRemotePeer (nm_Endpoint peer) (nm_PKIid peer))] g)
  end.
Fixpoint adapter_outs (os : list disc_out) (g : gossipService) : res gossipService :=
  match os with [] => Ok g | o :: os => g ← adapter_out o g; adapter_outs os g end.
(** A step of the discovery and what it asks for. *)
Definition on_disc (ev : disc_event) (g : gossipService) : res gossipService :=
  d ← disc_step (cf_aliveExpirationTimeout conf) ev (g_disc g);
  adapter_outs (drop (length (d_out (g_disc g))) (d_out d)) (set_disc d g).

(** The discovery takes a message when it is done with the one before. *)
Definition take_message (g : gossipService) : res gossipService :=
  match g_incChan g, d_todo (g_disc g) with
  | m :: rest, [] => on_disc (EMessage m) (set_incChan rest g)
  | _, _ => Ok g
  end.

(** ** The rest *)
Definition start_pull (draws : list nat) (nonces : list Z) (g : gossipService) : res gossipService :=
  if pe_stopFlag (g_pushPull g) then Ok g
  else
    peers ← SelectPeers draws g;
    '(e, os) ← initiatePull peers nonces (g_pushPull g);
    pull_sends os (set_pull e g).
Definition drop_timer (i : nat) (e : PullEngine) : PullEngine :=
  mkPull (pe_stopFlag e) (pe_state e) (pe_item2owners e) (pe_peers2nonces e) (pe_nonces2peers e) (pe_acceptingDigests e)
    (pe_acceptingResponses e) (pe_outgoingNONCES e) (pe_incomingNONCES e) (list_delete i (pe_timers e)).
Definition fire_timer (i : nat) (pick : Z → nat → nat) (g : gossipService) : res gossipService :=
  let e := drop_timer i (g_pushPull g) in
  match pe_timers (g_pushPull g) !! i with
  | None => Ok g
  | Some TProcessDigests => '(e, os) ← processIncomingDigests pick e; pull_sends os (set_pull e g)
  | Some TEndPull => Ok (set_pull (endPull e) g)
  | Some (TForget nonce) => Ok (set_pull (forget_nonce nonce e) g)
  end.
Definition service_Stop (g : gossipService) : gossipService :=
  if g_stopFlag g then g
  else mkService (disc_Stop (g_disc g)) (g_msgStore g) (emitter_Stop (g_emitter g)) (pull_Stop (g_pushPull g))
         (g_channels g) true true (g_incChan g) (g_batches g) (g_out g).

Inductive gossip_event :=
  | GReceive (m : GossipMessage)
  | GTake
  | GDisc (ev : disc_event)
  | GGossip (m : GossipMessage)
  | GEmit
  | GBatch (i : nat) (draws : list nat)
  | GPull (draws : list nat) (nonces : list Z)
  | GTimer (i : nat) (pick : Z → nat → nat)
  | GAccept (pred : GossipMessage → bool)
  | GStop.
(** The discovery's messages come by [GTake] only. *)
Definition gossip_step (ev : gossip_event) (g : gossipService) : res gossipService :=
  match ev with
  | GReceive m => acceptMessages m g
  | GTake => take_message g
  | GDisc (EMessage _) => Ok g
  | GDisc ev => on_disc ev g
  | GGossip m => Gossip m g
  | GEmit => Ok (on_emitter emit g)
  | GBatch i draws => gossipBatch i draws g
  | GPull draws nonces => start_pull draws nonces g
  | GTimer i pick => fire_timer i pick g
  | GAccept pred => Ok (AddChannel pred g)
  | GStop => Ok (service_Stop g)
  end.
Fixpoint gossip_run (l : list gossip_event) (g : gossipService) : res gossipService :=
  match l with [] => Ok g | ev :: l => g ← gossip_step ev g; gossip_run l g end.
End service.

(** * Every block is delivered once *)
Section delivery.
Context (conf : Config) {CS : CryptoService} (pred0 : GossipMessage → bool).
Context (pred0_data : ∀ m, is_Some (data_of m) → pred0 m = true).
Abbreviation size := (cf_MaxMessageCountToStore conf).
Abbreviation stored := (store_ok message_set (covers size)).

(** Of the messages [H] heard and those [O] the peer itself has sent: the
    blocks sent to a channel are different and were heard; and of the first
    channel, which takes all blocks, each block heard has been sent to it,
    unless a block that makes it obsolete has, or the peer has sent one itself. *)
Record delivered (H O : GossipMessage → Prop) (ms : list GossipMessage) (g : gossipService) : Prop := {
  dl_store : stored ms (g_msgStore g);
  dl_closed : g_closed g = true → g_stopFlag g = true;
  dl_once ch : ch ∈ g_channels g → NoDup (omap data_of (ch_sent ch));
  dl_sent ch m : ch ∈ g_channels g → m ∈ ch_sent ch → (m ∈ ms) ∧ ch_pred ch m = true ∧ H m ∧ is_Some (data_of m);
  dl_heard m : g_stopFlag g = false → H m → is_Some (data_of m) → m ∈ ms;
  dl_first : ∃ ch, head (g_channels g) = Some ch ∧ ch_pred ch = pred0
    ∧ ∀ m, m ∈ ms → is_Some (data_of m) → ∃ x, (x ∈ ch_sent ch ∨ O x) ∧ covers size x m }.

Definition same_delivery (g g' : gossipService) : Prop :=
  g_msgStore g' = g_msgStore g ∧ g_channels g' = g_channels g ∧ g_closed g' = g_closed g ∧ g_stopFlag g' = g_stopFlag g.

Lemma delivered_same H O ms g g' : same_delivery g g' → delivered H O ms g → delivered H O ms g'.
Proof. intros (E1 & E2 & E3 & E4) [H1 H2 H3 H4 H5 H6]. split; rewrite ?E1, ?E2, ?E3, ?E4; auto. Qed.
Lemma delivered_mono (H H' O O' : GossipMessage → Prop) ms g : delivered H O ms g →
  (∀ m, is_Some (data_of m) → H m → H' m) → (∀ m, O m → O' m) → (∀ m, g_stopFlag g = false → H' m → is_Some (data_of m) → H m) → delivered H' O' ms g.
Proof.
  intros [H1 H2 H3 H4 H5 H6] HH HO Hb. split; auto.
  - intros ch m Hc Hm. destruct (H4 ch m Hc Hm) as (? & ? & ? & ?). auto.
  - destruct H6 as (ch & E1 & E2 & Hx). exists ch. split_and!; try done. intros m Hm Hs.
    destruct (Hx m Hm Hs) as (x & [?|?] & ?); eauto.
Qed.

Lemma covers_self m : is_Some (data_of m) → covers size m m.
Proof. intros [d Hd]. apply (covers_data size m m d d); auto. Qed.
Lemma covers_block x m : covers size x m → is_Some (data_of m) → is_Some (data_of x).
Proof.
  intros Hc [d Hd]. destruct Hc as [(?&?&?&?&Hb&_)|[(?&?&?&?&Hb&_)|(e&?&He&_)]];
    [unfold alive_of, data_of in *|unfold info_of, data_of in *|by eexists]; by destruct (gm_Content m).
Qed.
Lemma covers_data_of x m d : data_of x = Some d → data_of m = Some d → covers size x m.
Proof. intros Hx Hm. apply (covers_data size x m d d); auto. Qed.

(** The store takes the message or has one that covers it. *)
Lemma msg_add_ok H O ms g m : delivered H O ms g → message_set m →
  ∃ added st, msg_add conf m g = Ok (added, set_store st g) ∧ stored (ms ++ [m]) st
    ∧ if added : bool then ∀ x, x ∈ ms → ¬ covers size x m else ∃ x, x ∈ ms ∧ covers size x m.
Proof.
  intros Hd Hm. destruct (store_add_spec (invalidationPolicy size) message_set (covers size) m ms (g_msgStore g) Hm
    (dl_store _ _ _ _ Hd)) as (added & st & gone & E & Hok & Ha).
  exists added, st. unfold msg_add. rewrite E. cbn. split; [done|]. split; [done|]. destruct added; [done|]. by destruct Ha as (_ & _ & ?).
Qed.

(** A message the peer sends itself. *)
Lemma own_ok (H O : GossipMessage → Prop) ms g m : delivered H O ms g → message_set m →
  ∃ added st, msg_add conf m g = Ok (added, set_store st g) ∧ delivered H (λ x, O x ∨ x = m) (ms ++ [m]) (set_store st g).
Proof.
  intros Hd Hm. destruct (msg_add_ok _ _ _ _ _ Hd Hm) as (added & st & E & Hok & _). exists added, st. split; [done|].
  destruct Hd as [H1 H2 H3 H4 H5 H6]. split; cbn; auto.
  - intros ch x Hc Hx. destruct (H4 ch x Hc Hx) as (? & ? & ? & ?). rewrite elem_of_app. auto.
  - intros x Hs Hx Hd. rewrite elem_of_app. auto.
  - destruct H6 as (ch & E1 & E2 & Hx). exists ch. split_and!; try done. intros x [Hin|Hin]%elem_of_app Hs.
    + destruct (Hx x Hin Hs) as (y & [?|?] & ?); eauto.
    + apply list_elem_of_singleton in Hin as ->. exists m. split; [by right; right|by apply covers_self].
Qed.

(** A message that is heard: a block that is taken goes to the channels. *)
Lemma heard_ok (H O : GossipMessage → Prop) ms g m : delivered H O ms g → message_set m → g_stopFlag g = false →
  ∃ added st, msg_add conf m g = Ok (added, set_store st g)
    ∧ delivered (λ x, H x ∨ x = m) O (ms ++ [m])
        (if added && bool_decide (is_Some (data_of m)) then DeMultiplex m (set_store st g) else set_store st g).
Proof.
  intros Hd Hm Hstop. destruct (msg_add_ok _ _ _ _ _ Hd Hm) as (added & st & E & Hok & Ha). exists added, st. split; [done|].
  destruct Hd as [H1 H2 H3 H4 H5 H6]. destruct (added && bool_decide (is_Some (data_of m))) eqn:Ed.
  - apply andb_true_iff in Ed as [-> Edata%bool_decide_eq_true]. unfold DeMultiplex. cbn [set_store g_closed].
    destruct (g_closed g) eqn:Ecl; [by specialize (H2 eq_refl); congruence|]. cbn. split; cbn; auto; try congruence.
    + intros ch' (ch & -> & Hch)%list_elem_of_fmap. destruct (ch_pred ch m) eqn:Ep; [|by apply H3]. cbn.
      rewrite omap_app. cbn. destruct (data_of m) as [d|] eqn:Edm; [|by destruct Edata]. apply NoDup_app.
      split_and!; [by apply H3| |apply NoDup_singleton]. intros e He ->%list_elem_of_singleton.
      apply list_elem_of_omap in He as (x & Hx & Ex). destruct (H4 ch x Hch Hx) as (Hin & _).
      apply (Ha x Hin). by eapply covers_data_of.
    + intros ch' x (ch & -> & Hch)%list_elem_of_fmap. rewrite elem_of_app. destruct (ch_pred ch m) eqn:Ep; cbn.
      * intros [Hx|Hx]%elem_of_app; [destruct (H4 ch x Hch Hx) as (? & ? & ? & ?); auto|].
        apply list_elem_of_singleton in Hx as ->. split_and!; auto. right. by left.
      * intros Hx. destruct (H4 ch x Hch Hx) as (? & ? & ? & ?). auto.
    + intros x _ [Hx| ->] Hs; rewrite elem_of_app; [left; by apply H5|right; by left].
    + destruct H6 as (ch & E1 & E2 & Hx). destruct (g_channels g) as [|ch' chs]; [done|]. injection E1 as ->. cbn.
      rewrite E2, (pred0_data m) by done. eexists. split; [done|]. split; [done|]. cbn. intros x [Hin|Hin]%elem_of_app Hs.
      * destruct (Hx x Hin Hs) as (y & [Hy|Hy] & ?); exists y; rewrite elem_of_app; auto.
      * apply list_elem_of_singleton in Hin as ->. exists m. rewrite elem_of_app. split; [left; right; by left|by apply covers_self].
  - split; cbn; auto.
    + intros ch x Hc Hx. destruct (H4 ch x Hc Hx) as (? & ? & ? & ?). rewrite elem_of_app. auto.
    + intros x _ [Hx| ->] Hs; rewrite elem_of_app; [left; by apply H5|right; by left].
    + destruct H6 as (ch & E1 & E2 & Hx). exists ch. split_and!; try done. intros x [Hin|Hin]%elem_of_app Hs.
      { destruct (Hx x Hin Hs) as (y & [Hy|Hy] & ?); eauto. }
      apply list_elem_of_singleton in Hin as ->. rewrite (bool_decide_true _ Hs), andb_true_r in Ed. subst added.
      destruct Ha as (y & Hy & Hc). pose proof (covers_block _ _ Hc Hs) as Hys.
      destruct (Hx y Hy Hys) as (z & Hz & Hzy). exists z. split; [done|]. by eapply gossip_covers_trans.
Qed.

(** ** The other parts *)
Definition owners_nonempty (e : PullEngine) : Prop := ∀ n l, pe_item2owners e !! n = Some l → l ≠ [].
Record parts (g : gossipService) : Prop := {
  pt_disc : good (g_disc g);
  pt_out : Forall alive_out (d_out (g_disc g));
  pt_inc : Forall (λ m, content_ok (gm_Content m)) (g_incChan g);
  pt_pull : owners_nonempty (g_pushPull g) }.

Definition same_parts (g g' : gossipService) : Prop :=
  g_disc g' = g_disc g ∧ g_incChan g' = g_incChan g ∧ g_pushPull g' = g_pushPull g.
Lemma same_parts_trans g1 g2 g3 : same_parts g1 g2 → same_parts g2 g3 → same_parts g1 g3.
Proof. unfold same_parts. intuition congruence. Qed.
Lemma parts_same g g' : same_parts g g' → parts g → parts g'.
Proof. intros (E1 & E2 & E3) [H1 H2 H3 H4]. split; by rewrite ?E1, ?E2, ?E3. Qed.

(** [g] and [g'] differ in what was sent. *)
Definition sends (g g' : gossipService) : Prop := ∃ os, g' = g_put os g.
Lemma g_put_nil g : g_put [] g = g.
Proof. destruct g. unfold g_put. cbn. by rewrite app_nil_r. Qed.
Lemma sends_refl g : sends g g.
Proof. exists []. by rewrite g_put_nil. Qed.
Lemma sends_trans g1 g2 g3 : sends g1 g2 → sends g2 g3 → sends g1 g3.
Proof. intros [os ->] [os' ->]. exists (os ++ os'). unfold g_put. cbn. by rewrite app_assoc. Qed.
Lemma sends_same g g' : sends g g' → same_parts g g' ∧ same_delivery g g'.
Proof. by intros [os ->]. Qed.

Lemma membership_ok g : parts g → ∃ ms, GetMembership (g_disc g) = Ok ms.
Proof.
  intros Hp. destruct (d_toDie (g_disc g)) eqn:E; [unfold GetMembership; rewrite E; by eexists|].
  destruct (membership_is_alive (g_disc g)) as (ms & ? & _); [apply (pt_disc g Hp)|done|by eexists].
Qed.
Lemma peersWithEndpoints_ok es g : parts g → ∃ ps, peersWithEndpoints es g = Ok ps.
Proof. intros Hp. destruct (membership_ok g Hp) as [ms E]. unfold peersWithEndpoints. rewrite E. by eexists. Qed.

Lemma item_map_ok msgs m : Forall message_set msgs → ∃ m', item_map msgs m = Ok m'.
Proof.
  intros Hm. revert m. induction Hm as [|x msgs Hx Hm IH]; intros m; cbn; [by eexists|]. unfold message_set in Hx.
  destruct (gm_Content x); auto. destruct Hx as [p ->]. cbn. apply IH.
Qed.
Lemma pull_send_ok o g : parts g → Forall message_set (g_msgStore g) → ∃ g', pull_send o g = Ok g' ∧ sends g g'.
Proof.
  intros Hp Hs. destruct o as [dest nonce|dig nonce u|dest items nonce|items u nonce]; cbn; unfold Hello, SendReq, SendRes.
  - destruct (peersWithEndpoints_ok [dest] g Hp) as [ps ->]. eexists. split; [reflexivity|by eexists].
  - eexists. split; [reflexivity|by eexists].
  - destruct (peersWithEndpoints_ok [dest] g Hp) as [ps ->]. eexists. split; [reflexivity|by eexists].
  - destruct (item_map_ok (g_msgStore g) ∅ Hs) as [m ->]. eexists. split; [reflexivity|by eexists].
Qed.
Lemma pull_sends_ok os g : parts g → Forall message_set (g_msgStore g) → ∃ g', pull_sends os g = Ok g' ∧ sends g g'.
Proof.
  revert g. induction os as [|o os IH]; intros g Hp Hs; cbn; [eexists; split; [done|apply sends_refl]|].
  destruct (pull_send_ok o g Hp Hs) as (g1 & -> & H1). destruct (sends_same _ _ H1) as [Hsp Hsd]. cbn.
  destruct (IH g1) as (g2 & -> & H2); [by eapply parts_same|by rewrite (proj1 Hsd)|].
  eexists. split; [done|by eapply sends_trans].
Qed.

Lemma endpoints_at_ok js pool : Forall (λ i, i < length pool)%nat js → ∃ es, endpoints_at js pool = Ok es.
Proof.
  induction 1 as [|i js Hi His IH]; cbn; [by eexists|]. destruct (lookup_lt_is_Some_2 pool i Hi) as [m ->]. cbn.
  destruct IH as [es ->]. by eexists.
Qed.
Lemma selectEndpoints_ok k draws pool :
  selectEndpoints k draws pool = OutOfFuel ∨ ∃ es, selectEndpoints k draws pool = Ok es.
Proof.
  unfold selectEndpoints. replace (if bool_decide _ then _ else k) with (Z.min k (Z.of_nat (length pool)))
    by (case_bool_decide; lia).
  destruct (GetRandomIndices_ok k (length pool) draws) as [->|(l & -> & Hl)]; [by left|right]. by apply endpoints_at_ok.
Qed.

(** The pull engine: an item is noted with its owners. *)
Lemma OnDigest_owners d n e : owners_nonempty e → owners_nonempty (OnDigest d n e).
Proof.
  intros He. unfold OnDigest. destruct (_ || _); [done|]. unfold owners_nonempty. cbn.
  generalize (default [] (pe_nonces2peers e !! n)) as p. intros p. unfold owners_nonempty in He. revert He.
  generalize (pe_item2owners e) as m. induction d as [|i d IH]; intros m Hm; cbn [foldl]; [done|]. apply IH.
  case_bool_decide; [done|]. intros k l. destruct (decide (k = i)) as [->|Hne].
  - rewrite lookup_insert_eq. intros [= <-]. by destruct (default [] (m !! i)).
  - rewrite lookup_insert_ne by done. apply Hm.
Qed.
Lemma initiatePull_owners peers draws e : owners_nonempty e →
  (initiatePull (C := unit) peers draws e = OutOfFuel)
  ∨ ∃ e' os, initiatePull (C := unit) peers draws e = Ok (e', os) ∧ owners_nonempty e'.
Proof.
  intros He. unfold initiatePull. set (e0 := set_acceptingDigests true e).
  assert (owners_nonempty e0) as He0 by done. clearbody e0. clear He. revert draws e0 He0.
  induction peers as [|p peers IH]; intros draws e0 He0; cbn; [right; by eauto|].
  destruct (newNONCE (pe_outgoingNONCES e0) draws) as [[n rest]| |] eqn:En; cbn; [| |by left].
  - specialize (IH rest (greet p n e0) He0). cbn in IH. destruct (greet_all peers rest (greet p n e0)) as [[e1 os]| |]; cbn in *.
    + right. destruct IH as [?|(e' & os' & [= <- <-] & ?)]; [done|]. by eauto.
    + by destruct IH as [?|(? & ? & ? & _)].
    + by left.
  - exfalso. revert En. generalize (pe_outgoingNONCES e0) as used. intros used. induction draws as [|d draws IHd]; cbn; [done|].
    case_bool_decide; done.
Qed.
Lemma processDigests_owners pick e : (∀ n k, (0 < k)%nat → (pick n k < k)%nat) → owners_nonempty e →
  ∃ e' os, processIncomingDigests (C := unit) pick e = Ok (e', os) ∧ owners_nonempty e'.
Proof.
  intros Hpick He. unfold processIncomingDigests. cbn.
  destruct (map_requests_spec pick (map_to_list (pe_item2owners e)) ∅ Hpick) as (m & -> & _).
  { intros n l Hin%elem_of_map_to_list. by eapply He. }
  cbn. by eauto.
Qed.

(** ** Every step *)
Definition inv (H O : GossipMessage → Prop) (g : gossipService) : Prop := parts g ∧ ∃ ms, delivered H O ms g.
(** A step returns, unless it waits for random numbers, which [draws] says it
    may. *)
Definition outcome (draws : Prop) (H O : GossipMessage → Prop) (r : res gossipService) : Prop :=
  (r = OutOfFuel ∧ draws) ∨ ∃ g, r = Ok g ∧ inv H O g.
Lemma outcome_Ok dr H O g : inv H O g → outcome dr H O (Ok g).
Proof. right. by eauto. Qed.

Lemma inv_set H O g : inv H O g → Forall message_set (g_msgStore g).
Proof. intros [_ (ms & Hd)]. apply (so_valid _ _ _ _ (dl_store _ _ _ _ Hd)). Qed.
Lemma inv_same H O g g' : same_parts g g' → same_delivery g g' → inv H O g → inv H O g'.
Proof. intros Hp Hd [H1 (ms & H2)]. split; [by eapply parts_same|]. exists ms. by eapply delivered_same. Qed.
Lemma inv_pull H O e g : owners_nonempty e → inv H O g → inv H O (set_pull e g).
Proof. intros He [[H1 H2 H3 H4] (ms & Hd)]. split; [by split|]. exists ms. by apply (delivered_same _ _ _ g). Qed.
Lemma inv_emitter H O f g : inv H O g → inv H O (on_emitter f g).
Proof. by apply inv_same. Qed.
Lemma inv_mono (H H' O O' : GossipMessage → Prop) g : inv H O g →
  (∀ m, is_Some (data_of m) → H m → H' m) → (∀ m, O m → O' m) → (∀ m, H' m → is_Some (data_of m) → H m) → inv H' O' g.
Proof. intros [Hp (ms & Hd)] HH HO Hb. split; [done|]. exists ms. eapply delivered_mono; eauto. Qed.

Lemma inv_pull_sends dr H O os g : inv H O g → outcome dr H O (pull_sends os g).
Proof.
  intros Hi. destruct (pull_sends_ok os g (proj1 Hi) (inv_set _ _ _ Hi)) as (g' & -> & Hs).
  apply outcome_Ok. destruct (sends_same _ _ Hs). by eapply inv_same.
Qed.

Lemma Gossip_ok (H O : GossipMessage → Prop) m g : inv H O g → message_set m →
  ∃ g', Gossip conf m g = Ok g' ∧ inv H (λ x, O x ∨ x = m) g'.
Proof.
  intros Hi Hm. unfold Gossip. pose proof Hm as Hm'. unfold message_set in Hm'.
  assert (inv H (λ x, O x ∨ x = m) g) as Hi' by (eapply inv_mono; eauto).
  destruct (gm_Content m) as [a|a|a|d|n|n ss|n ss|n ds|c| |sg pk|si|ss|ps|] eqn:Ec;
    try (eexists; split; [reflexivity|]; by apply inv_emitter).
  destruct Hm' as [p Hp]. destruct Hi as [Hpt (ms & Hd)].
  destruct (own_ok _ _ _ _ m Hd) as (added & st & -> & Hd'); [done|]. cbn. rewrite Hp. cbn.
  eexists. split; [reflexivity|]. apply inv_emitter, inv_pull; [exact (pt_pull g Hpt)|]. split; [by apply (parts_same g)|by eauto].
Qed.

Lemma heard_inv (H O : GossipMessage → Prop) m g : inv H O g → message_set m → g_stopFlag g = false →
  ∃ added g', msg_add conf m g = Ok (added, g') ∧ g_stopFlag g' = false ∧ same_parts g g'
    ∧ inv (λ x, H x ∨ x = m) O (if added && bool_decide (is_Some (data_of m)) then DeMultiplex m g' else g').
Proof.
  intros [Hp (ms & Hd)] Hm Hs. destruct (heard_ok _ _ _ _ m Hd Hm Hs) as (added & st & -> & Hd').
  eexists _, _. split; [reflexivity|]. split; [done|]. split; [done|]. split; [|by eauto].
  destruct (added && _); [unfold DeMultiplex; cbn; destruct (g_closed g)|]; by apply (parts_same g).
Qed.
Lemma DeMultiplex_parts m g : same_parts g (DeMultiplex m g) ∧ g_stopFlag (DeMultiplex m g) = g_stopFlag g.
Proof. unfold DeMultiplex. by destruct (g_closed g). Qed.

Definition update_msg (nonce : Z) (d : DataMessage) : GossipMessage := mkGossip nonce None TAG_EMPTY (CData d).
Lemma add_updates_ok (H O : GossipMessage → Prop) nonce data g : inv H O g → Forall (λ d, is_Some (dm_Payload d)) data →
  g_stopFlag g = false →
  ∃ items g', add_updates conf nonce data g = Ok (items, g') ∧ same_parts g g'
    ∧ inv (λ x, H x ∨ x ∈ update_msg nonce <$> data) O g'.
Proof.
  intros Hi Hdata. revert H g Hi. induction Hdata as [|d data [p Hp] Hdata IH]; intros H g Hi Hs.
  { cbn. eexists _, _. split; [reflexivity|]. split; [done|]. eapply inv_mono; eauto. intros m [?|Hn] _; [done|].
    by apply not_elem_of_nil in Hn. }
  cbn [add_updates]. fold (update_msg nonce d).
  assert (message_set (update_msg nonce d)) as Hms by (cbn; by eexists).
  destruct (heard_inv _ _ _ _ Hi Hms Hs) as (added & g1 & -> & Hs1 & Hp1 & Hi1). cbn [mbind res_bind].
  rewrite (bool_decide_true (is_Some _)) in Hi1 by (unfold data_of; cbn; rewrite Hp; by eexists). rewrite andb_true_r in Hi1.
  set (g2 := if added then DeMultiplex (update_msg nonce d) g1 else g1) in Hi1.
  assert (∃ item, (if added then p ← deref (dm_Payload d); Ok (gp_SeqNum p, DeMultiplex (update_msg nonce d) g1) else Ok (0, g1))
    = Ok (item, g2)) as [item ->].
  { rewrite Hp. destruct added; cbn; by eexists. }
  assert (same_parts g g2 ∧ g_stopFlag g2 = false) as [Hp2 Hs2].
  { unfold g2. destruct added; [|done]. destruct (DeMultiplex_parts (update_msg nonce d) g1) as [(E1 & E2 & E3) E4].
    rewrite E4. split; [|done]. by apply (same_parts_trans _ g1). }
  cbn [mbind res_bind]. destruct (IH _ g2 Hi1 Hs2) as (items & g3 & -> & Hp3 & Hi3). cbn.
  eexists _, _. split; [reflexivity|]. split; [by apply (same_parts_trans _ g2)|].
  eapply inv_mono; eauto; cbn.
  - intros m _ [[?| ->]|?]; rewrite elem_of_cons; auto.
  - intros m [?|[->|?]%elem_of_cons] _; auto.
Qed.

(** The blocks a message brings: itself, or those of an update. *)
Definition blocks_in (m : GossipMessage) : list GossipMessage :=
  match gm_Content m with
  | CData _ => [m]
  | CDataUpdate _ data => update_msg (gm_Nonce m) <$> data
  | _ => []
  end.
Lemma inv_none (H O : GossipMessage → Prop) g : inv H O g → inv (λ x, H x ∨ x ∈ ([] : list GossipMessage)) O g.
Proof. intros Hi. eapply inv_mono; eauto. intros m [?|Hn] _; [done|by apply not_elem_of_nil in Hn]. Qed.
Lemma inv_stopped (H H' O : GossipMessage → Prop) g : inv H O g → g_stopFlag g = true → inv (λ x, H x ∨ H' x) O g.
Proof. intros [Hp (ms & Hd)] Hs. split; [done|]. exists ms. eapply delivered_mono; eauto. congruence. Qed.
Lemma outcome_mono dr (H H' O : GossipMessage → Prop) r :
  (∀ g, inv H O g → inv H' O g) → outcome dr H O r → outcome dr H' O r.
Proof. intros Hm [?|(g & ? & ?)]; [by left|right]. by eauto. Qed.

Lemma pushPull_ok (H O : GossipMessage → Prop) m g : inv H O g → message_set m → g_stopFlag g = false →
  (∀ d, gm_Content m ≠ CData d) → outcome False (λ x, H x ∨ x ∈ blocks_in m) O (handlePushPullMsg conf m g).
Proof.
  intros Hi Hm Hs Hnd. unfold handlePushPullMsg, blocks_in, message_set in *. pose proof (pt_pull g (proj1 Hi)) as Hpull.
  destruct (gm_Content m) as [a|a|a|d|n|n ss|n ss|n ds|c| |sg pk|si|ss|ps|] eqn:Ec; try (apply outcome_Ok; by apply inv_none).
  - by destruct (Hnd d).
  - apply outcome_Ok. eapply (inv_same _ _ (set_pull _ g)); [done|done|]. apply inv_pull; [exact Hpull|by apply inv_none].
  - apply outcome_Ok, inv_pull; [by apply OnDigest_owners|by apply inv_none].
  - apply (outcome_mono False H); [intros; by apply inv_none|]. by apply inv_pull_sends.
  - destruct (add_updates_ok H O (gm_Nonce m) ds g Hi Hm Hs) as (items & g' & -> & (E1 & E2 & E3) & Hi'). cbn.
    apply outcome_Ok, inv_pull; [|done]. rewrite E3. unfold OnRes. by destruct (_ || _).
Qed.

Lemma handle_ok (H O : GossipMessage → Prop) m g : inv H O g → message_set m → content_ok (gm_Content m) →
  outcome False (λ x, H x ∨ x ∈ blocks_in m) O (handleMessage conf m g).
Proof.
  intros Hi Hm Hc. unfold handleMessage. destruct (g_stopFlag g) eqn:Hs; [apply outcome_Ok; by apply inv_stopped|].
  set (g0 := if selectOnlyDiscoveryMessages m then _ else g).
  assert (inv H O g0 ∧ g_stopFlag g0 = false) as [Hi0 Hs0].
  { unfold g0. destruct (selectOnlyDiscoveryMessages m); [|done]. split; [|done]. destruct Hi as [[H1 H2 H3 H4] (ms & Hd)].
    split; [|exists ms; by apply (delivered_same _ _ _ g)]. split; cbn; try done. apply Forall_app. split; [done|].
    by apply Forall_singleton. }
  clearbody g0. clear Hi Hs g. pose proof (pushPull_ok H O m g0 Hi0 Hm Hs0) as Hpp. unfold blocks_in in *.
  destruct (heard_inv H O m g0 Hi0 Hm Hs0) as (added & g1 & E & Hs1 & (P1 & P2 & P3) & Hi1).
  assert (owners_nonempty (g_pushPull g1)) as Hpull by (rewrite P3; exact (pt_pull g0 (proj1 Hi0))).
  destruct (gm_Content m) as [a|a|a|d|n|n ss|n ss|n ds|c| |sg pk|si|ss|ps|] eqn:Ec;
    try (apply outcome_Ok; by apply inv_none); try (by apply Hpp).
  - rewrite E. cbn. rewrite bool_decide_false, andb_false_r in Hi1 by (unfold data_of; rewrite Ec; by intros [??]).
    assert (inv (λ x, H x ∨ x ∈ ([] : list GossipMessage)) O g1) as Hi2.
    { eapply inv_mono; [exact Hi1| |done|intros x [?|Hx] _; [by left|by apply not_elem_of_nil in Hx]].
      intros x Hx [?| ->]; [by left|]. unfold data_of in Hx. rewrite Ec in Hx. by destruct Hx. }
    destruct added; apply outcome_Ok; [by apply inv_emitter|done].
  - rewrite E. cbn. unfold message_set in Hm. rewrite Ec in Hm. destruct Hm as [p Hp].
    rewrite (bool_decide_true (is_Some _)), andb_true_r in Hi1 by (unfold data_of; rewrite Ec; cbn; rewrite Hp; by eexists).
    apply (outcome_mono False (λ x, H x ∨ x = m)).
    { intros g' Hg'. eapply inv_mono; [exact Hg'| |done|]; intros x; rewrite list_elem_of_singleton; tauto. }
    destruct added; cbn; [|by apply outcome_Ok]. rewrite Hp. cbn. apply outcome_Ok, inv_pull.
    + destruct (DeMultiplex_parts m (on_emitter (emitter_Add m) g1)) as [(_ & _ & E3) _]. rewrite E3. exact Hpull.
    + unfold DeMultiplex in *. cbn. destruct (g_closed g1); (eapply inv_same; [| |exact Hi1]); done.
Qed.

(** What the discovery gossips is not a block. *)
Lemma adapter_out_ok H O o g : inv H O g → alive_out o → ∃ g', adapter_out conf o g = Ok g' ∧ inv H O g'.
Proof.
  intros Hi Ho. destruct o as [peer m|m|peer]; cbn.
  - eexists. split; [reflexivity|]. destruct (g_stopFlag g); [done|]. by apply (inv_same _ _ g).
  - destruct Ho as [a Ea]. unfold Gossip. rewrite Ea. eexists. split; [reflexivity|]. by apply inv_emitter.
  - eexists. split; [reflexivity|]. by apply (inv_same _ _ g).
Qed.
Lemma adapter_outs_ok H O os g : inv H O g → Forall alive_out os → ∃ g', adapter_outs conf os g = Ok g' ∧ inv H O g'.
Proof.
  intros Hi Hos. revert g Hi. induction Hos as [|o os Ho Hos IH]; intros g Hi; cbn; [by eauto|].
  destruct (adapter_out_ok H O o g Hi Ho) as (g1 & -> & Hi1). cbn. by apply IH.
Qed.
Lemma on_disc_ok H O ev g : inv H O g → event_ok ev → outcome (∃ n draws, ev = ESync n draws) H O (on_disc conf ev g).
Proof.
  intros Hi Hev. unfold on_disc. destruct Hi as [[H1 H2 H3 H4] (ms & Hd)].
  pose proof (disc_step_outs (cf_aliveExpirationTimeout conf) ev (g_disc g)) as Houts.
  destruct (step_keeps (cf_aliveExpirationTimeout conf) ev (g_disc g) H1 Hev) as [(d & E & Hgood & _)|[-> ?]]; [|by left].
  specialize (Houts d H2 E). rewrite E. cbn.
  destruct (adapter_outs_ok H O (drop (length (d_out (g_disc g))) (d_out d)) (set_disc d g)) as (g' & -> & ?).
  - split; [by split|]. exists ms. by apply (delivered_same _ _ _ g).
  - by apply Forall_drop.
  - by apply outcome_Ok.
Qed.
Lemma take_ok H O g : inv H O g → outcome False H O (take_message conf g).
Proof.
  intros Hi. unfold take_message. destruct (g_incChan g) as [|m rest] eqn:Ei; [by apply outcome_Ok|].
  destruct (d_todo (g_disc g)); [|by apply outcome_Ok]. destruct Hi as [[H1 H2 H3 H4] (ms & Hd)].
  rewrite Ei in H3. apply Forall_cons in H3 as [Hm Hrest]. destruct (on_disc_ok H O (EMessage m) (set_incChan rest g)) as [[_ (? & ? & ?)]|?]; [|done|done|by right].
  split; [by split|]. exists ms. by apply (delivered_same _ _ _ g).
Qed.

Lemma send_all_sends peers msgs g : sends g (send_all peers msgs g).
Proof.
  revert g. induction msgs as [|m msgs IH]; intros g; cbn; [apply sends_refl|]. eapply sends_trans; [|apply IH]. by eexists.
Qed.
Lemma batch_ok H O i draws g : inv H O g → outcome True H O (gossipBatch conf i draws g).
Proof.
  intros Hi. unfold gossipBatch. destruct (g_batches g !! i) as [msgs|]; [|by apply outcome_Ok].
  destruct (membership_ok g (proj1 Hi)) as [members ->]. cbn.
  destruct (selectEndpoints_ok (cf_PropagatePeerNum conf) draws members) as [->|[es ->]]; [by left|]. cbn.
  destruct (peersWithEndpoints_ok es g (proj1 Hi)) as [peers ->]. cbn. apply outcome_Ok.
  match goal with |- inv _ _ (send_all _ _ ?g0) => destruct (sends_same _ _ (send_all_sends peers msgs g0)) as [Hp Hd];
    eapply inv_same; [exact Hp|exact Hd|] end. by apply (inv_same _ _ g).
Qed.
Lemma start_pull_ok H O draws nonces g : inv H O g → outcome True H O (start_pull conf draws nonces g).
Proof.
  intros Hi. unfold start_pull, SelectPeers. destruct (pe_stopFlag (g_pushPull g)); [by apply outcome_Ok|].
  destruct (membership_ok g (proj1 Hi)) as [members ->]. cbn.
  destruct (selectEndpoints_ok (cf_PullPeerNum conf) draws members) as [->|[es ->]]; [by left|]. cbn.
  destruct (initiatePull_owners es nonces (g_pushPull g) (pt_pull g (proj1 Hi))) as [->|(e & os & -> & He)]; [by left|]. cbn.
  by apply inv_pull_sends, inv_pull.
Qed.
Lemma timer_ok H O i pick g : inv H O g → (∀ n k, (0 < k)%nat → (pick n k < k)%nat) → outcome False H O (fire_timer i pick g).
Proof.
  intros Hi Hpick. unfold fire_timer. pose proof (pt_pull g (proj1 Hi)) as Hpull.
  destruct (pe_timers (g_pushPull g) !! i) as [[| |nonce]|]; [| | |by apply outcome_Ok].
  - destruct (processDigests_owners pick (drop_timer i (g_pushPull g)) Hpick Hpull) as (e & os & -> & He). cbn.
    by apply inv_pull_sends, inv_pull.
  - apply outcome_Ok, inv_pull; [|done]. intros n l. cbn. by rewrite lookup_empty.
  - by apply outcome_Ok, inv_pull.
Qed.
Lemma accept_ok H O pred g : inv H O g → inv H O (AddChannel pred g).
Proof.
  intros [Hp (ms & [H1 H2 H3 H4 H5 H6])]. split; [by apply (parts_same g)|]. exists ms. split; cbn; try done.
  - intros ch [Hc|Hc]%elem_of_app; [by apply H3|]. apply list_elem_of_singleton in Hc as ->. constructor.
  - intros ch m [Hc|Hc]%elem_of_app; [by apply H4|]. apply list_elem_of_singleton in Hc as ->. cbn. by intros ?%not_elem_of_nil.
  - destruct H6 as (ch & E & Hx). exists ch. split; [|done]. by destruct (g_channels g).
Qed.
Lemma stop_ok H O g : inv H O g → inv H O (service_Stop g).
Proof.
  intros Hi. unfold service_Stop. destruct (g_stopFlag g) eqn:Es; [done|]. destruct Hi as [[P1 P2 P3 P4] (ms & [H1 H2 H3 H4 H5 H6])].
  split; [split; try done; by apply (view_kept_good (g_disc g))|]. exists ms. by split.
Qed.

Definition heard_by (ev : gossip_event) : list GossipMessage :=
  match ev with GReceive m => match gm_Content m with CConn _ _ | CEmpty => [] | _ => blocks_in m end | _ => [] end.
Definition own_of (ev : gossip_event) : list GossipMessage := match ev with GGossip m => [m] | _ => [] end.
(** Messages carry what the protocol says, and [rand.Intn] is below its bound. *)
Definition gossip_event_ok (ev : gossip_event) : Prop :=
  match ev with
  | GReceive m => message_set m ∧ content_ok (gm_Content m)
  | GGossip m => message_set m
  | GTimer _ pick => ∀ n k, (0 < k)%nat → (pick n k < k)%nat
  | _ => True
  end.

Definition draws_random (ev : gossip_event) : Prop :=
  match ev with GDisc (ESync _ _) | GBatch _ _ | GPull _ _ => True | _ => False end.

Lemma gossip_step_ok (H O : GossipMessage → Prop) ev g : inv H O g → gossip_event_ok ev →
  outcome (draws_random ev) (λ x, H x ∨ x ∈ heard_by ev) (λ x, O x ∨ x ∈ own_of ev) (gossip_step conf ev g).
Proof.
  intros Hi Hev.
  assert (∀ dr r, outcome dr H O r →
    outcome dr (λ x, H x ∨ x ∈ ([] : list GossipMessage)) (λ x, O x ∨ x ∈ ([] : list GossipMessage)) r) as Hn.
  { intros dr r [?|(g' & ? & Hg')]; [by left|right]. exists g'. split; [done|]. eapply inv_mono; [done|by left|by left|].
    intros m [?|Hm] _; [done|by apply not_elem_of_nil in Hm]. }
  destruct ev as [m| |ev|m| |i draws|draws nonces|i pick|pred| ]; cbn [gossip_step heard_by own_of] in *.
  - destruct Hev as [Hm Hc]. assert (∀ r, outcome False (λ x, H x ∨ x ∈ blocks_in m) O r →
      outcome False (λ x, H x ∨ x ∈ blocks_in m) (λ x, O x ∨ x ∈ ([] : list GossipMessage)) r) as Ho.
    { intros r [?|(g' & ? & Hg')]; [by left|right]. exists g'. split; [done|]. eapply inv_mono; [done|done|by left|done]. }
    pose proof (handle_ok H O m g Hi Hm Hc) as Hh. unfold acceptMessages.
    destruct (gm_Content m); try (by apply Ho); by apply Hn, outcome_Ok.
  - by apply Hn, take_ok.
  - apply Hn. destruct ev; try match goal with |- outcome _ _ _ (on_disc _ ?ev _) =>
      destruct (on_disc_ok H O ev g Hi I) as [[_ (? & ? & ?)]|?]; [done|by right] end; [by apply outcome_Ok|].
    destruct (on_disc_ok H O (ESync peerNum draws) g Hi I) as [[? _]|?]; [by left|by right].
  - destruct (Gossip_ok H O m g Hi Hev) as (g' & -> & Hg'). apply outcome_Ok. eapply inv_mono; [done|by left| |].
    + intros x [?| ->]; [by left|right; by left].
    + intros x [?|Hx] _; [done|by apply not_elem_of_nil in Hx].
  - by apply Hn, outcome_Ok, inv_emitter.
  - by apply Hn, batch_ok.
  - by apply Hn, start_pull_ok.
  - by apply Hn, timer_ok.
  - by apply Hn, outcome_Ok, accept_ok.
  - by apply Hn, outcome_Ok, stop_ok.
Qed.
Lemma gossip_run_ok (H O : GossipMessage → Prop) evs g : inv H O g → Forall gossip_event_ok evs →
  outcome (Exists draws_random evs) (λ x, H x ∨ x ∈ evs ≫= heard_by) (λ x, O x ∨ x ∈ evs ≫= own_of) (gossip_run conf evs g).
Proof.
  intros Hi Hevs. revert H O g Hi. induction Hevs as [|ev evs Hev Hevs IH]; intros H O g Hi; cbn [gossip_run].
  { apply outcome_Ok. eapply inv_mono; [done|by left|by left|]. intros m [?|Hm] _; [done|by apply not_elem_of_nil in Hm]. }
  destruct (gossip_step_ok H O ev g Hi Hev) as [[-> ?]|(g1 & -> & Hi1)]; [left; split; [done|by left]|].
  cbn [mbind res_bind]. destruct (IH _ _ g1 Hi1) as [[-> ?]|(g2 & -> & Hi2)]; [left; split; [done|by right]|]. apply outcome_Ok.
  eapply inv_mono; [exact Hi2|..]; cbn; intros m; rewrite ?elem_of_app; tauto.
Qed.

Lemma new_inv self now : inv (λ _, False) (λ _, False) (AddChannel pred0 (NewGossipService conf self now)).
Proof.
  split.
  - split; cbn; [apply new_good|constructor..|]. intros n l. cbn. by rewrite lookup_empty.
  - exists []. split; cbn; try done.
    + exact (store_ok_nil (invalidationPolicy size) _ _).
    + intros ch Hc%list_elem_of_singleton. subst ch. apply NoDup_nil_2.
    + intros ch m Hc%list_elem_of_singleton. subst ch. cbn. by intros ?%not_elem_of_nil.
    + eexists. split; [done|]. split; [done|]. intros m Hm. by apply not_elem_of_nil in Hm.
Qed.

(** C14. Subscribers get every block once.  A service with a subscriber that takes
    all blocks runs through any sequence of steps on messages that are well
    formed, and does not panic; it stops short only in a step that waits for
    random numbers.  No channel is sent two blocks with the same number and
    hash, and what it is sent was heard of, directly or in an update, and is
    what it asked for.  As long as the service has not been stopped, each block
    heard of has been sent to the subscriber or sent by the peer itself, or
    one has been whose number is further ahead than the store reaches back. *)
Theorem gossip_delivers_once self now evs :
  Forall gossip_event_ok evs →
  let r := gossip_run conf evs (AddChannel pred0 (NewGossipService conf self now)) in
  (r = OutOfFuel ∧ Exists draws_random evs)
  ∨ ∃ g, r = Ok g
    ∧ (∀ ch, ch ∈ g_channels g → NoDup (omap data_of (ch_sent ch))
         ∧ ∀ m, m ∈ ch_sent ch → ch_pred ch m = true ∧ m ∈ evs ≫= heard_by)
    ∧ (g_stopFlag g = false → ∃ ch, head (g_channels g) = Some ch
         ∧ ∀ m d, m ∈ evs ≫= heard_by → data_of m = Some d →
           ∃ x e, (x ∈ ch_sent ch ∨ x ∈ evs ≫= own_of) ∧ data_of x = Some e ∧ (e = d ∨ d.1 + u64 size < e.1)).
Proof.
  intros Hevs r. destruct (gossip_run_ok _ _ evs _ (new_inv self now) Hevs) as [?|(g & E & _ & ms & [H1 H2 H3 H4 H5 H6])];
    [by left|right]. exists g. split; [exact E|]. split.
  - intros ch Hch. split; [by apply H3|]. intros m Hm. destruct (H4 ch m Hch Hm) as (_ & ? & [[]|?] & _). done.
  - intros Hs. destruct H6 as (ch & Hch & _ & Hx). exists ch. split; [done|]. intros m d Hm Hd.
    assert (is_Some (data_of m)) as His by by eexists.
    destruct (Hx m (H5 m Hs (or_intror Hm) His) His) as (x & Hxs & Hc). exists x.
    destruct (covers_block _ _ Hc His) as [e He].
    exists e. split; [destruct Hxs as [?|[[]|?]]; auto|]. split; [done|]. by apply (covers_data _ _ _ _ _ He Hd) in Hc.
Qed.
End delivery.
