(* ===== verification/GossipSim.v ===== *)
(** * The gossip layer at work

    The ledger as the committer of the state transfer, and small runs of the
    message store, a pull round, the membership, the gossip service and the
    transfer of a block between two ledgers; a run in which a block that cannot
    be read is skipped. *)

From Stdlib Require Import Strings.Byte.
From stdpp Require Import base numbers strings gmap list.
From S2P Require Import Prelude Sha256 Wire LevelDB PeerTypes TxMgr Mvcc PeerSim SerBlock2 BlockFiles BlockIndex BlockStore BlockStoreProofs PeerTx KVLedger KVLedgerProofs GossipStore GossipStoreProofs Pull Discovery DiscoveryProofs GossipState Gossip.
Local Open Scope Z_scope.

(** ** The ledger is a committer *)
Section ledger.
Context {B D : Type} `{BlockStore B} `{LevelDB D}.
Context `{!Proto Envelope, !Proto Payload, !Proto Transaction, !Proto ChaincodeActionPayload,
  !Proto ProposalResponsePayload, !Proto ChaincodeAction}.

#[export] Instance ledger_committer : Committer (KVLedger B D) := {
  c_CommitBlock := CommitBlock;
  c_LedgerHeight l := Some (LedgerHeight l);
  c_GetBlocks := GetBlocks }.

#[export] Instance ledger_committer_laws `{!BlockStoreLaws B} : CommitterLaws (KVLedger B D).
Proof.
  refine {| HoldsBlocks (l : KVLedger B D) bs := ∃ chain, Holds (l_blockStore l) chain ∧ bs = norm_block <$> chain |}.
  - intros l bs (chain & Hh & ->). cbn. f_equal. rewrite length_fmap. exact (holds_height _ _ Hh).
  - intros l bs k b (chain & Hh & ->) Hk. rewrite list_lookup_fmap in Hk. apply fmap_Some in Hk as (blk & Hblk & ->).
    cbn. unfold GetBlockByNumber. by rewrite (holds_number _ _ _ _ Hh Hblk).
Defined.
End ledger.

(** ** A codec for blocks *)
Module BlockCodec.
#[export] Instance Block2_proto : Proto Block2 := {
  Marshal b := Some (put_slice (b2_PreviousBlockHash b) ++ put_list put_bytes (b2_Transactions b));
  Unmarshal l :=
    '(h, l) ← get_slice l; '(txs, l) ← get_list get_bytes (length l) l; Some (mkBlock2 h txs) }.
#[export] Instance Block2_wire : BlockWire.
Proof.
  intros [h txs]. eexists. split; [done|]. cbn. unfold wire_block, put_slice, get_slice. cbn [b2_PreviousBlockHash b2_Transactions].
  rewrite get_put_bytes. cbn. rewrite <-(app_nil_r (put_list put_bytes txs)). rewrite get_put_list.
  - destruct h as [[|x h]|]; done.
  - intros; apply get_put_bytes.
  - rewrite length_app. pose proof (length_put_list put_bytes txs). lia.
Qed.
End BlockCodec.

(** ** The message store *)
Module GossipWitness.
Definition id_a : bytes := [x61].
Definition id_b : bytes := [x62].
Definition alive (id : bytes) (inc seq : Z) : AliveMessage :=
  mkAlive (Some (mkMember id None (Some id))) (Some (mkPeerTime inc seq)) None.
Definition block (n : Z) : GossipMessage := newGossip (CData (mkDataMessage (Some (mkGossipPayload n [] None)))).

Definition messages : list GossipMessage :=
  [newGossip (CAlive (alive id_a 1 1)); block 3; newGossip (CAlive (alive id_a 1 3)); block 8;
   newGossip (CAlive (alive id_a 1 2)); block 3; block 7].
Lemma store_keeps_newest_witness :
  add_all (invalidationPolicy 4) messages [] = Ok [newGossip (CAlive (alive id_a 1 3)); block 8; block 7]
  ∧ ∃ st, add_all (invalidationPolicy 4) messages [] = Ok st ∧ (∀ s, s ∈ st → s ∈ messages)
  ∧ (∀ id m t, m ∈ messages → time_of id m = Some t →
      ∃ t', omap (time_of id) st = [t'] ∧ ∀ m u, m ∈ messages → time_of id m = Some u → time_le u t')
  ∧ NoDup (omap data_of st)
  ∧ ∀ d, d ∈ omap data_of st ↔ d ∈ omap data_of messages ∧ ∀ e, e ∈ omap data_of messages → e.1 ≤ d.1 + u64 4.
Proof.
  split; [vm_compute; reflexivity|]. apply (store_keeps_newest 4 messages).
  repeat apply Forall_cons_2; try apply Forall_nil_2; cbn; try (split; by eexists); by eexists.
Defined.

(** ** A pull round *)
Definition engine0 : PullEngine := pull_Add [1] NewPullEngine.
Definition net0 : gmap bytes PullEngine := {[id_a := pull_Add [1; 2] NewPullEngine; id_b := pull_Add [2; 3] NewPullEngine]}.
Lemma pull_round_complete_witness :
  ∃ e1 hellos, initiatePull [id_a; id_b] [5; 6] engine0 = Ok (e1, hellos) ∧
  ∀ ds, ds ⊆+ hellos ≫= digests net0 →
  ∃ e2 reqs, processIncomingDigests (λ _ _, O) (foldl receive e1 ds) = Ok (e2, reqs) ∧
  ∀ rs, rs ≡ₚ reqs ≫= responses net0 hellos →
  at_rest (endPull (foldl receive e2 rs))
  ∧ ∀ n, n ∈ pe_state (endPull (foldl receive e2 rs)) ↔
      n ∈ pe_state engine0 ∨ ∃ d k, ODigest d k tt ∈ ds ∧ n ∈ d.
Proof.
  apply (pull_round_complete engine0 [id_a; id_b] [5; 6] net0 (λ _ _, O)).
  - done.
  - by repeat (constructor; [set_solver by lia|]); constructor.
  - done.
  - intros n k Hk. exact Hk.
Defined.

(** ** Membership *)
#[local] Instance crypto0 : CryptoService := {| ValidateAliveMsg := λ _, true; SignMessage a := a |}.
Definition self0 : NetworkMember := mkNetworkMember id_b None (Some id_b).
Definition msg (c : Content) : disc_event := EMessage (newGossip c).
(** A member is heard of, expires, and comes back with a newer time. *)
Definition disc_events : list disc_event :=
  [msg (CAlive (alive id_a 1 1)); EHandle 0; EHandle 0; ECheckAlive 50; EExpire 0; msg (CAlive (alive id_a 1 1)); EHandle 60;
   EHandle 60; msg (CAlive (alive id_a 1 2)); EHandle 70; EHandle 70; EHandle 70].
Lemma disc_events_ok : Forall event_ok disc_events.
Proof.
  repeat apply Forall_cons_2; try apply Forall_nil_2; cbn; try done;
    (split; [by eexists|]; eexists; split; [reflexivity|cbn; lia]).
Qed.

(** ** The service *)
Definition conf0 : Config := mkConfig 1 3 4 10 3 25.
Definition takes_blocks (m : GossipMessage) : bool := match gm_Content m with CData _ => true | _ => false end.
Lemma takes_blocks_data m : is_Some (data_of m) → takes_blocks m = true.
Proof. unfold data_of, takes_blocks. destruct (gm_Content m); by intros [??]. Qed.
(** Two blocks, one of them twice and then in an update. *)
Definition gossip_events : list gossip_event :=
  [GReceive (block 1); GReceive (block 2); GReceive (block 1); GReceive (newGossip (CAlive (alive id_a 1 1))); GTake;
   GReceive (newGossip (CDataUpdate 9 [mkDataMessage (Some (mkGossipPayload 1 [] None));
                                       mkDataMessage (Some (mkGossipPayload 3 [] None))]))].
Lemma gossip_events_ok : Forall gossip_event_ok gossip_events.
Proof.
  assert (∀ n, gossip_event_ok (GReceive (block n))) as Hb by (intros n; split; [by eexists|done]).
  apply Forall_cons_2; [apply Hb|]. apply Forall_cons_2; [apply Hb|]. apply Forall_cons_2; [apply Hb|].
  apply Forall_cons_2. { split; [split; by eexists|]. split; [by eexists|]. eexists. split; [reflexivity|cbn; lia]. }
  apply Forall_cons_2; [done|]. apply Forall_cons_2; [|apply Forall_nil_2]. split; [|done].
  repeat apply Forall_cons_2; try apply Forall_nil_2; by eexists.
Qed.
Lemma gossip_delivers_once_witness :
  let r := gossip_run conf0 gossip_events (AddChannel takes_blocks (NewGossipService conf0 self0 0)) in
  (∃ g, r = Ok g ∧ (ch_sent <$> g_channels g) = [[block 1; block 2; block 3]])
  ∧ ((r = OutOfFuel ∧ Exists draws_random gossip_events)
     ∨ ∃ g, r = Ok g
       ∧ (∀ ch, ch ∈ g_channels g → NoDup (omap data_of (ch_sent ch))
            ∧ ∀ m, m ∈ ch_sent ch → ch_pred ch m = true ∧ m ∈ gossip_events ≫= heard_by)
       ∧ (g_stopFlag g = false → ∃ ch, head (g_channels g) = Some ch
            ∧ ∀ m d, m ∈ gossip_events ≫= heard_by → data_of m = Some d →
              ∃ x e, (x ∈ ch_sent ch ∨ x ∈ gossip_events ≫= own_of) ∧ data_of x = Some e
                ∧ (e = d ∨ d.1 + u64 (cf_MaxMessageCountToStore conf0) < e.1))).
Proof.
  split.
  - eexists. split; [vm_compute; reflexivity|]. vm_compute. reflexivity.
  - exact (gossip_delivers_once conf0 takes_blocks takes_blocks_data self0 0 gossip_events gossip_events_ok).
Defined.
End GossipWitness.

(** ** State transfer between two ledgers *)
Module TransferWitness.
Import MemDB MemFS PeerCodec BlockCodec.
#[local] Existing Instances LedgerWitness.sha LedgerWitness.store LedgerWitness.store_laws.
Abbreviation ledger := (KVLedger (blockfileMgr (gmap Z bytes) (gmap bytes bytes)) (gmap bytes bytes)).

(** The second peer has committed a block, with its two valid transactions. *)
Definition kept_block : Block2 := valid_block MvccWitness.db0 MvccWitness.block0 MvccWitness.es0.
Definition ahead : ledger :=
  mkLedger (AddBlock kept_block LedgerWitness.new_store).2
    (l_txtmgmt (CommitBlock MvccWitness.block0 LedgerWitness.ledger0).2) None.
Definition chain0 : list Block2 := [norm_block kept_block].
Lemma ahead_holds : HoldsBlocks ahead chain0.
Proof.
  exists [kept_block]. split; [|done].
  destruct (holds_add LedgerWitness.new_store [] kept_block LedgerWitness.new_store_holds) as (b & Hb & HH).
  - cbn. lia.
  - vm_compute. reflexivity.
  - cbn [ahead l_blockStore]. by rewrite Hb.
Qed.

Definition provider (l : ledger) : StateProvider ledger :=
  default (mkStateProvider l (NewPayloadsBuffer 0) true LDone DDone ADone 0 [] [] []) (NewGossipStateProvider l 0).
Definition behind : StateProvider ledger := provider LedgerWitness.ledger0.
Definition peers0 : list NetworkMember := [mkNetworkMember [x61] (Some (NodeMetastate_Bytes 1)) (Some [x61])].
Definition caught_up : ledger := default ahead (commits (wire_block <$> chain0) LedgerWitness.ledger0).

Lemma chain0_commits : commits (wire_block <$> chain0) LedgerWitness.ledger0 = Some caught_up.
Proof.
  unfold caught_up. assert (bool_decide (is_Some (commits (wire_block <$> chain0) LedgerWitness.ledger0)) = true) as Hs
    by (vm_compute; reflexivity).
  apply bool_decide_eq_true in Hs as [l ->]. done.
Qed.


(** The second block arrives before the first, which arrives twice. *)
Definition payload (n : Z) (b : Block2) : GossipPayload := mkGossipPayload n [] (Marshal b).
Definition second_block : Block2 := mkBlock2 (Some [x01]) [].
Definition data (p : GossipPayload) : GossipMessage := newGossip (CData (mkDataMessage (Some p))).
Definition arrivals : list state_event :=
  [SAdd (Some (payload 2 second_block)); SListen ATimeout; SListen (AGossip (data (payload 1 kept_block))); SQueue 0; SQueue 0;
   SAdd (Some (payload 1 kept_block))] ++ replicate 7 (SDeliver true).
Definition run_of (evs : list state_event) : StateProvider ledger :=
  match state_run evs behind with Ok s => s | _ => behind end.
Definition returned (evs : list state_event) : bool := match state_run evs behind with Ok _ => true | _ => false end.
Lemma run_of_Ok evs : returned evs = true → state_run evs behind = Ok (run_of evs).
Proof. unfold returned, run_of. by destruct (state_run evs behind). Qed.

Lemma state_transfer_in_order_witness :
  (LedgerHeight (sp_committer (run_of arrivals)) = 2 ∧ GetBlocks [2] (sp_committer (run_of arrivals)) = Ok [second_block])
  ∧ ∃ committed, let popped := committed ++ in_flight (run_of arrivals) in
    commit_payloads committed LedgerWitness.ledger0 = Ok (sp_committer (run_of arrivals))
    ∧ gp_SeqNum <$> popped = seqZ (0 + 1) (Z.of_nat (length popped))
    ∧ b_next (sp_payloads (run_of arrivals)) = 0 + 1 + Z.of_nat (length popped)
    ∧ (∀ p, p ∈ popped → Some p ∈ offered arrivals)
    ∧ (is_Some (b_buf (sp_payloads (run_of arrivals)) !! b_next (sp_payloads (run_of arrivals))) →
        (0 < b_ready (sp_payloads (run_of arrivals)))%nat ∨ delivering (run_of arrivals)).
Proof.
  split; [split; vm_compute; reflexivity|].
  apply (state_transfer_in_order LedgerWitness.ledger0 0 0 behind arrivals (run_of arrivals)).
  - vm_compute. reflexivity.
  - lia.
  - cbn. lia.
  - reflexivity.
  - apply run_of_Ok. vm_compute. reflexivity.
Defined.

(** A payload that is not a block is dropped, and the payload after it is
    committed in its place: the ledger then has the second block at number 1,
    and the first one is refused when it arrives. *)
Definition garbage : GossipPayload := mkGossipPayload 1 [] (Some [xff]).
Definition bad_arrivals : list state_event :=
  [SAdd (Some garbage); SAdd (Some (payload 2 second_block))] ++ replicate 7 (SDeliver true).
Lemma unreadable_block_skipped :
  LedgerHeight (sp_committer (run_of bad_arrivals)) = 1
  ∧ GetBlocks [1] (sp_committer (run_of bad_arrivals)) = Ok [second_block]
  ∧ Push (Some (payload 1 kept_block)) (sp_payloads (run_of bad_arrivals)) = Ok (false, sp_payloads (run_of bad_arrivals)).
Proof. split_and!; vm_compute; reflexivity. Qed.
End TransferWitness.
